(* ===== verification/_CoqProject ===== *)
-Q . S2P
Prelude.v
Memory.v
Arena.v
ArenaProps.v
HugePages.v
Types.v
Ring.v
Pool.v
Poison.v
Index.v
SortedMap.v
Ladder.v
Queue.v
Spec.v
Book.v
Inv.v
Match.v
Checks.v
Refine.v
RefBook.v
Diff.v
Reach.v
Provision.v
Nodes.v
NodesSteps.v
NodesProps.v
EngineProps.v
DiffProps.v
ComponentProps.v
Shrink.v
Rng.v
Fuzz.v
Text.v
Flow.v
Replay.v
FlowSteps.v
FlowProps.v
Double.v
Printf.v
DiffTest.v
Machine.v
CommandLine.v
Bench.v
Report.v
Driver.v
BenchProps.v
ReportProps.v
DriverProps.v
Plot.v
DumpProps.v
