(* ===== verification/Prelude.v ===== *)
(** * lob: a verification library for the limit order book

    ** The program

    A single-threaded price-time-priority matching engine ([class OrderBook],
    src/include/lob/order_book.hpp and src/src/order_book.cpp) over four data
    structures: a slot pool that holds the resting orders and their queue links
    (slot_pool.hpp), an open-addressed index from order ids to slots
    (id_index.hpp), a price ladder per side (a window of levels in a flat array
    plus a fallback [std::map], order_book.hpp) and a ring of trades the caller
    drains. The nodes of those maps come from an arena of its own (node_arena.hpp)
    and the large vectors from an allocator of huge pages (huge_pages.hpp). The
    tests hold a naive reference book and a differential harness (src/tests), the
    benchmark a synthetic order flow (src/bench/flow.cpp) and a driver that times
    the engine on it (src/bench/bench_main.cpp).

    ** The library

    - Prelude.v (this file): machine integers, outcomes of calls, vectors, the
      lemmas on them, the hint database [lob].
    - Memory.v, Module Memory: the heap, blocks and bytes by address, with
      [operator new] a class ([System]); read and written only inside live blocks.
    - Arena.v, Module NodeArena: slabs, size classes and the free lists that run
      through the free blocks; its invariant [inv]. ArenaProps.v: what a client
      that writes what it likes into its blocks can rely on.
    - HugePages.v, Module HugePages: over-mapping and trimming; [mmap] and [munmap] are a class
      ([Kernel]).
    - Types.v: the enumerations, orders, trades, reports and the configuration.
    - Ring.v, Module TradeRing: the ring ([TradeRing], [round_up_pow2]); refines a
      bounded list that counts what it drops.
    - Pool.v, Module SlotPool: acquire, release, grow, [consistent]; the ghost
      argument of its invariant is the free list. Poison.v, Module Poison: the pool
      as a build with AddressSanitizer runs it, with the poison of its free slots.
    - Index.v, Module IdIndex: probing, insertion with growth, backward-shift
      deletion, [consistent]; refines a finite map ([contents]).
    - SortedMap.v, Module StdMap: [std::map] as a sorted association list.
    - Ladder.v, Module PriceLadder: place, open, find, best, closed,
      [for_each_level], [check]; refines the sorted map of every level ([levels]).
    - Queue.v, Module Queue: append and detach, the doubly linked queue of a level
      in the pool ([dseg], [level_repr]).
    - Book.v, Module OrderBook: the engine, every member function of the class;
      one [OrderBook] record has the class's fields in their order.
    - Spec.v, Module Spec: the abstract book, a list of orders per side, and what
      matching, resting, cancelling and modifying do to it; price-time priority,
      conservation, self-trade prevention and sequence numbers are proved there.
    - Inv.v, Module BookInv: the invariant [inv], the abstraction [abs] and the
      relation [repr] between engine states and abstract books.
    - Match.v, Checks.v, Refine.v: matching, the queries and debug checks, and all
      the operations refine the abstract book.
    - RefBook.v, Module RefBook: the reference book of the tests, which refines
      the same abstract book.
    - Diff.v, Module Diff: the harness. [Drives] is the interface a book gives it
      and [Implements] what the book promises; both books are instances, and runs
      are reasoned about against the class.
    - Reach.v, Module Reach: the engine as a state machine ([reachable]) and what
      can be observed of a state.
    - Provision.v, Module Provision: which calls take storage, and the promise of
      [Config::expected_orders] that a provisioned book never does.
    - Nodes.v, Module Nodes: the engine on memory. The levels outside the window are
      nodes the maps take from the book's [ArenaAllocator]; how a node is laid out is
      a class ([MapNodes]). NodesSteps.v: the interface between a book and its
      allocator ([Supplies]), its instances, and every operation against it.
      NodesProps.v: books running on their arenas.
    - Rng.v, Fuzz.v, Shrink.v: the random generators, the sequence generator of
      the tests and its shrinker. DiffTest.v, Module Difftest: the [main] of the
      standalone fuzzer over them, and [format].
    - Flow.v, Module Flow: the benchmark's flow generator. Replay.v, Module Replay:
      a flow applied to the abstract book with the ring drained after every
      operation; what the generator and the driver both do. FlowSteps.v: the
      generator's invariant and its steps.
    - Text.v, CommandLine.v: strings, streams and numbers as text, and the options of
      the benchmark.
    - Double.v, Module Double: the nonnegative doubles, every operation the exact
      result rounded. Printf.v, Module Printf: [printf] on the formats of the source.
    - Machine.v, Module Machine: what the benchmark asks of the system (affinity,
      /proc and /sys, counters, the heap grown ahead); its answers are a class ([Os]).
    - Bench.v, Module Bench: calibration, the timed passes, percentiles and the dump,
      down to the bracket of one call; the clock is a class ([Clock]). Report.v,
      Module Report: every line that is printed. Driver.v, Module Driver: [main], from
      the command line to the exit status and all that was written.
    - Plot.v, Module Plot: how tools/plot_latency.py reads a dump.
    - EngineProps.v, DiffProps.v, ComponentProps.v, FlowProps.v, ArenaProps.v,
      BenchProps.v, ReportProps.v, DriverProps.v, DumpProps.v (and the ends of
      Fuzz.v, Shrink.v, DiffTest.v, HugePages.v, Machine.v, Text.v and
      CommandLine.v): the properties, with a concrete instance of each.

    ** How the code is modelled

    Integers are [Z] holding the unsigned value; what can wrap is written under
    [u32] or [u64]. Calls return [res]: a value, an exception, undefined behaviour
    (an access outside a vector, a dead reference), a failed assertion, or
    exhausted fuel. Objects are records, passed and returned; a reference into the
    ladder is a [LevelRef] that each use reads again, so that aliasing is as in
    the code. Templates over the side take the side as an argument. [Build] says
    whether assertions are compiled in and whether AddressSanitizer is on; every
    theorem holds for every build.

    Loops take fuel where they are not structural: the probe loops one round of
    the table, the matching loops one more than the number of live orders, the
    walks of a queue likewise. The refinement proves that this is enough: no
    reachable state runs out ([EngineProps.step_total]). The arena's destructor
    takes one round per block on the heap. The busy waits of the benchmark end
    because the clock goes on; how long that takes is the clock's business, so
    [Driver.main] takes any fuel from some number on. [round_up_pow2] gets 65
    rounds, all a 64-bit shift can use; beyond 2^63 it does run forever, which is
    a theorem as well.

    ** What is shown

    The engine refines the abstract book for every configuration and build, up to
    2^31 operations (the slots an index entry can name); so does the reference
    book, hence no sequence makes the differential test diverge, and neither the
    window, the pools nor the build is observable, and a book within its
    provision never grows. In reachable states nothing
    fails, the book is never crossed, queries are exact, the debug checks pass.
    Submissions respect price-time priority, conserve quantity, print fair and
    consecutively numbered trades, never trade an owner with itself, and rest
    behind their price. The components behave as their plain counterparts on
    every sequence of calls. The shrinker ends with a minimal failing sequence;
    the generators never fail, make only operations in range, and the statistics
    of a flow are those of its replay.

    The arena never hands out overlapping or misaligned memory, nor the same block
    twice, touches only live blocks, changes no byte of another one and gives
    everything back; a huge block is mapped and unmapped exactly.
    The engine on its arena does what it does on plain maps, or throws
    [std::bad_alloc]; each level outside the window has a node of its own; a book
    within [expected_orders] does not call the system while matching, which is to
    say that it returns the same on a system that refuses every request; and a book
    destroyed gives back all it took. The standalone fuzzer, whatever its arguments,
    finds nothing as long as its ring can hold a sequence.
    The benchmark, on a release build, for arguments and a machine that meet
    [DriverProps.usable] (a valid flow of 2^31 operations at most whose quantities
    fit, a thread that can be pinned, a dump that opens, a processor with a name, a
    clock that ticks once a nanosecond at least), ends with status 0 and its whole
    report: the driver's book prints the generator's trades and its ring never
    fills, because every operation is a bounded number of lots. What a run reports
    is tied to the readings of the clock it took ([BenchProps.measured]) and the
    text to the results ([DriverProps.whole_report]). Its percentiles are
    nearest-rank percentiles, printed to the nearest nanosecond and never decreasing
    along a row; its dump is read back by the plotting tool as the samples that were
    reported; its command line is read back as it was written; and growing the heap
    ahead is granted what was asked for, unless the system refuses, and gives
    everything back.

    ** What is not modelled

    Book.v has the ladder's maps by their contents and Nodes.v their nodes, which the
    levels' values are not read back from: what the library and the engine write into
    a node is any bytes at all. The vectors of the pool, the windows, the index and
    the ring are lists, not blocks of the heap, and their growth throws nothing; the
    engine runs on the plain pool of Pool.v in every build. Left out: the
    ThreadSanitizer flag, the branches for systems other than Linux, glibc and x86,
    [madvise] and [mallopt], the compiler barriers of the timed brackets, the sign of
    doubles (none is negative), the drawing of the plots, the unit tests, and threads:
    a book is single-threaded by contract. What the system answers about itself is taken as it comes: theorems
    about [main] name what they need of it ([DriverProps.usable]). *)

From stdpp Require Import base decidable numbers option sorting list gmap tactics.

(** ** Machine integers

    Every integer of the program is a [Z] holding the unsigned value; an
    operation that can wrap is written with [u32] or [u64] around it. *)

#[global] Open Scope Z_scope.

Abbreviation two31 := 2147483648 (only parsing).
Abbreviation two32 := 4294967296 (only parsing).
Abbreviation two63 := 9223372036854775808 (only parsing).
Abbreviation two64 := 18446744073709551616 (only parsing).

Definition u32 (x : Z) : Z := x mod two32.
Definition u64 (x : Z) : Z := x mod two64.

(** ** Outcomes

    What a call can do besides returning: throw [std::length_error],
    [std::invalid_argument], [std::out_of_range] or [std::bad_alloc], read or
    write outside a vector or through a dead pointer (undefined behaviour in
    C++), fail an [assert] of a debug build, or, for a loop of the model, use up
    its fuel. *)

Inductive failure :=
  | length_error
  | invalid_argument
  | out_of_range
  | bad_alloc
  | undefined_behaviour
  | assertion_failed
  | out_of_fuel.

Inductive res (A : Type) :=
  | Ok (a : A)
  | Err (f : failure).
Arguments Ok {A} _.
Arguments Err {A} _.

#[global] Instance failure_eq_dec : EqDecision failure.
Proof. solve_decision. Defined.

#[global] Instance res_ret : MRet res := @Ok.
#[global] Instance res_bind : MBind res :=
  λ A B f m, match m with Ok a => f a | Err e => Err e end.
#[global] Instance res_fmap : FMap res :=
  λ A B f m, match m with Ok a => Ok (f a) | Err e => Err e end.
Arguments res_bind _ _ _ !_ /.
Arguments res_fmap _ _ _ !_ /.

(** [assert(c)] of a debug build. *)
Definition assert_that (c : bool) : res unit :=
  if c then Ok () else Err assertion_failed.

(** ** Vectors

    [std::vector] with its [operator[]]: the length is fixed by the model of the
    operation that sizes it, and an index out of range is undefined behaviour. *)

Definition zlen {A} (v : list A) : Z := Z.of_nat (length v).

Definition zlookup {A} (v : list A) (i : Z) : option A :=
  if (0 <=? i) && (i <? zlen v) then v !! Z.to_nat i else None.

Definition zset {A} (v : list A) (i : Z) (x : A) : list A :=
  if (0 <=? i) && (i <? zlen v) then <[Z.to_nat i := x]> v else v.

Declare Scope lob_scope.
Delimit Scope lob_scope with lob.
#[global] Open Scope lob_scope.
Notation "v .[ i ]" := (zlookup v i) (at level 1, left associativity, format "v .[ i ]") : lob_scope.
Notation "v .[ i := x ]" := (zset v i x) (at level 1, left associativity, format "v .[ i := x ]") : lob_scope.

Definition vget {A} (v : list A) (i : Z) : res A :=
  match v.[i] with Some x => Ok x | None => Err undefined_behaviour end.

Definition vset {A} (v : list A) (i : Z) (x : A) : res (list A) :=
  match v.[i] with Some _ => Ok (v.[i := x]) | None => Err undefined_behaviour end.

(** [std::vector<T>(n)] and [assign(n, x)]: [n] copies of one element. *)
Definition vmake {A} (n : Z) (x : A) : list A := replicate (Z.to_nat n) x.

(** ** How a build is configured

    [NDEBUG] turns the invariant checks and the poisoning of freed memory off;
    [kAsan] (include/lob/asan.hpp) bypasses the node arena. Every theorem holds
    for every build. *)
Class Build := { NDEBUG : bool; kAsan : bool }.

(** ** Lemmas: integers *)

Lemma u32_small x : 0 ≤ x < two32 → u32 x = x.
Proof. apply Z.mod_small. Qed.

Lemma u64_small x : 0 ≤ x < two64 → u64 x = x.
Proof. apply Z.mod_small. Qed.

Lemma u32_range x : 0 ≤ u32 x < two32.
Proof. by apply Z.mod_pos_bound. Qed.

Lemma u64_range x : 0 ≤ u64 x < two64.
Proof. by apply Z.mod_pos_bound. Qed.

Lemma u64_add_l x y : u64 (u64 x + y) = u64 (x + y).
Proof. apply Zplus_mod_idemp_l. Qed.

Lemma u64_add_r x y : u64 (x + u64 y) = u64 (x + y).
Proof. apply Zplus_mod_idemp_r. Qed.

Lemma u64_sub_l x y : u64 (u64 x - y) = u64 (x - y).
Proof. apply Zminus_mod_idemp_l. Qed.

Lemma u64_sub_r x y : u64 (x - u64 y) = u64 (x - y).
Proof. apply Zminus_mod_idemp_r. Qed.

Lemma land_pow2_mask x k : 0 ≤ k → Z.land x (2 ^ k - 1) = x mod 2 ^ k.
Proof. intros Hk. by rewrite <-Z.land_ones, Z.ones_equiv, Z.sub_1_r. Qed.

Lemma mod_window m a b : 0 ≤ a - b < m → a mod m = b mod m → a = b.
Proof.
  intros Hr He. pose proof (Z.div_mod a m ltac:(lia)). pose proof (Z.div_mod b m ltac:(lia)).
  assert (a / m = b / m) by nia. nia.
Qed.

Lemma u64_mod_pow2 x k : 0 ≤ k ≤ 64 → u64 x mod 2 ^ k = x mod 2 ^ k.
Proof.
  intros Hk. unfold u64. change two64 with (2 ^ 64). apply Z.mod_mod_divide.
  exists (2 ^ (64 - k)). rewrite <-Z.pow_add_r by lia. f_equal; lia.
Qed.

Lemma pow2_pos k : 0 ≤ k → 0 < 2 ^ k.
Proof. intros. by apply Z.pow_pos_nonneg; lia. Qed.

Lemma pow2_le_63 k : 0 ≤ k ≤ 63 → 2 ^ k ≤ two63.
Proof. intros. change two63 with (2 ^ 63). apply Z.pow_le_mono_r; lia. Qed.

(** [lia] with the wrap-arounds opened up. *)
Ltac solve_word := unfold u64, u32 in *; Z.div_mod_to_equations; lia.

(** ** Lemmas: vectors *)

Section vectors.
Context {A : Type}.
Implicit Types (v : list A) (i j : Z) (x y : A).

Lemma zlen_nonneg v : 0 ≤ zlen v.
Proof. unfold zlen; lia. Qed.

Lemma zlen_app v w : zlen (v ++ w) = zlen v + zlen w.
Proof. unfold zlen. rewrite length_app. lia. Qed.

Lemma zlen_nil : zlen (@nil A) = 0.
Proof. done. Qed.

Lemma zlen_cons x v : zlen (x :: v) = zlen v + 1.
Proof. unfold zlen. simpl. lia. Qed.

Lemma zlen_vmake n x : 0 ≤ n → zlen (vmake n x) = n.
Proof. intros. unfold zlen, vmake. rewrite length_replicate. lia. Qed.

Lemma zlen_zset v i x : zlen (v.[i := x]) = zlen v.
Proof. unfold zset, zlen. destruct (_ && _); by rewrite ?length_insert. Qed.

Lemma zlookup_Some v i x : v.[i] = Some x ↔ 0 ≤ i < zlen v ∧ v !! Z.to_nat i = Some x.
Proof.
  unfold zlookup. destruct ((0 <=? i) && (i <? zlen v)) eqn:E.
  - split; [intros ->; split; [lia|done] | by intros [_ ?]].
  - split; [done | intros [??]; lia].
Qed.

Lemma zlookup_range v i x : v.[i] = Some x → 0 ≤ i < zlen v.
Proof. rewrite zlookup_Some. tauto. Qed.

Lemma zlookup_None v i : ¬ (0 ≤ i < zlen v) → v.[i] = None.
Proof. intros. unfold zlookup. destruct (_ && _) eqn:E; [lia | done]. Qed.

Lemma zlookup_lt v i : 0 ≤ i < zlen v → ∃ x, v.[i] = Some x.
Proof.
  intros Hi. destruct (lookup_lt_is_Some_2 v (Z.to_nat i)) as [x Hx].
  { unfold zlen in Hi. lia. }
  exists x. by apply zlookup_Some.
Qed.

Lemma zlookup_of_nat v (n : nat) : v.[Z.of_nat n] = v !! n.
Proof.
  unfold zlookup. rewrite Nat2Z.id. case_match; [done|].
  symmetry. apply lookup_ge_None. unfold zlen in *. lia.
Qed.

Lemma zlookup_vmake n x i : 0 ≤ i < n → (vmake n x).[i] = Some x.
Proof.
  intros. apply zlookup_Some. rewrite zlen_vmake by lia. split; [done|].
  apply lookup_replicate_2. lia.
Qed.

Lemma zlookup_zset v i j x :
  v.[i := x].[j] = if decide (i = j ∧ 0 ≤ i < zlen v) then Some x else v.[j].
Proof.
  unfold zlookup. rewrite zlen_zset. unfold zset.
  destruct ((0 <=? j) && (j <? zlen v)) eqn:Ej; [|case_decide; [lia|done]].
  destruct ((0 <=? i) && (i <? zlen v)) eqn:Ei; [|case_decide; [lia|done]].
  case_decide as Hd.
  - destruct Hd as [-> _]. apply list_lookup_insert_eq. unfold zlen in *. lia.
  - apply list_lookup_insert_ne. lia.
Qed.

Lemma zlookup_zset_eq v i x : 0 ≤ i < zlen v → v.[i := x].[i] = Some x.
Proof. intros. rewrite zlookup_zset. by case_decide; [|lia]. Qed.

Lemma zlookup_zset_ne v i j x : i ≠ j → v.[i := x].[j] = v.[j].
Proof. intros. rewrite zlookup_zset. by case_decide; [lia|]. Qed.

Lemma zset_zset v i x y : v.[i := x].[i := y] = v.[i := y].
Proof.
  unfold zset at 1. rewrite zlen_zset. unfold zset.
  destruct ((0 <=? i) && (i <? zlen v)); [apply list_insert_insert_eq | done].
Qed.

Lemma zset_comm v i j x y : i ≠ j → v.[i := x].[j := y] = v.[j := y].[i := x].
Proof.
  intros. unfold zset at 1 3. rewrite !zlen_zset. unfold zset.
  repeat case_match; try done. apply list_insert_insert_ne. lia.
Qed.

Lemma zset_id v i x : v.[i] = Some x → v.[i := x] = v.
Proof.
  intros [Hr Hx]%zlookup_Some. unfold zset. case_match; [|done]. by apply list_insert_id.
Qed.

Lemma vget_ok v i x : v.[i] = Some x → vget v i = Ok x.
Proof. unfold vget. by intros ->. Qed.

Lemma vset_ok v i x y : v.[i] = Some y → vset v i x = Ok (v.[i := x]).
Proof. unfold vset. by intros ->. Qed.

Lemma vset_in_range v i x : 0 ≤ i < zlen v → vset v i x = Ok (v.[i := x]).
Proof. intros [y Hy]%zlookup_lt. by apply (vset_ok _ _ _ y). Qed.

End vectors.

Lemma omap_seq_lookup {A} (f : nat → option A) (n s : nat) :
  (∀ i, (s ≤ i < s + n)%nat → is_Some (f i)) →
  length (omap f (seq s n)) = n ∧
  ∀ i, (i < n)%nat → omap f (seq s n) !! i = f (s + i)%nat.
Proof.
  revert s. induction n as [|n IH]; intros s Hf; [split; [done|lia]|].
  destruct (Hf s) as [x Hx]; [lia|].
  assert (omap f (seq s (S n)) = x :: omap f (seq (S s) n)) as -> by (simpl; by rewrite Hx).
  destruct (IH (S s)) as [Hl Hi]; [intros; apply Hf; lia|].
  split; [simpl; by rewrite Hl|]. intros [|i] ?.
  - by rewrite Nat.add_0_r, Hx.
  - change ((x :: omap f (seq (S s) n)) !! S i) with (omap f (seq (S s) n) !! i).
    rewrite Hi by lia. f_equal. lia.
Qed.

Lemma sorted_seqZ a n : StronglySorted Z.lt (seqZ a n).
Proof.
  destruct (Z.le_gt_cases n 0); [rewrite seqZ_nil by lia; constructor|].
  replace n with (Z.of_nat (Z.to_nat n)) by lia. generalize (Z.to_nat n) as k. clear.
  intros k. revert a. induction k as [|k IH]; intros a; [rewrite seqZ_nil by lia; constructor|].
  rewrite seqZ_cons by lia. replace (Z.pred (Z.of_nat (S k))) with (Z.of_nat k) by lia.
  apply StronglySorted_cons. split; [|apply IH].
  apply list.Forall_forall. intros x Hx%elem_of_seqZ. lia.
Qed.

Lemma StronglySorted_reverse {A} (R S : relation A) l :
  (∀ x y, R x y → S y x) → StronglySorted R l → StronglySorted S (reverse l).
Proof.
  intros HRS. induction 1 as [|x l Hs IH Hf]; [constructor|].
  rewrite reverse_cons. apply StronglySorted_app. split_and!; [|done|repeat constructor].
  intros y z Hy ->%list_elem_of_singleton. rewrite list.Forall_forall in Hf. apply HRS, Hf. by apply elem_of_reverse.
Qed.

Lemma StronglySorted_impl {A} (R S : relation A) l :
  (∀ x y, R x y → S x y) → StronglySorted R l → StronglySorted S l.
Proof.
  intros HRS. induction 1 as [|x l Hs IH Hf]; constructor; [done|].
  eapply list.Forall_impl; [done|]. intros y. apply HRS.
Qed.

Lemma filter_none {A} (P : A → Prop) `{∀ x, Decision (P x)} (l : list A) :
  (∀ x, x ∈ l → ¬ P x) → filter P l = [].
Proof.
  induction l as [|x l IH]; [done|]. intros Hf. rewrite filter_cons_False by (apply Hf; left).
  apply IH. intros y Hy. apply Hf. by right.
Qed.

Lemma filter_whole {A} (P : A → Prop) `{∀ x, Decision (P x)} (l : list A) :
  (∀ x, x ∈ l → P x) → filter P l = l.
Proof.
  induction l as [|x l IH]; [done|]. intros Hf. rewrite filter_cons_True by (apply Hf; left).
  f_equal. apply IH. intros y Hy. apply Hf. by right.
Qed.

(** ** Ranks *)

Section ranks.
Implicit Types (v : list Z) (x : Z).

(** How many values are at most, or below, [x]. *)
Definition at_most (x : Z) (v : list Z) : Z := zlen (filter (λ y, y ≤ x) v).
Definition below (x : Z) (v : list Z) : Z := zlen (filter (λ y, y < x) v).

(** [x] is the nearest-rank percentile of [v] for the share [num / den]: a value
    such that this share of [v] is at most [x], and less than it is below. *)
Definition nearest (num den : Z) (v : list Z) (x : Z) : Prop :=
  x ∈ v ∧ num * zlen v ≤ den * at_most x v ∧ den * below x v < num * zlen v.

Lemma zlen_filter_le (P : Z → Prop) `{∀ x, Decision (P x)} v : zlen (filter P v) ≤ zlen v.
Proof. unfold zlen. pose proof (length_filter P v). lia. Qed.

Lemma at_most_below x v : at_most x v = below (x + 1) v.
Proof.
  unfold at_most, below. f_equal. apply list_filter_iff. intros y. lia.
Qed.

Lemma below_step x v : below (x + 1) v = below x v + zlen (filter (λ y, y = x) v).
Proof.
  unfold below. induction v as [|y v IH]; [done|]. rewrite !filter_cons.
  repeat destruct (decide _); rewrite ?zlen_cons; lia.
Qed.

Lemma below_all x v : (∀ y, y ∈ v → y < x) → below x v = zlen v.
Proof. intros Hv. unfold below. by rewrite filter_whole. Qed.

Lemma below_none x v : (∀ y, y ∈ v → x ≤ y) → below x v = 0.
Proof. intros Hv. unfold below. rewrite filter_none; [done|]. intros y Hy. specialize (Hv y Hy). lia. Qed.

Lemma below_bounds x v : 0 ≤ below x v ≤ zlen v.
Proof. split; [apply zlen_nonneg|apply zlen_filter_le]. Qed.

End ranks.

(** ** Calls that returned *)

(** A call that returned went through each of its parts. *)
Lemma bind_ok {A B} (f : A → res B) (m : res A) y : m ≫= f = Ok y → ∃ x, m = Ok x ∧ f x = Ok y.
Proof. destruct m as [x|]; [|done]. intros H. by exists x. Qed.

(** Every hypothesis that a call returned, taken apart. *)
Ltac ok_inv :=
  repeat (cbv zeta beta in *; match goal with
  | H : _ ≫= _ = Ok _ |- _ => apply bind_ok in H as (? & ? & H)
  | H : (let '(_, _) := ?x in _) = Ok _ |- _ => destruct x
  | H : (if ?c then _ else _) = Ok _ |- _ => destruct c eqn:?
  | H : match ?x with Some _ => _ | None => _ end = Ok _ |- _ => destruct x eqn:?
  | H : Ok _ = Ok _ |- _ => injection H as H
  | H : (_, _) = (_, _) |- _ => injection H as ? ?
  | H : Err _ = Ok _ |- _ => discriminate H
  end); subst.

(** ** Automation

    The facts that close most side conditions, for [auto with lob]. *)

Create HintDb lob.
#[export] Hint Resolve u32_range u64_range zlen_nonneg : lob.
#[export] Hint Rewrite u64_add_l u64_add_r u64_sub_l u64_sub_r : lob.
