(* ===== verification/Memory.v ===== *)
(** * Memory and the system allocator

    What the node arena stands on: bytes at addresses, the blocks the system
    allocator has handed out, and [::operator new] and [::operator delete]. Where
    the system puts a block is its own business: the class [System] has the choice
    as an operation and what the C++ standard promises of it as laws. *)

From stdpp Require Import base decidable list gmap.
From S2P Require Import Prelude.

Module Memory.

(** The live blocks, from first address to size, and the bytes written so far. *)
Record Heap := mk {
  blocks : gmap Z Z;
  bytes : gmap Z Z;
}.

Definition disjoint (p n q m : Z) : Prop := p + n ≤ q ∨ q + m ≤ p.

(** [::operator new]: an address for a block of that size and alignment, or none
    left. A null pointer is never the address of a block, and live blocks do not
    overlap. *)
Class System := {
  choose : gmap Z Z → Z → Z → option Z;
  choose_ok B n align p : choose B n align = Some p → 0 ≤ n → 0 < align →
    0 < p ∧ p + n < two64 ∧ (align | p) ∧ B !! p = None ∧
    ∀ q m, B !! q = Some m → disjoint p n q m;
}.

(** [__STDCPP_DEFAULT_NEW_ALIGNMENT__]. *)
Definition default_alignment : Z := 16.

(** ** Accesses *)

Definition in_block (h : Heap) (a n : Z) : Prop := ∃ p m, blocks h !! p = Some m ∧ p ≤ a ∧ a + n ≤ p + m.

Definition in_blockb (h : Heap) (a n : Z) : bool :=
  existsb (λ '(p, m), (p <=? a) && (a + n <=? p + m)) (map_to_list (blocks h)).

(** The byte representation of a 64-bit value. *)
Fixpoint bytes_of (n : nat) (v : Z) : list Z :=
  match n with O => [] | S n => v mod 256 :: bytes_of n (v / 256) end.

Definition value_of (bs : list Z) : Z := foldr (λ b v, b + 256 * v) 0 bs.

Fixpoint write_bytes (m : gmap Z Z) (a : Z) (bs : list Z) : gmap Z Z :=
  match bs with
  | [] => m
  | b :: bs => <[a := b]> (write_bytes m (a + 1) bs)
  end.

Fixpoint read_bytes (m : gmap Z Z) (a : Z) (n : nat) : option (list Z) :=
  match n with
  | O => Some []
  | S n => b ← m !! a; bs ← read_bytes m (a + 1) n; Some (b :: bs)
  end.

(** Writing outside the live blocks is undefined behaviour, and so is reading
    there or reading a byte that nothing has written. *)
Definition write (h : Heap) (a : Z) (bs : list Z) : res Heap :=
  if in_blockb h a (zlen bs) then Ok (mk (blocks h) (write_bytes (bytes h) a bs)) else Err undefined_behaviour.

Definition store64 (h : Heap) (a v : Z) : res Heap := write h a (bytes_of 8 v).

Definition load64 (h : Heap) (a : Z) : res Z :=
  if in_blockb h a 8 then
    match read_bytes (bytes h) a 8 with Some bs => Ok (value_of bs) | None => Err undefined_behaviour end
  else Err undefined_behaviour.

(** [std::memset(p, b, n)]. *)
Definition memset (h : Heap) (p b n : Z) : res Heap := write h p (vmake n b).

(** ** Blocks *)

Section system.
Context {system : System}.

Definition operator_new_aligned (h : Heap) (n align : Z) : res (Z * Heap) :=
  match choose (blocks h) n align with
  | None => Err bad_alloc
  | Some p => Ok (p, mk (<[p := n]> (blocks h)) (bytes h))
  end.

Definition operator_new (h : Heap) (n : Z) : res (Z * Heap) := operator_new_aligned h n default_alignment.

(** Sized deallocation: the size must be that of the block. *)
Definition operator_delete (h : Heap) (p n : Z) : res Heap :=
  if bool_decide (blocks h !! p = Some n) then Ok (mk (delete p (blocks h)) (bytes h)) else Err undefined_behaviour.

(** Every block lies above the null pointer, apart from every other. *)
Record heap_ok (h : Heap) : Prop := {
  ok_block p n : blocks h !! p = Some n → 0 < p ∧ 0 ≤ n ∧ p + n < two64 ∧ (16 | p);
  ok_disjoint p n q m : blocks h !! p = Some n → blocks h !! q = Some m → p ≠ q → disjoint p n q m;
}.

Lemma operator_new_aligned_ok h n al p h' : heap_ok h → 0 ≤ n → 0 < al → (16 | al) → operator_new_aligned h n al = Ok (p, h') →
  heap_ok h' ∧ blocks h !! p = None ∧ blocks h' = <[p := n]> (blocks h) ∧ bytes h' = bytes h ∧
  0 < p ∧ p + n < two64 ∧ (al | p) ∧ ∀ q m, blocks h !! q = Some m → disjoint p n q m.
Proof.
  intros [Hb Hd] Hn Hal H16. unfold operator_new_aligned. destruct (choose _ _ _) as [x|] eqn:E; [|done]. intros [= -> <-].
  destruct (choose_ok _ _ _ _ E Hn Hal) as (Hp & Hend & Hdv & Hnone & Hdis). split_and!; simpl; try done. split; simpl.
  - intros q m [(<- & <-)|[? ?%Hb]]%lookup_insert_Some; [|done]. split_and!; [done..|]. by etrans.
  - unfold disjoint in *. intros q1 n1 q2 n2 [[<- <-]|[? H1]]%lookup_insert_Some [[<- <-]|[? H2]]%lookup_insert_Some Hne; [done|by apply Hdis| |by apply Hd].
    destruct (Hdis _ _ H1); lia.
Qed.

Lemma operator_new_ok h n p h' : heap_ok h → 0 ≤ n → operator_new h n = Ok (p, h') →
  heap_ok h' ∧ blocks h !! p = None ∧ blocks h' = <[p := n]> (blocks h) ∧ bytes h' = bytes h ∧
  0 < p ∧ p + n < two64 ∧ (16 | p) ∧ ∀ q m, blocks h !! q = Some m → disjoint p n q m.
Proof. intros Hh Hn. by apply operator_new_aligned_ok. Qed.

Lemma operator_new_aligned_fails h n al e : operator_new_aligned h n al = Err e → e = bad_alloc.
Proof. unfold operator_new_aligned. destruct (choose _ _ _); [done|]. by intros [= <-]. Qed.

Lemma operator_new_fails h n e : operator_new h n = Err e → e = bad_alloc.
Proof. apply operator_new_aligned_fails. Qed.

Lemma operator_delete_ok h p n : heap_ok h → blocks h !! p = Some n → ∃ h',
  operator_delete h p n = Ok h' ∧ heap_ok h' ∧ blocks h' = delete p (blocks h) ∧ bytes h' = bytes h.
Proof.
  intros [Hb Hd] Hp. unfold operator_delete. rewrite bool_decide_true by done. eexists. split; [done|].
  split; [|done]. split; simpl.
  - intros q m [? ?%Hb]%lookup_delete_Some. done.
  - intros q1 n1 q2 n2 [? ?]%lookup_delete_Some [? ?]%lookup_delete_Some. by apply Hd.
Qed.

End system.

(** ** Lemmas *)

Lemma in_blockb_true h a n : in_block h a n → in_blockb h a n = true.
Proof.
  intros (p & m & Hp & ? & ?). unfold in_blockb. apply existsb_exists. exists (p, m).
  split; [|lia]. by apply list_elem_of_In, elem_of_map_to_list.
Qed.

Lemma lookup_write_bytes m a bs b :
  write_bytes m a bs !! b = if decide (a ≤ b < a + zlen bs) then bs !! Z.to_nat (b - a) else m !! b.
Proof.
  revert a. induction bs as [|x bs IH]; intros a; cbn [write_bytes].
  - change (zlen []) with 0. case_decide; [lia|done].
  - rewrite zlen_cons. pose proof (zlen_nonneg bs). destruct (decide (a = b)) as [->|Hne].
    + rewrite lookup_insert_eq, Z.sub_diag. by rewrite decide_True by lia.
    + rewrite lookup_insert_ne, IH by done. destruct (decide (a ≤ b < a + (zlen bs + 1))).
      * rewrite decide_True by lia. replace (Z.to_nat (b - a)) with (S (Z.to_nat (b - (a + 1)))) by lia. done.
      * by rewrite decide_False by lia.
Qed.

Lemma read_bytes_ext m m' a n : (∀ b, a ≤ b < a + Z.of_nat n → m !! b = m' !! b) → read_bytes m a n = read_bytes m' a n.
Proof.
  revert a. induction n as [|n IH]; intros a H; [done|]. cbn [read_bytes]. rewrite H by lia.
  rewrite (IH (a + 1)) by (intros; apply H; lia). done.
Qed.

Lemma read_write_bytes m a bs : read_bytes (write_bytes m a bs) a (length bs) = Some bs.
Proof.
  revert a. induction bs as [|x bs IH]; intros a; [done|]. cbn [read_bytes length write_bytes].
  rewrite lookup_insert_eq. simpl.
  rewrite (read_bytes_ext _ (write_bytes m (a + 1) bs)), IH; [done|].
  intros b Hb. rewrite lookup_insert_ne by lia. done.
Qed.

Lemma bytes_of_length n v : length (bytes_of n v) = n.
Proof. revert v. induction n as [|n IH]; intros v; simpl; [done|]. by rewrite IH. Qed.

Lemma zlen_bytes_of n v : zlen (bytes_of n v) = Z.of_nat n.
Proof. unfold zlen. by rewrite bytes_of_length. Qed.

Lemma value_bytes_of n v : value_of (bytes_of n v) = v mod 256 ^ Z.of_nat n.
Proof.
  revert v. induction n as [|n IH]; intros v; [by rewrite Z.mod_1_r|].
  cbn [bytes_of value_of foldr]. fold (value_of (bytes_of n (v / 256))). rewrite IH.
  replace (Z.of_nat (S n)) with (Z.succ (Z.of_nat n)) by lia. rewrite Z.pow_succ_r by lia.
  rewrite Z.rem_mul_r by (try apply Z.pow_pos_nonneg; lia). done.
Qed.

(** A word in memory, as the code reads it. *)
Definition holds (m : gmap Z Z) (a v : Z) : Prop := read_bytes m a 8 = Some (bytes_of 8 v) ∧ 0 ≤ v < two64.

Lemma holds_store m a v : 0 ≤ v < two64 → holds (write_bytes m a (bytes_of 8 v)) a v.
Proof. intros Hv. split; [|done]. rewrite <-(bytes_of_length 8 v) at 2. apply read_write_bytes. Qed.

(** What two memories agree on. *)
Definition agree (m m' : gmap Z Z) (a n : Z) : Prop := ∀ b, a ≤ b < a + n → m' !! b = m !! b.

Lemma holds_agree m m' a v : agree m m' a 8 → holds m a v → holds m' a v.
Proof. intros H [Hr Hv]. split; [|done]. rewrite <-Hr. apply read_bytes_ext. intros c Hc. apply H. lia. Qed.

Lemma agree_trans m1 m2 m3 a n : agree m1 m2 a n → agree m2 m3 a n → agree m1 m3 a n.
Proof. intros H1 H2 b Hb. by rewrite H2, H1. Qed.

Lemma agree_write m a n b bs : disjoint a n b (zlen bs) → agree m (write_bytes m b bs) a n.
Proof. unfold disjoint. intros Hd c Hc. rewrite lookup_write_bytes. by rewrite decide_False by lia. Qed.

Lemma agree_within m m' a n b k : agree m m' a n → a ≤ b → b + k ≤ a + n → agree m m' b k.
Proof. intros H ? ? c Hc. apply H. lia. Qed.

Lemma load64_holds h a v : in_block h a 8 → holds (bytes h) a v → load64 h a = Ok v.
Proof.
  intros Hin [Hr Hv]. unfold load64. rewrite in_blockb_true, Hr by done. rewrite value_bytes_of. f_equal.
  by apply Z.mod_small.
Qed.

Lemma write_ok h a bs : in_block h a (zlen bs) → write h a bs = Ok (mk (blocks h) (write_bytes (bytes h) a bs)).
Proof. intros Hin. unfold write. by rewrite in_blockb_true. Qed.

Lemma in_block_within h a n b m : in_block h a n → a ≤ b → b + m ≤ a + n → in_block h b m.
Proof. intros (p & k & Hp & ? & ?) ? ?. exists p, k. split; [done|lia]. Qed.

(** ** A system with nothing left

    It refuses every request: a call that returns here returns the same on every
    other system, because it did not ask. *)

Definition exhausted : System.
Proof. by refine {| choose := λ _ _ _, None |}. Defined.

Lemma exhausted_new h n al r : operator_new_aligned (system := exhausted) h n al = Ok r → False.
Proof. done. Qed.

(** ** A concrete system, for witnesses

    It puts each block above the ones it has. *)

Definition top (B : gmap Z Z) : Z := foldr (λ '(q, m) t, Z.max t (Z.max (q + 1) (q + m))) 16 (map_to_list B).

Lemma top_above B q m : B !! q = Some m → q < top B ∧ q + m ≤ top B.
Proof.
  intros Hq%elem_of_map_to_list. unfold top. induction (map_to_list B) as [|[q' m'] l IH]; [by apply elem_of_nil in Hq|].
  simpl. apply elem_of_cons in Hq as [[= <- <-]|Hq]; [lia|]. specialize (IH Hq). lia.
Qed.

Lemma top_positive B : 16 ≤ top B.
Proof. unfold top. induction (map_to_list B) as [|[q m] l IH]; simpl; lia. Qed.

Definition stacked : System.
Proof.
  refine {| choose := λ B n align, let p := (top B + align - 1) / align * align in if p + n <? two64 then Some p else None |}.
  intros B n align p. cbv zeta. pose proof (top_positive B). destruct (Z.ltb_spec ((top B + align - 1) / align * align + n) two64); [|done].
  intros [= <-] Hn Hal. assert (Hp : top B ≤ (top B + align - 1) / align * align).
  { pose proof (Z.div_mod (top B + align - 1) align ltac:(lia)). pose proof (Z.mod_pos_bound (top B + align - 1) align Hal). nia. }
  split_and!; [lia|done|by eexists| |].
  - destruct (B !! _) as [m|] eqn:E; [|done]. apply top_above in E. lia.
  - intros q m Hq%top_above. right. lia.
Defined.

Definition no_blocks : Heap := Memory.mk ∅ ∅.

Lemma no_blocks_ok : heap_ok no_blocks.
Proof. by split. Qed.

End Memory.
