(* ===== verification/Arena.v ===== *)
(** * The node arena (class NodeArena, include/lob/node_arena.hpp, src/node_arena.cpp)

    Blocks are carved from slabs and recycled through free lists threaded through
    the free blocks themselves: the links live in the memory of Memory.v, next to
    what the container writes into the blocks it holds. The invariant keeps, as
    ghost arguments, the slabs, the free lists and the blocks in use. *)

From stdpp Require Import base decidable list gmap sorting.
From S2P Require Import Prelude.
From S2P Require Import Memory.
Import Memory.

Module NodeArena.

Definition kGranule : Z := 16.
Definition kMaxBlock : Z := 256.
Definition kSlabBytes : Z := 65536.
Definition kTouchStride : Z := 4096.

Record NodeArena := mk {
  free_list : list Z;       (* FreeBlock*, one per size class; 0 is nullptr *)
  cursor : Z;
  limit : Z;
  newest : Z;               (* SlabHeader* *)
  slab_total : Z;
}.

Definition size_class (bytes : Z) : Z := if bytes =? 0 then 1 else u64 (bytes + kGranule - 1) / kGranule.

Section arena.
Context {system : System} {build : Build}.

(** The loop of [add_slab] that touches one byte of every page. *)
Fixpoint touch (fuel : nat) (h : Heap) (slab bytes off : Z) : res Heap :=
  match fuel with
  | O => Err out_of_fuel
  | S fuel =>
      if off <? bytes then
        h ← write h (slab + off) [0];
        touch fuel h slab bytes (u64 (off + kTouchStride))
      else Ok h
  end.

Definition add_slab (a : NodeArena) (h : Heap) (bytes : Z) : res (NodeArena * Heap) :=
  '(slab, h) ← operator_new h bytes;
  h ← touch (S (S (Z.to_nat (bytes / kTouchStride)))) h slab bytes 0;
  h ← store64 h slab (newest a);
  h ← store64 h (slab + 8) bytes;
  Ok (mk (free_list a) (slab + kGranule) (slab + bytes) slab (u64 (slab_total a + bytes)), h).

(** The constructor. *)
Definition make (h : Heap) (reserve_bytes : Z) : res (NodeArena * Heap) :=
  let a := mk (vmake (kMaxBlock / kGranule + 1) 0) 0 0 0 0 in
  if 0 <? reserve_bytes then add_slab a h (Z.max (u64 (reserve_bytes + kGranule)) kSlabBytes) else Ok (a, h).

Definition carve (a : NodeArena) (h : Heap) (c : Z) : res (Z * NodeArena * Heap) :=
  let bytes := u64 (c * kGranule) in
  '(a, h) ← (if u64 (limit a - cursor a) <? bytes then add_slab a h kSlabBytes else Ok (a, h));
  Ok (cursor a, mk (free_list a) (cursor a + bytes) (limit a) (newest a) (slab_total a), h).

Definition allocate (a : NodeArena) (h : Heap) (bytes : Z) : res (Z * NodeArena * Heap) :=
  if kMaxBlock <? bytes then '(p, h) ← operator_new h bytes; Ok (p, a, h)
  else
    let c := size_class bytes in
    b ← vget (free_list a) c;
    if negb (b =? 0) then
      nx ← load64 h b;
      v ← vset (free_list a) c nx;
      Ok (b, mk v (cursor a) (limit a) (newest a) (slab_total a), h)
    else carve a h c.

(** A debug build overwrites the block first: a dangling node reads as garbage. *)
Definition deallocate (a : NodeArena) (h : Heap) (p bytes : Z) : res (NodeArena * Heap) :=
  if kMaxBlock <? bytes then h ← operator_delete h p bytes; Ok (a, h)
  else
    let c := size_class bytes in
    h ← (if NDEBUG then Ok h else memset h p 221 (u64 (c * kGranule)));
    b ← vget (free_list a) c;
    h ← store64 h p b;
    v ← vset (free_list a) c p;
    Ok (mk v (cursor a) (limit a) (newest a) (slab_total a), h).

Definition slab_bytes (a : NodeArena) : Z := slab_total a.

(** The destructor: back along the headers of the slabs. *)
Fixpoint destroy_loop (fuel : nat) (h : Heap) (slab : Z) : res Heap :=
  match fuel with
  | O => Err out_of_fuel
  | S fuel =>
      if slab =? 0 then Ok h
      else
        prev ← load64 h slab;
        n ← load64 h (slab + 8);
        h ← operator_delete h slab n;
        destroy_loop fuel h prev
  end.

Definition destroy (a : NodeArena) (h : Heap) : res Heap := destroy_loop (S (size (blocks h))) h (newest a).

End arena.

(** ** The invariant *)

(** The free list of one class: each free block holds the address of the next. *)
Fixpoint fchain (m : gmap Z Z) (p : Z) (l : list Z) : Prop :=
  match l with
  | [] => p = 0
  | x :: l => p = x ∧ ∃ nx, holds m x nx ∧ fchain m nx l
  end.

(** The slabs, newest first: each holds the previous one and its own size. *)
Fixpoint hchain (m : gmap Z Z) (p : Z) (l : list (Z * Z)) : Prop :=
  match l with
  | [] => p = 0
  | (s, n) :: l => p = s ∧ holds m (s + 8) n ∧ ∃ prev, holds m s prev ∧ hchain m prev l
  end.

Lemma fchain_agree m m' p l : fchain m p l → (∀ x, x ∈ l → agree m m' x 8) → fchain m' p l.
Proof.
  revert p. induction l as [|x l IH]; intros p; [done|]. intros (-> & nx & Hx & Hl) Ha. split; [done|].
  exists nx. split; [eapply holds_agree; [|done]; apply Ha; left|]. apply IH; [done|]. intros y Hy. apply Ha. by right.
Qed.

Lemma hchain_agree m m' p l : hchain m p l → (∀ s n, (s, n) ∈ l → agree m m' s 16) → hchain m' p l.
Proof.
  revert p. induction l as [|[s n] l IH]; intros p; [done|]. intros (-> & Hn & prev & Hs & Hl) Ha.
  assert (Hsn : agree m m' s 16) by (apply (Ha s n); left).
  split; [done|]. split; [eapply holds_agree; [|done]; eapply agree_within; [done|lia..]|].
  exists prev. split; [eapply holds_agree; [|done]; eapply agree_within; [done|lia..]|].
  apply IH; [done|]. intros s' n' Hs'. apply (Ha s' n'). by right.
Qed.

Definition span (c : Z) : Z := c * kGranule.

(** The state of an arena made on the heap [B0]: its slabs, newest first, the
    class of every block it ever carved, its free lists, and what its client
    holds (the size asked for, by address). *)
Record inv (B0 : gmap Z Z) (a : NodeArena) (h : Heap) (slabs : list (Z * Z)) (carved : gmap Z Z)
    (free : Z → list Z) (client : gmap Z Z) : Prop := {
  i_heap : heap_ok h;
  i_blocks p n : blocks h !! p = Some n ↔
    (p, n) ∈ slabs ∨ (client !! p = Some n ∧ kMaxBlock < n) ∨ B0 !! p = Some n;
  i_slab_nodup : NoDup slabs.*1;
  i_slab_own s n : (s, n) ∈ slabs → B0 !! s = None ∧ kSlabBytes ≤ n;
  i_big p n : client !! p = Some n → kMaxBlock < n → B0 !! p = None ∧ p ∉ slabs.*1;
  i_header : hchain (bytes h) (newest a) slabs;
  i_cursor : match slabs with
    | [] => cursor a = 0 ∧ limit a = 0
    | (s, n) :: _ => s + kGranule ≤ cursor a ≤ limit a ∧ limit a = s + n ∧ (16 | cursor a)
    end;
  i_block p c : carved !! p = Some c → 1 ≤ c ≤ 16 ∧ (16 | p) ∧ ∃ s n, (s, n) ∈ slabs ∧
    s + kGranule ≤ p ∧ p + span c ≤ s + n ∧ (s = newest a → p + span c ≤ cursor a);
  i_disjoint p c q d : carved !! p = Some c → carved !! q = Some d → p ≠ q → disjoint p (span c) q (span d);
  i_lists : zlen (free_list a) = 17;
  i_free c : 1 ≤ c ≤ 16 → ∃ hd, (free_list a).[c] = Some hd ∧ fchain (bytes h) hd (free c) ∧
    NoDup (free c) ∧ ∀ p, p ∈ free c → carved !! p = Some c;
  i_client p c : (∃ n, client !! p = Some n ∧ 0 ≤ n ≤ kMaxBlock ∧ size_class n = c) ↔
    (carved !! p = Some c ∧ p ∉ free c);
  i_sizes p n : client !! p = Some n → 0 ≤ n;
}.

Lemma size_class_range n : 0 ≤ n ≤ kMaxBlock → 1 ≤ size_class n ≤ 16 ∧ n ≤ span (size_class n).
Proof.
  unfold size_class, span, kGranule, kMaxBlock. intros Hn. destruct (Z.eqb_spec n 0); [lia|].
  rewrite u64_small by lia. Z.div_mod_to_equations. lia.
Qed.

(** Free lists with the one of class [c] replaced. *)
Definition set_list (free : Z → list Z) (c : Z) (l : list Z) (d : Z) : list Z := if decide (d = c) then l else free d.

Lemma set_list_eq free c l : set_list free c l c = l.
Proof. unfold set_list. by rewrite decide_True. Qed.

Lemma set_list_ne free c l d : d ≠ c → set_list free c l d = free d.
Proof. intros. unfold set_list. by rewrite decide_False. Qed.

(** ** Where things lie *)

Section places.
Context {B0 : gmap Z Z} {a : NodeArena} {h : Heap} {slabs : list (Z * Z)} {carved : gmap Z Z}.
Context {free : Z → list Z} {client : gmap Z Z} (Hinv : inv B0 a h slabs carved free client).

Lemma slab_block s n : (s, n) ∈ slabs → blocks h !! s = Some n.
Proof. intros Hs. apply (i_blocks _ _ _ _ _ _ _ Hinv). by left. Qed.

Lemma block_in_slab p c : carved !! p = Some c → in_block h p (span c).
Proof.
  intros Hp. destruct (i_block _ _ _ _ _ _ _ Hinv _ _ Hp) as (_ & _ & s & n & Hs & ? & ? & _).
  exists s, n. split; [by apply slab_block|]. unfold kGranule in *. lia.
Qed.

Lemma block_off_header p c s n : carved !! p = Some c → (s, n) ∈ slabs → disjoint p (span c) s kGranule.
Proof.
  intros Hp Hs. destruct (i_block _ _ _ _ _ _ _ Hinv _ _ Hp) as (? & _ & s' & n' & Hs' & ? & ? & _).
  destruct (i_slab_own _ _ _ _ _ _ _ Hinv _ _ Hs) as [_ Hn].
  unfold disjoint, span, kGranule, kSlabBytes in *. destruct (decide (s = s')) as [->|Hne]; [lia|].
  destruct (ok_disjoint _ (i_heap _ _ _ _ _ _ _ Hinv) _ _ _ _ (slab_block _ _ Hs) (slab_block _ _ Hs') Hne); lia.
Qed.

Lemma block_off_other p c q m : carved !! p = Some c → blocks h !! q = Some m → q ∉ slabs.*1 → disjoint p (span c) q m.
Proof.
  intros Hp Hq Hns. destruct (i_block _ _ _ _ _ _ _ Hinv _ _ Hp) as (_ & _ & s & n & Hs & ? & ? & _).
  assert (Hne : q ≠ s) by (intros ->; apply Hns; by apply (list_elem_of_fmap_2 fst _ _ Hs)).
  pose proof (ok_disjoint _ (i_heap _ _ _ _ _ _ _ Hinv) _ _ _ _ Hq (slab_block _ _ Hs) Hne) as Hd.
  unfold disjoint, span, kGranule in *. lia.
Qed.

Lemma header_off_other s n q m : (s, n) ∈ slabs → blocks h !! q = Some m → q ∉ slabs.*1 → disjoint s kGranule q m.
Proof.
  intros Hs Hq Hns. assert (Hne : s ≠ q) by (intros ->; apply Hns; by apply (list_elem_of_fmap_2 fst _ _ Hs)).
  destruct (i_slab_own _ _ _ _ _ _ _ Hinv _ _ Hs) as [_ Hn].
  pose proof (ok_disjoint _ (i_heap _ _ _ _ _ _ _ Hinv) _ _ _ _ (slab_block _ _ Hs) Hq Hne) as Hd.
  unfold disjoint, kGranule, kSlabBytes in *. lia.
Qed.

Lemma big_block p n : client !! p = Some n → kMaxBlock < n → blocks h !! p = Some n ∧ p ∉ slabs.*1.
Proof.
  intros Hp Hn. split; [|by eapply i_big]. apply (i_blocks _ _ _ _ _ _ _ Hinv). right. by left.
Qed.

Lemma carved_not_big p c n : carved !! p = Some c → client !! p = Some n → n ≤ kMaxBlock.
Proof.
  intros Hp Hc. destruct (Z.le_gt_cases n kMaxBlock) as [|Hn]; [done|].
  destruct (big_block p n Hc Hn) as [Hb Hns]. pose proof (block_off_other p c p n Hp Hb Hns).
  destruct (i_block _ _ _ _ _ _ _ Hinv _ _ Hp) as (? & _). unfold disjoint, span, kGranule, kMaxBlock in *. lia.
Qed.

Lemma block_positive p c : carved !! p = Some c → 0 < p ∧ p + span c < two64.
Proof.
  intros Hp. destruct (i_block _ _ _ _ _ _ _ Hinv _ _ Hp) as (_ & _ & s & n & Hs & ? & ? & _).
  destruct (ok_block _ (i_heap _ _ _ _ _ _ _ Hinv) _ _ (slab_block _ _ Hs)) as (? & _ & ? & _). unfold kGranule in *. lia.
Qed.

(** A block in use has a client, and the other way round. *)
Lemma client_held p n : client !! p = Some n → n ≤ kMaxBlock →
  carved !! p = Some (size_class n) ∧ (p ∉ free (size_class n)) ∧ 1 ≤ size_class n ≤ 16 ∧ n ≤ span (size_class n).
Proof.
  intros Hp Hn. pose proof (i_sizes _ _ _ _ _ _ _ Hinv _ _ Hp). destruct (size_class_range n) as [Hr Hs]; [done|].
  destruct (proj1 (i_client _ _ _ _ _ _ _ Hinv p (size_class n))) as [??]; [by exists n|]. done.
Qed.

(** ** Writes *)

Lemma inv_agree m' : (∀ s n, (s, n) ∈ slabs → agree (bytes h) m' s kGranule) →
  (∀ c x, 1 ≤ c ≤ 16 → x ∈ free c → agree (bytes h) m' x 8) →
  inv B0 a (Memory.mk (blocks h) m') slabs carved free client.
Proof.
  intros Hs Hf. destruct Hinv as [Hheap ? ? ? ? Hh ? ? ? ? Hfree ? ?]. split; try done.
  - by destruct Hheap; split.
  - by eapply hchain_agree.
  - intros c Hc. destruct (Hfree c Hc) as (hd & ? & ? & ? & ?). exists hd. split_and!; [done| |done..].
    eapply fchain_agree; [done|]. intros x Hx. by apply (Hf c).
Qed.

(** Whoever holds a block may write all over it. *)
Lemma inv_write p c x bs : carved !! p = Some c → p ∉ free c → p ≤ x → x + zlen bs ≤ p + span c →
  write h x bs = Ok (Memory.mk (blocks h) (write_bytes (bytes h) x bs)) ∧
  inv B0 a (Memory.mk (blocks h) (write_bytes (bytes h) x bs)) slabs carved free client.
Proof.
  intros Hp Hnf Hx Hend. pose proof (zlen_nonneg bs). split.
  { apply write_ok. eapply in_block_within; [by apply (block_in_slab p c)|lia..]. }
  apply inv_agree.
  - intros s n Hs. apply agree_write. pose proof (block_off_header p c s n Hp Hs). unfold disjoint in *. lia.
  - intros d y Hd Hy. apply agree_write. destruct (i_free _ _ _ _ _ _ _ Hinv d Hd) as (_ & _ & _ & _ & Hfd).
    pose proof (Hfd _ Hy) as Hyc. assert (Hne : p ≠ y) by (intros ->; congruence).
    pose proof (i_disjoint _ _ _ _ _ _ _ Hinv _ _ _ _ Hp Hyc Hne). unfold disjoint, span, kGranule in *. lia.
Qed.

(** Large blocks are apart from everything the arena looks at. *)
Lemma inv_write_big p n x bs : blocks h !! p = Some n → p ∉ slabs.*1 → p ≤ x → x + zlen bs ≤ p + n →
  write h x bs = Ok (Memory.mk (blocks h) (write_bytes (bytes h) x bs)) ∧
  inv B0 a (Memory.mk (blocks h) (write_bytes (bytes h) x bs)) slabs carved free client.
Proof.
  intros Hp Hns Hx Hend. pose proof (zlen_nonneg bs). split; [apply write_ok; exists p, n; split; [done|lia]|].
  apply inv_agree.
  - intros s k Hs. apply agree_write. pose proof (header_off_other s k p n Hs Hp Hns). unfold disjoint, kGranule in *. lia.
  - intros d y Hd Hy. apply agree_write. destruct (i_free _ _ _ _ _ _ _ Hinv d Hd) as (_ & _ & _ & _ & Hfd).
    pose proof (block_off_other y d p n (Hfd _ Hy) Hp Hns). unfold disjoint, span, kGranule in *. lia.
Qed.

End places.

(** ** The operations *)

Section operations.
Context {system : System} {build : Build}.
Implicit Types (a : NodeArena) (h : Heap).

(** Touching a block changes its own bytes only. *)
Lemma touch_spec (fuel : nat) h slab n off : blocks h !! slab = Some n → 0 ≤ off → n ≤ two63 + kSlabBytes →
  n - off ≤ kTouchStride * Z.of_nat fuel → ∃ h', touch (S fuel) h slab n off = Ok h' ∧
  blocks h' = blocks h ∧ ∀ b, ¬ (slab ≤ b < slab + n) → bytes h' !! b = bytes h !! b.
Proof.
  unfold kTouchStride, kSlabBytes. remember (blocks h) as Bh eqn:E. intros Hs.
  revert h off E. induction fuel as [|fuel IH]; intros h off -> Hoff Hn Hf.
  { cbn [touch]. destruct (Z.ltb_spec off n); [lia|]. by exists h. }
  remember (S fuel) as k eqn:Ek. cbn [touch]. destruct (Z.ltb_spec off n); [|by exists h].
  rewrite write_ok by (exists slab, n; split; [done|change (zlen [0]) with 1; lia]). cbn [mbind res_bind].
  unfold kTouchStride. rewrite u64_small by lia. subst k.
  destruct (IH (Memory.mk (blocks h) (write_bytes (bytes h) (slab + off) [0])) (off + 4096)) as (h' & -> & Hb & Hm); [done|lia..|].
  exists h'. split_and!; [done..|]. intros b Hb'. rewrite Hm by done. simpl. by rewrite lookup_insert_ne by lia.
Qed.

(** [add_slab] fails only where the system does; else it leaves a slab of that
    size, its header, and the rest of memory as it was. *)
Lemma add_slab_spec a h n : heap_ok h → 0 ≤ newest a < two64 → kSlabBytes ≤ n ≤ two63 + kSlabBytes →
  match operator_new h n with
  | Err e => add_slab a h n = Err e
  | Ok (s, _) => ∃ h',
      add_slab a h n = Ok (mk (free_list a) (s + kGranule) (s + n) s (u64 (slab_total a + n)), h') ∧
      blocks h' = <[s := n]> (blocks h) ∧ holds (bytes h') s (newest a) ∧ holds (bytes h') (s + 8) n ∧
      ∀ b, ¬ (s ≤ b < s + n) → bytes h' !! b = bytes h !! b
  end.
Proof.
  intros Hh Hnew Hn. unfold add_slab. destruct (operator_new h n) as [[s h1]|] eqn:E; [|done]. cbn [mbind res_bind].
  assert (Hn0 : 0 ≤ n) by (unfold kSlabBytes in *; lia).
  destruct (operator_new_ok _ _ _ _ Hh Hn0 E) as (Hh1 & _ & Hb1 & Hm1 & Hs & Hend & _).
  assert (Hsn : blocks h1 !! s = Some n) by (by rewrite Hb1, lookup_insert_eq).
  destruct (touch_spec (S (Z.to_nat (n / kTouchStride))) h1 s n 0) as (h2 & -> & Hb2 & Hm2); [done|lia|lia| |].
  { unfold kTouchStride, kSlabBytes in *. Z.div_mod_to_equations. lia. }
  cbn [mbind res_bind]. unfold kSlabBytes in *.
  assert (Hw : ∀ m' x v, s ≤ x → x + 8 ≤ s + n → write (Memory.mk (blocks h2) m') x (bytes_of 8 v) = Ok (Memory.mk (blocks h2) (write_bytes m' x (bytes_of 8 v)))).
  { intros. rewrite write_ok; [done|]. exists s, n. split; [by change (blocks h2 !! s = Some n); rewrite Hb2|].
    rewrite zlen_bytes_of. lia. }
  unfold store64. destruct h2 as [b2 m2]. cbn [Memory.blocks Memory.bytes] in Hb2, Hm2, Hw. rewrite Hw by lia. cbn [mbind res_bind].
  rewrite Hw by lia. cbn [mbind res_bind]. eexists. split; [reflexivity|]. cbn [Memory.bytes Memory.blocks].
  split; [by rewrite Hb2, Hb1|]. split_and!.
  - eapply holds_agree; [|by apply (holds_store m2)]. apply agree_write. unfold disjoint. rewrite zlen_bytes_of. lia.
  - apply holds_store. lia.
  - intros b Hb. rewrite !lookup_write_bytes, !zlen_bytes_of. rewrite !decide_False by lia. by rewrite Hm2, Hm1.
Qed.

Lemma heap_ok_blocks h h' : heap_ok h → blocks h' = blocks h → heap_ok h'.
Proof. intros [] E. split; rewrite E; done. Qed.

Section step.
Context {B0 : gmap Z Z} {a : NodeArena} {h : Heap} {slabs : list (Z * Z)} {carved : gmap Z Z}.
Context {free : Z → list Z} {client : gmap Z Z} (Hinv : inv B0 a h slabs carved free client).

Lemma newest_range : 0 ≤ newest a < two64.
Proof.
  pose proof (i_header _ _ _ _ _ _ _ Hinv) as Hh. destruct slabs as [|[s n] l] eqn:E; simpl in Hh; [lia|].
  destruct Hh as (-> & _). assert (Hb : blocks h !! s = Some n) by (apply (slab_block Hinv); left).
  apply (ok_block _ (i_heap _ _ _ _ _ _ _ Hinv)) in Hb. lia.
Qed.

(** Old slabs and what lies in them are out of the way of a new block. *)
Lemma inv_add_slab n : kSlabBytes ≤ n ≤ two63 + kSlabBytes →
  match operator_new h n with
  | Err e => add_slab a h n = Err e
  | Ok (s, _) => ∃ h', let a' := mk (free_list a) (s + kGranule) (s + n) s (u64 (slab_total a + n)) in
      add_slab a h n = Ok (a', h') ∧ blocks h' = <[s := n]> (blocks h) ∧ inv B0 a' h' ((s, n) :: slabs) carved free client
  end.
Proof.
  intros Hn. pose proof (i_heap _ _ _ _ _ _ _ Hinv) as Hheap. pose proof (add_slab_spec a h n Hheap newest_range Hn) as Hadd.
  destruct (operator_new h n) as [[s h1]|] eqn:Hnew; [|done]. destruct Hadd as (h' & Hadd & Hb & Hprev & Hsize & Hm).
  exists h'. split; [done|]. split; [done|].
  assert (Hn0 : 0 ≤ n) by (unfold kSlabBytes in *; lia).
  destruct (operator_new_ok _ _ _ _ Hheap Hn0 Hnew) as (Hh1 & Hfresh & Hb1 & _ & Hs & Hend & Hal & Hdis).
  assert (Hns : ∀ k, (s, k) ∉ slabs) by (intros k Hk%(slab_block Hinv); congruence).
  assert (Hagree : ∀ x k q e, blocks h !! q = Some e → q ≤ x → x + k ≤ q + e → agree (bytes h) (bytes h') x k).
  { intros x k q e Hq ? ? b ?. apply Hm. destruct (Hdis _ _ Hq); lia. }
  destruct Hinv as [_ Hbl Hnd Hown Hbig Hhd Hcur Hblk Hdj Hls Hfree Hcl Hsz].
  assert (Habs : ∀ k, ¬ ((s, k) ∈ slabs ∨ (client !! s = Some k ∧ kMaxBlock < k) ∨ B0 !! s = Some k)).
  { intros k Hk%Hbl. congruence. }
  split; simpl; unfold kSlabBytes, kGranule in *; try done.
  - eapply heap_ok_blocks; [exact Hh1|]. by rewrite Hb, Hb1.
  - intros p k. rewrite Hb, lookup_insert_Some, Hbl, elem_of_cons. split.
    + intros [[-> ->]|[Hne [?|[?|?]]]]; [left; by left|left; by right|right; by left|by right; right].
    + intros [[[= -> ->]|Hin]|[Hc|HB]]; [by left|right..].
      * split; [by intros ->; apply (Hns k)|by left].
      * split; [intros ->; apply (Habs k); by right; left|by right; left].
      * split; [intros ->; apply (Habs k); by right; right|by right; right].
  - apply NoDup_cons. split; [|done]. intros ([q k] & -> & Hk)%list_elem_of_fmap. by apply (Hns k).
  - intros q k [[= -> ->]|Hk]%elem_of_cons; [|by apply Hown]. split; [|lia].
    destruct (B0 !! s) eqn:E; [|done]. destruct (Habs z). by right; right.
  - intros p k Hp Hk. destruct (Hbig p k Hp Hk). split; [done|]. intros [->|?]%elem_of_cons; [|done].
    apply (Habs k). by right; left.
  - split; [done|]. split; [done|]. exists (newest a). split; [done|]. eapply hchain_agree; [done|].
    intros q k Hk. destruct (Hown q k Hk). apply (Hagree q 16 q k); [by apply (slab_block Hinv)|lia|lia].
  - split_and!; [lia..|]. destruct Hal as [z ->]. exists (z + 1). lia.
  - intros p c Hp. destruct (Hblk p c Hp) as (? & ? & q & k & Hq & ? & ? & _). split; [done|]. split; [done|].
    exists q, k. split_and!; [by right|done|done|]. intros ->. by apply Hns in Hq.
  - intros c Hc. destruct (Hfree c Hc) as (hd & ? & Hch & ? & Hin). exists hd. split_and!; [done| |done..].
    eapply fchain_agree; [done|]. intros x Hx. destruct (Hblk _ _ (Hin x Hx)) as (? & _ & q & k & Hq & ? & ? & _).
    apply (Hagree x 8 q k); [by apply (slab_block Hinv)|lia|]. unfold span, kGranule in *. lia.
Qed.

End step.

(** ** Allocating *)

Definition with_list (a : NodeArena) (c hd : Z) : NodeArena :=
  mk ((free_list a).[c := hd]) (cursor a) (limit a) (newest a) (slab_total a).

Definition bump (a : NodeArena) (c : Z) : NodeArena :=
  mk (free_list a) (cursor a + span c) (limit a) (newest a) (slab_total a).

Section allocating.
Context {B0 : gmap Z Z} {a : NodeArena} {h : Heap} {slabs : list (Z * Z)} {carved : gmap Z Z}.
Context {free : Z → list Z} {client : gmap Z Z} (Hinv : inv B0 a h slabs carved free client).

(** The first block of a free list comes off it. *)
Lemma inv_pop n c p l hd : size_class n = c → 0 ≤ n ≤ kMaxBlock → free c = p :: l → fchain (bytes h) hd l →
  client !! p = None ∧ inv B0 (with_list a c hd) h slabs carved (set_list free c l) (<[p := n]> client).
Proof.
  intros Hc Hn Hl Hch. destruct (size_class_range n Hn) as [Hr _]. rewrite Hc in Hr.
  destruct (i_free _ _ _ _ _ _ _ Hinv c Hr) as (_ & _ & _ & Hnd & Hin). rewrite Hl in Hnd, Hin.
  apply NoDup_cons in Hnd as [Hp Hnd]. assert (Hpc : carved !! p = Some c) by (apply Hin; left).
  assert (Hbigp : ∀ k, client !! p = Some k → k ≤ kMaxBlock) by (intros k; by apply (carved_not_big Hinv p c)).
  assert (Hnone : client !! p = None).
  { destruct (client !! p) as [k|] eqn:E; [|done]. destruct (client_held Hinv p k E (Hbigp k eq_refl)) as (Hx & Hf & _).
    rewrite Hpc in Hx. injection Hx as Hx. rewrite <-Hx, Hl in Hf. destruct Hf. left. }
  split; [done|]. destruct Hinv as [Hheap Hbl Hnds Hown Hbig Hhd Hcur Hblk Hdj Hls Hfree Hcl Hsz]. split; simpl; try done.
  - intros q k. rewrite Hbl. destruct (decide (p = q)) as [<-|Hne]; [|by rewrite lookup_insert_ne].
    rewrite lookup_insert_eq. split; (intros [?|[[Hk ?]|?]]; [by left| |by right; right]).
    + specialize (Hbigp k Hk). lia.
    + injection Hk as <-. lia.
  - intros q k [[<- <-]|[_ ?]]%lookup_insert_Some; [lia|by apply Hbig].
  - by rewrite zlen_zset.
  - intros d Hd. destruct (decide (d = c)) as [->|Hne].
    + exists hd. rewrite zlookup_zset_eq by lia. rewrite set_list_eq. split_and!; [done..|]. intros q Hq. apply Hin. by right.
    + rewrite zlookup_zset_ne, set_list_ne by done. by apply Hfree.
  - intros q d. destruct (decide (p = q)) as [<-|Hne].
    + rewrite lookup_insert_eq, Hpc. split.
      * intros (k & [= <-] & _ & <-). subst c. by rewrite set_list_eq.
      * intros [[= <-] _]. by exists n.
    + rewrite lookup_insert_ne, Hcl by done. destruct (decide (d = c)) as [->|Hdc]; [|by rewrite set_list_ne].
      rewrite set_list_eq, Hl, not_elem_of_cons. split; [by intros (? & ? & ?)|intros [? ?]; split; [done|by split]].
  - intros q k [[<- <-]|[_ ?]]%lookup_insert_Some; [lia|by eapply Hsz].
Qed.

(** A new block comes off the newest slab. *)
Lemma inv_bump n c : size_class n = c → 0 ≤ n ≤ kMaxBlock → slabs ≠ [] → cursor a + span c ≤ limit a →
  carved !! cursor a = None ∧ client !! cursor a = None ∧ inv B0 (bump a c) h slabs (<[cursor a := c]> carved) free (<[cursor a := n]> client).
Proof.
  intros Hc Hn Hslabs Hroom. destruct (size_class_range n Hn) as [Hr _]. rewrite Hc in Hr.
  set (p := cursor a) in *. destruct slabs as [|[s e] l] eqn:E; [done|]. rewrite <-E in *.
  assert (Hse : (s, e) ∈ slabs) by (rewrite E; left).
  assert (Hs : s = newest a). { pose proof (i_header _ _ _ _ _ _ _ Hinv) as Hh. rewrite E in Hh. by destruct Hh. }
  pose proof (i_cursor _ _ _ _ _ _ _ Hinv) as Hcur. rewrite E in Hcur. destruct Hcur as (Hcur & Hlim & Hal). fold p in Hcur, Hal.
  assert (Hdis : ∀ q d, carved !! q = Some d → disjoint q (span d) p (span c)).
  { intros q d Hq. destruct (i_block _ _ _ _ _ _ _ Hinv q d Hq) as (? & _ & s' & e' & Hs' & ? & ? & Hend).
    unfold disjoint, span, kGranule in *. destruct (decide (s' = s)) as [->|Hne]; [left; by apply Hend|].
    destruct (ok_disjoint _ (i_heap _ _ _ _ _ _ _ Hinv) _ _ _ _ (slab_block Hinv _ _ Hse) (slab_block Hinv _ _ Hs')); [done|lia..]. }
  assert (Hnone : carved !! p = None).
  { destruct (carved !! p) as [d|] eqn:Ep; [|done]. destruct (i_block _ _ _ _ _ _ _ Hinv p d Ep) as (? & _).
    pose proof (Hdis p d Ep). unfold disjoint, span, kGranule in *. lia. }
  assert (Hbigp : ∀ k, client !! p = Some k → k ≤ kMaxBlock).
  { intros k Hk. destruct (Z.le_gt_cases k kMaxBlock) as [|Hgt]; [done|]. destruct (big_block Hinv p k Hk Hgt) as [Hb Hns].
    assert (Hps : p ≠ s). { intros ->. apply Hns. by apply (list_elem_of_fmap_2 fst _ _ Hse). }
    pose proof (ok_disjoint _ (i_heap _ _ _ _ _ _ _ Hinv) _ _ _ _ Hb (slab_block Hinv _ _ Hse) Hps).
    unfold disjoint, span, kGranule, kMaxBlock in *. lia. }
  assert (Hnoc : ∀ d, ¬ ∃ k, client !! p = Some k ∧ 0 ≤ k ≤ kMaxBlock ∧ size_class k = d).
  { intros d Hx%(i_client _ _ _ _ _ _ _ Hinv). destruct Hx. congruence. }
  assert (Hnop : client !! p = None).
  { destruct (client !! p) as [k|] eqn:Ep; [|done]. destruct (Hnoc (size_class k)). exists k.
    pose proof (i_sizes _ _ _ _ _ _ _ Hinv _ _ Ep). specialize (Hbigp k eq_refl). done. }
  split; [done|]. split; [done|]. clear E Hslabs. pose proof Hinv as [Hheap Hbl Hnds Hown Hbig Hhd Hcura Hblk Hdj Hls Hfree Hcl Hsz].
  split; simpl; try done.
  - intros q k. rewrite Hbl. destruct (decide (p = q)) as [<-|Hne]; [|by rewrite lookup_insert_ne].
    rewrite lookup_insert_eq. split; (intros [?|[[Hk ?]|?]]; [by left| |by right; right]).
    + specialize (Hbigp k Hk). lia.
    + injection Hk as <-. lia.
  - intros q k [[<- <-]|[_ ?]]%lookup_insert_Some; [lia|by apply Hbig].
  - destruct slabs as [|[s' e'] l']; [by apply elem_of_nil in Hse|]. destruct Hcura as (? & ? & ?).
    unfold span, kGranule in *. split_and!; [lia..|]. apply Z.divide_add_r; [done|]. by exists c.
  - intros q d [[<- <-]|[_ Hq]]%lookup_insert_Some.
    + split; [done|]. split; [done|]. exists s, e. split; [done|]. split; [lia|]. split; [lia|done].
    + destruct (Hblk q d Hq) as (? & ? & s' & e' & Hs' & ? & ? & Hend). split; [done|]. split; [done|].
      exists s', e'. split; [done|]. split; [done|]. split; [done|]. intros Heq%Hend. unfold span, kGranule in *. lia.
  - unfold disjoint in *. intros q d q' d' [[<- <-]|[_ Hq]]%lookup_insert_Some [[<- <-]|[_ Hq']]%lookup_insert_Some Hne; [done| | |by eapply Hdj].
    + destruct (Hdis q' d' Hq'); lia.
    + by apply Hdis.
  - intros d Hd. destruct (Hfree d Hd) as (hd & ? & ? & ? & Hin). exists hd. split_and!; [done..|].
    intros q Hq. specialize (Hin q Hq). rewrite lookup_insert_ne; [done|]. by intros <-; rewrite Hnone in Hin.
  - intros q d. destruct (decide (p = q)) as [<-|Hne].
    + rewrite !lookup_insert_eq. split.
      * intros (k & [= <-] & _ & <-). split; [by rewrite Hc|]. intros Hf.
        destruct (Hfree (size_class n)) as (_ & _ & _ & _ & Hin); [lia|]. specialize (Hin _ Hf). congruence.
      * intros [[= <-] _]. by exists n.
    + rewrite !lookup_insert_ne by done. apply Hcl.
  - intros q k [[<- <-]|[_ ?]]%lookup_insert_Some; [lia|by eapply Hsz].
Qed.

End allocating.

(** ** Large requests go to the system *)

Section large.
Context {B0 : gmap Z Z} {a : NodeArena} {h : Heap} {slabs : list (Z * Z)} {carved : gmap Z Z}.
Context {free : Z → list Z} {client : gmap Z Z} (Hinv : inv B0 a h slabs carved free client).

Lemma inv_large_new n p h' : kMaxBlock < n → operator_new h n = Ok (p, h') →
  inv B0 a h' slabs carved free (<[p := n]> client) ∧ client !! p = None.
Proof.
  intros Hn Hnew. assert (Hn0 : 0 ≤ n) by (unfold kMaxBlock in *; lia).
  destruct (operator_new_ok _ _ _ _ (i_heap _ _ _ _ _ _ _ Hinv) Hn0 Hnew) as (Hh & Hfresh & Hb & Hm & _ & _ & _ & Hdis).
  assert (Habs : ∀ k, ¬ ((p, k) ∈ slabs ∨ (client !! p = Some k ∧ kMaxBlock < k) ∨ B0 !! p = Some k)).
  { intros k Hk%(i_blocks _ _ _ _ _ _ _ Hinv). congruence. }
  assert (Hnc : ∀ c, carved !! p ≠ Some c).
  { intros c Hp. destruct (i_block _ _ _ _ _ _ _ Hinv p c Hp) as (? & _ & s & e & Hs & ? & ? & _).
    destruct (Hdis _ _ (slab_block Hinv _ _ Hs)); unfold span, kGranule, kMaxBlock in *; lia. }
  assert (Hnone : client !! p = None).
  { destruct (client !! p) as [k|] eqn:E; [|done]. destruct (Z.le_gt_cases k kMaxBlock) as [Hk|Hk].
    - destruct (client_held Hinv p k E Hk) as (Hx & _). by apply Hnc in Hx.
    - destruct (Habs k). by right; left. }
  split; [|done]. destruct Hinv as [_ Hbl Hnds Hown Hbig Hhd Hcur Hblk Hdj Hls Hfree Hcl Hsz].
  split; try (rewrite ?Hm; done).
  - intros q k. rewrite Hb. destruct (decide (p = q)) as [<-|Hne].
    + rewrite !lookup_insert_eq. split; [intros [= <-]; right; by left|].
      intros [?|[[[= <-] _]|?]]; [|done|]; destruct (Habs k); [by left|by right; right].
    + by rewrite !lookup_insert_ne.
  - intros q k [[<- <-]|[_ ?]]%lookup_insert_Some; [|by apply Hbig]. intros _. split.
    + destruct (B0 !! p) as [k|] eqn:E; [|done]. destruct (Habs k). by right; right.
    + intros ([q k] & -> & Hk)%list_elem_of_fmap. destruct (Habs k). by left.
  - intros q d. destruct (decide (p = q)) as [<-|Hne]; [|by rewrite lookup_insert_ne].
    rewrite lookup_insert_eq. split; [intros (k & [= <-] & ? & _); lia|]. intros [Hx _]. by apply Hnc in Hx.
  - intros q k [[<- <-]|[_ ?]]%lookup_insert_Some; [done|by eapply Hsz].
Qed.

Lemma inv_large_delete p n : client !! p = Some n → kMaxBlock < n → ∃ h', operator_delete h p n = Ok h' ∧
  inv B0 a h' slabs carved free (delete p client).
Proof.
  intros Hp Hn. destruct (big_block Hinv p n Hp Hn) as [Hblk Hns]. pose proof (i_heap _ _ _ _ _ _ _ Hinv) as Hheap.
  destruct (operator_delete_ok h p n Hheap Hblk) as (h' & -> & Hh & Hb & Hm).
  exists h'. split; [done|]. assert (HB0 : B0 !! p = None) by (by eapply i_big). 
  destruct Hinv as [_ Hbl Hnds Hown Hbig Hhd Hcur Hbk Hdj Hls Hfree Hcl Hsz]. split; try (rewrite ?Hm; done).
  - intros q k. rewrite Hb. destruct (decide (p = q)) as [<-|Hne].
    + rewrite !lookup_delete_eq. split; [done|]. intros [Hk|[[? _]|?]]; [|done|congruence].
      destruct Hns. by apply (list_elem_of_fmap_2 fst _ _ Hk).
    + by rewrite !lookup_delete_ne.
  - intros q k [_ ?]%lookup_delete_Some. by apply Hbig.
  - intros q d. destruct (decide (p = q)) as [<-|Hne]; [|by rewrite lookup_delete_ne].
    rewrite lookup_delete_eq, <-Hcl. split; [by intros (? & ? & _)|]. intros (k & Hk & ? & _). rewrite Hp in Hk.
    injection Hk as <-. lia.
  - intros q k [_ ?]%lookup_delete_Some. by eapply Hsz.
Qed.

(** A block goes back to the front of its free list. *)
Lemma inv_push p n hd : client !! p = Some n → n ≤ kMaxBlock → let c := size_class n in
  (free_list a).[c] = Some hd → holds (bytes h) p hd →
  inv B0 (with_list a c p) h slabs carved (set_list free c (p :: free c)) (delete p client).
Proof.
  intros Hp Hn c Hhd Hholds. destruct (client_held Hinv p n Hp Hn) as (Hpc & Hpf & Hr & _). fold c in Hpc, Hpf, Hr.
  destruct Hinv as [Hheap Hbl Hnds Hown Hbig Hhead Hcur Hblk Hdj Hls Hfree Hcl Hsz]. split; simpl; try done.
  - intros q k. rewrite Hbl. destruct (decide (p = q)) as [<-|Hne]; [|by rewrite lookup_delete_ne].
    rewrite lookup_delete_eq, Hp. split; (intros [?|[[Hk ?]|?]]; [by left| |by right; right]); [|done].
    injection Hk as <-. lia.
  - intros q k [_ ?]%lookup_delete_Some. by apply Hbig.
  - by rewrite zlen_zset.
  - intros d Hd. destruct (decide (d = c)) as [->|Hne].
    + exists p. rewrite zlookup_zset_eq by lia. rewrite set_list_eq. destruct (Hfree c Hr) as (hd' & Hx & Hch & Hnd & Hin).
      rewrite Hhd in Hx. injection Hx as <-. split; [done|]. split; [split; [done|by exists hd]|]. split; [by constructor|].
      intros q [->|Hq]%elem_of_cons; [done|by apply Hin].
    + rewrite zlookup_zset_ne, set_list_ne by done. by apply Hfree.
  - intros q d. destruct (decide (p = q)) as [<-|Hne].
    + rewrite lookup_delete_eq. split; [by intros (? & ? & _)|]. intros [Hd Hx]. rewrite Hpc in Hd. injection Hd as <-.
      rewrite set_list_eq in Hx. destruct Hx. left.
    + rewrite lookup_delete_ne, Hcl by done. destruct (decide (d = c)) as [->|Hdc]; [|by rewrite set_list_ne].
      rewrite set_list_eq, not_elem_of_cons. split; [intros [? ?]; split; [done|by split]|by intros (? & ? & ?)].
  - intros q k [_ ?]%lookup_delete_Some. by eapply Hsz.
Qed.

End large.

(** ** Every call keeps the invariant *)

Definition ok (B0 : gmap Z Z) (a : NodeArena) (h : Heap) (client : gmap Z Z) : Prop :=
  ∃ slabs carved free, inv B0 a h slabs carved free client.

Section calls.
Context {B0 : gmap Z Z} {a : NodeArena} {h : Heap} {slabs : list (Z * Z)} {carved : gmap Z Z}.
Context {free : Z → list Z} {client : gmap Z Z} (Hinv : inv B0 a h slabs carved free client).

Lemma cursor_room : 0 ≤ limit a - cursor a < two64 ∧ (slabs = [] → limit a - cursor a = 0).
Proof.
  pose proof (i_cursor _ _ _ _ _ _ _ Hinv) as Hcur. destruct slabs as [|[s n] l] eqn:E; [lia|].
  assert (Hb : blocks h !! s = Some n) by (apply (slab_block Hinv); left).
  apply (ok_block _ (i_heap _ _ _ _ _ _ _ Hinv)) in Hb. split; [|done]. unfold kGranule in *. lia.
Qed.

(** A free block comes back whole; with none, the block is carved. *)
Lemma allocate_pop n p l : 0 ≤ n ≤ kMaxBlock → free (size_class n) = p :: l → ∃ hd,
  allocate a h n = Ok (p, with_list a (size_class n) hd, h) ∧ client !! p = None ∧
  inv B0 (with_list a (size_class n) hd) h slabs carved (set_list free (size_class n) l) (<[p := n]> client).
Proof.
  intros Hn Hl. destruct (size_class_range n Hn) as [Hr _].
  destruct (i_free _ _ _ _ _ _ _ Hinv _ Hr) as (x & Hx & Hch & _ & Hin). rewrite Hl in Hch, Hin.
  destruct Hch as (-> & hd & Hholds & Hch). exists hd. split; [|by apply (inv_pop Hinv)].
  assert (Hpc : carved !! p = Some (size_class n)) by (apply Hin; left). pose proof (block_positive Hinv _ _ Hpc) as [Hpos _].
  unfold allocate. destruct (Z.ltb_spec kMaxBlock n); [lia|]. rewrite (vget_ok _ _ _ Hx). cbn [mbind res_bind].
  destruct (Z.eqb_spec p 0); [lia|]. cbn [negb]. rewrite (load64_holds h p hd); [|
    |done]. 2:{ eapply in_block_within; [by apply (block_in_slab Hinv)|lia|unfold span, kGranule; lia]. }
  cbn [mbind res_bind]. by rewrite (vset_ok _ _ _ _ Hx).
Qed.

Lemma allocate_carve n : 0 ≤ n ≤ kMaxBlock → free (size_class n) = [] → let c := size_class n in
  if limit a - cursor a <? span c then
    match allocate a h n with
    | Err e => e = bad_alloc
    | Ok (p, a', h') => ∃ s, let slabs' := (s, kSlabBytes) :: slabs in p = s + kGranule ∧ carved !! p = None ∧ client !! p = None ∧
        inv B0 a' h' slabs' (<[p := c]> carved) free (<[p := n]> client)
    end
  else allocate a h n = Ok (cursor a, bump a c, h) ∧ carved !! cursor a = None ∧ client !! cursor a = None ∧
    inv B0 (bump a c) h slabs (<[cursor a := c]> carved) free (<[cursor a := n]> client).
Proof.
  intros Hn Hl c. destruct (size_class_range n Hn) as [Hr _]. fold c in Hr, Hl.
  destruct (i_free _ _ _ _ _ _ _ Hinv _ Hr) as (x & Hx & Hch & _ & _). rewrite Hl in Hch. simpl in Hch. subst x.
  destruct cursor_room as [Hroom Hempty].
  assert (Hsp : u64 (c * kGranule) = span c) by (unfold span, kGranule; apply u64_small; lia).
  assert (Ha : allocate a h n = carve a h c).
  { unfold allocate. destruct (Z.ltb_spec kMaxBlock n); [lia|]. fold c. rewrite (vget_ok _ _ _ Hx). done. }
  rewrite Ha. unfold carve. rewrite Hsp, (u64_small (limit a - cursor a)) by done.
  destruct (Z.ltb_spec (limit a - cursor a) (span c)) as [Hlt|Hge].
  - assert (Hk : kSlabBytes ≤ kSlabBytes ≤ two63 + kSlabBytes) by (unfold kSlabBytes; lia).
    pose proof (inv_add_slab Hinv kSlabBytes Hk) as Hadd. destruct (operator_new h kSlabBytes) as [[s h1]|e] eqn:E.
    + destruct Hadd as (h' & -> & _ & Hinv1). cbn [mbind res_bind]. exists s. split; [done|]. eapply (inv_bump Hinv1 n c); [done|done|done|].
      simpl. unfold span, kGranule, kSlabBytes in *. lia.
    + rewrite Hadd. by apply (operator_new_fails h kSlabBytes).
  - split; [done|]. apply (inv_bump Hinv n c); [done|done| |lia]. intros Hs%Hempty. unfold span, kGranule in *. lia.
Qed.

Lemma allocate_ok n : 0 ≤ n →
  match allocate a h n with
  | Err e => e = bad_alloc
  | Ok (p, a', h') => client !! p = None ∧ ok B0 a' h' (<[p := n]> client)
  end.
Proof.
  intros Hn. destruct (Z.le_gt_cases n kMaxBlock) as [Hk|Hk].
  2:{ unfold allocate. destruct (Z.ltb_spec kMaxBlock n); [|lia]. destruct (operator_new h n) as [[p h']|] eqn:E; cbn [mbind res_bind].
      - destruct (inv_large_new Hinv n p h' Hk E). split; [done|by eexists _, _, _].
      - by apply (operator_new_fails h n). }
  destruct (free (size_class n)) as [|p l] eqn:Hl.
  - pose proof (allocate_carve n (conj Hn Hk) Hl) as Hc. cbv zeta in Hc. destruct (_ <? _).
    + destruct (allocate a h n) as [[[p a'] h']|]; [|done]. destruct Hc as (s & _ & _ & ? & Hi). split; [done|by eexists _, _, _].
    + destruct Hc as (-> & _ & ? & Hi). split; [done|by eexists _, _, _].
  - destruct (allocate_pop n p l (conj Hn Hk) Hl) as (hd & -> & ? & Hi). split; [done|by eexists _, _, _].
Qed.

(** Giving back a block of the size it was asked for always works. *)
Lemma deallocate_ok p n : client !! p = Some n → ∃ a' h', deallocate a h p n = Ok (a', h') ∧
  (n ≤ kMaxBlock → a' = with_list a (size_class n) p ∧
    inv B0 a' h' slabs carved (set_list free (size_class n) (p :: free (size_class n))) (delete p client)) ∧
  ok B0 a' h' (delete p client).
Proof.
  intros Hp. unfold deallocate. destruct (Z.ltb_spec kMaxBlock n) as [Hk|Hk].
  { destruct (inv_large_delete Hinv p n Hp Hk) as (h' & -> & Hi). exists a, h'. split; [done|]. split; [lia|by eexists _, _, _]. }
  destruct (client_held Hinv p n Hp Hk) as (Hpc & Hpf & Hr & _). set (c := size_class n) in *.
  assert (Hsp : u64 (c * kGranule) = span c) by (unfold span, kGranule; apply u64_small; lia).
  assert (Hset : ∃ m', (if NDEBUG then Ok h else memset h p 221 (u64 (c * kGranule))) = Ok (Memory.mk (blocks h) m') ∧
    inv B0 a (Memory.mk (blocks h) m') slabs carved free client).
  { destruct NDEBUG; [exists (bytes h); by destruct h|]. unfold memset. rewrite Hsp.
    destruct (inv_write Hinv p c p (vmake (span c) 221)) as [-> Hi]; [done|done|lia| |by eexists].
    rewrite zlen_vmake; [done|]. unfold span, kGranule. lia. }
  destruct Hset as (m' & -> & Hi). cbn [mbind res_bind].
  destruct (i_free _ _ _ _ _ _ _ Hi c Hr) as (hd & Hhd & Hch & _ & Hin). rewrite (vget_ok _ _ _ Hhd). cbn [mbind res_bind].
  assert (Hhdr : 0 ≤ hd < two64).
  { destruct (free c) as [|y l]; simpl in Hch; [lia|]. destruct Hch as (-> & _).
    pose proof (block_positive Hi y c (Hin y ltac:(left))). unfold span, kGranule in *. lia. }
  unfold store64. destruct (inv_write Hi p c p (bytes_of 8 hd)) as [-> Hi2]; [done|done|lia| |].
  { rewrite zlen_bytes_of. unfold span, kGranule. lia. }
  cbn [mbind res_bind]. rewrite (vset_ok _ _ _ _ Hhd). cbn [mbind res_bind]. eexists _, _. split; [done|].
  assert (Hi3 : inv B0 (with_list a c p) (Memory.mk (blocks h) (write_bytes m' p (bytes_of 8 hd))) slabs carved
    (set_list free c (p :: free c)) (delete p client)).
  { apply (inv_push Hi2 p n hd); [done|done|done|]. by apply holds_store. }
  split; [intros _; split; [done|exact Hi3]|by eexists _, _, _].
Qed.

(** A client may write anywhere in what it asked for. *)
Lemma write_client_ok p n x bs : client !! p = Some n → p ≤ x → x + zlen bs ≤ p + n → ∃ h', write h x bs = Ok h' ∧
  blocks h' = blocks h ∧ inv B0 a h' slabs carved free client.
Proof.
  intros Hp Hx Hend. destruct (Z.le_gt_cases n kMaxBlock) as [Hk|Hk].
  - destruct (client_held Hinv p n Hp Hk) as (Hpc & Hpf & _ & ?).
    destruct (inv_write Hinv p (size_class n) x bs) as [-> Hi]; [done|done|done|lia|]. by eexists.
  - destruct (big_block Hinv p n Hp Hk) as [Hb Hns].
    destruct (inv_write_big Hinv p n x bs) as [-> Hi]; [done..|]. by eexists.
Qed.

End calls.

End operations.

(** ** ArenaAllocator: a node arena, or the system when the pointer is null *)

Section allocator.
Context {system : System} {build : Build} (sizeof : Z).

Definition allocator_allocate (arena : option NodeArena) (h : Heap) (n : Z) : res (Z * option NodeArena * Heap) :=
  let bytes := u64 (n * sizeof) in
  match arena with
  | Some a => '(p, a, h) ← allocate a h bytes; Ok (p, Some a, h)
  | None => '(p, h) ← operator_new h bytes; Ok (p, None, h)
  end.

Definition allocator_deallocate (arena : option NodeArena) (h : Heap) (p n : Z) : res (option NodeArena * Heap) :=
  let bytes := u64 (n * sizeof) in
  match arena with
  | Some a => '(a, h) ← deallocate a h p bytes; Ok (Some a, h)
  | None => h ← operator_delete h p bytes; Ok (None, h)
  end.

End allocator.

(** A block that comes without asking the system comes on every system. *)
Section unasked.
Context {system : System} {build : Build}.

Lemma allocate_unasked a h n r : allocate (system := exhausted) a h n = Ok r → allocate a h n = Ok r.
Proof.
  unfold allocate, carve, add_slab, operator_new. destruct (kMaxBlock <? n); [by intros ?|].
  destruct (vget (free_list a) (size_class n)) as [b|]; [|done]. cbn [mbind res_bind].
  destruct (negb (b =? 0)); [done|]. destruct (_ <? _); [by intros ?|done].
Qed.

Lemma allocator_allocate_unasked sizeof arena h n r :
  allocator_allocate (system := exhausted) sizeof arena h n = Ok r → allocator_allocate sizeof arena h n = Ok r.
Proof.
  unfold allocator_allocate. destruct arena as [a|]; [|by intros ?].
  destruct (allocate (system := exhausted) a h _) as [x|] eqn:E; [|done]. by rewrite (allocate_unasked _ _ _ _ E).
Qed.

End unasked.

(** ** The arena of a book (src/order_book.cpp)

    [sizeof(std::pair<const Price, PriceLevel>)] is 24: a price and a level. *)

Definition kBytesPerOrder : Z := (24 + 4 * 8 + kGranule - 1) / kGranule * kGranule.

Definition make_arena {system : System} (asan pool_nodes : bool) (expected_orders : Z) (h : Heap) :
    res (option NodeArena * Heap) :=
  if asan || negb pool_nodes then Ok (None, h)
  else '(a, h) ← make h (u64 (expected_orders * kBytesPerOrder)); Ok (Some a, h).

End NodeArena.
