(* ===== verification/ArenaProps.v ===== *)
(** * The node arena is a correct allocator

    Its calls interleave with the writes of its client, who may put anything into
    the blocks it holds: the arena's links live in the blocks it does not hold. *)

From stdpp Require Import base decidable list gmap fin_sets.
From S2P Require Import Prelude.
From S2P Require Import Memory.
From S2P Require Import Arena.
Import Memory.
Import NodeArena.

Section arena.
Context {system : System} {build : Build}.

(** An arena made on the heap [h0], in use: [held] lists every block that was
    handed out and not given back, the address with the size asked for. A block
    handed out twice would be there twice. *)
Inductive in_use (h0 : Heap) : NodeArena → Heap → list (Z * Z) → Prop :=
  | use_make reserve a h : 0 ≤ reserve ≤ two63 → make h0 reserve = Ok (a, h) → in_use h0 a h []
  | use_allocate a h held n p a' h' : in_use h0 a h held → 0 ≤ n →
      allocate a h n = Ok (p, a', h') → in_use h0 a' h' ((p, n) :: held)
  | use_deallocate a h held held' p n a' h' : in_use h0 a h held → held ≡ₚ (p, n) :: held' →
      deallocate a h p n = Ok (a', h') → in_use h0 a' h' held'
  | use_write a h held p n x bs h' : in_use h0 a h held → (p, n) ∈ held → p ≤ x → x + zlen bs ≤ p + n →
      write h x bs = Ok h' → in_use h0 a h' held.

(** Two blocks that share neither their address nor a byte. *)
Definition apart (b c : Z * Z) : Prop := b.1 ≠ c.1 ∧ disjoint b.1 b.2 c.1 c.2.

Definition empty_arena : NodeArena := mk (vmake (kMaxBlock / kGranule + 1) 0) 0 0 0 0.

Lemma inv_empty h : heap_ok h → inv (blocks h) empty_arena h [] ∅ (λ _, []) ∅.
Proof.
  intros Hh. split; simpl; try done.
  - intros p n. split; [by right; right|]. intros [H|[[? _]|?]]; [by apply elem_of_nil in H|done|done].
  - constructor.
  - intros s n H. by apply elem_of_nil in H.
  - intros c Hc. exists 0. split; [apply (zlookup_vmake 17); lia|]. split; [done|]. split; [constructor|].
    intros p H. by apply elem_of_nil in H.
  - intros p c. split; [by intros (? & ? & _)|by intros [? _]].
Qed.

(** The constructor fails only where the system does; a provisioned arena has
    one slab. *)
Lemma arena_make_spec h reserve : heap_ok h → 0 ≤ reserve ≤ two63 →
  match make h reserve with
  | Err e => e = bad_alloc
  | Ok (a, h') => if 0 <? reserve then ∃ s, let n := Z.max (reserve + kGranule) kSlabBytes in
      inv (blocks h) a h' [(s, n)] ∅ (λ _, []) ∅ ∧ cursor a = s + kGranule
    else inv (blocks h) a h' [] ∅ (λ _, []) ∅
  end.
Proof.
  intros Hh Hr. unfold make. fold empty_arena. destruct (Z.ltb_spec 0 reserve); [|by apply inv_empty].
  unfold kGranule, kSlabBytes. rewrite u64_small by lia.
  assert (Hn : kSlabBytes ≤ Z.max (reserve + 16) 65536 ≤ two63 + kSlabBytes) by (unfold kSlabBytes; lia).
  pose proof (inv_add_slab (inv_empty h Hh) _ Hn) as Hadd. destruct (operator_new _ _) as [[s h1]|e] eqn:E.
  - destruct Hadd as (h' & -> & _ & Hi). by exists s.
  - rewrite Hadd. by eapply operator_new_fails.
Qed.

Lemma make_ok h reserve a h' : heap_ok h → 0 ≤ reserve ≤ two63 → make h reserve = Ok (a, h') → ok (blocks h) a h' ∅.
Proof.
  intros Hh Hr Hm. pose proof (arena_make_spec h reserve Hh Hr) as Hs. rewrite Hm in Hs.
  destruct (0 <? reserve); [destruct Hs as (? & ? & _)|]; by eexists _, _, _.
Qed.

(** Blocks by address, once no address is there twice. *)
Lemma held_lookup (held : list (Z * Z)) p n : NoDup held.*1 →
  (p, n) ∈ held ↔ (list_to_map held : gmap Z Z) !! p = Some n.
Proof. intros Hnd. by apply elem_of_list_to_map. Qed.

Lemma in_use_ok h0 a h held : heap_ok h0 → in_use h0 a h held →
  NoDup held.*1 ∧ ok (blocks h0) a h (list_to_map held).
Proof.
  intros Hh0. induction 1 as [reserve a h Hr Hm|a h held n p a' h' _ [Hnd (? & ? & ? & Hi)] Hn Ha|a h held held' p n a' h' _ [Hnd Hok] Hp Hd|a h held p n x bs h' _ [Hnd (? & ? & ? & Hi)] Hp Hx Hend Hw].
  - split; [constructor|]. by eapply make_ok.
  - pose proof (allocate_ok Hi n Hn) as Hok. rewrite Ha in Hok. destruct Hok as [Hnew Hok]. split; [|exact Hok].
    constructor; [|done]. by apply not_elem_of_list_to_map_2.
  - rewrite (list_to_map_proper _ _ Hnd Hp) in Hok. rewrite Hp in Hnd. apply NoDup_cons in Hnd as [Hnew Hnd].
    simpl in Hok. destruct Hok as (? & ? & ? & Hi).
    destruct (deallocate_ok Hi p n ltac:(apply lookup_insert_eq)) as (a1 & h1 & Hd1 & _ & Hok). rewrite Hd in Hd1. injection Hd1 as <- <-.
    split; [done|]. by rewrite delete_insert_id in Hok by by apply not_elem_of_list_to_map_1.
  - apply held_lookup in Hp; [|done]. destruct (write_client_ok Hi p n x bs Hp Hx Hend) as (h1 & Hw1 & _ & Hi1). rewrite Hw in Hw1. injection Hw1 as <-.
    split; [done|]. by eexists _, _, _.
Qed.

(** [allocate] writes only into memory that was in no block. *)
Lemma allocate_frame B0 a h client n p a' h' q m : ok B0 a h client → 0 ≤ n → allocate a h n = Ok (p, a', h') →
  in_block h q m → agree (bytes h) (bytes h') q m.
Proof.
  intros (slabs & carved & free & Hi) Hn Ha (b & k & Hb & Hq & Hend). unfold allocate in Ha. destruct (Z.ltb_spec kMaxBlock n).
  { unfold operator_new, operator_new_aligned in Ha. destruct (choose _ _ _); [|done]. by injection Ha as <- <- <-. }
  destruct (vget _ _) as [x|]; [|done]. cbn [mbind res_bind] in Ha. destruct (negb (x =? 0)).
  { destruct (load64 _ _); [|done]. cbn [mbind res_bind] in Ha. destruct (vset _ _ _); [|done]. by injection Ha as <- <- <-. }
  unfold carve in Ha. destruct (_ <? _); [|by injection Ha as <- <- <-].
  pose proof (add_slab_spec a h kSlabBytes (i_heap _ _ _ _ _ _ _ Hi) (newest_range Hi)) as Hadd.
  destruct (operator_new h kSlabBytes) as [[s h1]|] eqn:E; [|by rewrite Hadd in Ha].
  destruct Hadd as (h2 & Hadd & _ & _ & _ & Hm); [unfold kSlabBytes; lia|]. rewrite Hadd in Ha. injection Ha as <- <- <-.
  assert (H0 : 0 ≤ kSlabBytes) by done. destruct (operator_new_ok _ _ _ _ (i_heap _ _ _ _ _ _ _ Hi) H0 E) as (_ & _ & _ & _ & _ & _ & _ & Hdis).
  intros c Hc. apply Hm. specialize (Hdis b k Hb). unfold disjoint in Hdis. lia.
Qed.

Lemma write_frame h x bs h' q m : write h x bs = Ok h' → disjoint q m x (zlen bs) → agree (bytes h) (bytes h') q m.
Proof. unfold write. destruct (in_blockb _ _ _); [|done]. intros [= <-]. by apply agree_write. Qed.

(** The memory a block of [n] bytes takes. *)
Definition reach (n : Z) : Z := if kMaxBlock <? n then n else span (size_class n).

(** [deallocate] writes only into the block it is given. *)
Lemma deallocate_frame B0 a h client p n a' h' q m : ok B0 a h client → client !! p = Some n →
  deallocate a h p n = Ok (a', h') → disjoint q m p (reach n) →
  agree (bytes h) (bytes h') q m.
Proof.
  intros (slabs & carved & free & Hi) Hp Hd Hq. unfold deallocate in Hd. unfold reach in Hq. destruct (Z.ltb_spec kMaxBlock n).
  { unfold operator_delete in Hd. destruct (bool_decide _); [|done]. by injection Hd as <- <-. }
  destruct (client_held Hi p n Hp) as (_ & _ & Hr & _); [done|]. unfold span, kGranule in *.
  assert (Hset : ∀ h1, (if NDEBUG then Ok h else memset h p 221 (u64 (size_class n * 16))) = Ok h1 → agree (bytes h) (bytes h1) q m).
  { intros h1. destruct NDEBUG; [by intros [= <-]|]. intros Hw. apply (write_frame _ _ _ _ _ _ Hw). rewrite u64_small, zlen_vmake by lia. done. }
  destruct (if NDEBUG then _ else _) as [h1|] eqn:E; [|done]. specialize (Hset h1 eq_refl). cbn [mbind res_bind] in Hd.
  destruct (vget _ _) as [b|]; [|done]. cbn [mbind res_bind] in Hd. destruct (store64 h1 p b) as [h2|] eqn:Es; [|done].
  cbn [mbind res_bind] in Hd. destruct (vset _ _ _); [|done]. injection Hd as <- <-.
  eapply agree_trans; [exact Hset|]. apply (write_frame _ _ _ _ _ _ Es). rewrite zlen_bytes_of. unfold disjoint in *. lia.
Qed.

Section used.
Context (h0 : Heap) (Hh0 : heap_ok h0).

(** Where the blocks in use lie, with all the memory the arena gave them. *)
Lemma ok_reach a h client p n : ok (blocks h0) a h client → client !! p = Some n →
  (16 | p) ∧ 0 < p ∧ n ≤ reach n ∧ in_block h p (reach n) ∧
  (∀ q m, client !! q = Some m → p ≠ q → disjoint p (reach n) q (reach m)) ∧
  (∀ q m, blocks h0 !! q = Some m → disjoint p (reach n) q m).
Proof.
  intros (slabs & carved & free & Hi) Hp. unfold reach.
  assert (Hother : ∀ q m, blocks h !! q = Some m → q ∉ slabs.*1 → p ≠ q → disjoint p (reach n) q m).
  { unfold reach. intros q m Hq Hns Hne. destruct (Z.ltb_spec kMaxBlock n) as [Hn|Hn].
    - destruct (big_block Hi p n Hp Hn) as [Hb _]. by apply (ok_disjoint _ (i_heap _ _ _ _ _ _ _ Hi)).
    - destruct (client_held Hi p n Hp Hn) as (Hpc & _). by apply (block_off_other Hi p _ q m Hpc). }
  assert (Hplace : (16 | p) ∧ 0 < p ∧ n ≤ reach n ∧ in_block h p (reach n)).
  { unfold reach. destruct (Z.ltb_spec kMaxBlock n) as [Hn|Hn].
    - destruct (big_block Hi p n Hp Hn) as [Hb _]. destruct (ok_block _ (i_heap _ _ _ _ _ _ _ Hi) p n Hb) as (? & _ & _ & ?).
      split_and!; [done..|]. exists p, n. split; [done|lia].
    - destruct (client_held Hi p n Hp Hn) as (Hpc & _ & _ & ?). split; [by apply (i_block _ _ _ _ _ _ _ Hi p _ Hpc)|].
      split; [by apply (block_positive Hi p _ Hpc)|]. split; [done|]. by apply (block_in_slab Hi). }
  unfold reach in *. split_and!; try apply Hplace.
  - intros q m Hq Hne. destruct (Z.ltb_spec kMaxBlock m) as [Hm|Hm].
    { destruct (big_block Hi q m Hq Hm). by apply Hother. }
    destruct (client_held Hi q m Hq Hm) as (Hqc & _). destruct (Z.ltb_spec kMaxBlock n) as [Hn|Hn].
    + destruct (big_block Hi p n Hp Hn) as [Hb Hns]. pose proof (block_off_other Hi q _ p n Hqc Hb Hns).
      unfold disjoint in *. lia.
    + destruct (client_held Hi p n Hp Hn) as (Hpc & _). by apply (i_disjoint _ _ _ _ _ _ _ Hi).
  - intros q m Hq. assert (Hqh : blocks h !! q = Some m) by (apply (i_blocks _ _ _ _ _ _ _ Hi); by right; right).
    assert (Hns : q ∉ slabs.*1).
    { intros ([s e] & -> & Hs)%list_elem_of_fmap. destruct (i_slab_own _ _ _ _ _ _ _ Hi _ _ Hs). simpl in Hq. congruence. }
    destruct (decide (p = q)) as [<-|Hne]; [|by apply Hother].
    destruct (Z.ltb_spec kMaxBlock n) as [Hn|Hn].
    + destruct (i_big _ _ _ _ _ _ _ Hi p n Hp Hn). congruence.
    + destruct (client_held Hi p n Hp Hn) as (Hpc & _). by apply (block_off_other Hi p _ p m Hpc).
Qed.

Lemma ok_placed a h client p n : ok (blocks h0) a h client → client !! p = Some n →
  (16 | p) ∧ 0 < p ∧ in_block h p n ∧
  (∀ q m, client !! q = Some m → p ≠ q → disjoint p n q m) ∧
  (∀ q m, blocks h0 !! q = Some m → disjoint p n q m).
Proof.
  intros Hok Hp. destruct (ok_reach _ _ _ _ _ Hok Hp) as (? & ? & ? & ? & Hc & Hb). split_and!; [done|done| | |].
  - eapply in_block_within; [done|lia..].
  - intros q m Hq Hne. specialize (Hc q m Hq Hne). destruct (ok_reach _ _ _ _ _ Hok Hq) as (_ & _ & ? & _).
    unfold disjoint in *. lia.
  - intros q m Hq. specialize (Hb q m Hq). unfold disjoint in *. lia.
Qed.

(** What is not the client's to lose: the blocks it holds and those on the heap
    before the arena. *)
Definition elsewhere (held : list (Z * Z)) (q m : Z) : Prop := (q, m) ∈ held ∨ blocks h0 !! q = Some m.

(** Any two of the blocks handed out are apart. *)
Lemma in_use_apart a h held : in_use h0 a h held →
  ∀ i j b c, i ≠ j → held !! i = Some b → held !! j = Some c → apart b c.
Proof.
  intros [Hnd Hok]%in_use_ok; [|done]. intros i j [p n] [q m] Hij Hi Hj. unfold apart. simpl.
  assert (Hne : p ≠ q).
  { intros <-. apply Hij. eapply (NoDup_lookup held.*1); [done|by rewrite list_lookup_fmap, Hi|by rewrite list_lookup_fmap, Hj]. }
  split; [done|]. apply list_elem_of_lookup_2, held_lookup in Hi, Hj; [|done..].
  destruct (ok_placed _ _ _ _ _ Hok Hi) as (_ & _ & _ & Hc & _). by apply Hc.
Qed.

Lemma in_use_deallocate a h held p n : in_use h0 a h held → (p, n) ∈ held → ∃ a' h', deallocate a h p n = Ok (a', h') ∧
  ∀ q m, elsewhere held q m → (q, m) ≠ (p, n) → agree (bytes h) (bytes h') q m.
Proof.
  intros [Hnd Hok]%in_use_ok; [|done]. intros Hp%held_lookup; [|done]. pose proof Hok as (? & ? & ? & Hi).
  destruct (deallocate_ok Hi p n Hp) as (a' & h' & Hd & _). exists a', h'. split; [done|]. intros q m Hq Hne.
  eapply deallocate_frame; [done..|]. destruct (ok_reach _ _ _ _ _ Hok Hp) as (_ & _ & _ & _ & Hc & Hb).
  destruct Hq as [Hq%held_lookup|Hq]; [|done|specialize (Hb q m Hq); unfold disjoint in *; lia].
  assert (p ≠ q) by (intros <-; congruence). specialize (Hc q m Hq ltac:(done)).
  destruct (ok_reach _ _ _ _ _ Hok Hq) as (_ & _ & ? & _). unfold disjoint in *. lia.
Qed.

(** C27. Memory safety of the node arena, whatever its client writes into the blocks
    it holds. Every block handed out is aligned to the granule, lies inside one
    live block of the system and off every block that was on the heap before; of
    the blocks in use no two share an address or a byte, so no memory is handed
    out twice. [allocate] throws nothing but [std::bad_alloc], [deallocate] of a
    block in use always returns, neither touches memory outside the live blocks,
    and no byte of another block in use, or of the heap before, is changed. *)
Theorem arena_blocks_apart a h held : in_use h0 a h held →
  (∀ p n, (p, n) ∈ held → (16 | p) ∧ 0 < p ∧ in_block h p n ∧ ∀ q m, blocks h0 !! q = Some m → disjoint p n q m) ∧
  (∀ i j b c, i ≠ j → held !! i = Some b → held !! j = Some c → apart b c) ∧
  (∀ n, 0 ≤ n → match allocate a h n with
    | Ok (p, _, h') => Forall (apart (p, n)) held ∧ ∀ q m, elsewhere held q m → agree (bytes h) (bytes h') q m
    | Err e => e = bad_alloc end) ∧
  (∀ p n, (p, n) ∈ held → ∃ a' h', deallocate a h p n = Ok (a', h') ∧
    ∀ q m, elsewhere held q m → (q, m) ≠ (p, n) → agree (bytes h) (bytes h') q m).
Proof.
  intros Hu. destruct (in_use_ok _ _ _ _ Hh0 Hu) as [Hnd Hok]. pose proof Hok as (? & ? & ? & Hi). split_and!.
  - intros p n Hp%held_lookup; [|done]. by destruct (ok_placed _ _ _ _ _ Hok Hp) as (? & ? & ? & _ & ?).
  - by eapply in_use_apart.
  - intros n Hn. pose proof (allocate_ok Hi n Hn) as Ha. destruct (allocate a h n) as [[[p a'] h']|] eqn:E; [|done]. split.
    + apply Forall_forall. intros c [k Hk]%list_elem_of_lookup.
      eapply (in_use_apart _ _ _ (use_allocate _ _ _ _ _ _ _ _ Hu Hn E) 0 (S k)); [done..|exact Hk].
    + intros q m Hq. eapply allocate_frame; [done..|]. destruct Hq as [Hq%held_lookup|Hq]; [|done|].
      * by apply (ok_placed _ _ _ _ _ Hok Hq).
      * exists q, m. split; [|lia]. apply (i_blocks _ _ _ _ _ _ _ Hi). by right; right.
  - intros p n Hp. by apply in_use_deallocate.
Qed.

(** The next block of its class that is asked for is the one given back, and it
    costs no call to the system. *)
Theorem arena_reuses a h held p n : in_use h0 a h held → (p, n) ∈ held → n ≤ kMaxBlock → ∃ a' h', deallocate a h p n = Ok (a', h') ∧
  ∀ m, 0 ≤ m ≤ kMaxBlock → size_class m = size_class n → ∃ a'', allocate a' h' m = Ok (p, a'', h') ∧ slab_bytes a'' = slab_bytes a.
Proof.
  intros [Hnd (slabs & carved & free & Hi)]%in_use_ok Hp%held_lookup Hn; [|done..].
  destruct (deallocate_ok Hi p n Hp) as (a' & h' & Hd & Hsmall & _). exists a', h'. split; [done|]. intros m Hm Hc.
  destruct (Hsmall Hn) as [-> Hi'].
  destruct (allocate_pop Hi' m p (free (size_class n))) as (hd & Ha & _); [done|by rewrite Hc, set_list_eq|]. by eexists.
Qed.

(** ** The destructor *)

Lemma destroy_loop_spec (fuel : nat) h p slabs : heap_ok h → hchain (bytes h) p slabs → NoDup slabs.*1 →
  (∀ s n, (s, n) ∈ slabs → blocks h !! s = Some n ∧ kSlabBytes ≤ n) → (length slabs < fuel)%nat → ∃ h',
  destroy_loop fuel h p = Ok h' ∧ ∀ q, blocks h' !! q = if decide (q ∈ slabs.*1) then None else blocks h !! q.
Proof.
  revert h p slabs. induction fuel as [|fuel IH]; intros h p slabs Hh Hch Hnd Hbl Hf; [lia|]. cbn [destroy_loop].
  destruct slabs as [|[s n] l]; cbn [hchain] in Hch.
  { subst p. exists h. split; [done|]. intros q. rewrite decide_False; [done|]. apply not_elem_of_nil. }
  destruct Hch as (-> & Hn & prev & Hs & Hch). rewrite fmap_cons in Hnd. apply NoDup_cons in Hnd as [Hsl Hnd]. simpl in Hsl.
  destruct (Hbl s n) as [Hb Hsz]; [left|]. destruct (ok_block _ Hh s n Hb) as (Hpos & _ & _ & _). unfold kSlabBytes in *.
  destruct (Z.eqb_spec s 0); [lia|]. rewrite (load64_holds h s prev); [|exists s, n; split; [done|lia]|done]. cbn [mbind res_bind].
  rewrite (load64_holds h (s + 8) n); [|exists s, n; split; [done|lia]|done]. cbn [mbind res_bind].
  destruct (operator_delete_ok h s n Hh Hb) as (h1 & -> & Hh1 & Hb1 & Hm1). cbn [mbind res_bind].
  destruct (IH h1 prev l) as (h' & -> & Hq); [done|by rewrite Hm1|done| |simpl in Hf; lia|].
  { intros s' n' Hs'. destruct (Hbl s' n') as [Hb' ?]; [by right|]. rewrite Hb1, lookup_delete_ne; [done|].
    intros <-. destruct Hsl. by apply (list_elem_of_fmap_2 fst _ _ Hs'). }
  exists h'. split; [done|]. intros q. rewrite Hq, Hb1, fmap_cons. simpl. destruct (decide (q = s)) as [->|Hne].
  - rewrite lookup_delete_eq. rewrite (decide_True (P := s ∈ s :: l.*1)) by left. by destruct (decide _).
  - rewrite lookup_delete_ne by done. destruct (decide (q ∈ l.*1)) as [Hin|Hin].
    + by rewrite decide_True by by right.
    + rewrite decide_False; [done|]. by intros [->|?]%elem_of_cons.
Qed.

Lemma slabs_few B0 a h slabs carved free client : inv B0 a h slabs carved free client → (length slabs ≤ size (blocks h))%nat.
Proof.
  intros Hi. rewrite <-(length_fmap fst slabs), <-size_dom.
  rewrite <-(size_list_to_set (C := gset Z) (slabs.*1)) by by eapply i_slab_nodup.
  apply subseteq_size. intros p. rewrite elem_of_list_to_set, elem_of_dom. intros ([s n] & -> & Hs)%list_elem_of_fmap.
  exists n. by apply (slab_block Hi).
Qed.

Lemma destroy_ok a h client : ok (blocks h0) a h client → ∃ h', destroy a h = Ok h' ∧
  ∀ p n, blocks h' !! p = Some n ↔ blocks h0 !! p = Some n ∨ (client !! p = Some n ∧ kMaxBlock < n).
Proof.
  intros (slabs & carved & free & Hi).
  destruct (destroy_loop_spec (S (size (blocks h))) h (newest a) slabs) as (h' & Hd & Hq).
  - by eapply i_heap.
  - by eapply i_header.
  - by eapply i_slab_nodup.
  - intros s n Hs. split; [by apply (slab_block Hi)|]. by eapply i_slab_own.
  - pose proof (slabs_few _ _ _ _ _ _ _ Hi). lia.
  - exists h'. split; [done|]. intros p n. rewrite Hq. destruct (decide _) as [([s e] & -> & Hs)%list_elem_of_fmap|Hns].
    + split; [done|]. simpl. intros [Hp|[Hp Hn]]; exfalso.
      * destruct (i_slab_own _ _ _ _ _ _ _ Hi s e Hs). congruence.
      * destruct (i_big _ _ _ _ _ _ _ Hi s n Hp Hn) as [_ Hx]. apply Hx. by apply (list_elem_of_fmap_2 fst _ _ Hs).
    + rewrite (i_blocks _ _ _ _ _ _ _ Hi). split; [|by intros [?|?]; [right; right|right; left]].
      intros [Hs|[?|?]]; [|by right|by left]. destruct Hns. by apply (list_elem_of_fmap_2 fst _ _ Hs).
Qed.

(** The destructor gives back every slab, each with its size, and nothing
    else: what is left on the heap is what was there before the arena and the
    large blocks its client still holds. *)
Theorem arena_destroyed_whole a h held : in_use h0 a h held → ∃ h', destroy a h = Ok h' ∧
  ∀ p n, blocks h' !! p = Some n ↔ blocks h0 !! p = Some n ∨ ((p, n) ∈ held ∧ kMaxBlock < n).
Proof.
  intros [Hnd Hok]%in_use_ok; [|done]. destruct (destroy_ok _ _ _ Hok) as (h' & Hd & Hb). exists h'. split; [done|].
  intros p n. by rewrite Hb, held_lookup.
Qed.

(** ** A provisioned arena *)

(** [N] nodes of [sz] bytes at most at a time, from the arena as it was made. *)
Inductive nodes_in_use (N sz : Z) (a0 : NodeArena) (h : Heap) : NodeArena → Heap → gmap Z Z → Prop :=
  | nodes_none : nodes_in_use N sz a0 h a0 h ∅
  | nodes_allocate a h1 client p a' h' : nodes_in_use N sz a0 h a h1 client → Z.of_nat (size client) < N →
      allocate a h1 sz = Ok (p, a', h') → nodes_in_use N sz a0 h a' h' (<[p := sz]> client)
  | nodes_deallocate a h1 client p a' h' : nodes_in_use N sz a0 h a h1 client → client !! p = Some sz →
      deallocate a h1 p sz = Ok (a', h') → nodes_in_use N sz a0 h a' h' (delete p client)
  | nodes_write a h1 client p x bs h' : nodes_in_use N sz a0 h a h1 client → client !! p = Some sz → p ≤ x → x + zlen bs ≤ p + sz →
      write h1 x bs = Ok h' → nodes_in_use N sz a0 h a h' client.

(** One slab, every block of one class, as many as were ever in use at once. *)
Record provisioned (N sz : Z) (a0 : NodeArena) (h0' : Heap) (a : NodeArena) (h : Heap) (client : gmap Z Z) : Prop := {
  p_state : ∃ s e carved free, inv (blocks h0) a h [(s, e)] carved free client ∧
    (∀ p c, carved !! p = Some c → c = size_class sz) ∧
    cursor a = s + kGranule + span (size_class sz) * Z.of_nat (size carved) ∧
    kGranule + span (size_class sz) * N ≤ e ∧ Z.of_nat (size carved) ≤ N;
  p_slabs : slab_bytes a = slab_bytes a0;
  p_blocks : blocks h = blocks h0';
  p_sizes p n : client !! p = Some n → n = sz;
}.

Lemma provisioned_allocate N sz a0 h0' a h client : 0 ≤ sz ≤ kMaxBlock → provisioned N sz a0 h0' a h client →
  Z.of_nat (size client) < N → ∃ p a' h', allocate a h sz = Ok (p, a', h') ∧ client !! p = None ∧
    provisioned N sz a0 h0' a' h' (<[p := sz]> client).
Proof.
  intros Hsz [(s & e & carved & free & Hi & Hc & Hcur & He & HN) Hsl Hb Hsizes] Hlt.
  destruct (size_class_range sz Hsz) as [Hr _]. set (c := size_class sz) in *.
  assert (Hsizes' : ∀ p q n, <[p := sz]> client !! q = Some n → n = sz).
  { intros p q n [[_ <-]|[_ ?]]%lookup_insert_Some; [done|by eapply Hsizes]. }
  destruct (free c) as [|p l] eqn:Hl.
  - assert (Hsub : (size carved ≤ size client)%nat).
    { rewrite <-!size_dom. apply subseteq_size. intros p [d Hp]%elem_of_dom. pose proof (Hc p d Hp) as ->.
      destruct (proj2 (i_client _ _ _ _ _ _ _ Hi p c)) as (n & Hn & _); [rewrite Hl; split; [done|apply not_elem_of_nil]|].
      apply elem_of_dom. by exists n. }
    pose proof (allocate_carve Hi sz Hsz Hl) as Ha. cbv zeta in Ha. fold c in Ha.
    destruct (i_cursor _ _ _ _ _ _ _ Hi) as (_ & Hlim & _).
    assert (Hroom : span c * (Z.of_nat (size carved) + 1) ≤ span c * N).
    { apply Z.mul_le_mono_nonneg_l; [unfold span, kGranule; lia|lia]. }
    destruct (Z.ltb_spec (limit a - cursor a) (span c)); [lia|]. destruct Ha as (-> & Hnone & Hfresh & Hi').
    eexists _, _, _. split; [done|]. split; [done|]. split; [|done|done|by apply Hsizes'].
    exists s, e, (<[cursor a := c]> carved), free. split_and!; [done| | |done|].
    + intros q d [[_ <-]|[_ ?]]%lookup_insert_Some; [done|by eapply Hc].
    + rewrite map_size_insert_None by done. cbn [bump cursor]. rewrite Hcur, Nat2Z.inj_succ. fold c. lia.
    + rewrite map_size_insert_None by done. lia.
  - destruct (allocate_pop Hi sz p l Hsz Hl) as (hd & -> & Hfresh & Hi'). eexists _, _, _. split; [done|]. split; [done|].
    split; [|done|done|by apply Hsizes']. by eexists s, e, carved, _.
Qed.

Lemma provisioned_deallocate N sz a0 h0' a h client p : 0 ≤ sz ≤ kMaxBlock → provisioned N sz a0 h0' a h client →
  client !! p = Some sz → ∃ a' h', deallocate a h p sz = Ok (a', h') ∧ provisioned N sz a0 h0' a' h' (delete p client).
Proof.
  intros Hsz [(s & e & carved & free & Hi & Hrest) Hsl Hb Hsizes] Hp.
  destruct (deallocate_ok Hi p sz Hp) as (a' & h' & Hd & Hsmall & _). exists a', h'. split; [done|].
  destruct Hsmall as [-> Hi']; [lia|]. split; [by eexists s, e, carved, _|done| |].
  - pose proof (i_blocks _ _ _ _ _ _ _ Hi) as H1. pose proof (i_blocks _ _ _ _ _ _ _ Hi') as H2. rewrite <-Hb. apply map_eq.
    intros q. apply option_eq. intros n. rewrite H1, H2. rewrite lookup_delete_Some. split; [intuition|].
    intros [?|[[Hq ?]|?]]; [by left| |by right; right]. pose proof (Hsizes q n Hq). lia.
  - intros q n [_ ?]%lookup_delete_Some. by eapply Hsizes.
Qed.

Lemma provisioned_write N sz a0 h0' a h client p x bs : provisioned N sz a0 h0' a h client →
  client !! p = Some sz → p ≤ x → x + zlen bs ≤ p + sz → ∃ h', write h x bs = Ok h' ∧ provisioned N sz a0 h0' a h' client.
Proof.
  intros [(s & e & carved & free & Hi & Hrest) Hsl Hb Hsizes] Hp Hx Hend.
  destruct (write_client_ok Hi p sz x bs Hp Hx Hend) as (h' & Hw & Hb' & Hi'). exists h'.
  split; [done|]. split; [by eexists s, e, carved, free|done|by rewrite Hb'|done].
Qed.

Lemma nodes_provisioned N sz a0 h0' a h client : 0 ≤ sz ≤ kMaxBlock → provisioned N sz a0 h0' a0 h0' ∅ →
  nodes_in_use N sz a0 h0' a h client → provisioned N sz a0 h0' a h client.
Proof.
  intros Hsz H0. induction 1 as [|a h client p a' h' _ IH Hlt Ha|a h client p a' h' _ IH Hp Hd|a h client p x bs h' _ IH Hp Hx Hend Hw]; [done|..].
  - destruct (provisioned_allocate _ _ _ _ _ _ _ Hsz IH Hlt) as (p1 & a1 & h1 & Ha1 & _ & Hp1). rewrite Ha in Ha1. by injection Ha1 as <- <- <-.
  - destruct (provisioned_deallocate _ _ _ _ _ _ _ _ Hsz IH Hp) as (a1 & h1 & Hd1 & Hp1). rewrite Hd in Hd1. by injection Hd1 as <- <-.
  - destruct (provisioned_write _ _ _ _ _ _ _ _ _ _ IH Hp Hx Hend) as (h1 & Hw1 & Hp1). rewrite Hw in Hw1. by injection Hw1 as <-.
Qed.

(** The arena [make_arena] builds for [N] orders. *)
Lemma arena_make_provisioned N sz a0 h0' : 0 < N ≤ 2 ^ 56 → 0 ≤ sz ≤ kBytesPerOrder →
  make_arena false true N h0 = Ok (Some a0, h0') → 0 ≤ sz ≤ kMaxBlock ∧ provisioned N sz a0 h0' a0 h0' ∅.
Proof.
  change kBytesPerOrder with 64. intros HN Hsz Hmake. unfold make_arena in Hmake. simpl in Hmake.
  change kBytesPerOrder with 64 in Hmake. rewrite u64_small in Hmake by lia.
  destruct (make h0 (N * 64)) as [[a1 h1]|] eqn:Em; [|done]. simpl in Hmake. injection Hmake as -> ->.
  assert (Hspan : span (size_class sz) ≤ 64).
  { unfold span, size_class, kGranule. destruct (Z.eqb_spec sz 0); [lia|]. rewrite u64_small by lia. Z.div_mod_to_equations. lia. }
  assert (Hr : 0 ≤ N * 64 ≤ two63) by lia. pose proof (arena_make_spec h0 (N * 64) Hh0 Hr) as Hs. rewrite Em in Hs.
  destruct (Z.ltb_spec 0 (N * 64)); [|lia]. destruct Hs as (s & Hi & Hcur). cbv zeta in Hi.
  split; [unfold kMaxBlock; lia|]. split; [|done|done|done]. eexists s, _, ∅, _. split; [exact Hi|]. rewrite map_size_empty, Z.mul_0_r, Z.add_0_r.
  split_and!; [done|done| |lia]. assert (span (size_class sz) * N ≤ N * 64) by nia. unfold kGranule, kSlabBytes in *. lia.
Qed.

(** A provisioned book never calls the system allocator while matching: the
    arena the constructor makes for [N] orders holds [N] map nodes at a time, of
    up to [kBytesPerOrder] bytes each, without another slab, in whatever order
    they come and go and whatever is written into them. *)
Theorem provisioned_arena_never_grows N sz a0 h0' a h client : 0 < N ≤ 2 ^ 56 → 0 ≤ sz ≤ kBytesPerOrder →
  make_arena false true N h0 = Ok (Some a0, h0') → nodes_in_use N sz a0 h0' a h client →
  blocks h = blocks h0' ∧ slab_bytes a = slab_bytes a0 ∧
  (Z.of_nat (size client) < N → ∃ p a' h', allocate a h sz = Ok (p, a', h') ∧ blocks h' = blocks h).
Proof.
  intros HN Hsz Hmake Hnodes. destruct (arena_make_provisioned _ _ _ _ HN Hsz Hmake) as [Hsz' H0].
  pose proof (nodes_provisioned _ _ _ _ _ _ _ Hsz' H0 Hnodes) as Hp. split_and!; [by apply Hp|by apply Hp|].
  intros Hlt. destruct (provisioned_allocate _ _ _ _ _ _ _ Hsz' Hp Hlt) as (p & a' & h' & Ha & _ & Hp'). exists p, a', h'.
  split; [done|]. destruct Hp, Hp'. congruence.
Qed.

End used.
End arena.

(** ** Witnesses

    On the system of Memory.v that puts each block above the ones it has. *)

#[local] Existing Instance stacked.

#[local] Instance debug : Build := {| NDEBUG := false; kAsan := false |}.

Lemma demo_in_use : ∃ a h, in_use no_blocks a h [(80, 48); (32, 48)].
Proof.
  do 2 eexists. eapply (use_allocate _ _ _ [(32, 48)] 48 80); [|lia|].
  - eapply (use_allocate _ _ _ [] 48 32); [|lia|].
    + eapply (use_make _ 0); [lia|]. vm_compute. reflexivity.
    + vm_compute. reflexivity.
  - vm_compute. reflexivity.
Qed.

Lemma arena_blocks_apart_witness : ∃ a h, in_use no_blocks a h [(80, 48); (32, 48)] ∧ (16 | 32) ∧ in_block h 32 48 ∧
  apart (80, 48) (32, 48) ∧ ∃ a' h', deallocate a h 32 48 = Ok (a', h') ∧ agree (bytes h) (bytes h') 80 48.
Proof.
  destruct demo_in_use as (a & h & Hu). exists a, h. split; [exact Hu|].
  destruct (arena_blocks_apart no_blocks no_blocks_ok a h [(80, 48); (32, 48)] Hu) as (H1 & H2 & _ & H4).
  destruct (H1 32 48) as (Ha & _ & Hb & _); [right; left|]. split; [exact Ha|]. split; [exact Hb|].
  split; [exact (H2 0%nat 1%nat _ _ (λ e, O_S 0 e) eq_refl eq_refl)|].
  destruct (H4 32 48) as (a' & h' & Hd & Hag); [right; left|]. exists a', h'. split; [exact Hd|].
  apply Hag; [left; left|discriminate].
Defined.

Lemma provisioned_arena_never_grows_witness : ∃ a h a' h' p, make_arena false true 2 no_blocks = Ok (Some a, h) ∧
  allocate a h 56 = Ok (p, a', h') ∧ blocks h' = blocks h.
Proof.
  assert (Hm : ∃ a h, make_arena false true 2 no_blocks = Ok (Some a, h)) by (do 2 eexists; vm_compute; reflexivity).
  destruct Hm as (a & h & Hm).
  assert (HN : 0 < 2 ≤ 2 ^ 56) by (vm_compute; split; congruence).
  assert (Hsz : 0 ≤ 56 ≤ kBytesPerOrder) by (vm_compute; split; congruence).
  destruct (provisioned_arena_never_grows no_blocks no_blocks_ok 2 56 a h a h ∅ HN Hsz Hm (nodes_none _ _ _ _)) as (_ & _ & Hnext).
  destruct Hnext as (p & a' & h' & Ha & Hb); [reflexivity|]. exists a, h, a', h', p. exact (conj Hm (conj Ha Hb)).
Defined.
