(* ===== verification/HugePages.v ===== *)
(** * The huge-page allocator (class HugePageAllocator, include/lob/huge_pages.hpp)

    Large blocks are mapped from the kernel, one huge page too many, and trimmed
    to a boundary; smaller ones come from [::operator new]. Where the kernel puts
    a mapping is its own business, like the system allocator's. The advice to the
    kernel ([madvise]) changes no address and is left out. *)

From stdpp Require Import base decidable list gmap.
From S2P Require Import Prelude.
From S2P Require Import Memory.
Import Memory.

Module HugePages.

Definition kHugePage : Z := 2097152.
Definition kPage : Z := 4096.

Definition within (p n a : Z) : bool := (p <=? a) && (a <? p + n).

(** The kernel's side: its mappings and the two calls the allocator makes.
    [mmap] without an address finds whole pages that are not mapped, or fails
    ([MAP_FAILED] is [None]); [munmap] takes whole pages back, and is taken to
    succeed: the code ignores its result. *)
Class Kernel := {
  Space : Type;
  mapped : Space → Z → bool;
  mmap : Space → Z → option (Z * Space);
  munmap : Space → Z → Z → Space;
  mmap_ok s n p s' : mmap s n = Some (p, s') → 0 < n → (kPage | n) →
    (0 < p ∧ p + n < two64 ∧ (kPage | p) ∧ ∀ a, within p n a = true → mapped s a = false) ∧
    ∀ a, mapped s' a = mapped s a || within p n a;
  munmap_ok s p n a : 0 < n → (kPage | p) → (kPage | n) → mapped (munmap s p n) a = mapped s a && negb (within p n a);
}.

Section pages.
Context {system : System} {kernel : Kernel} (sizeof alignof : Z).

Definition round_up (bytes : Z) : Z := u64 (u64 (bytes + kHugePage - 1) / kHugePage * kHugePage).

Definition map_huge (s : Space) (size : Z) : res (Z * Space) :=
  match mmap s (u64 (size + kHugePage)) with
  | None => Err bad_alloc
  | Some (base, s) =>
      let start := u64 (u64 (base + kHugePage - 1) / kHugePage * kHugePage) in
      let s := if base <? start then munmap s base (start - base) else s in
      let last := u64 (base + size + kHugePage) in
      let s := if u64 (start + size) <? last then munmap s (u64 (start + size)) (last - u64 (start + size)) else s in
      Ok (start, s)
  end.

Definition unmap_huge (s : Space) (p size : Z) : Space := munmap s p size.

Definition kOverAligned : bool := default_alignment <? alignof.

Definition allocate (h : Heap) (s : Space) (n : Z) : res (Z * Heap * Space) :=
  let bytes := u64 (n * sizeof) in
  if kHugePage <=? bytes then '(p, s) ← map_huge s (round_up bytes); Ok (p, h, s)
  else
    '(p, h) ← (if kOverAligned then operator_new_aligned h bytes alignof else operator_new h bytes);
    Ok (p, h, s).

Definition deallocate (h : Heap) (s : Space) (p n : Z) : res (Heap * Space) :=
  let bytes := u64 (n * sizeof) in
  if kHugePage <=? bytes then Ok (h, unmap_huge s p (round_up bytes))
  else h ← operator_delete h p bytes; Ok (h, s).

(** ** Trimming *)

Lemma round_up_spec bytes : 0 ≤ bytes < two63 → bytes ≤ round_up bytes < bytes + kHugePage ∧ (kHugePage | round_up bytes).
Proof.
  unfold round_up, kHugePage. intros Hb. rewrite (u64_small (bytes + _ - 1)) by lia.
  rewrite u64_small by (Z.div_mod_to_equations; lia). split; [Z.div_mod_to_equations; lia|by eexists].
Qed.

Lemma map_huge_spec s size : 0 < size < two63 → (kHugePage | size) →
  match map_huge s size with
  | Err e => e = bad_alloc
  | Ok (p, s') => 0 < p ∧ p + size < two64 ∧ (kHugePage | p) ∧
      (∀ a, within p size a = true → mapped s a = false) ∧ ∀ a, mapped s' a = mapped s a || within p size a
  end.
Proof.
  intros Hsize Hal. unfold map_huge. rewrite (u64_small (size + kHugePage)) by (unfold kHugePage; lia).
  assert (H4 : ∀ x, (2097152 | x) → (4096 | x)) by (intros x [y ->]; exists (y * 512); lia).
  destruct (mmap s (size + kHugePage)) as [[base s1]|] eqn:E; [|done]. unfold kHugePage, kPage in *.
  destruct (mmap_ok _ _ _ _ E) as [(Hpos & Hend & Hpage & Hfree) Hs1]; [lia|apply H4, Z.divide_add_r; [done|by exists 1]|].
  rewrite (u64_small (base + 2097152 - 1)) by lia.
  assert (Hst : base ≤ (base + 2097152 - 1) / 2097152 * 2097152 < base + 2097152) by (Z.div_mod_to_equations; lia).
  assert (Hal2 : (2097152 | (base + 2097152 - 1) / 2097152 * 2097152)) by by eexists.
  remember ((base + 2097152 - 1) / 2097152 * 2097152) as start eqn:Estart. clear Estart.
  rewrite !u64_small by lia.
  assert (Hd1 : (4096 | start - base)) by (apply Z.divide_sub_r; auto).
  assert (Hd2 : (4096 | start + size)) by (apply Z.divide_add_r; auto).
  assert (Hd3 : (4096 | base + size + 2097152 - (start + size))).
  { replace (base + size + 2097152 - (start + size)) with (2097152 - (start - base)) by lia. apply Z.divide_sub_r; [by exists 512|done]. }
  split_and!; [lia|lia|done| |].
  - intros a Ha. apply Hfree. unfold within in *. lia.
  - intros a. destruct (Z.ltb_spec base start); destruct (Z.ltb_spec (start + size) (base + size + 2097152));
      rewrite ?munmap_ok by (done || lia); rewrite Hs1;
      specialize (Hfree a); unfold within in *; destruct (mapped s a); lia.
Qed.

Lemma unmap_huge_spec s p size a : 0 < size → (kHugePage | size) → (kHugePage | p) →
  mapped (unmap_huge s p size) a = mapped s a && negb (within p size a).
Proof.
  unfold kHugePage. intros Hs [x ->] [y ->]. apply munmap_ok; [done|exists (y * 512)|exists (x * 512)]; unfold kPage; lia.
Qed.

(** C30. The huge-page allocator: a block of at least 2 MiB starts on a 2 MiB
    boundary, covers what was asked for with memory that was not mapped before,
    maps less than one page more than that and leaves every other mapping alone; a smaller one
    comes from the system, aligned for its type; giving it back restores the
    mappings and the blocks there were. *)
Theorem huge_block_exact h s n (k : Z) : heap_ok h → alignof = 2 ^ k → 0 ≤ k → 0 < sizeof → 0 < n → n * sizeof < 4611686018427387904 →
  match allocate h s n with
  | Err e => e = bad_alloc
  | Ok (p, h', s') =>
      (alignof ≤ kHugePage → (alignof | p)) ∧
      (if kHugePage <=? n * sizeof then h' = h ∧ (kHugePage | p) ∧
          (∀ a, p ≤ a < p + n * sizeof → mapped s a = false ∧ mapped s' a = true) ∧
          (∀ a, ¬ (p ≤ a < p + n * sizeof + kHugePage) → mapped s' a = mapped s a)
       else s' = s ∧ blocks h' = <[p := n * sizeof]> (blocks h) ∧ blocks h !! p = None) ∧
      ∃ h'' s'', deallocate h' s' p n = Ok (h'', s'') ∧ blocks h'' = blocks h ∧ ∀ a, mapped s'' a = mapped s a
  end.
Proof.
  intros Hh Hal Hk Hsz Hn Hb. unfold allocate, deallocate. rewrite (u64_small (n * sizeof)) by nia.
  destruct (Z.leb_spec kHugePage (n * sizeof)) as [Hbig|Hsmall].
  - destruct (round_up_spec (n * sizeof)) as [Hr Hr2]; [lia|]. assert (Hpos : 0 < round_up (n * sizeof) < two63) by (unfold kHugePage in *; lia).
    pose proof (map_huge_spec s _ Hpos Hr2) as Hm. destruct (map_huge s _) as [[p s']|e]; [|done].
    destruct Hm as (Hp & Hend & Hp2 & Hfree & Hmap). cbn [mbind res_bind]. split_and!; [|done|done| | |].
    + intros Hle. etrans; [|exact Hp2]. subst alignof. change kHugePage with (2 ^ 21) in *.
      apply Z.pow_le_mono_r_iff in Hle; [|lia..]. exists (2 ^ (21 - k)). rewrite <-Z.pow_add_r by lia. f_equal. lia.
    + intros a Ha. rewrite Hmap. specialize (Hfree a). unfold within in *. split; [apply Hfree; lia|]. apply orb_true_iff. right. lia.
    + intros a Ha. rewrite Hmap. unfold within. destruct (mapped s a); [done|]. apply andb_false_iff. lia.
    + exists h, (unmap_huge s' p (round_up (n * sizeof))). split_and!; [done|done|]. intros a.
      rewrite unmap_huge_spec, Hmap by (done || lia). specialize (Hfree a). destruct (within _ _ a); [by rewrite Hfree|].
      by rewrite orb_false_r, andb_true_r.
  - assert (Hn0 : 0 ≤ n * sizeof) by nia.
    assert (Hnew : ∃ al, (if kOverAligned then operator_new_aligned h (n * sizeof) alignof else operator_new h (n * sizeof)) = operator_new_aligned h (n * sizeof) al ∧
      0 < al ∧ (16 | al) ∧ (alignof | al)).
    { unfold kOverAligned, default_alignment. subst alignof. destruct (Z.ltb_spec 16 (2 ^ k)) as [Ho|Ho]; change 16 with (2 ^ 4) in *.
      - exists (2 ^ k). apply Z.pow_lt_mono_r_iff in Ho; [|lia..]. split_and!; [done|by apply pow2_pos| |done].
        exists (2 ^ (k - 4)). rewrite <-Z.pow_add_r by lia. f_equal. lia.
      - exists (2 ^ 4). apply Z.pow_le_mono_r_iff in Ho; [|lia..]. split_and!; [done|done|done|].
        exists (2 ^ (4 - k)). rewrite <-Z.pow_add_r by lia. f_equal. lia. }
    destruct Hnew as (al & -> & Hal0 & H16 & Hdv). destruct (operator_new_aligned _ _ _) as [[p h1]|e] eqn:E; cbn [mbind res_bind];
      [|by eapply operator_new_aligned_fails].
    destruct (operator_new_aligned_ok _ _ _ _ _ Hh Hn0 Hal0 H16 E) as (Hh1 & Hfresh & Hb1 & _ & _ & _ & Hpal & _).
    split_and!; [intros _; by etrans|done|done|done|].
    destruct (operator_delete_ok h1 p (n * sizeof) Hh1) as (h2 & -> & _ & Hb2 & _); [by rewrite Hb1, lookup_insert_eq|].
    exists h2, s. split_and!; [done| |done]. by rewrite Hb2, Hb1, delete_insert_id.
Qed.

End pages.

(** ** Witness

    A kernel that lists what it has mapped ([true]) and unmapped, newest first,
    and maps above everything it has mapped before. *)

Fixpoint listed (s : list (bool * Z * Z)) (a : Z) : bool :=
  match s with
  | [] => false
  | (b, p, n) :: s => if within p n a then b else listed s a
  end.

Definition above (s : list (bool * Z * Z)) : Z := foldr (λ x t, Z.max t (x.1.2 + x.2)) kPage s.

Lemma listed_above s a : above s ≤ a → listed s a = false.
Proof.
  induction s as [|[[b p] n] s IH]; [done|]. cbn [listed above foldr fst snd]. fold (above s). intros Ha.
  replace (within p n a) with false by (unfold within; lia). apply IH. lia.
Qed.

Lemma above_positive s : kPage ≤ above s.
Proof. induction s as [|x s IH]; simpl; unfold above in *; simpl; lia. Qed.

#[local] Instance rising : Kernel.
Proof.
  refine {| Space := list (bool * Z * Z); mapped := listed;
    mmap := λ s n, let p := (above s + kPage - 1) / kPage * kPage in if p + n <? two64 then Some (p, (true, p, n) :: s) else None;
    munmap := λ s p n, (false, p, n) :: s |}.
  - intros s n p s'. cbv zeta. pose proof (above_positive s). unfold kPage in *.
    destruct (Z.ltb_spec ((above s + 4096 - 1) / 4096 * 4096 + n) two64); [|done]. intros [= <- <-] Hn _.
    assert (above s ≤ (above s + 4096 - 1) / 4096 * 4096) by (Z.div_mod_to_equations; lia). split.
    + split_and!; [lia|done|by eexists|]. intros a Ha. apply listed_above. unfold within in Ha. lia.
    + intros a. cbn [listed]. destruct (within _ n a); by rewrite ?orb_true_r, ?orb_false_r.
  - intros s p n a _ _ _. cbn [listed]. destruct (within p n a); by rewrite ?andb_false_r, ?andb_true_r.
Defined.

#[local] Instance nothing_left : System.
Proof. by refine {| choose := λ _ _ _, None |}. Defined.

Lemma huge_block_exact_witness : ∃ p h s, allocate 32 32 (Memory.mk ∅ ∅) ([] : list (bool * Z * Z)) 100000 = Ok (p, h, s) ∧ (kHugePage | p) ∧ mapped s p = true.
Proof.
  pose proof (huge_block_exact 32 32 (Memory.mk ∅ ∅) ([] : list (bool * Z * Z)) 100000 5 ltac:(split; discriminate) eq_refl ltac:(discriminate) eq_refl eq_refl eq_refl) as H.
  assert (E : ∃ r, allocate 32 32 (Memory.mk ∅ ∅) ([] : list (bool * Z * Z)) 100000 = Ok r) by (eexists; vm_compute; reflexivity).
  destruct E as ([[p h] s] & E). rewrite E in H. exists p, h, s. split; [exact E|].
  destruct H as (_ & (_ & H1 & H2 & _) & _). split; [exact H1|]. apply H2. split; [apply Z.le_refl|].
  apply Z.lt_add_pos_r. reflexivity.
Defined.

End HugePages.
