(* ===== verification/Types.v ===== *)
(** * The data of the book (include/lob/order_book.hpp, slot_pool.hpp)

    Enumerations, the order records, trades, execution reports and the
    configuration, with the fields of the C++ structs in their order. Field
    names carry a short prefix where several structs share one. *)

From stdpp Require Import base decidable list.
From S2P Require Import Prelude.

Abbreviation OrderId := Z (only parsing).        (* uint64 *)
Abbreviation Price := Z (only parsing).          (* uint64, ticks *)
Abbreviation Quantity := Z (only parsing).       (* uint32 *)
Abbreviation Volume := Z (only parsing).         (* uint64 *)
Abbreviation ParticipantId := Z (only parsing).  (* uint32 *)
Abbreviation Sequence := Z (only parsing).       (* uint64 *)
Abbreviation SlotIndex := Z (only parsing).      (* uint32 *)

Definition kAnonymous : ParticipantId := 0.

(** [std::numeric_limits<SlotIndex>::max()]: "no slot". *)
Definition kNoSlot : SlotIndex := two32 - 1.

(** [std::numeric_limits<Price>::max()]. *)
Definition kMaxPrice : Price := two64 - 1.

(** [lia] with the limits' values. *)
Ltac bounds := unfold kNoSlot, kMaxPrice in *; lia.

Inductive Side := Buy | Sell.

Inductive SelfTradePolicy := Allow | CancelResting | CancelIncoming.

(** An order as the API reports it. *)
Record Order := MkOrder {
  o_id : OrderId;
  o_owner : ParticipantId;
  o_price : Price;
  o_qty : Quantity;
  o_side : Side;
}.

(** What the book keeps per resting order. *)
Record RestingOrder := MkRestingOrder {
  r_id : OrderId;
  r_price : Price;
  r_qty : Quantity;
  r_owner : ParticipantId;
}.

(** One price's FIFO queue: total quantity and the two ends. *)
Record PriceLevel := MkPriceLevel {
  total_qty : Volume;
  level_head : SlotIndex;
  level_tail : SlotIndex;
}.

(** [PriceLevel{}]. *)
Definition empty_level : PriceLevel := MkPriceLevel 0 kNoSlot kNoSlot.

(** [PriceLevel::empty()]. *)
Definition level_empty (l : PriceLevel) : bool := level_head l =? kNoSlot.

(** One fill. *)
Record Trade := MkTrade {
  t_seq : Sequence;
  t_maker_id : OrderId;
  t_taker_id : OrderId;
  t_price : Price;
  t_qty : Quantity;
  t_taker_side : Side;
}.

(** What happened to an incoming order. *)
Record ExecReport := MkExecReport {
  first_seq : Sequence;
  trade_count : Z;          (* uint32 *)
  filled : Quantity;
  remaining : Quantity;
  stp_cancelled : Volume;
  rested : bool;
  accepted : bool;
  stp_halted : bool;
}.

(** [ExecReport{}]. *)
Definition ExecReport0 : ExecReport :=
  MkExecReport 0 0 0 0 0 false true false.

Record Config := MkConfig {
  self_trade : SelfTradePolicy;
  trade_capacity : Z;
  pool_nodes : bool;
  expected_orders : Z;
  price_levels : Z;
  price_base : option Price;
}.

(** [Config{}]. *)
Definition default_config : Config :=
  MkConfig CancelResting 4096 true 0 1024 None.

#[global] Instance Side_eq_dec : EqDecision Side.
Proof. solve_decision. Defined.
#[global] Instance SelfTradePolicy_eq_dec : EqDecision SelfTradePolicy.
Proof. solve_decision. Defined.
#[global] Instance Order_eq_dec : EqDecision Order.
Proof. solve_decision. Defined.
#[global] Instance RestingOrder_eq_dec : EqDecision RestingOrder.
Proof. solve_decision. Defined.
#[global] Instance PriceLevel_eq_dec : EqDecision PriceLevel.
Proof. solve_decision. Defined.
#[global] Instance Trade_eq_dec : EqDecision Trade.
Proof. solve_decision. Defined.
#[global] Instance ExecReport_eq_dec : EqDecision ExecReport.
Proof. solve_decision. Defined.

Definition side_eqb (a b : Side) : bool := bool_decide (a = b).
Definition policy_eqb (a b : SelfTradePolicy) : bool := bool_decide (a = b).

(** The side an order of side [s] trades against. *)
Definition opposite (s : Side) : Side := match s with Buy => Sell | Sell => Buy end.

(** The fields are in range for their C++ types. *)
Definition resting_ok (r : RestingOrder) : Prop :=
  0 ≤ r_id r < two64 ∧ 0 ≤ r_price r < two64 ∧ 0 < r_qty r < two32 ∧ 0 ≤ r_owner r < two32.

(** Updates of one field, as the code's assignments make them. *)
Definition r_with_qty (r : RestingOrder) (q : Quantity) : RestingOrder :=
  MkRestingOrder (r_id r) (r_price r) q (r_owner r).

Definition o_with_qty (o : Order) (q : Quantity) : Order :=
  MkOrder (o_id o) (o_owner o) (o_price o) q (o_side o).

Definition level_with_total (l : PriceLevel) (v : Volume) : PriceLevel :=
  MkPriceLevel v (level_head l) (level_tail l).

Definition rep_reject (q : Quantity) : ExecReport :=
  MkExecReport 0 0 0 q 0 false false false.

Definition rep_halt (r : ExecReport) : ExecReport :=
  MkExecReport (first_seq r) (trade_count r) (filled r) (remaining r) (stp_cancelled r)
    (rested r) (accepted r) true.

Definition rep_with_remaining (r : ExecReport) (q : Quantity) : ExecReport :=
  MkExecReport (first_seq r) (trade_count r) (filled r) q (stp_cancelled r)
    (rested r) (accepted r) (stp_halted r).

Definition rep_rested (r : ExecReport) : ExecReport :=
  MkExecReport (first_seq r) (trade_count r) (filled r) (remaining r) (stp_cancelled r)
    true (accepted r) (stp_halted r).

(** [rep.stp_cancelled += q]. *)
Definition rep_stp_cancel (r : ExecReport) (q : Quantity) : ExecReport :=
  MkExecReport (first_seq r) (trade_count r) (filled r) (remaining r)
    (u64 (stp_cancelled r + q)) (rested r) (accepted r) (stp_halted r).

(** One fill of [q] with sequence number [seq] entered in the report:
    [if (rep.trade_count == 0) rep.first_seq = next_seq; ++rep.trade_count;
    rep.filled += traded]. *)
Definition rep_fill (r : ExecReport) (seq : Sequence) (q : Quantity) : ExecReport :=
  MkExecReport (if trade_count r =? 0 then seq else first_seq r)
    (u32 (trade_count r + 1)) (u32 (filled r + q)) (remaining r)
    (stp_cancelled r) (rested r) (accepted r) (stp_halted r).

(** ** Sides, limits and self trades *)

(** The template argument [IsBid] of a side's ladder. *)
Definition is_bid (s : Side) : bool := match s with Buy => true | Sell => false end.

(** [crosses(level_price)], the closure of [match]. *)
Definition crosses (side : Side) (limit : option Price) (level_price : Price) : bool :=
  match limit with
  | None => true
  | Some lim => match side with Buy => level_price <=? lim | Sell => lim <=? level_price end
  end.

Definition stp_possible (pol : SelfTradePolicy) (owner : ParticipantId) : bool :=
  negb (policy_eqb pol Allow) && negb (owner =? kAnonymous).

(** A resting order as the book stores it and as the API reports it. *)
Definition resting_of (o : Order) : RestingOrder :=
  MkRestingOrder (o_id o) (o_price o) (o_qty o) (o_owner o).

Definition order_of (side : Side) (r : RestingOrder) : Order :=
  MkOrder (r_id r) (r_owner r) (r_price r) (r_qty r) side.
