(* ===== verification/Ring.v ===== *)
(** * The trade ring (TradeRing, src/order_book.cpp)

    A fixed-capacity ring of trades addressed by two free-running 64-bit
    cursors, and its refinement of a bounded FIFO list that counts what it
    drops. *)

From stdpp Require Import base decidable list.
From S2P Require Import Prelude.
From S2P Require Import Types.

Module TradeRing.

Record TradeRing := mk {
  buffer : list Trade;      (* size is a power of two *)
  mask : Z;
  head : Z;                 (* write cursor *)
  tail : Z;                 (* read cursor *)
  drop_count : Z;
}.

(** [p = 1; while (p < n) p <<= 1;]: 65 tests are enough for a 64-bit [p],
    which is 0 from the 65th on. *)
Fixpoint round_up_loop (fuel : nat) (p n : Z) : res Z :=
  match fuel with
  | O => Err out_of_fuel
  | S fuel => if p <? n then round_up_loop fuel (u64 (Z.shiftl p 1)) n else Ok p
  end.

Definition round_up_pow2 (n : Z) : res Z := round_up_loop 65 1 n.

(** [Trade{}]: what the vector's value-initialised elements hold. *)
Definition zero_trade : Trade := MkTrade 0 0 0 0 0 Buy.

Definition make (cap : Z) : res TradeRing :=
  n ← round_up_pow2 (if cap =? 0 then 1 else cap);
  Ok (mk (vmake n zero_trade) (u64 (n - 1)) 0 0 0).

Definition size (r : TradeRing) : Z := u64 (head r - tail r).
Definition capacity (r : TradeRing) : Z := zlen (buffer r).
Definition empty (r : TradeRing) : bool := head r =? tail r.
Definition full (r : TradeRing) : bool := size r =? zlen (buffer r).
Definition dropped (r : TradeRing) : Z := drop_count r.

Definition push (r : TradeRing) (t : Trade) : res (bool * TradeRing) :=
  if full r then
    Ok (false, mk (buffer r) (mask r) (head r) (tail r) (u64 (drop_count r + 1)))
  else
    b ← vset (buffer r) (Z.land (head r) (mask r)) t;
    Ok (true, mk b (mask r) (u64 (head r + 1)) (tail r) (drop_count r)).

(** [pop]: [None] is the [false] return, which leaves [out] alone. *)
Definition pop (r : TradeRing) : res (option Trade * TradeRing) :=
  if empty r then Ok (None, r)
  else
    t ← vget (buffer r) (Z.land (tail r) (mask r));
    Ok (Some t, mk (buffer r) (mask r) (head r) (u64 (tail r + 1)) (drop_count r)).

(** [while (trades.pop(t)) on_trade(t)]: the trades the callback sees, in order. *)
Fixpoint drain_loop (fuel : nat) (r : TradeRing) : res (list Trade * TradeRing) :=
  match fuel with
  | O => Err out_of_fuel
  | S fuel =>
      '(o, r) ← pop r;
      match o with
      | None => Ok ([], r)
      | Some t => '(ts, r) ← drain_loop fuel r; Ok (t :: ts, r)
      end
  end.

Definition drain (r : TradeRing) : res (list Trade * TradeRing) :=
  drain_loop (S (Z.to_nat (size r))) r.

(** ** Abstract specification: a bounded list that counts its drops *)

Record Fifo := MkFifo { items : list Trade; bound : Z; lost : Z }.

Definition fifo_push (q : Fifo) (t : Trade) : Fifo :=
  if zlen (items q) =? bound q then MkFifo (items q) (bound q) (u64 (lost q + 1))
  else MkFifo (items q ++ [t]) (bound q) (lost q).

(** The slot of the [i]-th oldest trade. *)
Definition cell (r : TradeRing) (i : nat) : option Trade :=
  (buffer r).[Z.land (u64 (tail r + Z.of_nat i)) (mask r)].

Definition contents (r : TradeRing) : list Trade :=
  omap (cell r) (seq 0 (Z.to_nat (size r))).

Definition abs (r : TradeRing) : Fifo := MkFifo (contents r) (capacity r) (drop_count r).

Record wf (r : TradeRing) : Prop := {
  wf_capacity : ∃ k, 0 ≤ k ≤ 63 ∧ zlen (buffer r) = 2 ^ k ∧ mask r = 2 ^ k - 1;
  wf_head : 0 ≤ head r < two64;
  wf_tail : 0 ≤ tail r < two64;
  wf_size : size r ≤ zlen (buffer r);
}.

(** ** Capacity *)

Lemma round_up_loop_spec (fuel : nat) k n :
  0 ≤ k → (0 < k → 2 ^ (k - 1) < n) → n ≤ two63 → 64 - k ≤ Z.of_nat fuel →
  ∃ j, k ≤ j ≤ 63 ∧ round_up_loop fuel (2 ^ k) n = Ok (2 ^ j) ∧ n ≤ 2 ^ j ∧
    (0 < j → 2 ^ (j - 1) < n).
Proof.
  revert k. induction fuel as [|fuel IH]; intros k Hk Hlow Hn Hf.
  { assert (k = 64 ∨ 64 < k) as Hk64 by lia.
    assert (2 ^ 63 ≤ 2 ^ (k - 1)) by (apply Z.pow_le_mono_r; lia). lia. }
  simpl. destruct (Z.ltb_spec (2 ^ k) n) as [Hlt|Hge].
  - assert (k < 63). { destruct (Z.lt_ge_cases k 63) as [|Hge]; [done|].
      assert (2 ^ 63 ≤ 2 ^ k) by (apply Z.pow_le_mono_r; lia). lia. }
    rewrite Z.shiftl_mul_pow2 by lia. rewrite <-Z.pow_add_r by lia.
    rewrite u64_small.
    2:{ split; [apply Z.pow_nonneg; lia|]. change two64 with (2 ^ 64).
        apply Z.pow_lt_mono_r; lia. }
    destruct (IH (k + 1)) as (j & ? & ? & ? & ?); [lia| |lia..|].
    { intros _. by replace (k + 1 - 1) with k by lia. }
    exists j. split_and!; [lia|lia|done..].
  - exists k. split_and!; try done. destruct (Z.lt_ge_cases 63 k); [|lia].
    exfalso. assert (2 ^ 63 ≤ 2 ^ (k - 1)) by (apply Z.pow_le_mono_r; lia). lia.
Qed.

Lemma round_up_pow2_spec n :
  n ≤ two63 →
  ∃ j, 0 ≤ j ≤ 63 ∧ round_up_pow2 n = Ok (2 ^ j) ∧ n ≤ 2 ^ j ∧ (0 < j → 2 ^ (j - 1) < n).
Proof. intros Hn. apply (round_up_loop_spec 65 0 n); lia. Qed.

(** Past 2^63 the shift wraps to 0, and the loop never ends. *)
Lemma round_up_loop_zero (fuel : nat) n : 0 < n → round_up_loop fuel 0 n = Err out_of_fuel.
Proof.
  intros Hn. induction fuel as [|fuel IH]; [done|]. simpl.
  destruct (Z.ltb_spec 0 n); [apply IH | lia].
Qed.

Lemma round_up_loop_diverges (fuel : nat) k n :
  0 ≤ k ≤ 63 → two63 < n → round_up_loop fuel (2 ^ k) n = Err out_of_fuel.
Proof.
  revert k. induction fuel as [|fuel IH]; intros k Hk Hn; [done|]. simpl.
  pose proof (pow2_le_63 k Hk). destruct (Z.ltb_spec (2 ^ k) n); [|lia].
  rewrite Z.shiftl_mul_pow2, <-Z.pow_add_r by lia.
  destruct (decide (k = 63)) as [->|].
  - by apply round_up_loop_zero; lia.
  - rewrite u64_small; [apply IH; lia|]. split; [apply Z.pow_nonneg; lia|].
    change two64 with (2 ^ 64). apply Z.pow_lt_mono_r; lia.
Qed.

(** ** The cursors and the contents *)

Section with_ring.
Context (r : TradeRing) (Hwf : wf r).

Lemma ring_pos k : 0 ≤ k ≤ 63 → mask r = 2 ^ k - 1 → ∀ x,
  Z.land (u64 x) (mask r) = x mod 2 ^ k.
Proof. intros ? -> x. rewrite land_pow2_mask, u64_mod_pow2; [done|lia..]. Qed.

Lemma cell_eq k (i : nat) : 0 ≤ k ≤ 63 → mask r = 2 ^ k - 1 →
  cell r i = (buffer r).[(tail r + Z.of_nat i) mod 2 ^ k].
Proof. intros. unfold cell. by rewrite (ring_pos k). Qed.

Lemma cell_Some (i : nat) : ∃ t, cell r i = Some t.
Proof.
  destruct (wf_capacity _ Hwf) as (k & Hk & Hb & Hm).
  rewrite (cell_eq k) by done. apply zlookup_lt. rewrite Hb.
  apply Z.mod_pos_bound, pow2_pos. lia.
Qed.

Lemma contents_spec :
  zlen (contents r) = size r ∧ ∀ i : nat, Z.of_nat i < size r → contents r !! i = cell r i.
Proof.
  pose proof (u64_range (head r - tail r)) as Hr. fold (size r) in Hr.
  destruct (omap_seq_lookup (cell r) (Z.to_nat (size r)) 0) as [Hl Hi].
  { intros i _. destruct (cell_Some i) as [t ->]. done. }
  unfold zlen, contents. split; [rewrite Hl; lia|]. intros i ?. by rewrite Hi by lia.
Qed.

Lemma contents_unique l :
  zlen l = size r → (∀ (i : nat) t, l !! i = Some t → cell r i = Some t) → contents r = l.
Proof.
  intros Hl Hi. destruct contents_spec as [Hcl Hci]. apply list_eq. intros i.
  destruct (l !! i) as [t|] eqn:E.
  - rewrite Hci; [by apply Hi|]. apply lookup_lt_Some in E. unfold zlen in *. lia.
  - apply lookup_ge_None in E. apply lookup_ge_None. unfold zlen in *. lia.
Qed.
End with_ring.

(** ** The operations refine the bounded list *)

Lemma ring_make_wf cap :
  0 ≤ cap ≤ two63 → ∃ r, make cap = Ok r ∧ wf r ∧ contents r = [] ∧ drop_count r = 0 ∧
    cap ≤ capacity r ∧ 0 < capacity r.
Proof.
  intros Hcap. unfold make.
  destruct (round_up_pow2_spec (if cap =? 0 then 1 else cap)) as (j & Hj & -> & Hle & _).
  { by case_match; lia. }
  pose proof (pow2_pos j ltac:(lia)). pose proof (pow2_le_63 j Hj).
  simpl. eexists. split; [done|]. split_and!; try done.
  - split; simpl; rewrite ?zlen_vmake by lia; try lia.
    + exists j. rewrite u64_small by lia. done.
    + change (size _) with 0. lia.
  - unfold capacity. simpl. rewrite zlen_vmake by lia. by case_match; lia.
  - unfold capacity. simpl. rewrite zlen_vmake by lia. lia.
Qed.

Lemma push_full r t : wf r → size r = capacity r →
  push r t = Ok (false, mk (buffer r) (mask r) (head r) (tail r) (u64 (drop_count r + 1))).
Proof. intros Hwf Hs. unfold push, full. fold (capacity r). by rewrite Hs, Z.eqb_refl. Qed.

Lemma push_room r t : wf r → size r ≠ capacity r → ∃ r',
  push r t = Ok (true, r') ∧ wf r' ∧ contents r' = contents r ++ [t] ∧
  capacity r' = capacity r ∧ drop_count r' = drop_count r.
Proof.
  intros Hwf Hs. pose proof (contents_spec r Hwf) as [Hcl Hci].
  destruct (wf_capacity _ Hwf) as (k & Hk & Hb & Hm).
  pose proof (wf_head _ Hwf). pose proof (wf_tail _ Hwf). pose proof (wf_size _ Hwf).
  pose proof (pow2_pos k ltac:(lia)). pose proof (pow2_le_63 k Hk).
  assert (Hpos : Z.land (head r) (mask r) = head r mod 2 ^ k).
  { by rewrite Hm, land_pow2_mask by lia. }
  assert (Hcur : head r mod 2 ^ k = (tail r + size r) mod 2 ^ k).
  { unfold size. rewrite <-(u64_mod_pow2 (tail r + _)) by lia. rewrite u64_add_r.
    replace (tail r + (head r - tail r)) with (head r) by lia. by rewrite u64_small. }
  unfold push, full. fold (capacity r).
  destruct (Z.eqb_spec (size r) (capacity r)); [done|].
  rewrite vset_in_range by (rewrite Hpos, Hb; by apply Z.mod_pos_bound). simpl.
  set (r' := mk _ _ _ _ _). exists r'. unfold capacity in *.
  assert (Hsize : size r' = size r + 1).
  { unfold size, r'. simpl. rewrite u64_sub_l. replace (head r + 1 - tail r)
      with ((head r - tail r) + 1) by lia. rewrite <-u64_add_l.
    apply u64_small. fold (size r). unfold size in *. pose proof (u64_range (head r - tail r)). lia. }
  assert (Hwf' : wf r').
  { split; unfold r'; simpl; rewrite ?zlen_zset; [by exists k | apply u64_range | done|].
    fold r'. rewrite Hsize. lia. }
  split_and!; [done|done| |unfold r'; simpl; by rewrite zlen_zset|done].
  apply contents_unique; [done| |].
  { rewrite zlen_app, Hcl, Hsize. done. }
  intros i x Hx. rewrite (cell_eq r' k) by done. unfold r'; simpl. rewrite Hpos, Hcur.
  apply lookup_app_Some in Hx as [Hx|[Hge Hx]].
  - assert (Hi : Z.of_nat i < size r) by (apply lookup_lt_Some in Hx; unfold zlen in Hcl; lia).
    rewrite zlookup_zset_ne.
    + rewrite <-(cell_eq r k), <-Hci by done. done.
    + intros Heq%mod_window; [lia|]. split; lia.
  - apply list_lookup_singleton_Some in Hx as [Hi ->].
    assert (Z.of_nat i = size r) as -> by (unfold zlen in Hcl; lia).
    apply zlookup_zset_eq. rewrite Hb. by apply Z.mod_pos_bound.
Qed.

Lemma push_refines r t : wf r → ∃ r',
  push r t = Ok (negb (full r), r') ∧ wf r' ∧ abs r' = fifo_push (abs r) t.
Proof.
  intros Hwf. pose proof (contents_spec r Hwf) as [Hcl Hci]. unfold fifo_push. simpl. rewrite Hcl.
  unfold full. fold (capacity r). destruct (Z.eqb_spec (size r) (capacity r)) as [E|E].
  - rewrite push_full by done. eexists. split; [done|]. split; [|done].
    destruct Hwf. by split.
  - destruct (push_room r t Hwf E) as (r' & -> & Hwf' & Hc & Hcap & Hd).
    exists r'. split_and!; [done..|]. unfold abs. by rewrite Hc, Hcap, Hd.
Qed.

Lemma pop_empty r : wf r → contents r = [] → pop r = Ok (None, r).
Proof.
  intros Hwf Hc. pose proof (contents_spec r Hwf) as [Hcl _]. rewrite Hc in Hcl.
  unfold pop, empty. destruct (Z.eqb_spec (head r) (tail r)); [done|].
  pose proof (wf_head _ Hwf). pose proof (wf_tail _ Hwf).
  unfold size, zlen in Hcl. simpl in Hcl. exfalso. solve_word.
Qed.

Lemma pop_cons r t l : wf r → contents r = t :: l → ∃ r',
  pop r = Ok (Some t, r') ∧ wf r' ∧ abs r' = MkFifo l (capacity r) (drop_count r).
Proof.
  intros Hwf Hc. pose proof (contents_spec r Hwf) as [Hcl Hci].
  destruct (wf_capacity _ Hwf) as (k & Hk & Hb & Hm).
  pose proof (wf_head _ Hwf). pose proof (wf_tail _ Hwf). pose proof (wf_size _ Hwf).
  rewrite Hc, zlen_cons in Hcl. pose proof (zlen_nonneg l).
  pose proof (u64_range (head r - tail r)) as Hsr. fold (size r) in Hsr.
  unfold pop, empty. destruct (Z.eqb_spec (head r) (tail r)) as [E|_].
  { exfalso. unfold size in Hcl. rewrite E, Z.sub_diag in Hcl. change (u64 0) with 0 in Hcl. lia. }
  assert (Hg : (buffer r).[Z.land (tail r) (mask r)] = Some t).
  { rewrite Hm, land_pow2_mask by lia. specialize (Hci 0%nat ltac:(lia)).
    rewrite Hc, (cell_eq r k) in Hci by done. simpl in Hci. by rewrite Z.add_0_r in Hci. }
  rewrite (vget_ok _ _ _ Hg). simpl. set (r' := mk _ _ _ _ _). exists r'.
  assert (Hsize : size r' = size r - 1).
  { unfold size, r'. simpl. rewrite u64_sub_r. replace (head r - (tail r + 1))
      with ((head r - tail r) - 1) by lia. rewrite <-u64_sub_l.
    apply u64_small. fold (size r). lia. }
  assert (Hwf' : wf r').
  { split; unfold r'; simpl; [by exists k | done | apply u64_range |]. fold r'. lia. }
  split_and!; [done|done|]. unfold abs. f_equal.
  apply contents_unique; [done|lia|]. intros i x Hx.
  rewrite (cell_eq r' k) by done. unfold r'; simpl.
  assert (Hi : (t :: l) !! S i = Some x) by done.
  rewrite <-Hc, Hci, (cell_eq r k) in Hi; [|done..|apply lookup_lt_Some in Hx; unfold zlen in *; lia].
  rewrite <-Hi. f_equal. rewrite <-(u64_mod_pow2 (u64 _ + _)), u64_add_l, u64_mod_pow2 by lia.
  f_equal. lia.
Qed.

Lemma drain_refines r : wf r → ∃ r',
  drain r = Ok (contents r, r') ∧ wf r' ∧ abs r' = MkFifo [] (capacity r) (drop_count r).
Proof.
  intros Hwf. unfold drain. pose proof (contents_spec r Hwf) as [Hcl _].
  assert (Hf : (length (contents r) < S (Z.to_nat (size r)))%nat) by (unfold zlen in Hcl; lia).
  clear Hcl. revert Hf. generalize (S (Z.to_nat (size r))) as fuel. intros fuel.
  remember (contents r) as l eqn:Hl. symmetry in Hl.
  revert r Hwf l Hl. induction fuel as [|fuel IH]; intros r Hwf l Hl Hf; [lia|].
  simpl. destruct l as [|t l].
  - rewrite pop_empty by done. simpl. exists r. split_and!; [done..|]. unfold abs. by rewrite Hl.
  - destruct (pop_cons r t l Hwf Hl) as (r1 & -> & Hwf1 & Habs). simpl.
    injection Habs as Hc1 Hcap1 Hd1.
    destruct (IH r1 Hwf1 l Hc1) as (r2 & -> & Hwf2 & Habs2); [simpl in Hf; lia|].
    simpl. exists r2. rewrite Habs2, Hcap1, Hd1. done.
Qed.

(** Pushing a whole list: the first [bound] trades are kept, the rest counted. *)
Lemma fifo_pushes n ts : 0 ≤ n → let F := foldl fifo_push (MkFifo [] n 0) ts in
  items F = take (Z.to_nat n) ts ∧ bound F = n ∧ 0 ≤ lost F < two64.
Proof.
  intros Hn. induction ts as [|t ts IH] using rev_ind; simpl; [by rewrite take_nil|].
  rewrite foldl_app. simpl. revert IH. simpl.
  generalize (foldl fifo_push (MkFifo [] n 0) ts). intros F (Hi & Hb & Hl).
  assert (Hz : zlen (take (Z.to_nat n) ts) = Z.min n (zlen ts))
    by (unfold zlen; rewrite length_take; lia).
  unfold fifo_push. rewrite Hb, Hi, Hz. unfold zlen in *.
  destruct (Z.eqb_spec (Z.min n (Z.of_nat (length ts))) n) as [E|E]; simpl.
  - rewrite take_app_le by lia. split_and!; [done..| |]; apply u64_range.
  - rewrite !take_ge; [|rewrite length_app; simpl; lia|lia]. split_and!; [done|done|lia..].
Qed.

(** Pushes that fit are all kept. *)
Lemma fifo_pushes_fit n k ts : zlen ts ≤ n → lost (foldl fifo_push (MkFifo [] n k) ts) = k.
Proof.
  assert (H : ∀ q, zlen (items q) + zlen ts ≤ bound q → lost (foldl fifo_push q ts) = lost q); [|by apply (H (MkFifo [] n k))].
  induction ts as [|t ts IH]; intros q Hq; simpl; [done|]. rewrite zlen_cons in Hq. pose proof (zlen_nonneg ts).
  unfold fifo_push at 2. destruct (Z.eqb_spec (zlen (items q)) (bound q)); [lia|].
  rewrite IH; [done|]. simpl. rewrite zlen_app. change (zlen [t]) with 1. lia.
Qed.

(** A push only ever appends, so what the consumer finds is a prefix of what was
    pushed. *)
Lemma fifo_pushes_prefix q ts : ∃ k,
  items (foldl fifo_push q ts) = items q ++ take k ts ∧ bound (foldl fifo_push q ts) = bound q.
Proof.
  revert q. induction ts as [|t ts IH]; intros q; simpl; [exists 0%nat; by rewrite app_nil_r|].
  unfold fifo_push at 2 4. destruct (Z.eqb_spec (zlen (items q)) (bound q)) as [E|E].
  - exists 0%nat. rewrite app_nil_r. clear IH. generalize (u64 (lost q + 1)) as l.
    induction ts as [|t' ts IH]; intros l; simpl; [done|]. unfold fifo_push at 2 4. simpl. rewrite E, Z.eqb_refl. apply IH.
  - destruct (IH (MkFifo (items q ++ [t]) (bound q) (lost q))) as (k & -> & ->). exists (S k). simpl. by rewrite <-app_assoc.
Qed.

Lemma fifo_pushes_bound q ts : zlen (items q) ≤ bound q → zlen (items (foldl fifo_push q ts)) ≤ bound q.
Proof.
  revert q. induction ts as [|t ts IH]; intros q Hq; simpl; [done|].
  unfold fifo_push at 2. destruct (Z.eqb_spec (zlen (items q)) (bound q)).
  - by apply (IH (MkFifo (items q) (bound q) (u64 (lost q + 1)))).
  - apply (IH (MkFifo (items q ++ [t]) (bound q) (lost q))). simpl. rewrite zlen_app. change (zlen [t]) with 1. lia.
Qed.

End TradeRing.
