(* ===== verification/Pool.v ===== *)
(** * The slot pool (include/lob/slot_pool.hpp)

    A growing block of slots addressed by 32-bit index, with an intrusive LIFO
    free list. The ghost argument [fl] of the lemmas is the free list, newest
    first; a slot is live when it has been handed out and is not on it. *)

From stdpp Require Import base decidable list.
From S2P Require Import Prelude.
From S2P Require Import Types.

(** What a slot's bytes read as when value-initialised, and when a debug build
    fills them with 0xDD on release. *)
Class Payload (T : Type) := { zeroed : T; poisoned : T }.

#[global] Instance RestingOrder_payload : Payload RestingOrder := {
  zeroed := MkRestingOrder 0 0 0 0;
  poisoned := MkRestingOrder 15987178197214944733 15987178197214944733 3722304989 3722304989;
}.

Module SlotPool.

Section pool.
Context {T : Type} {payload : Payload T} {build : Build}.

Record Slot := MkSlot { value : T; prev : SlotIndex; next : SlotIndex }.

(** [Slot{}] as a resized vector makes it. *)
Definition fresh_slot : Slot := MkSlot zeroed kNoSlot kNoSlot.

Record SlotPool := mk {
  slots : list Slot;
  used : Z;                 (* high-water mark *)
  live : Z;
  free_head : SlotIndex;
  grow_count : Z;
}.

Definition make (cap : Z) : SlotPool :=
  mk (vmake (if cap =? 0 then 1 else cap) fresh_slot) 0 0 kNoSlot 0.

Definition capacity (p : SlotPool) : Z := zlen (slots p).
Definition size (p : SlotPool) : Z := live p.
Definition growths (p : SlotPool) : Z := grow_count p.

(** [pool[i]]. *)
Definition at_ (p : SlotPool) (i : SlotIndex) : res Slot := vget (slots p) i.

(** [pool[i] = s]. *)
Definition store (p : SlotPool) (i : SlotIndex) (s : Slot) : res SlotPool :=
  v ← vset (slots p) i s;
  Ok (mk v (used p) (live p) (free_head p) (grow_count p)).

Definition grow (p : SlotPool) : res SlotPool :=
  let kMax := kNoSlot in
  let n := zlen (slots p) in
  if kMax <=? n then Err length_error
  else
    let bigger := if kMax / 2 <? n then kMax else u64 (n * 2) in
    Ok (mk (slots p ++ vmake (bigger - n) fresh_slot) (used p) (live p) (free_head p)
          (u64 (grow_count p + 1))).

Definition acquire (p : SlotPool) : res (SlotIndex * SlotPool) :=
  '(i, p) ← (if negb (free_head p =? kNoSlot) then
      s ← at_ p (free_head p);
      Ok (free_head p, mk (slots p) (used p) (live p) (next s) (grow_count p))
    else
      p ← (if used p =? zlen (slots p) then grow p else Ok p);
      Ok (u32 (used p),
          mk (slots p) (u64 (used p + 1)) (live p) (free_head p) (grow_count p)));
  s ← at_ p i;
  p ← store p i (MkSlot (value s) kNoSlot kNoSlot);
  Ok (i, mk (slots p) (used p) (u64 (live p + 1)) (free_head p) (grow_count p)).

Definition release (p : SlotPool) (i : SlotIndex) : res SlotPool :=
  s ← at_ p i;
  p ← store p i (MkSlot (if NDEBUG then value s else poisoned) kNoSlot (free_head p));
  Ok (mk (slots p) (used p) (u64 (live p - 1)) i (grow_count p)).

(** [consistent()]: the walk stops at the latest when [free_count] passes
    [used], so [used + 2] tests are enough. *)
Fixpoint consistent_loop (fuel : nat) (p : SlotPool) (i : SlotIndex) (free_count : Z) : res bool :=
  match fuel with
  | O => Err out_of_fuel
  | S fuel =>
      if i =? kNoSlot then Ok (u64 (free_count + live p) =? used p)
      else if (used p <=? i) || (used p <? free_count + 1) then Ok false
      else s ← at_ p i; consistent_loop fuel p (next s) (free_count + 1)
  end.

Definition consistent (p : SlotPool) : res bool :=
  consistent_loop (S (S (Z.to_nat (used p)))) p (free_head p) 0.

(** ** Invariant *)

(** The free list threaded from slot [i] is [fl]. *)
Fixpoint chain (v : list Slot) (i : SlotIndex) (fl : list SlotIndex) : Prop :=
  match fl with
  | [] => i = kNoSlot
  | x :: fl => i = x ∧ x ≠ kNoSlot ∧ ∃ s, v.[x] = Some s ∧ chain v (next s) fl
  end.

Record wf (p : SlotPool) (fl : list SlotIndex) : Prop := {
  wf_used : 0 ≤ used p ≤ zlen (slots p);
  wf_index : used p ≤ kNoSlot;
  wf_chain : chain (slots p) (free_head p) fl;
  wf_nodup : NoDup fl;
  wf_range : ∀ i, i ∈ fl → 0 ≤ i < used p;
  wf_live : live p + zlen fl = used p;
}.

Definition is_live (p : SlotPool) (fl : list SlotIndex) (i : SlotIndex) : Prop :=
  0 ≤ i < used p ∧ i ∉ fl.

(** ** Lemmas *)

Lemma store_ok p i s : 0 ≤ i < zlen (slots p) →
  store p i s = Ok (mk (slots p).[i := s] (used p) (live p) (free_head p) (grow_count p)).
Proof. intros. unfold store. by rewrite vset_in_range. Qed.

Lemma at_ok p i s : (slots p).[i] = Some s → at_ p i = Ok s.
Proof. apply vget_ok. Qed.

Lemma chain_frame v v' i fl :
  (∀ j, j ∈ fl → v'.[j] = v.[j]) → chain v i fl → chain v' i fl.
Proof.
  revert i. induction fl as [|x fl IH]; intros i Hf; [done|].
  intros (-> & Hx & s & Hs & Hc). split_and!; [done..|]. exists s. split.
  - rewrite Hf; [done | left].
  - apply IH; [|done]. intros j Hj. apply Hf. by right.
Qed.

Lemma chain_det v i fl1 fl2 : chain v i fl1 → chain v i fl2 → fl1 = fl2.
Proof.
  revert i fl2. induction fl1 as [|x fl1 IH]; intros i [|y fl2]; simpl; try done.
  - intros -> (? & ? & _). congruence.
  - intros (-> & ? & _) ?. congruence.
  - intros (-> & _ & s & Hs & Hc) (-> & _ & s' & Hs' & Hc'). simplify_eq.
    f_equal. exact (IH _ _ Hc Hc').
Qed.

Lemma chain_suffix v i fl x k : chain v i fl → fl !! k = Some x → ∃ s,
  v.[x] = Some s ∧ chain v (next s) (drop (S k) fl).
Proof.
  revert i k. induction fl as [|y fl IH]; intros i k; [done|].
  intros (-> & _ & s & Hs & Hc). destruct k as [|k]; simpl.
  - intros [= ->]. by exists s.
  - intros Hk. exact (IH _ _ Hc Hk).
Qed.

(** A threaded list cannot revisit a slot: it would be its own proper suffix. *)
Lemma chain_nodup v i fl : chain v i fl → NoDup fl.
Proof.
  intros Hc. apply NoDup_alt. intros k1 k2 x H1 H2.
  destruct (chain_suffix _ _ _ _ _ Hc H1) as (s1 & Hs1 & Hc1).
  destruct (chain_suffix _ _ _ _ _ Hc H2) as (s2 & Hs2 & Hc2). simplify_eq.
  pose proof (f_equal length (chain_det _ _ _ _ Hc1 Hc2)) as Hlen.
  rewrite !length_drop in Hlen. apply lookup_lt_Some in H1, H2. lia.
Qed.

(** A constructed pool is empty, with no free slot handed back yet. *)
Lemma pool_make_wf cap : 0 ≤ cap → wf (make cap) [].
Proof.
  intros Hc. unfold make. split; simpl; try done; [|apply NoDup_nil_2|by intros ? ?%elem_of_nil].
  split; [done|]. apply zlen_nonneg.
Qed.

Lemma wf_free_ne p fl i : wf p fl → i ∈ fl → i ≠ kNoSlot.
Proof.
  intros Hwf Hi. apply (wf_range _ _ Hwf) in Hi. pose proof (wf_index _ _ Hwf). lia.
Qed.

Lemma live_bounds p fl : wf p fl → 0 ≤ zlen fl ≤ used p.
Proof.
  intros Hwf. split; [apply zlen_nonneg|].
  assert (fl ⊆+ seqZ 0 (used p)) as Hs.
  { apply NoDup_submseteq; [apply Hwf|]. intros x Hx%(wf_range _ _ Hwf). apply elem_of_seqZ. lia. }
  apply submseteq_length in Hs. rewrite length_seqZ in Hs. unfold zlen.
  pose proof (wf_used _ _ Hwf). lia.
Qed.

(** The slot [acquire] hands out: the newest free one, or the first never used. *)
Definition next_slot (p : SlotPool) (fl : list SlotIndex) : SlotIndex :=
  match fl with x :: _ => x | [] => used p end.

Definition used_after (p : SlotPool) (fl : list SlotIndex) : Z :=
  match fl with _ :: _ => used p | [] => used p + 1 end.

Lemma pool_grow_spec p :
  zlen (slots p) < kNoSlot → 0 < zlen (slots p) → ∃ p',
  grow p = Ok p' ∧ used p' = used p ∧ live p' = live p ∧ free_head p' = free_head p ∧
  zlen (slots p) < zlen (slots p') ≤ kNoSlot ∧
  ∀ i s, (slots p).[i] = Some s → (slots p').[i] = Some s.
Proof.
  intros Hl Hp. unfold grow. destruct (Z.leb_spec kNoSlot (zlen (slots p))); [lia|].
  eexists. split; [done|]. simpl. split_and!; [done..| | |].
  1,2: rewrite zlen_app, zlen_vmake; unfold kNoSlot in *;
    repeat match goal with |- context [if ?b then _ else _] => destruct b eqn:? end; solve_word.
  intros i s [Hi Hs]%zlookup_Some. apply zlookup_Some.
  rewrite zlen_app. split; [pose proof (zlen_nonneg (vmake ((if kNoSlot / 2 <? zlen (slots p)
    then kNoSlot else u64 (zlen (slots p) * 2)) - zlen (slots p)) fresh_slot)); lia|].
  by apply lookup_app_l_Some.
Qed.

Lemma pool_acquire_spec p fl :
  wf p fl → 0 < zlen (slots p) → (fl = [] → used p < kNoSlot) → ∃ p' s,
  acquire p = Ok (next_slot p fl, p') ∧
  wf p' (tail fl) ∧ used p' = used_after p fl ∧ live p' = live p + 1 ∧
  zlen (slots p) ≤ zlen (slots p') ∧
  (slots p').[next_slot p fl] = Some (MkSlot s kNoSlot kNoSlot) ∧
  (∀ i x, i ≠ next_slot p fl → (slots p).[i] = Some x → (slots p').[i] = Some x).
Proof.
  intros Hwf Hpos Hroom. unfold acquire. pose proof (wf_chain _ _ Hwf) as Hc.
  pose proof (wf_used _ _ Hwf). pose proof (wf_index _ _ Hwf). pose proof (wf_live _ _ Hwf).
  pose proof (live_bounds _ _ Hwf). pose proof (wf_nodup _ _ Hwf) as Hnd.
  destruct fl as [|x fl]; simpl in *.
  - rewrite Hc. change (negb (kNoSlot =? kNoSlot)) with false. simpl.
    specialize (Hroom eq_refl).
    assert (∃ p1, (if used p =? zlen (slots p) then grow p else Ok p) = Ok p1 ∧ used p1 = used p ∧
      live p1 = live p ∧ free_head p1 = free_head p ∧ used p < zlen (slots p1) ∧
      zlen (slots p) ≤ zlen (slots p1) ∧
      ∀ i s, (slots p).[i] = Some s → (slots p1).[i] = Some s) as (p1 & -> & Hu & Hl & Hf & Hr & Hz & Hv).
    { destruct (Z.eqb_spec (used p) (zlen (slots p))).
      - destruct (pool_grow_spec p) as (p1 & ? & ? & ? & ? & ? & ?); [lia..|].
        exists p1. split_and!; [done..|lia|lia|done].
      - exists p. split_and!; [done..|lia|lia|done]. }
    simpl. rewrite Hu, Hl, Hf, (u32_small (used p)) by bounds.
    destruct (zlookup_lt (slots p1) (used p)) as [s Hs]; [lia|].
    rewrite (at_ok _ _ s) by done. simpl. rewrite store_ok by (simpl; lia). simpl.
    eexists _, (value s). split; [done|]. simpl in *.
    rewrite !u64_small, zlen_zset by bounds. split_and!; try lia.
    + split; simpl; rewrite ?zlen_zset; try done; try bounds. by intros ? ?%elem_of_nil.
    + apply zlookup_zset_eq. lia.
    + intros i y Hi Hy. rewrite zlookup_zset_ne by done. by apply Hv.
  - destruct Hc as (Hx & Hne & s & Hs & Hc). rewrite Hx.
    destruct (Z.eqb_spec x kNoSlot); [done|]. simpl.
    rewrite (at_ok _ _ s) by done. simpl. rewrite (at_ok _ _ s) by done. simpl.
    pose proof (zlookup_range _ _ _ Hs) as Hxr. rewrite store_ok by done. simpl.
    apply NoDup_cons in Hnd as [Hni Hnd]. rewrite zlen_cons in *.
    eexists _, (value s). split; [done|]. simpl. rewrite u64_small, zlen_zset by bounds.
    split_and!; try done.
    + split; simpl; rewrite ?zlen_zset; try done; try lia.
      * eapply chain_frame, Hc. intros j Hj. apply zlookup_zset_ne. congruence.
      * intros i Hi. apply (wf_range _ _ Hwf). by right.
    + by apply zlookup_zset_eq.
    + intros i y Hi Hy. by rewrite zlookup_zset_ne.
Qed.

Lemma pool_release_spec p fl i :
  wf p fl → is_live p fl i → ∃ p' s,
  release p i = Ok p' ∧ wf p' (i :: fl) ∧ used p' = used p ∧ live p' = live p - 1 ∧
  slots p' = (slots p).[i := s].
Proof.
  intros Hwf [Hi Hnl]. pose proof (wf_used _ _ Hwf). pose proof (wf_index _ _ Hwf).
  pose proof (wf_live _ _ Hwf). pose proof (live_bounds _ _ Hwf).
  unfold release. destruct (zlookup_lt (slots p) i) as [s Hs]; [lia|].
  rewrite (at_ok _ _ s) by done. simpl. rewrite store_ok by lia. simpl.
  eexists _, _. split; [done|].
  assert (Hlive : 0 < live p).
  { destruct (Z.lt_ge_cases 0 (live p)); [done|]. exfalso. apply Hnl.
    assert (seqZ 0 (used p) ≡ₚ fl) as Hp.
    { symmetry. apply submseteq_length_Permutation.
      - apply NoDup_submseteq; [apply Hwf|]. intros x Hx%(wf_range _ _ Hwf). apply elem_of_seqZ. lia.
      - rewrite length_seqZ. unfold zlen in *. lia. }
    rewrite <-Hp. apply elem_of_seqZ. lia. }
  rewrite u64_small by bounds. split_and!; try done.
  split; simpl; rewrite ?zlen_zset, ?zlen_cons; try done; try lia.
  - split_and!; [done|bounds|]. eexists. split.
    + apply zlookup_zset_eq. lia.
    + simpl. eapply chain_frame, Hwf. intros j Hj. apply zlookup_zset_ne. congruence.
  - apply NoDup_cons. split; [done|apply Hwf].
  - intros j [->|Hj]%elem_of_cons; [done|]. by apply (wf_range _ _ Hwf).
Qed.

(** *** [consistent] decides the invariant *)

Lemma consistent_loop_total (fuel : nat) p i c :
  used p ≤ zlen (slots p) → 0 ≤ c → used p + 2 - c ≤ Z.of_nat fuel → (0 < fuel)%nat →
  (∀ x s, (slots p).[x] = Some s → 0 ≤ next s) → 0 ≤ i →
  ∃ b, consistent_loop fuel p i c = Ok b.
Proof.
  intros Hu. revert i c. induction fuel as [|fuel IH]; intros i c Hc Hf Hf0 Hn Hi; [lia|].
  simpl. destruct (i =? kNoSlot); [by eexists|].
  destruct ((used p <=? i) || (used p <? c + 1)) eqn:E; [by eexists|].
  destruct (zlookup_lt (slots p) i) as [s Hs]; [lia|]. rewrite (at_ok _ _ s) by done. simpl.
  apply IH; [lia..|done|by eapply Hn].
Qed.

Lemma consistent_loop_sound (fuel : nat) p i c :
  0 ≤ i → (∀ x s, (slots p).[x] = Some s → 0 ≤ next s) → 0 ≤ c ≤ used p → used p ≤ kNoSlot →
  0 ≤ live p < two32 →
  consistent_loop fuel p i c = Ok true → ∃ fl,
  chain (slots p) i fl ∧ (∀ j, j ∈ fl → 0 ≤ j < used p) ∧ c + zlen fl + live p = used p.
Proof.
  intros Hi Hn Hc Hu Hl. revert i c Hi Hc. induction fuel as [|fuel IH]; intros i c Hi Hc; [done|]. simpl.
  destruct (Z.eqb_spec i kNoSlot) as [->|Hne].
  - intros [= E%Z.eqb_eq]. exists []. split; [done|]. split; [by intros ? ?%elem_of_nil|].
    change (zlen []) with 0. rewrite u64_small in E by bounds. lia.
  - destruct ((used p <=? i) || (used p <? c + 1)) eqn:E; [done|].
    destruct (at_ p i) as [s|] eqn:Hs; [|done]. simpl. intros H.
    unfold at_, vget in Hs. destruct ((slots p).[i]) as [s'|] eqn:Hs'; [|done]. simplify_eq.
    destruct (IH (next s) (c + 1)) as (fl & Hch & Hr & Hlen); [by eapply Hn|lia|done|].
    exists (i :: fl). rewrite zlen_cons. split; [|split; [|lia]].
    + split_and!; [done..|]. by exists s.
    + intros j [->|Hj]%elem_of_cons; [lia|by apply Hr].
Qed.

Lemma consistent_loop_complete (fuel : nat) p i c fl :
  chain (slots p) i fl → (∀ j, j ∈ fl → 0 ≤ j < used p) → c + zlen fl + live p = used p →
  0 ≤ live p → 0 ≤ c → used p < two64 → zlen fl < Z.of_nat fuel →
  consistent_loop fuel p i c = Ok true.
Proof.
  revert i c fl. induction fuel as [|fuel IH]; intros i c fl Hch Hr Hlen Hl Hc Hu Hf.
  { pose proof (zlen_nonneg fl). lia. }
  simpl. destruct fl as [|x fl]; simpl in Hch.
  - subst i. rewrite Z.eqb_refl. change (zlen []) with 0 in *. rewrite u64_small by lia.
    f_equal. apply Z.eqb_eq. lia.
  - destruct Hch as (-> & Hne & s & Hs & Hch). rewrite zlen_cons in *. pose proof (zlen_nonneg fl).
    pose proof (Hr x ltac:(left)). destruct (Z.eqb_spec x kNoSlot); [done|].
    destruct ((used p <=? x) || (used p <? c + 1)) eqn:E; [lia|].
    rewrite (at_ok _ _ s) by done. simpl. apply (IH _ _ fl); try done; try lia.
    intros j Hj. apply Hr. by right.
Qed.

Lemma pool_consistent_wf p fl : wf p fl → consistent p = Ok true.
Proof.
  intros Hwf. pose proof (live_bounds _ _ Hwf). pose proof (wf_live _ _ Hwf).
  pose proof (wf_index _ _ Hwf). unfold consistent.
  apply (consistent_loop_complete _ _ _ _ fl); [apply Hwf | apply Hwf | bounds..].
Qed.

End pool.

Arguments Slot : clear implicits.
Arguments SlotPool : clear implicits.

End SlotPool.
