(* ===== verification/Poison.v ===== *)
(** * The slot pool under AddressSanitizer (include/lob/slot_pool.hpp, asan.hpp)

    A build with AddressSanitizer poisons a slot when it is released and unpoisons
    it when it is handed out again, so that an access through a stale index is
    reported. The pool of Pool.v is run here with the shadow of its slots: reading
    or writing a poisoned slot is the error the tool reports. *)

From stdpp Require Import base decidable list gmap.
From S2P Require Import Prelude.
From S2P Require Import Types.
From S2P Require Import Pool.

Module Poison.

Section pool.
Context {T : Type} {payload : Payload T} {build : Build}.

Abbreviation Slot := (SlotPool.Slot T).
Abbreviation SlotPool := (SlotPool.SlotPool T).

(** The pool and the poisoned slots. *)
Record t := mk { pool : SlotPool; shadow : gset Z }.

Definition with_pool (p : t) (q : SlotPool) : t := mk q (shadow p).

(** Without AddressSanitizer both do nothing. *)
Definition poison (p : t) (i : SlotIndex) : t := if kAsan then mk (pool p) ({[i]} ∪ shadow p) else p.
Definition unpoison (p : t) (i : SlotIndex) : t := if kAsan then mk (pool p) (shadow p ∖ {[i]}) else p.
Definition unpoison_all (p : t) : t := if kAsan then mk (pool p) ∅ else p.

Definition make (cap : Z) : t := mk (SlotPool.make cap) ∅.

(** An access to a poisoned slot is reported. *)
Definition at_ (p : t) (i : SlotIndex) : res Slot :=
  if decide (i ∈ shadow p) then Err undefined_behaviour else SlotPool.at_ (pool p) i.

Definition store (p : t) (i : SlotIndex) (s : Slot) : res t :=
  if decide (i ∈ shadow p) then Err undefined_behaviour
  else q ← SlotPool.store (pool p) i s; Ok (with_pool p q).

(** Growing copies every slot, so none may be poisoned. *)
Definition grow (p : t) : res t :=
  q ← SlotPool.grow (pool p);
  if decide (shadow p = ∅) then Ok (with_pool p q) else Err undefined_behaviour.

Definition acquire (p : t) : res (SlotIndex * t) :=
  '(i, p) ← (if negb (SlotPool.free_head (pool p) =? kNoSlot) then
      let i := SlotPool.free_head (pool p) in
      let p := unpoison p i in
      s ← at_ p i;
      let q := pool p in
      Ok (i, with_pool p (SlotPool.mk (SlotPool.slots q) (SlotPool.used q) (SlotPool.live q) (SlotPool.next s) (SlotPool.grow_count q)))
    else
      p ← (if SlotPool.used (pool p) =? zlen (SlotPool.slots (pool p)) then grow p else Ok p);
      let q := pool p in
      Ok (u32 (SlotPool.used q),
          with_pool p (SlotPool.mk (SlotPool.slots q) (u64 (SlotPool.used q + 1)) (SlotPool.live q) (SlotPool.free_head q) (SlotPool.grow_count q))));
  s ← at_ p i;
  p ← store p i (SlotPool.MkSlot (SlotPool.value s) kNoSlot kNoSlot);
  let q := pool p in
  Ok (i, with_pool p (SlotPool.mk (SlotPool.slots q) (SlotPool.used q) (u64 (SlotPool.live q + 1)) (SlotPool.free_head q) (SlotPool.grow_count q))).

Definition release (p : t) (i : SlotIndex) : res t :=
  s ← at_ p i;
  p ← store p i (SlotPool.MkSlot (if NDEBUG then SlotPool.value s else poisoned) kNoSlot (SlotPool.free_head (pool p)));
  let q := pool p in
  Ok (poison (with_pool p (SlotPool.mk (SlotPool.slots q) (SlotPool.used q) (u64 (SlotPool.live q - 1)) i (SlotPool.grow_count q))) i).

(** The walk of [consistent], which lifts the poison of a slot to read it. *)
Fixpoint consistent_loop (fuel : nat) (p : t) (i : SlotIndex) (free_count : Z) : res (bool * t) :=
  match fuel with
  | O => Err out_of_fuel
  | S fuel =>
      let q := pool p in
      if i =? kNoSlot then Ok (u64 (free_count + SlotPool.live q) =? SlotPool.used q, p)
      else if (SlotPool.used q <=? i) || (SlotPool.used q <? free_count + 1) then Ok (false, p)
      else
        let p := unpoison p i in
        s ← at_ p i;
        consistent_loop fuel (poison p i) (SlotPool.next s) (free_count + 1)
  end.

Definition consistent (p : t) : res (bool * t) :=
  consistent_loop (S (S (Z.to_nat (SlotPool.used (pool p))))) p (SlotPool.free_head (pool p)) 0.

(** ** The shadow is the free list *)

Definition shade (fl : list SlotIndex) : gset Z := if kAsan then list_to_set fl else ∅.

Lemma at_live p i : i ∉ shadow p → at_ p i = SlotPool.at_ (pool p) i.
Proof. intros Hi. unfold at_. by rewrite decide_False. Qed.

Lemma store_live p i s : i ∉ shadow p → store p i s = (q ← SlotPool.store (pool p) i s; Ok (with_pool p q)).
Proof. intros Hi. unfold store. by rewrite decide_False. Qed.

Lemma unpoison_shadow p i : i ∉ shadow (unpoison p i) ∨ kAsan = false.
Proof. unfold unpoison. destruct kAsan; [left; simpl; set_solver|by right]. Qed.

Lemma shade_not_free fl i : i ∉ fl → i ∉ shade fl.
Proof. unfold shade. destruct kAsan; set_solver. Qed.

(** Calls on the shadowed pool do what they do on the pool. *)
Lemma acquire_shadowed p fl : SlotPool.wf (pool p) fl → shadow p = shade fl → 0 < zlen (SlotPool.slots (pool p)) →
  acquire p = ('(i, q) ← SlotPool.acquire (pool p); Ok (i, mk q (shade (tail fl)))).
Proof.
  intros Hwf Hsh Hpos. pose proof (SlotPool.wf_chain _ _ Hwf) as Hc. pose proof (SlotPool.wf_nodup _ _ Hwf) as Hnd.
  unfold acquire, SlotPool.acquire. destruct fl as [|x fl]; simpl in Hc.
  - rewrite Hc. change (negb (kNoSlot =? kNoSlot)) with false. cbv iota.
    assert (Hs0 : shadow p = ∅) by (rewrite Hsh; unfold shade; by destruct kAsan).
    assert (Eg : (if SlotPool.used (pool p) =? zlen (SlotPool.slots (pool p)) then grow p else Ok p) =
      (q ← (if SlotPool.used (pool p) =? zlen (SlotPool.slots (pool p)) then SlotPool.grow (pool p) else Ok (pool p)); Ok (with_pool p q))).
    { destruct (_ =? _); [unfold grow; by rewrite Hs0|]. by destruct p. }
    rewrite Eg. destruct (if _ =? _ then SlotPool.grow _ else _) as [q|]; [|done]. cbn [mbind res_bind]. simpl.
    rewrite at_live by (simpl; set_solver). simpl. destruct (SlotPool.at_ _ _) as [s|]; [|done]. cbn [mbind res_bind].
    rewrite store_live by (simpl; set_solver). simpl. destruct (SlotPool.store _ _ _) as [q'|]; [|done]. cbn [mbind res_bind].
    unfold with_pool. simpl. by rewrite Hsh.
  - destruct Hc as (Hx & Hne & _). rewrite Hx. destruct (Z.eqb_spec x kNoSlot); [done|]. cbn [negb]. cbv zeta.
    apply NoDup_cons in Hnd as [Hni _].
    assert (Hp : unpoison p x = mk (pool p) (shade fl)).
    { unfold unpoison, shade in *. destruct kAsan; [|by destruct p; simpl in *; subst]. f_equal. rewrite Hsh. set_solver. }
    rewrite Hp. pose proof (shade_not_free fl x Hni) as Hnf.
    rewrite at_live by done. simpl. destruct (SlotPool.at_ _ _) as [s|]; [|done]. cbn [mbind res_bind].
    rewrite at_live by done. simpl. destruct (SlotPool.at_ _ _) as [s'|]; [|done]. cbn [mbind res_bind].
    rewrite store_live by done. simpl. by destruct (SlotPool.store _ _ _) as [q'|].
Qed.

Lemma release_shadowed p fl i : shadow p = shade fl → i ∉ fl →
  release p i = (q ← SlotPool.release (pool p) i; Ok (mk q (shade (i :: fl)))).
Proof.
  intros Hsh Hi. pose proof (shade_not_free fl i Hi) as Hnf. unfold release, SlotPool.release. rewrite at_live by (by rewrite Hsh).
  destruct (SlotPool.at_ _ _) as [s|]; [|done]. cbn [mbind res_bind]. rewrite store_live by (by rewrite Hsh).
  destruct (SlotPool.store _ _ _) as [q|]; [|done]. cbn [mbind res_bind]. unfold poison, shade, with_pool in *. destruct kAsan; simpl; by rewrite Hsh.
Qed.

Lemma consistent_shadowed p fl : SlotPool.wf (pool p) fl → shadow p = shade fl → consistent p = Ok (true, p).
Proof.
  intros Hwf Hsh. assert (H : ∀ (fuel : nat) i c fl', (∀ x, x ∈ fl' → x ∈ fl) → SlotPool.chain (SlotPool.slots (pool p)) i fl' →
    consistent_loop fuel p i c = (b ← SlotPool.consistent_loop fuel (pool p) i c; Ok (b, p))).
  { induction fuel as [|fuel IH]; intros i c fl' Hsub Hc; [done|]. cbn [consistent_loop SlotPool.consistent_loop].
    destruct (Z.eqb_spec i kNoSlot); [done|]. destruct (_ || _); [done|]. cbv zeta.
    destruct fl' as [|x fl']; [done|]. destruct Hc as (-> & _ & s & Hs & Hc).
    assert (Hp : poison (unpoison p x) x = p).
    { unfold poison, unpoison, shade in *. destruct kAsan; [|done]. destruct p as [q sh]. simpl in *. f_equal. subst sh.
      pose proof (Hsub x ltac:(left)). apply set_eq. intros y. destruct (decide (y = x)); set_solver. }
    assert (Ha : at_ (unpoison p x) x = SlotPool.at_ (pool p) x).
    { unfold unpoison, shade in *. destruct kAsan; rewrite at_live; try done; simpl; rewrite ?Hsh; set_solver. }
    rewrite Ha, Hp, (SlotPool.at_ok _ _ s Hs). cbn [mbind res_bind]. apply (IH _ _ fl'); [|done]. intros y Hy. apply Hsub. by right. }
  unfold consistent. rewrite (H _ _ _ fl); [|done|apply Hwf]. pose proof (SlotPool.pool_consistent_wf _ _ Hwf) as Hc.
  unfold SlotPool.consistent in Hc. by rewrite Hc.
Qed.

(** ** What a client does, and what is reported *)

(** The pool after some calls, with the slots the client holds. It writes what it
    likes into those, links included. *)
Inductive in_use (cap : Z) : t → gset Z → Prop :=
  | use_make : in_use cap (make cap) ∅
  | use_acquire p L i p' : in_use cap p L → SlotPool.used (pool p) < kNoSlot →
      acquire p = Ok (i, p') → in_use cap p' ({[i]} ∪ L)
  | use_write p L i s p' : in_use cap p L → i ∈ L → store p i s = Ok p' → in_use cap p' L
  | use_release p L i p' : in_use cap p L → i ∈ L → release p i = Ok p' → in_use cap p' (L ∖ {[i]}).

Record ok (p : t) (L : gset Z) (fl : list SlotIndex) : Prop := {
  ok_wf : SlotPool.wf (pool p) fl;
  ok_room : 0 < zlen (SlotPool.slots (pool p));
  ok_shadow : shadow p = shade fl;
  ok_live : ∀ i, i ∈ L ↔ SlotPool.is_live (pool p) fl i;
}.

Lemma acquire_ok p L fl : ok p L fl → SlotPool.used (pool p) < kNoSlot → ∃ i p',
  acquire p = Ok (i, p') ∧ i ∉ L ∧ ok p' ({[i]} ∪ L) (tail fl) ∧ SlotPool.used (pool p') ≤ SlotPool.used (pool p) + 1.
Proof.
  intros [Hwf Hpos Hsh HL] Hu. rewrite (acquire_shadowed p fl) by done.
  destruct (SlotPool.pool_acquire_spec (pool p) fl Hwf Hpos (λ _, Hu)) as (q & s & -> & Hwf' & Hused & _ & Hz & _ & _).
  cbn [mbind res_bind]. eexists _, _. split; [done|]. pose proof (SlotPool.wf_used _ _ Hwf) as Hub. pose proof (SlotPool.wf_nodup _ _ Hwf) as Hnd.
  pose proof (SlotPool.wf_range _ _ Hwf) as Hr. unfold SlotPool.is_live in *.
  destruct fl as [|x fl]; simpl in *.
  - split; [rewrite HL; lia|]. split; [|simpl; lia]. split; simpl; try done; [lia|]. intros i. unfold SlotPool.is_live. rewrite elem_of_union, elem_of_singleton, HL, Hused, elem_of_nil. naive_solver lia.
  - apply NoDup_cons in Hnd as [Hni _]. specialize (Hr x ltac:(left)). split; [rewrite HL; intros [_ Hx]; apply Hx; left|]. split; [|simpl; lia].
    split; simpl; try done; [lia|]. intros i. unfold SlotPool.is_live. rewrite elem_of_union, elem_of_singleton, HL, Hused, elem_of_cons.
    destruct (decide (i = x)) as [->|]; naive_solver lia.
Qed.

Lemma write_slot_ok p L fl i s : ok p L fl → i ∈ L → ∃ p', store p i s = Ok p' ∧ ok p' L fl.
Proof.
  intros [Hwf Hpos Hsh HL] Hi. apply HL in Hi as [Hr Hni]. pose proof (SlotPool.wf_used _ _ Hwf).
  rewrite store_live by (rewrite Hsh; by apply shade_not_free). rewrite SlotPool.store_ok by lia. cbn [mbind res_bind].
  eexists. split; [done|]. split; simpl; rewrite ?zlen_zset; try done. destruct Hwf. split; simpl; rewrite ?zlen_zset; try done.
  eapply SlotPool.chain_frame; [|done]. intros j Hj. apply zlookup_zset_ne. congruence.
Qed.

Lemma release_ok p L fl i : ok p L fl → i ∈ L → ∃ p', release p i = Ok p' ∧ ok p' (L ∖ {[i]}) (i :: fl).
Proof.
  intros [Hwf Hpos Hsh HL] Hi. apply HL in Hi as Hlive. rewrite (release_shadowed p fl) by (done || apply Hlive).
  destruct (SlotPool.pool_release_spec (pool p) fl i Hwf Hlive) as (q & s & -> & Hwf' & Hu & _ & Hsl). cbn [mbind res_bind].
  eexists. split; [done|]. split; simpl; try done; [by rewrite Hsl, zlen_zset|]. intros j. rewrite elem_of_difference, elem_of_singleton, HL.
  unfold SlotPool.is_live. rewrite Hu, elem_of_cons. naive_solver.
Qed.

Lemma in_use_inv cap p L : 0 ≤ cap → in_use cap p L → ∃ fl, ok p L fl.
Proof.
  intros Hcap. induction 1 as [|p L i p' _ [fl Hok] Hu Ha|p L i s p' _ [fl Hok] Hi Hs|p L i p' _ [fl Hok] Hi Hr].
  - exists []. split; [by apply SlotPool.pool_make_wf| |by unfold shade; destruct kAsan|].
    + simpl. destruct (Z.eqb_spec cap 0); rewrite zlen_vmake; lia.
    + intros i. unfold SlotPool.is_live. simpl. split; [set_solver|lia].
  - destruct (acquire_ok p L fl Hok Hu) as (i' & q & Ha' & _ & Hok' & _). rewrite Ha in Ha'. injection Ha' as <- <-. by eexists.
  - destruct (write_slot_ok p L fl i s Hok Hi) as (q & Hs' & Hok'). rewrite Hs in Hs'. injection Hs' as <-. by eexists.
  - destruct (release_ok p L fl i Hok Hi) as (q & Hr' & Hok'). rewrite Hr in Hr'. injection Hr' as <-. by eexists.
Qed.

(** C24. AddressSanitizer reports exactly the stale accesses: whatever a client does,
    the slots it holds can be read, written and released, no call of the pool is
    ever reported, and every access through the index of a released slot is,
    releasing it twice included; the consistency check passes and leaves the
    poison as it was. *)
Theorem stale_slots_reported cap p L : 0 ≤ cap → in_use cap p L →
  (∀ i, i ∈ L → (∃ s, at_ p i = Ok s) ∧ (∀ s, ∃ p', store p i s = Ok p') ∧ ∃ p', release p i = Ok p') ∧
  (kAsan = true → ∀ i, 0 ≤ i < SlotPool.used (pool p) → i ∉ L →
    at_ p i = Err undefined_behaviour ∧ (∀ s, store p i s = Err undefined_behaviour) ∧ release p i = Err undefined_behaviour) ∧
  (SlotPool.used (pool p) < kNoSlot → ∃ i p', acquire p = Ok (i, p') ∧ i ∉ L) ∧
  consistent p = Ok (true, p).
Proof.
  intros Hcap [fl Hok]%in_use_inv; [|done]. split_and!.
  - intros i Hi. destruct (release_ok p L fl i Hok Hi) as (p' & Hr & _). split_and!; [|intros s; destruct (write_slot_ok p L fl i s Hok Hi) as (q & ? & _); by exists q|by exists p'].
    unfold release in Hr. destruct (at_ p i) as [s|]; [by exists s|done].
  - intros Hasan i Hi Hni. destruct Hok as [Hwf _ Hsh HL]. assert (Hfree : i ∈ fl).
    { destruct (decide (i ∈ fl)); [done|]. destruct Hni. by apply HL. }
    assert (Hs : i ∈ shadow p) by (rewrite Hsh; unfold shade; rewrite Hasan; by apply elem_of_list_to_set).
    unfold release, at_, store. destruct (decide (i ∈ shadow p)); [|done]. split; [reflexivity|]. split; [intros s|]; reflexivity.
  - intros Hu. destruct (acquire_ok p L fl Hok Hu) as (i & p' & Ha & Hi & _). by exists i, p'.
  - by apply (consistent_shadowed p fl); apply Hok.
Qed.

End pool.

(** ** A witness: two slots taken, the first given back *)

Lemma release_used {T} {payload : Payload T} {build : Build} (p : t (T := T)) i p' :
  release p i = Ok p' → SlotPool.used (pool p') = SlotPool.used (pool p).
Proof.
  unfold release, store, SlotPool.store. intros Hr. destruct (at_ p i) as [s|]; [|done]. cbn [mbind res_bind] in Hr.
  destruct (decide _); [done|]. destruct (vset _ _ _) as [v|]; [|done]. injection Hr as <-. unfold poison. by destruct kAsan.
Qed.

Lemma stale_slots_reported_witness : let build := {| NDEBUG := false; kAsan := true |} in
  ∃ (p : t (T := RestingOrder)) i j, at_ p i = Err undefined_behaviour ∧ ∃ s, at_ p j = Ok s.
Proof.
  intros build. pose proof (use_make (T := RestingOrder) 1) as H0. destruct (in_use_inv 1 _ _ ltac:(lia) H0) as [f0 Hok0].
  destruct (acquire_ok _ _ _ Hok0 ltac:(reflexivity)) as (i & p1 & Ha1 & _ & Hok1 & Hu1). change (SlotPool.used (pool (make 1))) with 0 in Hu1.
  pose proof (use_acquire 1 _ _ i p1 H0 ltac:(reflexivity) Ha1) as H1.
  assert (Hlt : SlotPool.used (pool p1) < kNoSlot) by (unfold kNoSlot; lia).
  destruct (acquire_ok _ _ _ Hok1 Hlt) as (j & p2 & Ha2 & Hj & Hok2 & _).
  pose proof (use_acquire 1 _ _ j p2 H1 Hlt Ha2) as H2.
  destruct (stale_slots_reported 1 p2 _ ltac:(lia) H2) as (Hheld & _). destruct (Hheld i ltac:(set_solver)) as (_ & _ & p3 & Hr).
  pose proof (use_release 1 p2 _ i p3 H2 ltac:(set_solver) Hr) as H3.
  destruct (stale_slots_reported 1 p3 _ ltac:(lia) H3) as (Hheld3 & Hstale & _). exists p3, i, j. split; [|apply Hheld3; set_solver].
  apply Hstale; [reflexivity| |set_solver]. rewrite (release_used p2 i p3 Hr).
  apply (ok_live _ _ _ Hok2 i). set_solver.
Defined.

End Poison.
