(* ===== verification/Index.v ===== *)
(** * The id index (include/lob/id_index.hpp)

    An open-addressed hash table with linear probing, at most half full, and
    backward-shift deletion. It refines a finite map from ids to values. *)

From stdpp Require Import base decidable list gmap fin_maps.
From S2P Require Import Prelude.
From S2P Require Import Types.

Module IdIndex.

Section index.
Context {V : Type} (default_value : V).

Record Entry := MkEntry { e_id : Z; e_value : V; e_used : bool }.

(** [Entry{}]. *)
Definition empty_entry : Entry := MkEntry 0 default_value false.

Record IdIndex := mk {
  table : list Entry;
  mask : Z;
  bits : Z;
  count : Z;
  grow_count : Z;
}.

(** [std::countr_zero] on 64 bits. *)
Fixpoint countr_zero_loop (fuel : nat) (x : Z) : Z :=
  match fuel with
  | O => 0
  | S fuel => if Z.odd x then 0 else 1 + countr_zero_loop fuel (Z.shiftr x 1)
  end.

Definition countr_zero (x : Z) : Z := countr_zero_loop 64 x.

(** [(id ^ (id >> bits)) & mask]. *)
Definition home (t : IdIndex) (id : Z) : Z :=
  Z.land (Z.lxor id (Z.shiftr id (bits t))) (mask t).

(** [(i + 1) & mask]. *)
Definition step (t : IdIndex) (i : Z) : Z := Z.land (u64 (i + 1)) (mask t).

Definition size (t : IdIndex) : Z := count t.
Definition capacity (t : IdIndex) : Z := zlen (table t).
Definition growths (t : IdIndex) : Z := grow_count t.

Definition with_table (t : IdIndex) (v : list Entry) : IdIndex :=
  mk v (mask t) (bits t) (count t) (grow_count t).

(** [resize_table]. *)
Definition resize_table (t : IdIndex) (cap : Z) : IdIndex :=
  mk (vmake cap empty_entry) (u64 (cap - 1)) (countr_zero cap) (count t) (grow_count t).

(** The probe loop that [find] and [take] share: the position of [id], or
    [None] at the first empty entry. One round of the table is enough fuel. *)
Fixpoint probe (fuel : nat) (t : IdIndex) (i id : Z) : res (option Z) :=
  match fuel with
  | O => Err out_of_fuel
  | S fuel =>
      e ← vget (table t) i;
      if negb (e_used e) then Ok None
      else if e_id e =? id then Ok (Some i)
      else probe fuel t (step t i) id
  end.

Definition locate (t : IdIndex) (id : Z) : res (option Z) :=
  probe (length (table t)) t (home t id) id.

(** [find], with the pointer it returns read through at once, as every caller
    does. *)
Definition find (t : IdIndex) (id : Z) : res (option V) :=
  o ← locate t id;
  match o with
  | None => Ok None
  | Some i => e ← vget (table t) i; Ok (Some (e_value e))
  end.

Definition contains (t : IdIndex) (id : Z) : res bool :=
  o ← locate t id;
  Ok (bool_decide (is_Some o)).

(** [place]: the first empty entry from the id's home. *)
Fixpoint place_loop (fuel : nat) (t : IdIndex) (i id : Z) (value : V) : res IdIndex :=
  match fuel with
  | O => Err out_of_fuel
  | S fuel =>
      e ← vget (table t) i;
      if e_used e then place_loop fuel t (step t i) id value
      else v ← vset (table t) i (MkEntry id value true); Ok (with_table t v)
  end.

Definition place (t : IdIndex) (id : Z) (value : V) : res IdIndex :=
  place_loop (length (table t)) t (home t id) id value.

(** [for (const Entry& e : old) if (e.used) place(e.id, e.value)]. *)
Fixpoint place_all (old : list Entry) (t : IdIndex) : res IdIndex :=
  match old with
  | [] => Ok t
  | e :: old =>
      t ← (if e_used e then place t (e_id e) (e_value e) else Ok t);
      place_all old t
  end.

Definition grow (t : IdIndex) : res IdIndex :=
  if 2 ^ 62 <? zlen (table t) then Err length_error
  else
    let old := table t in
    t ← place_all old (resize_table t (u64 (zlen old * 2)));
    Ok (mk (table t) (mask t) (bits t) (count t) (u64 (grow_count t + 1))).

Definition insert (t : IdIndex) (id : Z) (value : V) : res IdIndex :=
  t ← (if zlen (table t) <? u64 (u64 (count t + 1) * 2) then grow t else Ok t);
  t ← place t id value;
  Ok (mk (table t) (mask t) (bits t) (u64 (count t + 1)) (grow_count t)).

(** Backward-shift deletion from [hole], scanning from [j]. *)
Fixpoint close_gap_loop (fuel : nat) (t : IdIndex) (hole j : Z) : res (Z * IdIndex) :=
  match fuel with
  | O => Err out_of_fuel
  | S fuel =>
      e ← vget (table t) j;
      if negb (e_used e) then Ok (hole, t)
      else
        let h := home t (e_id e) in
        let stays := if hole <=? j then (hole <? h) && (h <=? j)
                     else (hole <? h) || (h <=? j) in
        if stays then close_gap_loop fuel t hole (step t j)
        else v ← vset (table t) hole e; close_gap_loop fuel (with_table t v) j (step t j)
  end.

(** [table[i].used = false]. *)
Definition vacate (e : Entry) : Entry := MkEntry (e_id e) (e_value e) false.

Definition close_gap (t : IdIndex) (hole : Z) : res IdIndex :=
  '(hole, t) ← close_gap_loop (length (table t)) t hole (step t hole);
  e ← vget (table t) hole;
  v ← vset (table t) hole (vacate e);
  Ok (with_table t v).

Definition take (t : IdIndex) (id : Z) : res (option V * IdIndex) :=
  o ← locate t id;
  match o with
  | None => Ok (None, t)
  | Some i =>
      e ← vget (table t) i;
      t ← close_gap t i;
      Ok (Some (e_value e),
          mk (table t) (mask t) (bits t) (u64 (count t - 1)) (grow_count t))
  end.

Definition erase (t : IdIndex) (id : Z) : res (bool * IdIndex) :=
  '(o, t) ← take t id;
  Ok (bool_decide (is_Some o), t).

(** The constructor: [cap = 16; while (cap / 2 < expected) cap *= 2]. *)
Fixpoint initial_capacity (fuel : nat) (cap expected : Z) : res Z :=
  match fuel with
  | O => Err out_of_fuel
  | S fuel =>
      if cap / 2 <? expected then initial_capacity fuel (u64 (cap * 2)) expected else Ok cap
  end.

Definition make (expected : Z) : res IdIndex :=
  cap ← initial_capacity 61 16 expected;
  Ok (resize_table (mk [] 0 0 0 0) cap).

(** [consistent()]: its inner probe walks from the home of the entry at [p]. *)
Fixpoint reachable_loop (fuel : nat) (t : IdIndex) (i p : Z) : res bool :=
  match fuel with
  | O => Err out_of_fuel
  | S fuel =>
      if i =? p then Ok true
      else
        e ← vget (table t) i;
        if e_used e then reachable_loop fuel t (step t i) p else Ok false
  end.

Fixpoint consistent_loop (entries : list Entry) (t : IdIndex) (p seen : Z) : res bool :=
  match entries with
  | [] => Ok (seen =? count t)
  | e :: entries =>
      if negb (e_used e) then consistent_loop entries t (p + 1) seen
      else
        ok ← reachable_loop (S (length (table t))) t (home t (e_id e)) p;
        if (ok : bool) then consistent_loop entries t (p + 1) (u64 (seen + 1)) else Ok false
  end.

Definition consistent (t : IdIndex) : res bool := consistent_loop (table t) t 0 0.

(** ** Abstraction: the finite map the table stands for *)

Definition pair_of (e : Entry) : option (Z * V) :=
  if e_used e then Some (e_id e, e_value e) else None.

Definition pairs (v : list Entry) : list (Z * V) := omap pair_of v.

Definition contents (t : IdIndex) : gmap Z V := list_to_map (pairs (table t)).

(** The entry at [p] is occupied. *)
Definition occupied (v : list Entry) (p : Z) : Prop :=
  ∃ e, v.[p] = Some e ∧ e_used e = true.


(** Distance from [a] forward to [b] around a ring of [n] positions. *)
Definition dist (n a b : Z) : Z := if a <=? b then b - a else b - a + n.

Definition cap (t : IdIndex) : Z := 2 ^ bits t.

Record shape (t : IdIndex) : Prop := {
  sh_bits : 4 ≤ bits t ≤ 63;
  sh_mask : mask t = 2 ^ bits t - 1;
  sh_len : zlen (table t) = cap t;
}.

(** Every entry can be reached from its home without crossing an empty one. *)
Definition reachable (t : IdIndex) (v : list Entry) : Prop :=
  ∀ p e, v.[p] = Some e → e_used e = true → ∀ q, 0 ≤ q < cap t →
    dist (cap t) (home t (e_id e)) q < dist (cap t) (home t (e_id e)) p → occupied v q.

Record wf (t : IdIndex) : Prop := {
  wf_shape : shape t;
  wf_reach : reachable t (table t);
  wf_ids : NoDup (pairs (table t)).*1;
  wf_count : count t = zlen (pairs (table t));
  wf_half : 2 * count t ≤ cap t;
}.

(** *** The ring of positions *)

Ltac dist_lia :=
  unfold dist in *;
  repeat match goal with
  | H : context [?a <=? ?b] |- _ => destruct (Z.leb_spec a b)
  | |- context [?a <=? ?b] => destruct (Z.leb_spec a b)
  end; lia.

Section ring.
Context (t : IdIndex) (Hsh : shape t).

Lemma cap_range : 16 ≤ cap t ≤ two63.
Proof.
  destruct Hsh as [Hb _ _]. unfold cap. split; [|apply pow2_le_63; lia].
  change 16 with (2 ^ 4). apply Z.pow_le_mono_r; lia.
Qed.

Lemma home_range id : 0 ≤ home t id < cap t.
Proof.
  destruct Hsh as [Hb Hm _]. unfold home. rewrite Hm, land_pow2_mask by lia.
  apply Z.mod_pos_bound, pow2_pos. lia.
Qed.

Lemma step_eq i : 0 ≤ i < cap t → step t i = if i + 1 =? cap t then 0 else i + 1.
Proof.
  intros Hi. pose proof cap_range. destruct Hsh as [Hb Hm _]. unfold step.
  rewrite Hm, land_pow2_mask, u64_mod_pow2 by lia. fold (cap t).
  destruct (Z.eqb_spec (i + 1) (cap t)) as [->|]; [apply Z.mod_same; lia | apply Z.mod_small; lia].
Qed.

Lemma step_range i : 0 ≤ i < cap t → 0 ≤ step t i < cap t.
Proof. intros Hi. rewrite step_eq by done. destruct (Z.eqb_spec (i + 1) (cap t)); lia. Qed.

Lemma dist_range a b : 0 ≤ a < cap t → 0 ≤ b < cap t → 0 ≤ dist (cap t) a b < cap t.
Proof. intros. dist_lia. Qed.

Lemma dist_step_r a i : 0 ≤ a < cap t → 0 ≤ i < cap t → dist (cap t) a i + 1 < cap t →
  dist (cap t) a (step t i) = dist (cap t) a i + 1.
Proof. intros Ha Hi Hd. rewrite step_eq by done. destruct (Z.eqb_spec (i + 1) (cap t)); dist_lia. Qed.

Lemma dist_step_l i b : 0 ≤ i < cap t → 0 ≤ b < cap t → i ≠ b →
  dist (cap t) (step t i) b = dist (cap t) i b - 1.
Proof. intros Ha Hi Hd. rewrite step_eq by done. destruct (Z.eqb_spec (i + 1) (cap t)); dist_lia. Qed.
End ring.

(** *** Occupied entries and their pairs *)

Lemma occupied_range v p : occupied v p → 0 ≤ p < zlen v.
Proof. intros (e & He & _). by eapply zlookup_range. Qed.

Lemma occupied_zset v p e q :
  0 ≤ p < zlen v → occupied (v.[p := e]) q ↔ if decide (p = q) then e_used e = true else occupied v q.
Proof.
  intros Hp. unfold occupied. rewrite zlookup_zset. destruct (decide (p = q)) as [->|Hne].
  - rewrite decide_True by done. split; [by intros (? & [= <-] & ?) | intros; by exists e].
  - rewrite decide_False by tauto. done.
Qed.

Lemma pairs_cons e v : pairs (e :: v) = option_list (pair_of e) ++ pairs v.
Proof. unfold pairs. simpl. by destruct (pair_of e). Qed.

Lemma pairs_zset v p e e' : v.[p] = Some e → ∃ l1 l2,
  pairs v = l1 ++ option_list (pair_of e) ++ l2 ∧
  pairs (v.[p := e']) = l1 ++ option_list (pair_of e') ++ l2.
Proof.
  intros [Hp He]%zlookup_Some. exists (pairs (firstn (Z.to_nat p) v)), (pairs (drop (S (Z.to_nat p)) v)).
  unfold pairs, zset. destruct (_ && _) eqn:E; [|lia].
  split.
  - rewrite <-(take_drop_middle v (Z.to_nat p) e) at 1 by done. rewrite omap_app. f_equal.
    simpl. by destruct (pair_of e).
  - rewrite insert_take_drop by (unfold zlen in *; lia). rewrite omap_app. f_equal.
    simpl. by destruct (pair_of e').
Qed.

Lemma pairs_fill v p e e' k x : v.[p] = Some e → e_used e = false → pair_of e' = Some (k, x) →
  pairs (v.[p := e']) ≡ₚ (k, x) :: pairs v.
Proof.
  intros Hp Hu He'. destruct (pairs_zset v p e e' Hp) as (l1 & l2 & -> & ->).
  unfold pair_of at 2. rewrite Hu, He'. simpl. by rewrite Permutation_middle.
Qed.

Lemma pairs_vacate v p e : v.[p] = Some e → e_used e = true →
  pairs v ≡ₚ (e_id e, e_value e) :: pairs (v.[p := vacate e]).
Proof.
  intros Hp Hu. destruct (pairs_zset v p e (vacate e) Hp) as (l1 & l2 & -> & ->).
  unfold pair_of. rewrite Hu. simpl. by rewrite Permutation_middle.
Qed.

Lemma elem_of_pairs v k x :
  (k, x) ∈ pairs v ↔ ∃ p e, v.[p] = Some e ∧ e_used e = true ∧ e_id e = k ∧ e_value e = x.
Proof.
  unfold pairs. rewrite list_elem_of_omap. split.
  - intros (e & [n Hn]%list_elem_of_lookup & He). unfold pair_of in He.
    destruct (e_used e) eqn:Hu; [|done]. simplify_eq.
    exists (Z.of_nat n), e. by rewrite zlookup_of_nat.
  - intros (p & e & [_ He]%zlookup_Some & Hu & <- & <-). exists e. unfold pair_of. rewrite Hu.
    split; [|done]. apply list_elem_of_lookup. by eexists.
Qed.

Lemma pairs_length v : (length (pairs v) < length v)%nat → ∃ p e, v.[p] = Some e ∧ e_used e = false.
Proof.
  intros Hl. assert (∃ e, e ∈ v ∧ e_used e = false) as (e & [n Hn]%list_elem_of_lookup & Hu).
  { induction v as [|e v IH]; [simpl in Hl; lia|]. rewrite pairs_cons in Hl. unfold pair_of in Hl.
    destruct (e_used e) eqn:Hu.
    - destruct IH as (e' & ? & ?); [simpl in Hl; lia|]. exists e'. split; [by right|done].
    - exists e. split; [left|done]. }
  exists (Z.of_nat n), e. by rewrite zlookup_of_nat.
Qed.

Lemma contents_Some t k x : NoDup (pairs (table t)).*1 →
  contents t !! k = Some x ↔ (k, x) ∈ pairs (table t).
Proof. intros. unfold contents. symmetry. by apply elem_of_list_to_map. Qed.

Lemma contents_None t k : contents t !! k = None ↔ k ∉ (pairs (table t)).*1.
Proof. unfold contents. symmetry. apply not_elem_of_list_to_map. Qed.


(** *** Probing *)

Section with_table.
Context (t : IdIndex) (Hsh : shape t).
Abbreviation n := (cap t).

Lemma free_position : zlen (pairs (table t)) < n →
  ∃ u e, (table t).[u] = Some e ∧ e_used e = false.
Proof. intros. apply pairs_length. pose proof (sh_len _ Hsh). unfold zlen in *. lia. Qed.

Lemma not_occupied_free u e q :
  (table t).[u] = Some e → e_used e = false → occupied (table t) q → q ≠ u.
Proof. intros Hu He (e' & He' & ?) ->. congruence. Qed.

(** Between the home and the current position everything is occupied: the
    first empty position is not passed. *)
Lemma probe_not_past h i u e : 0 ≤ h < n → 0 ≤ i < n → (table t).[u] = Some e → e_used e = false →
  (∀ q, 0 ≤ q < n → dist n h q < dist n h i → occupied (table t) q) → dist n h i ≤ dist n h u.
Proof.
  intros Hh Hi Hu He Hocc. destruct (Z.le_gt_cases (dist n h i) (dist n h u)); [done|].
  exfalso. eapply not_occupied_free; [done..|apply Hocc; [|done]|done].
  apply zlookup_range in Hu. by rewrite (sh_len _ Hsh) in Hu.
Qed.

Lemma probe_spec (fuel : nat) i id u eu :
  reachable t (table t) → 0 ≤ i < n → (table t).[u] = Some eu → e_used eu = false →
  (∀ q, 0 ≤ q < n → dist n (home t id) q < dist n (home t id) i →
     ∃ e, (table t).[q] = Some e ∧ e_used e = true ∧ e_id e ≠ id) →
  dist n (home t id) u - dist n (home t id) i < Z.of_nat fuel →
  ∃ o, probe fuel t i id = Ok o ∧
    match o with
    | Some p => ∃ e, (table t).[p] = Some e ∧ e_used e = true ∧ e_id e = id
    | None => ∀ p e, (table t).[p] = Some e → e_used e = true → e_id e ≠ id
    end.
Proof.
  intros Hreach Hi Hu Heu. pose proof (home_range t Hsh id) as Hh.
  revert i Hi. induction fuel as [|fuel IH]; intros i Hi Hpre Hf.
  { assert (dist n (home t id) i ≤ dist n (home t id) u); [|lia].
    eapply probe_not_past; [done..|]. intros q Hq Hd. destruct (Hpre q Hq Hd) as (e & ? & ? & _). by exists e. }
  simpl. destruct (zlookup_lt (table t) i) as [e He]; [by rewrite (sh_len _ Hsh)|].
  rewrite (vget_ok _ _ _ He). simpl. destruct (e_used e) eqn:Hue; simpl.
  - destruct (Z.eqb_spec (e_id e) id) as [Hid|Hid]; [exists (Some i); split; [done|by exists e]|].
    assert (Hne : i ≠ u) by congruence. pose proof (zlookup_range _ _ _ Hu) as Hur.
    rewrite (sh_len _ Hsh) in Hur.
    assert (dist n (home t id) i ≤ dist n (home t id) u) as Hle.
    { eapply probe_not_past; [done..|]. intros q Hq Hd. destruct (Hpre q Hq Hd) as (e' & ? & ? & _). by exists e'. }
    assert (dist n (home t id) i < dist n (home t id) u) by dist_lia.
    pose proof (dist_range t (home t id) u Hh Hur).
    pose proof (dist_step_r t Hsh (home t id) i Hh Hi ltac:(lia)) as Hst.
    apply IH; [by apply step_range| |lia].
    intros q Hq Hd. destruct (decide (q = i)) as [->|]; [by exists e|]. apply Hpre; [done|dist_lia].
  - exists None. split; [done|]. intros p e' He' Hu' Hid'.
    pose proof (zlookup_range _ _ _ He') as Hp. rewrite (sh_len _ Hsh) in Hp.
    destruct (decide (p = i)) as [->|Hne]; [congruence|].
    destruct (Z.lt_ge_cases (dist n (home t id) p) (dist n (home t id) i)) as [Hlt|Hge].
    + destruct (Hpre p Hp Hlt) as (e2 & ? & ? & ?). congruence.
    + destruct (Hreach p e' He' Hu' i Hi) as (e2 & ? & ?); [rewrite Hid'; dist_lia|congruence].
Qed.

Lemma locate_spec id :
  reachable t (table t) → zlen (pairs (table t)) < n → ∃ o, locate t id = Ok o ∧
    match o with
    | Some p => ∃ e, (table t).[p] = Some e ∧ e_used e = true ∧ e_id e = id
    | None => ∀ p e, (table t).[p] = Some e → e_used e = true → e_id e ≠ id
    end.
Proof.
  intros Hr Hl. destruct (free_position Hl) as (u & eu & Hu & Heu). unfold locate.
  pose proof (home_range t Hsh id) as Hh. pose proof (zlookup_range _ _ _ Hu) as Hur.
  pose proof (sh_len _ Hsh) as Hlen. rewrite Hlen in Hur. pose proof (dist_range t _ u Hh Hur).
  eapply probe_spec; [done..| |].
  - intros q Hq Hd. exfalso. dist_lia.
  - unfold zlen in Hlen. dist_lia.
Qed.

Lemma place_loop_spec (fuel : nat) i id x u eu :
  0 ≤ i < n → (table t).[u] = Some eu → e_used eu = false →
  (∀ q, 0 ≤ q < n → dist n (home t id) q < dist n (home t id) i → occupied (table t) q) →
  dist n (home t id) u - dist n (home t id) i < Z.of_nat fuel →
  ∃ p e, place_loop fuel t i id x = Ok (with_table t ((table t).[p := MkEntry id x true])) ∧
    (table t).[p] = Some e ∧ e_used e = false ∧
    (∀ q, 0 ≤ q < n → dist n (home t id) q < dist n (home t id) p → occupied (table t) q).
Proof.
  intros Hi Hu Heu. pose proof (home_range t Hsh id) as Hh.
  revert i Hi. induction fuel as [|fuel IH]; intros i Hi Hpre Hf.
  { assert (dist n (home t id) i ≤ dist n (home t id) u); [|lia]. by eapply probe_not_past. }
  simpl. destruct (zlookup_lt (table t) i) as [e He]; [by rewrite (sh_len _ Hsh)|].
  rewrite (vget_ok _ _ _ He). simpl. destruct (e_used e) eqn:Hue; simpl.
  - assert (Hne : i ≠ u) by congruence. pose proof (zlookup_range _ _ _ Hu) as Hur.
    rewrite (sh_len _ Hsh) in Hur.
    assert (dist n (home t id) i ≤ dist n (home t id) u) as Hle by by eapply probe_not_past.
    assert (dist n (home t id) i < dist n (home t id) u) by dist_lia.
    pose proof (dist_range t (home t id) u Hh Hur).
    pose proof (dist_step_r t Hsh (home t id) i Hh Hi ltac:(lia)) as Hst.
    apply IH; [by apply step_range| |lia].
    intros q Hq Hd. destruct (decide (q = i)) as [->|]; [by exists e|]. apply Hpre; [done|dist_lia].
  - exists i, e. rewrite (vset_ok _ _ _ e) by done. done.
Qed.
End with_table.


(** *** Insertion *)

Lemma shape_with_table t v : shape t → zlen v = zlen (table t) → shape (with_table t v).
Proof. intros [? ? ?] Hv. split; [done|done|]. simpl. by rewrite Hv. Qed.

Lemma reachable_fill t v p e e' :
  v.[p] = Some e → e_used e = false → e_used e' = true →
  (∀ q, 0 ≤ q < cap t → dist (cap t) (home t (e_id e')) q < dist (cap t) (home t (e_id e')) p →
     occupied v q) →
  reachable t v → reachable t (v.[p := e']).
Proof.
  intros Hp Hu Hu' Hpath Hr p' x Hx Hux q Hq Hd. pose proof (zlookup_range _ _ _ Hp).
  rewrite occupied_zset by done. rewrite zlookup_zset in Hx.
  destruct (decide (p = q)); [done|]. destruct (decide (p = p' ∧ 0 ≤ p < zlen v)) as [[<- _]|].
  - simplify_eq. by apply Hpath.
  - by eapply Hr.
Qed.

Lemma index_place_spec t id x :
  shape t → reachable t (table t) → zlen (pairs (table t)) < cap t →
  ∃ v, place t id x = Ok (with_table t v) ∧ zlen v = zlen (table t) ∧
    reachable t v ∧ pairs v ≡ₚ (id, x) :: pairs (table t).
Proof.
  intros Hsh Hr Hl. destruct (free_position t Hsh Hl) as (u & eu & Hu & Heu).
  pose proof (home_range t Hsh id) as Hh. pose proof (zlookup_range _ _ _ Hu) as Hur.
  pose proof (sh_len _ Hsh) as Hlen. rewrite Hlen in Hur. pose proof (dist_range t _ u Hh Hur).
  destruct (place_loop_spec t Hsh (length (table t)) (home t id) id x u eu)
    as (p & e & Hpl & Hp & He & Hpath); [done..| | |].
  { intros q Hq Hd. exfalso. dist_lia. }
  { unfold zlen in Hlen. dist_lia. }
  eexists. split; [exact Hpl|]. split_and!; [apply zlen_zset| |by eapply pairs_fill].
  by eapply reachable_fill.
Qed.

Lemma place_all_spec old t :
  shape t → reachable t (table t) → zlen (pairs (table t)) + zlen (pairs old) < cap t →
  ∃ v, place_all old t = Ok (with_table t v) ∧ zlen v = zlen (table t) ∧
    reachable t v ∧ pairs v ≡ₚ pairs old ++ pairs (table t).
Proof.
  revert t. induction old as [|e old IH]; intros t Hsh Hr Hl.
  { exists (table t). split_and!; try done. by destruct t. }
  rewrite pairs_cons in *. rewrite zlen_app in Hl. pose proof (zlen_nonneg (pairs old)).
  simpl place_all. unfold pair_of in *.
  destruct (e_used e) eqn:Hu.
  - simpl in Hl. change (zlen [_]) with 1 in Hl.
    destruct (index_place_spec t (e_id e) (e_value e)) as (v & -> & Hv & Hrv & Hpv); [done..|lia|].
    simpl. destruct (IH (with_table t v)) as (w & -> & Hw & Hrw & Hpw);
      [by apply shape_with_table|done| |].
    { simpl. assert (zlen (pairs v) = zlen (pairs (table t)) + 1) as ->.
      { rewrite <-(zlen_cons (e_id e, e_value e)). unfold zlen. by rewrite Hpv. }
      change (cap (with_table t v)) with (cap t). lia. }
    exists w. split_and!; [done|by rewrite Hw|done|]. simpl in Hpw. rewrite Hpw, Hpv. simpl.
    by rewrite Permutation_middle.
  - simpl. destruct (IH t) as (w & -> & Hw & Hrw & Hpw); [done..| |].
    { change (zlen (option_list None)) with 0 in Hl. lia. }
    by exists w.
Qed.

Lemma countr_zero_loop_pow2 (fuel : nat) k : 0 ≤ k < Z.of_nat fuel → countr_zero_loop fuel (2 ^ k) = k.
Proof.
  revert k. induction fuel as [|fuel IH]; intros k Hk; [lia|]. simpl.
  destruct (decide (k = 0)) as [->|]; [done|].
  replace k with (Z.succ (k - 1)) by lia. rewrite Z.pow_succ_r by lia.
  rewrite Z.odd_mul. simpl. rewrite Z.shiftr_div_pow2, Z.pow_1_r by lia.
  rewrite (Z.mul_comm 2), Z.div_mul, IH by lia. lia.
Qed.

Lemma countr_zero_pow2 k : 0 ≤ k ≤ 63 → countr_zero (2 ^ k) = k.
Proof. intros. apply countr_zero_loop_pow2. lia. Qed.

Lemma pairs_vmake m : pairs (vmake m (empty_entry)) = [].
Proof. unfold vmake. induction (Z.to_nat m) as [|k IH]; [done|]. simpl replicate. by rewrite pairs_cons, IH. Qed.

Lemma resize_table_spec t k : 4 ≤ k ≤ 63 →
  shape (resize_table t (2 ^ k)) ∧ reachable (resize_table t (2 ^ k)) (table (resize_table t (2 ^ k))) ∧
  pairs (table (resize_table t (2 ^ k))) = [] ∧ cap (resize_table t (2 ^ k)) = 2 ^ k.
Proof.
  intros Hk. pose proof (pow2_pos k ltac:(lia)). pose proof (pow2_le_63 k ltac:(lia)).
  unfold cap. simpl. rewrite countr_zero_pow2 by lia. split_and!; [| |by rewrite pairs_vmake|done].
  - split; unfold cap; simpl; rewrite ?countr_zero_pow2, ?zlen_vmake, ?u64_small by lia; lia.
  - intros p e Hp Hu. exfalso. simpl in Hp. pose proof (zlookup_range _ _ _ Hp) as Hr.
    rewrite zlen_vmake in Hr by lia. rewrite zlookup_vmake in Hp by done. by simplify_eq.
Qed.

Lemma NoDup_fst_perm (l1 l2 : list (Z * V)) : l1 ≡ₚ l2 → NoDup l2.*1 → NoDup l1.*1.
Proof. intros Hp. by rewrite Hp. Qed.

Lemma contents_perm t k x (l : list (Z * V)) :
  NoDup l.*1 → pairs (table t) ≡ₚ (k, x) :: l → k ∉ l.*1 →
  contents t = <[k := x]> (list_to_map l).
Proof.
  intros Hnd Hp Hk. unfold contents. change (<[k:=x]> (list_to_map l) : gmap Z V)
    with (list_to_map ((k, x) :: l) : gmap Z V).
  apply list_to_map_proper; [|done]. rewrite Hp. simpl. by apply NoDup_cons.
Qed.

Lemma index_grow_spec t :
  wf t → cap t ≤ 2 ^ 62 → ∃ t', grow t = Ok t' ∧ shape t' ∧ reachable t' (table t') ∧
    pairs (table t') ≡ₚ pairs (table t) ∧ count t' = count t ∧ cap t' = 2 * cap t.
Proof.
  intros Hwf Hc. pose proof (wf_shape _ Hwf) as Hsh. pose proof (sh_bits _ Hsh) as Hb.
  pose proof (cap_range t Hsh). unfold grow. rewrite (sh_len _ Hsh).
  destruct (Z.ltb_spec (2 ^ 62) (cap t)); [lia|].
  assert (bits t ≤ 62). { destruct (Z.le_gt_cases (bits t) 62); [done|].
    assert (2 ^ 63 ≤ cap t) by (apply Z.pow_le_mono_r; lia). lia. }
  rewrite u64_small by lia.
  assert (cap t * 2 = 2 ^ (bits t + 1)) as ->.
  { unfold cap. rewrite Z.pow_add_r by lia. lia. }
  destruct (resize_table_spec t (bits t + 1) ltac:(lia)) as (Hsh' & Hr' & Hp' & Hc').
  pose proof (wf_half _ Hwf). pose proof (wf_count _ Hwf).
  destruct (place_all_spec (table t) _ Hsh' Hr') as (v & -> & Hv & Hrv & Hpv).
  { rewrite Hp', Hc'. change (zlen []) with 0. unfold cap in *. rewrite Z.pow_add_r by lia. lia. }
  simpl. eexists. split; [done|]. rewrite Hp', app_nil_r in Hpv. split_and!; try done.
  - split; unfold cap; simpl; [apply Hsh'..|]. rewrite Hv. apply Hsh'.
  - unfold cap in *. simpl. rewrite countr_zero_pow2, Z.pow_add_r by lia. lia.
Qed.

Lemma insert_spec t id x :
  wf t → contents t !! id = None → count t < two32 → ∃ t',
  insert t id x = Ok t' ∧ wf t' ∧ contents t' = <[id := x]> (contents t) ∧ count t' = count t + 1.
Proof.
  intros Hwf Hnone Hcount. pose proof (wf_shape _ Hwf) as Hsh. pose proof (cap_range t Hsh).
  pose proof (wf_count _ Hwf) as Hct. pose proof (wf_half _ Hwf). pose proof (wf_ids _ Hwf) as Hids.
  pose proof (zlen_nonneg (pairs (table t))).
  assert (∃ t1, (if zlen (table t) <? u64 (u64 (count t + 1) * 2) then grow t else Ok t) = Ok t1 ∧
    shape t1 ∧ reachable t1 (table t1) ∧ pairs (table t1) ≡ₚ pairs (table t) ∧ count t1 = count t ∧
    2 * (count t + 1) ≤ cap t1) as (t1 & Hg & Hsh1 & Hr1 & Hp1 & Hc1 & Hh1).
  { rewrite (u64_small (count t + 1)), u64_small, (sh_len _ Hsh) by lia.
    destruct (Z.ltb_spec (cap t) ((count t + 1) * 2)) as [Hlt|].
    - destruct (index_grow_spec t Hwf) as (t1 & ? & ? & ? & ? & ? & ?); [change (2 ^ 62) with 4611686018427387904; lia|].
      exists t1. split_and!; try done. lia.
    - exists t. split_and!; try done; [apply Hwf|lia]. }
  unfold insert. rewrite Hg. simpl.
  assert (Hz1 : zlen (pairs (table t1)) = zlen (pairs (table t))) by (unfold zlen; by rewrite Hp1).
  destruct (index_place_spec t1 id x) as (v & -> & Hv & Hrv & Hpv); [done..|lia|]. simpl.
  apply contents_None in Hnone.
  assert (Hpv' : pairs v ≡ₚ (id, x) :: pairs (table t)) by by rewrite Hpv, Hp1.
  rewrite Hc1, u64_small by lia. eexists. split; [done|]. split_and!; [|by eapply contents_perm|done].
  split; simpl.
  - split; unfold cap; simpl; [apply Hsh1..|]. rewrite Hv. apply Hsh1.
  - done.
  - eapply NoDup_fst_perm; [done|]. simpl. by apply NoDup_cons.
  - rewrite Hct. rewrite <-(zlen_cons (id, x)). unfold zlen. by rewrite Hpv'.
  - change (cap _) with (cap t1). lia.
Qed.


(** *** Backward-shift deletion

    While the loop runs, the entry at [hole] is a stale copy: the logical table
    is the physical one with [hole] vacated. An entry whose path crosses [hole]
    has not been scanned yet. *)

Record gap_inv (t : IdIndex) (hole j u : Z) : Prop := {
  gap_shape : shape t;
  gap_hole : occupied (table t) hole;
  gap_free : ∃ e, (table t).[u] = Some e ∧ e_used e = false;
  gap_j : 0 ≤ j < cap t;
  gap_order : 0 < dist (cap t) hole j ≤ dist (cap t) hole u;
  gap_reach : reachable t (table t);
  gap_scanned : ∀ p e, p ≠ hole → (table t).[p] = Some e → e_used e = true →
    dist (cap t) (home t (e_id e)) hole < dist (cap t) (home t (e_id e)) p →
    dist (cap t) hole j ≤ dist (cap t) hole p;
}.

(** The table with [hole] vacated. *)
Definition logical (v : list Entry) (hole : Z) : list Entry :=
  match v.[hole] with Some e => v.[hole := vacate e] | None => v end.

(** The test of the code: the home of the entry at [j] lies cyclically in
    [(hole, j]]. *)
Lemma stays_iff n hole j h : 0 ≤ hole < n → 0 ≤ j < n → 0 ≤ h < n → hole ≠ j →
  (if hole <=? j then (hole <? h) && (h <=? j) else (hole <? h) || (h <=? j)) = true ↔
  dist n h j ≤ dist n h hole.
Proof.
  intros. unfold dist. destruct (Z.leb_spec hole j), (Z.leb_spec h j), (Z.leb_spec h hole),
    (Z.ltb_spec hole h); simpl; lia.
Qed.

Lemma pairs_logical v hole e : v.[hole] = Some e → e_used e = true →
  pairs v ≡ₚ (e_id e, e_value e) :: pairs (logical v hole).
Proof. intros Hv Hu. unfold logical. rewrite Hv. by apply pairs_vacate. Qed.

(** Moving the entry at [j] into the hole leaves the same logical pairs. *)
Lemma pairs_move v hole j eh e :
  v.[hole] = Some eh → e_used eh = true → v.[j] = Some e → e_used e = true → hole ≠ j →
  pairs (logical (v.[hole := e]) j) ≡ₚ pairs (logical v hole).
Proof.
  intros Hh Huh Hj Hu Hne. pose proof (zlookup_range _ _ _ Hh) as Hr.
  pose proof (zlookup_range _ _ _ Hj) as Hrj.
  assert (Hj' : v.[hole := e].[j] = Some e) by by rewrite zlookup_zset_ne.
  apply (Permutation_cons_inv (a := (e_id e, e_value e))).
  rewrite <-(pairs_logical _ j e Hj' Hu).
  unfold logical. rewrite Hh. replace (v.[hole := e]) with (v.[hole := vacate eh].[hole := e]) by apply zset_zset.
  eapply pairs_fill; [by apply zlookup_zset_eq|done|]. unfold pair_of. by rewrite Hu.
Qed.

Lemma gap_inv_stay t hole j u e :
  gap_inv t hole j u → (table t).[j] = Some e → e_used e = true →
  dist (cap t) (home t (e_id e)) j ≤ dist (cap t) (home t (e_id e)) hole →
  gap_inv t hole (step t j) u ∧ dist (cap t) (step t j) u = dist (cap t) j u - 1.
Proof.
  intros [Hsh Ho Hf Hj Hord Hr Hsc] He Hu Hst. destruct Hf as (eu & Heu & Hnu).
  pose proof (occupied_range _ _ Ho) as Hhr. pose proof (zlookup_range _ _ _ Heu) as Hur.
  rewrite (sh_len _ Hsh) in Hhr, Hur. assert (j ≠ u) by congruence.
  pose proof (dist_range t hole u Hhr Hur).
  assert (dist (cap t) hole j < dist (cap t) hole u) by dist_lia.
  pose proof (dist_step_r t Hsh hole j Hhr Hj ltac:(lia)) as Hstep.
  split; [|by apply dist_step_l].
  split; try done; [by exists eu|by apply step_range|lia|].
  intros p e' Hp He' Hu' Hpath. rewrite Hstep. specialize (Hsc p e' Hp He' Hu' Hpath).
  pose proof (zlookup_range _ _ _ He') as Hpr. rewrite (sh_len _ Hsh) in Hpr.
  destruct (decide (p = j)) as [->|]; [simplify_eq; lia|]. dist_lia.
Qed.

Lemma gap_inv_move t hole j u e :
  gap_inv t hole j u → (table t).[j] = Some e → e_used e = true →
  dist (cap t) (home t (e_id e)) hole < dist (cap t) (home t (e_id e)) j →
  gap_inv (with_table t ((table t).[hole := e])) j (step t j) u ∧
  dist (cap t) (step t j) u = dist (cap t) j u - 1.
Proof.
  intros [Hsh Ho Hf Hj Hord Hr Hsc] He Hu Hst. destruct Hf as (eu & Heu & Hnu).
  pose proof (occupied_range _ _ Ho) as Hhr. pose proof (zlookup_range _ _ _ Heu) as Hur.
  pose proof Hhr as Hhr'. rewrite (sh_len _ Hsh) in Hhr, Hur.
  assert (j ≠ u) by congruence. assert (hole ≠ j) by dist_lia.
  assert (u ≠ hole) by (destruct Ho as (? & ? & ?); congruence).
  split; [|by apply dist_step_l].
  set (t' := with_table _ _). assert (Hocc : ∀ q, occupied (table t) q → occupied (table t') q).
  { intros q Hq. unfold t'. simpl. rewrite occupied_zset by done. by case_decide. }
  change (cap t) with (cap t') in *. change (step t j) with (step t' j).
  pose proof (shape_with_table t ((table t).[hole := e]) Hsh ltac:(by apply zlen_zset)) as Hsh'.
  pose proof (dist_step_r t' Hsh' j j Hj Hj) as Hs1. pose proof (cap_range t' Hsh').
  assert (dist (cap t') j j = 0) as Hjj by dist_lia.
  split; try done.
  - apply Hocc. by exists e.
  - exists eu. unfold t'. simpl. by rewrite zlookup_zset_ne.
  - by apply step_range.
  - rewrite Hs1 by lia. assert (0 < dist (cap t') j u) by dist_lia. lia.
  - intros p e' He' Hu' q Hq Hd. apply Hocc. unfold t' in He'. simpl in He'. rewrite zlookup_zset in He'.
    destruct (decide (hole = p ∧ 0 ≤ hole < zlen (table t))) as [[<- _]|].
    + simplify_eq. apply (Hr j e' He Hu' q Hq). unfold t' in *. change (home (with_table _ _)) with (home t) in Hd.
      unfold cap in *. simpl in *. lia.
    + by apply (Hr p e' He' Hu' q Hq).
  - intros p e' Hp He' Hu' _. rewrite Hs1 by lia. unfold t' in He'. simpl in He'.
    pose proof (zlookup_range _ _ _ He') as Hpr. rewrite zlen_zset, (sh_len _ Hsh) in Hpr. dist_lia.
Qed.

(** The loop ends with a hole that no path crosses. *)
Lemma close_gap_loop_spec (fuel : nat) t hole j u :
  gap_inv t hole j u → dist (cap t) j u < Z.of_nat fuel → ∃ hole' v,
  close_gap_loop fuel t hole j = Ok (hole', with_table t v) ∧ zlen v = zlen (table t) ∧
  occupied v hole' ∧ reachable t (logical v hole') ∧
  pairs (logical v hole') ≡ₚ pairs (logical (table t) hole).
Proof.
  revert t hole j. induction fuel as [|fuel IH]; intros t hole j Hinv Hf.
  { destruct Hinv as [Hsh _ (eu & Heu & _) Hj _ _ _]. apply zlookup_range in Heu.
    rewrite (sh_len _ Hsh) in Heu. pose proof (dist_range t j u Hj Heu). lia. }
  pose proof Hinv as [Hsh Ho (eu & Heu & Hnu) Hj Hord Hr Hsc].
  pose proof (occupied_range _ _ Ho) as Hhr. rewrite (sh_len _ Hsh) in Hhr.
  simpl. destruct (zlookup_lt (table t) j) as [e He]; [by rewrite (sh_len _ Hsh)|].
  rewrite (vget_ok _ _ _ He). simpl. destruct (e_used e) eqn:Hu; simpl.
  - assert (Hne : hole ≠ j) by dist_lia.
    pose proof (home_range t Hsh (e_id e)) as Hh.
    pose proof (stays_iff (cap t) hole j _ Hhr Hj Hh Hne) as Hiff.
    destruct (if hole <=? j then _ else _) eqn:Hst.
    + destruct (gap_inv_stay t hole j u e Hinv He Hu ltac:(by apply Hiff)) as [Hinv' Hd].
      apply IH; [done|lia].
    + assert (dist (cap t) (home t (e_id e)) hole < dist (cap t) (home t (e_id e)) j) as Hlt.
      { apply Z.lt_nge. intros Hle. apply Hiff in Hle. congruence. }
      destruct (gap_inv_move t hole j u e Hinv He Hu Hlt) as [Hinv' Hd].
      destruct Ho as (eh & Heh & Huh). rewrite (vset_ok _ _ _ eh) by done. simpl.
      destruct (IH _ _ _ Hinv') as (hole' & v & Hl & Hv & Ho' & Hr' & Hp'); [change (cap (with_table t _)) with (cap t); lia|].
      change (step (with_table t _) j) with (step t j) in Hl. exists hole', v.
      split_and!; [done|by rewrite Hv; apply zlen_zset|done|done|]. rewrite Hp'. simpl. by eapply pairs_move.
  - exists hole, (table t). split; [by destruct t|]. split; [done|]. split; [done|]. split; [|done].
    destruct Ho as (eh & Heh & Huh). unfold logical. rewrite Heh.
    intros p e' Hp Hu' q Hq Hd. rewrite occupied_zset by by rewrite (sh_len _ Hsh).
    rewrite zlookup_zset in Hp. destruct (decide (hole = p ∧ 0 ≤ hole < zlen (table t))) as [|Hnp]; [by simplify_eq|].
    assert (hole ≠ p). { intros ->. apply Hnp. by rewrite (sh_len _ Hsh). }
    destruct (decide (hole = q)) as [<-|].
    + exfalso. specialize (Hsc p e' ltac:(done) Hp Hu' Hd). pose proof (zlookup_range _ _ _ Hp) as Hpr.
      rewrite (sh_len _ Hsh) in Hpr. assert (p ≠ j) by congruence.
      destruct (Hr p e' Hp Hu' j Hj) as (e2 & ? & ?); [|congruence].
      pose proof (home_range t Hsh (e_id e')). dist_lia.
    + by apply (Hr p e' Hp Hu' q Hq).
Qed.

Lemma close_gap_spec t hole e :
  wf t → (table t).[hole] = Some e → e_used e = true → ∃ v,
  close_gap t hole = Ok (with_table t v) ∧ zlen v = zlen (table t) ∧ reachable t v ∧
  pairs (table t) ≡ₚ (e_id e, e_value e) :: pairs v.
Proof.
  intros Hwf He Hu. pose proof (wf_shape _ Hwf) as Hsh. pose proof (cap_range t Hsh).
  pose proof (zlookup_range _ _ _ He) as Hhr. rewrite (sh_len _ Hsh) in Hhr.
  pose proof (wf_count _ Hwf). pose proof (wf_half _ Hwf).
  destruct (free_position t Hsh ltac:(lia)) as (u & eu & Heu & Hnu).
  pose proof (zlookup_range _ _ _ Heu) as Hur. rewrite (sh_len _ Hsh) in Hur.
  assert (u ≠ hole) by congruence.
  assert (dist (cap t) hole hole = 0) as Hhh by dist_lia.
  pose proof (dist_step_r t Hsh hole hole Hhr Hhr ltac:(lia)) as Hs. rewrite Hhh in Hs.
  assert (Hinv : gap_inv t hole (step t hole) u).
  { split; [done|by exists e|by exists eu|by apply step_range| |apply Hwf|].
    - rewrite Hs. dist_lia.
    - intros p e' Hp He' _ _. pose proof (zlookup_range _ _ _ He') as Hpr.
      rewrite (sh_len _ Hsh) in Hpr. rewrite Hs. dist_lia. }
  destruct (close_gap_loop_spec (length (table t)) t hole (step t hole) u Hinv)
    as (hole' & v & Hl & Hv & (eh & Heh & Huh) & Hr & Hp).
  { pose proof (sh_len _ Hsh) as Hlen. unfold zlen in Hlen.
    pose proof (dist_range t _ u (step_range t Hsh hole Hhr) Hur). lia. }
  unfold close_gap. rewrite Hl. simpl. rewrite (vget_ok _ _ _ Heh). simpl.
  rewrite (vset_ok _ _ _ eh) by done. simpl. unfold logical in Hr at 1, Hp at 1. rewrite Heh in Hr, Hp.
  eexists. split; [done|]. split_and!; [by rewrite zlen_zset|done|].
  rewrite Hp. by apply pairs_logical.
Qed.

Lemma find_locate t id o :
  wf t → locate t id = Ok o →
  match o with
  | Some p => ∃ e, (table t).[p] = Some e ∧ e_used e = true ∧ e_id e = id ∧
      contents t !! id = Some (e_value e)
  | None => contents t !! id = None
  end.
Proof.
  intros Hwf Hl. pose proof (wf_shape _ Hwf) as Hsh. pose proof (cap_range t Hsh).
  pose proof (wf_count _ Hwf). pose proof (wf_half _ Hwf). pose proof (wf_ids _ Hwf).
  destruct (locate_spec t Hsh id (wf_reach _ Hwf) ltac:(lia)) as (o' & Hl' & Ho'). assert (o' = o) as -> by congruence. clear Hl'.
  destruct o as [p|].
  - destruct Ho' as (e & He & Hu & Hid). exists e. split_and!; try done.
    apply contents_Some; [done|]. apply elem_of_pairs. by exists p, e.
  - apply eq_None_not_Some. intros [x Hx%contents_Some]; [|done].
    apply elem_of_pairs in Hx as (p & e & He & Hu & Hid & _). by eapply Ho'.
Qed.

Lemma locate_total t id : wf t → ∃ o, locate t id = Ok o.
Proof.
  intros Hwf. pose proof (wf_shape _ Hwf) as Hsh. pose proof (cap_range t Hsh).
  pose proof (wf_count _ Hwf). pose proof (wf_half _ Hwf).
  destruct (locate_spec t Hsh id (wf_reach _ Hwf) ltac:(lia)) as (o & Hl & _). by exists o.
Qed.

Lemma index_find_spec t id : wf t → find t id = Ok (contents t !! id).
Proof.
  intros Hwf. destruct (locate_total t id Hwf) as [o Hl]. pose proof (find_locate t id o Hwf Hl) as Ho.
  unfold find. rewrite Hl. simpl. destruct o as [p|].
  - destruct Ho as (e & He & _ & _ & ->). by rewrite (vget_ok _ _ _ He).
  - by rewrite Ho.
Qed.

Lemma contains_spec t id : wf t → contains t id = Ok (bool_decide (is_Some (contents t !! id))).
Proof.
  intros Hwf. destruct (locate_total t id Hwf) as [o Hl]. pose proof (find_locate t id o Hwf Hl) as Ho.
  unfold contains. rewrite Hl. simpl. destruct o as [p|].
  - destruct Ho as (e & _ & _ & _ & ->). by rewrite !bool_decide_true by by eexists.
  - rewrite Ho. by rewrite !bool_decide_false by by intros [? ?].
Qed.

Lemma take_spec t id : wf t → ∃ t',
  take t id = Ok (contents t !! id, t') ∧ wf t' ∧ contents t' = delete id (contents t) ∧
  count t' = match contents t !! id with Some _ => count t - 1 | None => count t end.
Proof.
  intros Hwf. destruct (locate_total t id Hwf) as [o Hl]. pose proof (find_locate t id o Hwf Hl) as Ho.
  unfold take. rewrite Hl. simpl. destruct o as [p|].
  2:{ rewrite Ho. exists t. split_and!; try done. by rewrite delete_id. }
  destruct Ho as (e & He & Hu & Hid & Hc). rewrite Hc, (vget_ok _ _ _ He). simpl.
  destruct (close_gap_spec t p e Hwf He Hu) as (v & -> & Hv & Hr & Hp). simpl.
  pose proof (wf_shape _ Hwf) as Hsh. pose proof (cap_range t Hsh).
  pose proof (wf_count _ Hwf) as Hct. pose proof (wf_half _ Hwf). pose proof (wf_ids _ Hwf) as Hnd.
  assert (zlen (pairs (table t)) = zlen (pairs v) + 1) as Hlen.
  { rewrite <-(zlen_cons (e_id e, e_value e)). unfold zlen. by rewrite Hp. }
  pose proof (zlen_nonneg (pairs v)). rewrite u64_small by lia.
  assert (Hnd' : NoDup ((e_id e, e_value e) :: pairs v).*1) by by rewrite <-Hp.
  simpl in Hnd'. apply NoDup_cons in Hnd' as [Hni Hnd']. rewrite Hid in *.
  eexists. split; [done|]. split_and!; [|unfold contents at 1; simpl|simpl; lia].
  - split; simpl; try done; [|lia|change (cap _) with (cap t); lia].
    split; unfold cap; simpl; [apply Hsh..|]. rewrite Hv. apply Hsh.
  - rewrite (contents_perm t id (e_value e) (pairs v)); [|done..].
    symmetry. apply delete_insert_id. by apply not_elem_of_list_to_map.
Qed.

Lemma erase_spec t id : wf t → ∃ t',
  erase t id = Ok (bool_decide (is_Some (contents t !! id)), t') ∧ wf t' ∧
  contents t' = delete id (contents t) ∧
  count t' = match contents t !! id with Some _ => count t - 1 | None => count t end.
Proof.
  intros Hwf. destruct (take_spec t id Hwf) as (t' & Ht & ?). unfold erase. rewrite Ht. simpl. by exists t'.
Qed.


(** *** Construction *)

Lemma initial_capacity_spec (fuel : nat) k expected :
  4 ≤ k ≤ 63 → expected ≤ 2 ^ 62 → 63 - k < Z.of_nat fuel → ∃ j,
  4 ≤ j ≤ 63 ∧ initial_capacity fuel (2 ^ k) expected = Ok (2 ^ j) ∧ expected ≤ 2 ^ j / 2.
Proof.
  revert k. induction fuel as [|fuel IH]; intros k Hk He Hf; [lia|].
  assert (Hhalf : 2 ^ k / 2 = 2 ^ (k - 1)).
  { replace k with (Z.succ (k - 1)) at 1 by lia. rewrite Z.pow_succ_r by lia.
    rewrite Z.mul_comm, Z.div_mul; lia. }
  simpl. rewrite Hhalf. destruct (Z.ltb_spec (2 ^ (k - 1)) expected).
  - assert (k < 63). { destruct (Z.lt_ge_cases k 63); [done|]. assert (k = 63) as -> by lia. simpl in *. lia. }
    rewrite u64_small.
    + replace (2 ^ k * 2) with (2 ^ (k + 1)) by (rewrite Z.pow_add_r; lia). apply IH; lia.
    + pose proof (pow2_pos k ltac:(lia)). pose proof (pow2_le_63 (k + 1) ltac:(lia)) as Hp.
      rewrite Z.pow_add_r in Hp by lia. lia.
  - exists k. rewrite Hhalf. done.
Qed.

Lemma index_make_spec expected : expected ≤ 2 ^ 62 → ∃ t,
  make expected = Ok t ∧ wf t ∧ contents t = ∅ ∧ count t = 0 ∧ 2 * expected ≤ cap t.
Proof.
  intros He. unfold make. change 16 with (2 ^ 4).
  destruct (initial_capacity_spec 61 4 expected) as (j & Hj & -> & Hx); [lia..|].
  simpl. eexists. split; [done|].
  destruct (resize_table_spec (mk [] 0 0 0 0) j Hj) as (Hsh & Hr & Hp & Hc).
  pose proof (cap_range _ Hsh). rewrite Hc in *. split_and!; try done.
  - split; try done; rewrite ?Hp, ?Hc; [apply NoDup_nil_2|done|simpl; lia].
  - unfold contents. by rewrite Hp.
  - pose proof (Z.mul_div_le (2 ^ j) 2). lia.
Qed.

(** *** [consistent] decides reachability and the count *)

Definition path_occupied (t : IdIndex) (i p : Z) : Prop :=
  ∀ q, 0 ≤ q < cap t → dist (cap t) i q < dist (cap t) i p → occupied (table t) q.

(** Every occupied entry of a segment that starts at position [p] is reached
    from its home. *)
Definition homes_reach (t : IdIndex) (entries : list Entry) (p : Z) : Prop :=
  ∀ (k : nat) e, entries !! k = Some e → e_used e = true →
    path_occupied t (home t (e_id e)) (p + Z.of_nat k).

Lemma homes_reach_cons t e entries p :
  homes_reach t (e :: entries) p ↔
  (e_used e = true → path_occupied t (home t (e_id e)) p) ∧ homes_reach t entries (p + 1).
Proof.
  unfold homes_reach. split.
  - intros Hk. split; [specialize (Hk 0%nat e eq_refl); by rewrite Z.add_0_r in Hk|].
    intros k e' He'. specialize (Hk (S k) e' He').
    by replace (p + 1 + Z.of_nat k) with (p + Z.of_nat (S k)) by lia.
  - intros [H0 Hk] [|k] e' He'; simpl in He'; [simplify_eq; by rewrite Z.add_0_r|].
    replace (p + Z.of_nat (S k)) with (p + 1 + Z.of_nat k) by lia. by apply Hk.
Qed.

Lemma reachable_loop_spec (fuel : nat) t i p :
  shape t → 0 ≤ i < cap t → 0 ≤ p < cap t → dist (cap t) i p < Z.of_nat fuel →
  ∃ b, reachable_loop fuel t i p = Ok b ∧ (b = true ↔ path_occupied t i p).
Proof.
  intros Hsh. revert i. induction fuel as [|fuel IH]; intros i Hi Hp Hf; [dist_lia|]. simpl.
  destruct (Z.eqb_spec i p) as [->|Hne].
  { exists true. split; [done|]. split; [|done]. intros _ q Hq Hd. exfalso. dist_lia. }
  destruct (zlookup_lt (table t) i) as [e He]; [by rewrite (sh_len _ Hsh)|].
  rewrite (vget_ok _ _ _ He). simpl. pose proof (dist_range t i p Hi Hp) as Hip.
  destruct (e_used e) eqn:Hu.
  - pose proof (dist_step_l t Hsh i p Hi Hp Hne) as Hd.
    destruct (IH (step t i)) as (b & Hb & Hiff); [by apply step_range|done|lia|].
    exists b. split; [done|]. rewrite Hiff. unfold path_occupied. split; intros Hocc q Hq Hlt.
    + destruct (decide (q = i)) as [->|]; [by exists e|]. apply Hocc; [done|].
      rewrite (dist_step_l t Hsh i q) by done. lia.
    + destruct (decide (i = q)) as [->|Hiq]; [by exists e|]. apply Hocc; [done|].
      rewrite (dist_step_l t Hsh i q) in Hlt by done. lia.
  - exists false. split; [done|]. split; [done|]. intros Hocc.
    destruct (Hocc i Hi) as (e' & He' & Hu'); [dist_lia|congruence].
Qed.

Lemma consistent_loop_spec t (entries pre : list Entry) seen :
  shape t → table t = pre ++ entries → 0 ≤ seen → seen + zlen entries < two64 → ∃ b,
  consistent_loop entries t (zlen pre) seen = Ok b ∧
  (b = true ↔ homes_reach t entries (zlen pre) ∧
    seen + zlen (pairs entries) = count t).
Proof.
  intros Hsh. revert pre seen. induction entries as [|e entries IH]; intros pre seen Ht Hs0 Hs; simpl consistent_loop.
  { simpl. eexists. split; [done|]. rewrite Z.eqb_eq, zlen_nil.
    split; [intros ->; split; [done|lia] | intros [_ ?]; lia]. }
  rewrite zlen_cons in Hs. pose proof (zlen_nonneg entries).
  assert (Ht' : table t = (pre ++ [e]) ++ entries) by by rewrite <-app_assoc.
  assert (Hz : zlen (pre ++ [e]) = zlen pre + 1) by by rewrite zlen_app.
  pose proof (pairs_cons e entries) as Hpc. unfold pair_of in Hpc.
  setoid_rewrite homes_reach_cons.
  destruct (e_used e) eqn:Hu; simpl negb; cbv iota.
  - destruct (reachable_loop_spec (S (length (table t))) t (home t (e_id e)) (zlen pre)) as (b & Hb & Hiff).
    + done.
    + by apply home_range.
    + rewrite <-(sh_len _ Hsh), Ht, zlen_app, zlen_cons. pose proof (zlen_nonneg pre). lia.
    + assert (0 ≤ zlen pre < cap t).
      { rewrite <-(sh_len _ Hsh), Ht, zlen_app, zlen_cons. pose proof (zlen_nonneg pre). lia. }
      pose proof (dist_range t (home t (e_id e)) (zlen pre) (home_range t Hsh _) ltac:(done)).
      pose proof (sh_len _ Hsh) as Hl. unfold zlen in Hl at 1. lia.
    + simpl in Hb. rewrite Hb. simpl mbind. destruct b.
      * destruct (IH (pre ++ [e]) (seen + 1) Ht') as (b' & Hb' & Hiff'); [lia..|].
        rewrite u64_small, <-Hz, Hb' by lia. exists b'. split; [done|]. rewrite Hiff', Hz, Hpc.
        simpl. rewrite zlen_cons. naive_solver lia.
      * exists false. split; [done|]. naive_solver.
  - destruct (IH (pre ++ [e]) seen Ht') as (b' & Hb' & Hiff'); [lia..|].
    rewrite <-Hz, Hb'. exists b'. split; [done|]. rewrite Hiff', Hz, Hpc. simpl. naive_solver.
Qed.

Lemma index_consistent_spec t : shape t → ∃ b,
  consistent t = Ok b ∧ (b = true ↔ reachable t (table t) ∧ count t = zlen (pairs (table t))).
Proof.
  intros Hsh. pose proof (cap_range t Hsh).
  destruct (consistent_loop_spec t (table t) [] 0 Hsh) as (b & Hb & Hiff); [done|lia|rewrite (sh_len _ Hsh); lia|].
  exists b. split; [done|]. rewrite Hiff. unfold reachable, homes_reach, path_occupied.
  change (zlen []) with 0. rewrite !Z.add_0_l. split; intros [Hr Hc]; (split; [|lia]).
  - intros p e [Hp He]%zlookup_Some Hu. specialize (Hr (Z.to_nat p) e He Hu).
    by replace (0 + Z.of_nat (Z.to_nat p)) with p in Hr by lia.
  - intros k e Hk Hu. apply (Hr _ _); [by rewrite Z.add_0_l, zlookup_of_nat|done].
Qed.

Lemma index_consistent_wf t : wf t → consistent t = Ok true.
Proof.
  intros Hwf. destruct (index_consistent_spec t (wf_shape _ Hwf)) as (b & -> & Hiff). f_equal.
  apply Hiff. split; apply Hwf.
Qed.

End index.

Arguments Entry : clear implicits.
Arguments IdIndex : clear implicits.

End IdIndex.
