(* ===== verification/SortedMap.v ===== *)
(** * Ordered maps keyed by price

    The model of [std::map<Price, T, Ranking>] for the two rankings of
    [PriceLadder]: an association list kept in iteration order. [better] is the
    ranking: bids iterate from the highest price, asks from the lowest. *)

From stdpp Require Import base decidable list sorting gmap.
From S2P Require Import Prelude.

(** [PriceLadder<IsBid>::better], the order of [Ranking]. *)
Definition better (IsBid : bool) (a b : Z) : bool := if IsBid then b <? a else a <? b.

Module StdMap.

Section map.
Context {A : Type} (IsBid : bool).
Implicit Types (m : list (Z * A)) (k : Z) (x : A).

Fixpoint find m k : option A :=
  match m with
  | [] => None
  | (k', x) :: m => if k' =? k then Some x else find m k
  end.

(** [try_emplace(k, x)]: an existing element keeps its value. *)
Fixpoint try_emplace m k x : list (Z * A) :=
  match m with
  | [] => [(k, x)]
  | (k', x') :: m' =>
      if better IsBid k k' then (k, x) :: m
      else if k' =? k then m
      else (k', x') :: try_emplace m' k x
  end.

(** A write through the reference to the element at [k]; inserts when absent. *)
Fixpoint put m k x : list (Z * A) :=
  match m with
  | [] => [(k, x)]
  | (k', x') :: m' =>
      if better IsBid k k' then (k, x) :: m
      else if k' =? k then (k, x) :: m'
      else (k', x') :: put m' k x
  end.

(** [erase(k)]. *)
Fixpoint erase m k : list (Z * A) :=
  match m with
  | [] => []
  | (k', x') :: m' => if k' =? k then m' else (k', x') :: erase m' k
  end.

Definition ranked (p q : Z * A) : Prop := better IsBid p.1 q.1 = true.

Definition sorted m : Prop := StronglySorted ranked m.

(** ** The ranking is a strict total order *)

Lemma better_irrefl a : better IsBid a a = false.
Proof. unfold better. destruct IsBid; lia. Qed.

Lemma better_trans a b c :
  better IsBid a b = true → better IsBid b c = true → better IsBid a c = true.
Proof. unfold better. destruct IsBid; lia. Qed.

Lemma better_asym a b : better IsBid a b = true → better IsBid b a = false.
Proof. unfold better. destruct IsBid; lia. Qed.

Lemma better_total a b : a ≠ b → better IsBid a b = false → better IsBid b a = true.
Proof. unfold better. destruct IsBid; lia. Qed.

Lemma better_ne a b : better IsBid a b = true → a ≠ b.
Proof. intros H ->. by rewrite better_irrefl in H. Qed.

(** ** Sorted association lists *)

Lemma sorted_cons k x m : sorted ((k, x) :: m) ↔ sorted m ∧ ∀ k' x', (k', x') ∈ m → better IsBid k k' = true.
Proof.
  unfold sorted. rewrite StronglySorted_cons, Forall_forall. split.
  - intros [Hf Hs]. split; [done|]. intros k' x' Hin. by apply (Hf (k', x')).
  - intros [Hs Hf]. split; [|done]. intros [k' x'] Hin. by apply (Hf k' x').
Qed.

Lemma find_Some_elem m k x : find m k = Some x → (k, x) ∈ m.
Proof.
  induction m as [|[k' x'] m IH]; simpl; [done|]. destruct (Z.eqb_spec k' k) as [->|].
  - intros [= ->]. left.
  - intros. right. by apply IH.
Qed.

Lemma elem_find m k x : sorted m → (k, x) ∈ m → find m k = Some x.
Proof.
  induction m as [|[k' x'] m IH]; [by intros _ ?%elem_of_nil|]. intros [Hs Hb]%sorted_cons.
  intros [[= -> ->]|Hin]%elem_of_cons; simpl; [by rewrite Z.eqb_refl|].
  pose proof (better_ne _ _ (Hb _ _ Hin)). destruct (Z.eqb_spec k' k); [done|]. by apply IH.
Qed.

Lemma elem_find_iff m k x : sorted m → (k, x) ∈ m ↔ find m k = Some x.
Proof. intros. split; [by apply elem_find | apply find_Some_elem]. Qed.

Lemma sorted_NoDup m : sorted m → NoDup m.
Proof.
  induction m as [|[k x] m IH]; [constructor|]. intros [Hs Hb]%sorted_cons.
  apply NoDup_cons. split; [|by apply IH]. intros Hin. pose proof (Hb _ _ Hin) as H.
  by rewrite better_irrefl in H.
Qed.

Lemma sorted_keys m : sorted m → NoDup m.*1.
Proof.
  induction m as [|[k x] m IH]; [constructor|]. intros [Hs Hb]%sorted_cons.
  apply NoDup_cons. split; [|by apply IH]. intros ([k' x'] & E & Hin)%list_elem_of_fmap. simpl in E. subst k'.
  pose proof (Hb _ _ Hin) as H. by rewrite better_irrefl in H.
Qed.

(** Two sorted maps with the same lookups are the same list. *)
Lemma find_ext m1 m2 : sorted m1 → sorted m2 → (∀ k, find m1 k = find m2 k) → m1 = m2.
Proof.
  revert m2. induction m1 as [|[k1 x1] m1 IH]; intros [|[k2 x2] m2] H1 H2 He; [done| | |].
  - specialize (He k2). simpl in He. by rewrite Z.eqb_refl in He.
  - specialize (He k1). simpl in He. by rewrite Z.eqb_refl in He.
  - apply sorted_cons in H1 as [H1 Hb1]. apply sorted_cons in H2 as [H2 Hb2].
    assert (k1 = k2) as <-.
    { destruct (decide (k1 = k2)) as [|Hne]; [done|]. exfalso.
      pose proof (He k1) as He1. pose proof (He k2) as He2. simpl in He1, He2.
      rewrite Z.eqb_refl in He1, He2.
      destruct (Z.eqb_spec k2 k1); [congruence|]. destruct (Z.eqb_spec k1 k2); [congruence|].
      symmetry in He1. apply find_Some_elem in He1, He2.
      apply Hb2, better_asym in He1. apply Hb1 in He2. congruence. }
    assert (x1 = x2) as <-.
    { specialize (He k1). simpl in He. rewrite Z.eqb_refl in He. congruence. }
    f_equal. apply IH; [done..|]. intros k. pose proof (He k) as Hk. simpl in Hk.
    destruct (Z.eqb_spec k1 k) as [E|]; [subst k; clear Hk|done].
    assert (Hnone : ∀ m, (∀ k' x', (k', x') ∈ m → better IsBid k1 k' = true) → find m k1 = None).
    { intros m Hm. destruct (find m k1) eqn:E; [|done]. apply find_Some_elem, Hm in E.
      by rewrite better_irrefl in E. }
    by rewrite !Hnone.
Qed.

Lemma find_None_better m k k' x : sorted ((k', x) :: m) → better IsBid k k' = true → find ((k', x) :: m) k = None.
Proof.
  intros [Hs Hb]%sorted_cons Hlt. destruct (find _ k) eqn:E; [|done].
  apply find_Some_elem, elem_of_cons in E as [[= -> ->]|Hin].
  - by rewrite better_irrefl in Hlt.
  - apply Hb, better_asym in Hin. congruence.
Qed.

Lemma find_put m k x k' : find (put m k x) k' = if k =? k' then Some x else find m k'.
Proof.
  induction m as [|[k2 x2] m IH]; simpl.
  { done. }
  destruct (better IsBid k k2); simpl; [done|].
  destruct (Z.eqb_spec k2 k) as [->|]; simpl.
  - by destruct (Z.eqb_spec k k').
  - rewrite IH. destruct (Z.eqb_spec k2 k'), (Z.eqb_spec k k'); try done. lia.
Qed.

Lemma put_elem m k x k' x' : (k', x') ∈ put m k x → (k', x') = (k, x) ∨ (k', x') ∈ m.
Proof.
  induction m as [|[k2 x2] m IH]; simpl.
  { intros ?%list_elem_of_singleton. by left. }
  destruct (better IsBid k k2); [intros [?|?]%elem_of_cons; auto|].
  destruct (Z.eqb_spec k2 k) as [->|].
  - intros [?|?]%elem_of_cons; [by left|right; by right].
  - intros [?|Hin]%elem_of_cons; [right; rewrite elem_of_cons; by left|].
    destruct (IH Hin); [by left|right; by right].
Qed.

Lemma sorted_put m k x : sorted m → sorted (put m k x).
Proof.
  induction m as [|[k2 x2] m IH]; simpl.
  { intros _. apply sorted_cons. split; [constructor|by intros ?? ?%elem_of_nil]. }
  intros Hsm. pose proof Hsm as [Hs Hb]%sorted_cons.
  destruct (better IsBid k k2) eqn:Hk.
  - apply sorted_cons. split; [done|]. intros k' x' [[= -> ->]|Hin]%elem_of_cons; [done|].
    eapply better_trans; [done|by eapply Hb].
  - destruct (Z.eqb_spec k2 k) as [->|]; apply sorted_cons; [done|]. split; [by apply IH|].
    intros k' x' [[= -> ->]|Hin]%put_elem; [by apply better_total|by eapply Hb].
Qed.

Lemma try_emplace_eq m k x : sorted m →
  try_emplace m k x = match find m k with Some _ => m | None => put m k x end.
Proof.
  induction m as [|[k2 x2] m IH]; [done|]. intros Hsm. pose proof Hsm as [Hs Hb]%sorted_cons.
  simpl try_emplace. simpl put. destruct (better IsBid k k2) eqn:Hk.
  - by rewrite (find_None_better _ _ _ _ Hsm Hk).
  - simpl. destruct (Z.eqb_spec k2 k); [done|]. rewrite IH by done. by destruct (find m k).
Qed.

Lemma erase_elem m k k' x' : (k', x') ∈ erase m k → (k', x') ∈ m.
Proof.
  induction m as [|[k2 x2] m IH]; simpl; [done|]. destruct (k2 =? k); [by right|].
  intros [?|?]%elem_of_cons; rewrite elem_of_cons; [by left|right; by apply IH].
Qed.

Lemma sorted_erase m k : sorted m → sorted (erase m k).
Proof.
  induction m as [|[k2 x2] m IH]; [done|]. intros [Hs Hb]%sorted_cons. simpl.
  destruct (k2 =? k); [done|]. apply sorted_cons. split; [by apply IH|].
  intros k' x' Hin%erase_elem. by eapply Hb.
Qed.

Lemma find_erase m k k' : sorted m → find (erase m k) k' = if k =? k' then None else find m k'.
Proof.
  induction m as [|[k2 x2] m IH]; intros Hsm; simpl; [by destruct (k =? k')|].
  pose proof Hsm as [Hs Hb]%sorted_cons.
  destruct (Z.eqb_spec k2 k) as [->|].
  - destruct (Z.eqb_spec k k') as [E|]; [subst k'|done].
    destruct (find m k) eqn:E; [|done]. apply find_Some_elem, Hb in E. by rewrite better_irrefl in E.
  - simpl. rewrite IH by done. destruct (Z.eqb_spec k2 k'), (Z.eqb_spec k k'); try done. lia.
Qed.

Lemma put_put m k x y : sorted m → put (put m k x) k y = put m k y.
Proof.
  intros Hs. apply find_ext; [by apply sorted_put, sorted_put|by apply sorted_put|].
  intros k'. rewrite !find_put. by destruct (k =? k').
Qed.

Lemma put_id m k x : sorted m → find m k = Some x → put m k x = m.
Proof.
  intros Hs Hf. apply find_ext; [by apply sorted_put|done|]. intros k'. rewrite find_put.
  destruct (Z.eqb_spec k k') as [E|]; [by subst k'|done].
Qed.

Lemma put_head m k x y : put ((k, x) :: m) k y = (k, y) :: m.
Proof. simpl. by rewrite better_irrefl, Z.eqb_refl. Qed.

Lemma erase_head m k x : erase ((k, x) :: m) k = m.
Proof. simpl. by rewrite Z.eqb_refl. Qed.

Lemma sorted_mid m1 k x m2 : sorted (m1 ++ (k, x) :: m2) → ∀ k' x', (k', x') ∈ m1 → better IsBid k' k = true ∧ k' ≠ k.
Proof.
  intros (Hs & _ & _)%StronglySorted_app k' x' Hin. pose proof (Hs (k', x') (k, x) Hin ltac:(left)) as Hb.
  split; [done|by apply better_ne].
Qed.

Lemma erase_absent m k : find m k = None → erase m k = m.
Proof.
  induction m as [|[k' x] m IH]; simpl; [done|]. destruct (Z.eqb_spec k' k); [done|]. intros Hf. by rewrite IH.
Qed.

Lemma erase_mid m1 k x m2 : sorted (m1 ++ (k, x) :: m2) → erase (m1 ++ (k, x) :: m2) k = m1 ++ m2.
Proof.
  intros Hs. pose proof (sorted_mid _ _ _ _ Hs) as Hm. clear Hs. induction m1 as [|[k1 x1] m1 IH]; [apply erase_head|].
  simpl. destruct (Hm k1 x1 ltac:(left)) as [_ Hne]. destruct (Z.eqb_spec k1 k); [done|]. f_equal.
  apply IH. intros k' x' Hin. apply (Hm k' x'). by right.
Qed.

Lemma put_mid m1 k x m2 y : sorted (m1 ++ (k, x) :: m2) → put (m1 ++ (k, x) :: m2) k y = m1 ++ (k, y) :: m2.
Proof.
  intros Hs. pose proof (sorted_mid _ _ _ _ Hs) as Hm. clear Hs. induction m1 as [|[k1 x1] m1 IH]; [apply put_head|].
  simpl. destruct (Hm k1 x1 ltac:(left)) as [Hb Hne]. rewrite (better_asym _ _ Hb).
  destruct (Z.eqb_spec k1 k); [done|]. f_equal. apply IH. intros k' x' Hin. apply (Hm k' x'). by right.
Qed.

Lemma head_best m k x k' x' : sorted ((k, x) :: m) → (k', x') ∈ (k, x) :: m → k' = k ∨ better IsBid k k' = true.
Proof. intros [_ Hb]%sorted_cons [[= -> ->]|Hin]%elem_of_cons; [by left|right; by eapply Hb]. Qed.

(** ** The set of its keys *)

Definition keys m : gset Z := list_to_set m.*1.

Lemma elem_of_keys m k : k ∈ keys m ↔ is_Some (find m k).
Proof.
  unfold keys. rewrite elem_of_list_to_set. induction m as [|[k' x] m IH]; simpl.
  - split; [by intros ?%elem_of_nil|by intros [? ?]].
  - rewrite elem_of_cons, IH. destruct (Z.eqb_spec k' k) as [->|]; [split; [by eexists|by left]|]. naive_solver.
Qed.

Lemma keys_put m k x : keys (put m k x) = {[k]} ∪ keys m.
Proof.
  apply set_eq. intros k'. rewrite elem_of_union, elem_of_singleton, !elem_of_keys, find_put.
  destruct (Z.eqb_spec k k'); naive_solver.
Qed.

Lemma keys_assign m k x y : find m k = Some y → keys (put m k x) = keys m.
Proof. intros Hf. rewrite keys_put. assert (k ∈ keys m) by (apply elem_of_keys; by eexists). set_solver. Qed.

Lemma keys_try_emplace m k x : sorted m → keys (try_emplace m k x) = {[k]} ∪ keys m.
Proof.
  intros Hs. rewrite try_emplace_eq by done. destruct (find m k) eqn:E; [|apply keys_put].
  assert (k ∈ keys m) by (apply elem_of_keys; by eexists). set_solver.
Qed.

Lemma sorted_try_emplace m k x : sorted m → sorted (try_emplace m k x).
Proof. intros Hs. rewrite try_emplace_eq by done. destruct (find m k); [done|by apply sorted_put]. Qed.

Lemma keys_erase m k : sorted m → keys (erase m k) = keys m ∖ {[k]}.
Proof.
  intros Hs. apply set_eq. intros k'. rewrite elem_of_difference, elem_of_singleton, !elem_of_keys, find_erase by done.
  destruct (Z.eqb_spec k k'); naive_solver.
Qed.

Lemma size_keys m : sorted m → size (keys m) = length m.
Proof. intros Hs%sorted_keys. unfold keys. by rewrite size_list_to_set, length_fmap. Qed.

End map.
End StdMap.
