(* ===== verification/Ladder.v ===== *)
(** * One side of the book (PriceLadder, order_book.hpp and order_book.cpp)

    A window of consecutive prices in a flat array, a fallback [std::map] for
    the prices outside it, and the best occupied index. The template parameter
    [IsBid] is an argument of the operations that depend on it. [levels] is the plain ordered map the
    ladder stands for; the theorems say that every operation does to [levels]
    what it would do to a [std::map] holding every level. *)

From stdpp Require Import base decidable list sorting.
From S2P Require Import Prelude.
From S2P Require Import Types.
From S2P Require Import SortedMap.

Module PriceLadder.

Section ladder.
Context (IsBid : bool).

Record PriceLadder := mk {
  window : list PriceLevel;
  overflow : list (Price * PriceLevel);   (* std::map, in iteration order *)
  lo : Price;
  limit : Z;
  occupied : Z;
  best_idx : Z;
  outside_opens : Z;
  is_placed : bool;
}.

(** The constructor. *)
Definition make (window_levels : Z) : PriceLadder :=
  mk (vmake window_levels empty_level) [] 0 0 0 0 0 false.

(** A [PriceLevel&] or [PriceLevel*] into the ladder. *)
Inductive LevelRef := InWindow (i : Z) | InOverflow (price : Price).

Definition deref (L : PriceLadder) (r : LevelRef) : res PriceLevel :=
  match r with
  | InWindow i => vget (window L) i
  | InOverflow p =>
      match StdMap.find (overflow L) p with
      | Some l => Ok l
      | None => Err undefined_behaviour     (* the node was erased *)
      end
  end.

Definition with_window (L : PriceLadder) (w : list PriceLevel) : PriceLadder :=
  mk w (overflow L) (lo L) (limit L) (occupied L) (best_idx L) (outside_opens L) (is_placed L).

Definition with_overflow (L : PriceLadder) (m : list (Price * PriceLevel)) : PriceLadder :=
  mk (window L) m (lo L) (limit L) (occupied L) (best_idx L) (outside_opens L) (is_placed L).

(** A write through a [PriceLevel&]. *)
Definition assign (L : PriceLadder) (r : LevelRef) (l : PriceLevel) : res PriceLadder :=
  match r with
  | InWindow i => w ← vset (window L) i l; Ok (with_window L w)
  | InOverflow p =>
      match StdMap.find (overflow L) p with
      | Some _ => Ok (with_overflow L (StdMap.put IsBid (overflow L) p l))
      | None => Err undefined_behaviour
      end
  end.

(** [place]: the window is [[base, base + size)], clipped at the largest price. *)
Definition place (L : PriceLadder) (base : Price) : PriceLadder :=
  let room := u64 (kMaxPrice - base) in
  let n := zlen (window L) in
  let lim := if (n =? 0) || (u64 (n - 1) <=? room) then n else u64 (room + 1) in
  mk (window L) (overflow L) base lim (occupied L) (best_idx L) (outside_opens L) true.

Definition in_window (L : PriceLadder) (price : Price) : bool :=
  (lo L <=? price) && (u64 (price - lo L) <? limit L).

Definition beyond_best_edge (L : PriceLadder) (price : Price) : bool :=
  if IsBid then (lo L <=? price) && (limit L <=? u64 (price - lo L)) else price <? lo L.

Definition note_opened (L : PriceLadder) (i : Z) : PriceLadder :=
  mk (window L) (overflow L) (lo L) (limit L) (u64 (occupied L + 1))
    (if (occupied L =? 0) || better IsBid i (best_idx L) then i else best_idx L)
    (outside_opens L) (is_placed L).

Definition open (L : PriceLadder) (price : Price) : res (LevelRef * PriceLadder) :=
  if in_window L price then
    let i := u64 (price - lo L) in
    l ← vget (window L) i;
    Ok (InWindow i, if level_empty l then note_opened L i else L)
  else
    Ok (InOverflow price,
        mk (window L) (StdMap.try_emplace IsBid (overflow L) price empty_level) (lo L) (limit L)
          (occupied L) (best_idx L) (u64 (outside_opens L + 1)) (is_placed L)).

(** [find]: [None] is [nullptr]. *)
Definition find (L : PriceLadder) (price : Price) : res (option LevelRef) :=
  if in_window L price then
    let i := u64 (price - lo L) in
    l ← vget (window L) i;
    Ok (if level_empty l then None else Some (InWindow i))
  else
    match StdMap.find (overflow L) price with
    | None => Ok None
    | Some _ => Ok (Some (InOverflow price))
    end.

(** [best]: the best level and its price, or [None] for [nullptr]. *)
Definition best (L : PriceLadder) : option (LevelRef * Price) :=
  let level := if 0 <? occupied L
    then Some (InWindow (best_idx L), u64 (lo L + best_idx L)) else None in
  match overflow L with
  | [] => level
  | (p, _) :: _ =>
      match level with
      | None => Some (InOverflow p, p)
      | Some (r, price) => if better IsBid p price then Some (InOverflow p, p) else level
      end
  end.

Definition best_price (L : PriceLadder) : option Price := snd <$> best L.

(** [do --i; while (window[i].empty())], or [++i] for asks. *)
Fixpoint next_occupied (fuel : nat) (L : PriceLadder) (i : Z) : res Z :=
  match fuel with
  | O => Err out_of_fuel
  | S fuel =>
      let i := if IsBid then u64 (i - 1) else u64 (i + 1) in
      l ← vget (window L) i;
      if level_empty l then next_occupied fuel L i else Ok i
  end.

(** [closed]: the level at [price] has become empty. The scan passes each window
    slot at most once. *)
Definition closed (L : PriceLadder) (price : Price) : res PriceLadder :=
  if negb (in_window L price) then Ok (with_overflow L (StdMap.erase (overflow L) price))
  else
    let i := u64 (price - lo L) in
    let occ := u64 (occupied L - 1) in
    b ← (if (0 <? occ) && (i =? best_idx L)
         then next_occupied (length (window L)) L i else Ok (best_idx L));
    Ok (mk (window L) (overflow L) (lo L) (limit L) occ b (outside_opens L) (is_placed L)).

(** The window indices [for_each_level] visits, in order. *)
Definition scan_indices (L : PriceLadder) : list Z :=
  if IsBid then reverse (seqZ 0 (u64 (best_idx L + 1)))
  else seqZ (best_idx L) (limit L - best_idx L).

(** The window part of [for_each_level]: the occupied slots among [idxs]. *)
Fixpoint scan_window (L : PriceLadder) (idxs : list Z) : res (list (Price * PriceLevel)) :=
  match idxs with
  | [] => Ok []
  | i :: idxs =>
      l ← vget (window L) i;
      rest ← scan_window L idxs;
      Ok (if level_empty l then rest else (u64 (lo L + i), l) :: rest)
  end.

(** The leading part of [overflow] that is beyond the best edge, and the rest. *)
Fixpoint split_overflow (L : PriceLadder) (m : list (Price * PriceLevel)) :
    list (Price * PriceLevel) * list (Price * PriceLevel) :=
  match m with
  | [] => ([], [])
  | (p, l) :: m' =>
      if beyond_best_edge L p then
        let '(a, b) := split_overflow L m' in ((p, l) :: a, b)
      else ([], m)
  end.

(** [for_each_level]: the calls [fn(price, level)], in order. *)
Definition for_each_level (L : PriceLadder) : res (list (Price * PriceLevel)) :=
  let '(before, after) := split_overflow L (overflow L) in
  mid ← (if 0 <? occupied L then scan_window L (scan_indices L) else Ok []);
  Ok (before ++ mid ++ after).

(** [check] of a debug build. *)
Fixpoint check_window (L : PriceLadder) (v : list PriceLevel) (i cnt : Z) : res Z :=
  match v with
  | [] => Ok cnt
  | l :: v =>
      if level_empty l then
        _ ← assert_that (total_qty l =? 0);
        _ ← assert_that (level_tail l =? kNoSlot);
        check_window L v (i + 1) cnt
      else
        _ ← assert_that (i <? limit L);
        _ ← assert_that (negb (better IsBid i (best_idx L)));
        check_window L v (i + 1) (cnt + 1)
  end.

Fixpoint check_overflow (L : PriceLadder) (m : list (Price * PriceLevel)) : res unit :=
  match m with
  | [] => Ok ()
  | (p, l) :: m =>
      _ ← assert_that (negb (in_window L p));
      _ ← assert_that (negb (level_empty l));
      check_overflow L m
  end.

Definition check (L : PriceLadder) : res unit :=
  cnt ← check_window L (window L) 0 0;
  _ ← assert_that (cnt =? occupied L);
  _ ← (if 0 <? occupied L then
         l ← vget (window L) (best_idx L); assert_that (negb (level_empty l))
       else Ok ());
  check_overflow L (overflow L).

Definition opened_outside (L : PriceLadder) : Z := outside_opens L.
Definition span (L : PriceLadder) : Z := limit L.
Definition capacity (L : PriceLadder) : Z := zlen (window L).


(** ** Abstraction: the plain ordered map of every occupied level *)

Definition slot_level (L : PriceLadder) (i : Z) : option (Price * PriceLevel) :=
  l ← (window L).[i];
  if level_empty l then None else Some (lo L + i, l).

Definition all_indices (L : PriceLadder) : list Z :=
  if IsBid then reverse (seqZ 0 (limit L)) else seqZ 0 (limit L).

Definition window_levels (L : PriceLadder) : list (Price * PriceLevel) :=
  omap (slot_level L) (all_indices L).

Definition levels (L : PriceLadder) : list (Price * PriceLevel) :=
  (split_overflow L (overflow L)).1 ++ window_levels L ++ (split_overflow L (overflow L)).2.

(** Where the level of [price] lives. *)
Definition ref_of (L : PriceLadder) (price : Price) : LevelRef :=
  if in_window L price then InWindow (u64 (price - lo L)) else InOverflow price.

Definition nonempty (l : PriceLevel) : Prop := level_empty l = false.

(** How many slots of the window hold a level. *)
Definition occupancy (v : list PriceLevel) : Z :=
  zlen (filter (λ l, level_empty l = false) v).

(** What holds at every step, also while a level is being opened or closed. *)
Record shape (L : PriceLadder) : Prop := {
  sh_lo : 0 ≤ lo L;
  sh_limit : 0 ≤ limit L ≤ zlen (window L);
  sh_top : lo L + limit L ≤ two64;
  sh_size : zlen (window L) < two64;
  sh_empty : ∀ i l, (window L).[i] = Some l → level_empty l = true → l = empty_level;
  sh_beyond : ∀ i l, (window L).[i] = Some l → limit L ≤ i → l = empty_level;
  sh_sorted : StdMap.sorted IsBid (overflow L);
  sh_outside : ∀ p l, (p, l) ∈ overflow L → in_window L p = false ∧ 0 ≤ p < two64;
}.

Definition best_valid (L : PriceLadder) : Prop :=
  0 < occupied L → (∃ l, (window L).[best_idx L] = Some l ∧ nonempty l) ∧
    ∀ i l, (window L).[i] = Some l → nonempty l → better IsBid i (best_idx L) = false.

Record wf (L : PriceLadder) : Prop := {
  wf_shape : shape L;
  wf_occupied : occupied L = occupancy (window L);
  wf_best : best_valid L;
  wf_solid : ∀ p l, (p, l) ∈ overflow L → nonempty l;
}.

(** What an update of a level leaves alone. *)
Definition same_frame (L L' : PriceLadder) : Prop :=
  lo L' = lo L ∧ limit L' = limit L ∧ is_placed L' = is_placed L ∧
  zlen (window L') = zlen (window L).

(** ** Prices and indices *)

Lemma level_empty_empty : level_empty empty_level = true.
Proof. done. Qed.

Section prices.
Context (L : PriceLadder) (Hsh : shape L).

Lemma in_window_spec p : 0 ≤ p < two64 → in_window L p = true ↔ lo L ≤ p < lo L + limit L.
Proof.
  intros Hp. pose proof (sh_lo _ Hsh). unfold in_window.
  destruct (Z.leb_spec (lo L) p); simpl; [|split; [done|lia]].
  rewrite u64_small by lia. destruct (Z.ltb_spec (p - lo L) (limit L)); split; try done; lia.
Qed.

Lemma in_window_idx p : in_window L p = true → 0 ≤ p < two64 → u64 (p - lo L) = p - lo L ∧
  0 ≤ p - lo L < limit L.
Proof.
  intros Hin Hp. apply in_window_spec in Hin; [|done]. pose proof (sh_lo _ Hsh).
  rewrite u64_small by lia. lia.
Qed.

(** Which side of the window an outside price is on. *)
Lemma beyond_spec p : 0 ≤ p < two64 → in_window L p = false →
  if beyond_best_edge L p then (if IsBid then lo L + limit L ≤ p else p < lo L)
  else (if IsBid then p < lo L else lo L + limit L ≤ p).
Proof.
  intros Hp Hin. pose proof (sh_lo _ Hsh). pose proof (sh_limit _ Hsh).
  assert (¬ (lo L ≤ p < lo L + limit L)) as Hout.
  { intros Hc. apply in_window_spec in Hc; [congruence|done]. }
  unfold beyond_best_edge. destruct IsBid.
  - destruct (Z.leb_spec (lo L) p); simpl; [|lia]. rewrite u64_small by lia.
    destruct (Z.leb_spec (limit L) (p - lo L)); lia.
  - destruct (Z.ltb_spec p (lo L)); lia.
Qed.

Lemma split_overflow_spec m : StdMap.sorted IsBid m →
  (∀ p l, (p, l) ∈ m → in_window L p = false ∧ 0 ≤ p < two64) →
  let '(a, b) := split_overflow L m in
  m = a ++ b ∧ (∀ p l, (p, l) ∈ a → beyond_best_edge L p = true) ∧
  (∀ p l, (p, l) ∈ b → beyond_best_edge L p = false).
Proof.
  induction m as [|[p l] m IH]; simpl.
  { intros _ _. split; [done|]. split; by intros ?? ?%elem_of_nil. }
  intros [Hs Hb]%StdMap.sorted_cons Hout.
  destruct (Hout p l ltac:(left)) as [Hpo Hpr]. pose proof (beyond_spec p Hpr Hpo) as Hsp.
  destruct (beyond_best_edge L p) eqn:Hbe.
  - destruct (split_overflow L m) as [a b]. destruct IH as (-> & Ha & Hb'); [done| |].
    { intros q l' Hq. apply (Hout q l'). by right. }
    split_and!; [done| |done]. intros q l' [[= -> ->]|Hq]%elem_of_cons; [done|by eapply Ha].
  - split; [done|]. split; [by intros ?? ?%elem_of_nil|].
    intros q l' Hq. destruct (Hout q l' Hq) as [Hqo Hqr]. pose proof (beyond_spec q Hqr Hqo) as Hsq.
    apply elem_of_cons in Hq as [[= -> ->]|Hq]; [done|]. apply Hb in Hq. unfold better in Hq.
    pose proof (sh_limit _ Hsh). destruct (beyond_best_edge L q); [|done]. destruct IsBid; lia.
Qed.

Lemma elem_of_all_indices i : i ∈ all_indices L ↔ 0 ≤ i < limit L.
Proof.
  unfold all_indices. destruct IsBid; rewrite ?elem_of_reverse, elem_of_seqZ; lia.
Qed.

Lemma elem_of_window_levels p l :
  (p, l) ∈ window_levels L ↔ lo L ≤ p < lo L + limit L ∧ (window L).[p - lo L] = Some l ∧ nonempty l.
Proof.
  unfold window_levels. rewrite list_elem_of_omap. split.
  - intros (i & Hi%elem_of_all_indices & Hs). unfold slot_level in Hs.
    destruct ((window L).[i]) as [l'|] eqn:Hw; simpl in Hs; [|done].
    destruct (level_empty l') eqn:He; [done|]. simplify_eq.
    replace (lo L + i - lo L) with i by lia. split; [lia|done].
  - intros (Hp & Hw & He). exists (p - lo L). rewrite elem_of_all_indices. split; [lia|].
    unfold slot_level. rewrite Hw. simpl. rewrite He. f_equal. f_equal. lia.
Qed.

Lemma elem_of_levels p l :
  (p, l) ∈ levels L ↔
  (lo L ≤ p < lo L + limit L ∧ (window L).[p - lo L] = Some l ∧ nonempty l) ∨ (p, l) ∈ overflow L.
Proof.
  unfold levels. pose proof (split_overflow_spec _ (sh_sorted _ Hsh) (sh_outside _ Hsh)) as Hsp.
  destruct (split_overflow L (overflow L)) as [a b]. destruct Hsp as (-> & _ & _). simpl.
  rewrite !elem_of_app, elem_of_window_levels. tauto.
Qed.

Lemma sorted_omap_indices (is' : list Z) :
  StronglySorted (λ i j, better IsBid i j = true) is' →
  StronglySorted (StdMap.ranked IsBid) (omap (slot_level L) is').
Proof.
  assert (Hfst : ∀ i x, slot_level L i = Some x → x.1 = lo L + i).
  { intros i x. unfold slot_level. destruct ((window L).[i]) as [l|]; simpl; [|done].
    destruct (level_empty l); [done|]. by intros [= <-]. }
  induction 1 as [|i is' Hs IH Hf]; [constructor|].
  change (omap (slot_level L) (i :: is')) with
    (match slot_level L i with Some y => y :: omap (slot_level L) is' | None => omap (slot_level L) is' end).
  destruct (slot_level L i) as [x|] eqn:Hx; [|done]. apply StronglySorted_cons. split; [|done].
  apply Forall_forall. intros y (j & Hj & Hy)%list_elem_of_omap.
  rewrite Forall_forall in Hf. specialize (Hf j Hj). unfold StdMap.ranked.
  rewrite (Hfst i), (Hfst j) by done. unfold better in *. destruct IsBid; lia.
Qed.

Lemma window_levels_sorted : StdMap.sorted IsBid (window_levels L).
Proof.
  apply sorted_omap_indices. unfold all_indices, better. destruct IsBid.
  - apply (StronglySorted_reverse Z.lt), sorted_seqZ. intros; lia.
  - eapply StronglySorted_impl, sorted_seqZ. intros; lia.
Qed.

(** A level before the split beats the window, the window beats the rest. *)
Lemma levels_sorted : StdMap.sorted IsBid (levels L).
Proof.
  unfold levels, StdMap.sorted. pose proof (sh_sorted _ Hsh) as Hs. pose proof (sh_outside _ Hsh) as Ho.
  pose proof (split_overflow_spec _ Hs Ho) as Hsp. pose proof (sh_limit _ Hsh).
  destruct (split_overflow L (overflow L)) as [a b]. destruct Hsp as (Heq & Ha & Hb). simpl.
  rewrite Heq in Hs, Ho. unfold StdMap.sorted in Hs.
  apply StronglySorted_app in Hs as (Hab & Hsa & Hsb).
  apply StronglySorted_app. split_and!; [|done|apply StronglySorted_app; split_and!; [|apply window_levels_sorted|done]].
  - intros [p l] [q l'] Hp [Hq|Hq]%elem_of_app; [|by apply Hab].
    apply elem_of_window_levels in Hq as (Hq & _ & _). unfold StdMap.ranked, better. simpl.
    destruct (Ho p l) as [Hpo Hpr]; [by apply elem_of_app; left|].
    pose proof (beyond_spec p Hpr Hpo) as Hsp. rewrite (Ha p l Hp) in Hsp. destruct IsBid; lia.
  - intros [p l] [q l'] Hp Hq. apply elem_of_window_levels in Hp as (Hp & _ & _).
    unfold StdMap.ranked, better. simpl.
    destruct (Ho q l') as [Hqo Hqr]; [by apply elem_of_app; right|].
    pose proof (beyond_spec q Hqr Hqo) as Hsp. rewrite (Hb q l' Hq) in Hsp. destruct IsBid; lia.
Qed.

(** The lookup of a price in the abstract map, by where the price is. *)
Lemma find_levels p : 0 ≤ p < two64 →
  StdMap.find (levels L) p =
  if in_window L p then
    (l ← (window L).[p - lo L]; if level_empty l then None else Some l)
  else StdMap.find (overflow L) p.
Proof.
  intros Hp. apply option_eq. intros l. rewrite <-(StdMap.elem_find_iff IsBid) by apply levels_sorted.
  rewrite elem_of_levels. destruct (in_window L p) eqn:Hin.
  - apply in_window_spec in Hin as Hr; [|done]. split.
    + intros [(_ & -> & He)|Hov]; simpl; [by rewrite He|].
      apply (sh_outside _ Hsh) in Hov as [? _]. congruence.
    + destruct ((window L).[p - lo L]) as [l'|]; simpl; [|done].
      destruct (level_empty l') eqn:He; [done|]. intros [= ->]. by left.
  - rewrite (StdMap.elem_find_iff IsBid) by apply Hsh. split; [|by right].
    intros [(Hr & _)|]; [|done]. apply in_window_spec in Hr; [congruence|done].
Qed.

Lemma ref_of_in p : 0 ≤ p < two64 → in_window L p = true → ref_of L p = InWindow (p - lo L).
Proof. intros Hp Hin. unfold ref_of. rewrite Hin. by destruct (in_window_idx p Hin Hp) as [-> _]. Qed.

Lemma ladder_deref_spec p l : 0 ≤ p < two64 → StdMap.find (levels L) p = Some l → deref L (ref_of L p) = Ok l.
Proof.
  intros Hp. rewrite find_levels by done. destruct (in_window L p) eqn:Hin.
  - rewrite ref_of_in by done. simpl. destruct ((window L).[p - lo L]) as [l'|] eqn:Hw; simpl; [|done].
    destruct (level_empty l'); [done|]. intros [= ->]. by apply vget_ok.
  - unfold ref_of. rewrite Hin. simpl. by intros ->.
Qed.

Lemma ladder_find_spec p : 0 ≤ p < two64 →
  find L p = Ok (match StdMap.find (levels L) p with Some _ => Some (ref_of L p) | None => None end).
Proof.
  intros Hp. rewrite find_levels by done. unfold find, ref_of. destruct (in_window L p) eqn:Hin.
  - destruct (in_window_idx p Hin Hp) as [-> Hr]. pose proof (sh_limit _ Hsh).
    destruct (zlookup_lt (window L) (p - lo L)) as [l Hl]; [lia|].
    rewrite (vget_ok _ _ _ Hl), Hl. simpl. by destruct (level_empty l).
  - by destruct (StdMap.find (overflow L) p).
Qed.
End prices.


(** ** The occupied count *)

Definition weight (l : PriceLevel) : Z := if level_empty l then 0 else 1.

Lemma occupancy_cons l v : occupancy (l :: v) = weight l + occupancy v.
Proof.
  unfold occupancy, weight. rewrite filter_cons.
  destruct (level_empty l) eqn:He; [rewrite decide_False by done | rewrite decide_True by done];
    rewrite ?zlen_cons; lia.
Qed.

Lemma occupancy_nonneg v : 0 ≤ occupancy v.
Proof. apply zlen_nonneg. Qed.

Lemma occupancy_le v : occupancy v ≤ zlen v.
Proof.
  induction v as [|l v IH]; [done|]. rewrite occupancy_cons, zlen_cons. unfold weight.
  destruct (level_empty l); lia.
Qed.

Lemma occupancy_app v w : occupancy (v ++ w) = occupancy v + occupancy w.
Proof. unfold occupancy. by rewrite filter_app, zlen_app. Qed.

Lemma occupancy_zset v i l l' : v.[i] = Some l →
  occupancy (v.[i := l']) = occupancy v - weight l + weight l'.
Proof.
  intros [Hr Hl]%zlookup_Some. unfold zset. destruct (_ && _) eqn:E; [|lia].
  rewrite insert_take_drop by (unfold zlen in *; lia).
  replace (occupancy v) with (occupancy (take (Z.to_nat i) v ++ l :: drop (S (Z.to_nat i)) v))
    by by rewrite take_drop_middle.
  rewrite !occupancy_app, !occupancy_cons. lia.
Qed.

Lemma occupancy_pos v : 0 < occupancy v ↔ ∃ i l, v.[i] = Some l ∧ nonempty l.
Proof.
  split.
  - induction v as [|l v IH]; [done|]. rewrite occupancy_cons. unfold weight.
    destruct (level_empty l) eqn:He.
    + intros (i & l' & Hi & He')%IH. exists (i + 1), l'. split; [|done].
      apply zlookup_Some in Hi as [Hr Hi]. apply zlookup_Some. rewrite zlen_cons. split; [lia|].
      by replace (Z.to_nat (i + 1)) with (S (Z.to_nat i)) by lia.
    + intros _. exists 0, l. split; [|done]. apply zlookup_Some. rewrite zlen_cons.
      pose proof (zlen_nonneg v). split; [lia|done].
  - intros (i & l & Hi & He). pose proof (occupancy_zset v i l empty_level Hi) as Hz.
    pose proof (occupancy_nonneg (v.[i := empty_level])). unfold weight in Hz. rewrite He in Hz.
    simpl in Hz. lia.
Qed.

(** ** The best level *)

Lemma best_in_levels L : wf L → 0 < occupied L → ∃ l,
  (window L).[best_idx L] = Some l ∧ nonempty l ∧ 0 ≤ best_idx L < limit L ∧
  u64 (lo L + best_idx L) = lo L + best_idx L ∧ (lo L + best_idx L, l) ∈ levels L.
Proof.
  intros Hwf Hocc. pose proof (wf_shape _ Hwf) as Hsh.
  destruct (wf_best _ Hwf Hocc) as [(l & Hl & He) _]. exists l.
  assert (best_idx L < limit L) as Hlim.
  { apply Z.lt_nge. intros Hge. rewrite (sh_beyond _ Hsh _ _ Hl Hge) in He. done. }
  pose proof (zlookup_range _ _ _ Hl) as Hr. pose proof (sh_lo _ Hsh). pose proof (sh_top _ Hsh).
  split_and!; try done; try lia; [by apply u64_small; lia|].
  apply elem_of_levels; [done|]. left. replace (lo L + best_idx L - lo L) with (best_idx L) by lia.
  split; [lia|done].
Qed.

(** The first entry of a sorted map is the entry nothing beats. *)
Lemma head_unique (m : list (Price * PriceLevel)) p l :
  StdMap.sorted IsBid m → (p, l) ∈ m → (∀ q l', (q, l') ∈ m → better IsBid q p = false) →
  ∃ m', m = (p, l) :: m'.
Proof.
  destruct m as [|[q l'] m]; [by intros _ ?%elem_of_nil|]. intros Hs Hin Hbest.
  destruct (StdMap.head_best _ _ _ _ _ _ Hs Hin) as [->|Hb].
  - exists m. f_equal. f_equal. apply (StdMap.elem_find IsBid) in Hin; [|done]. simpl in Hin.
    rewrite Z.eqb_refl in Hin. congruence.
  - rewrite (Hbest q l') in Hb; [done|left].
Qed.

Lemma ladder_best_spec L : wf L →
  best L = match levels L with [] => None | (p, _) :: _ => Some (ref_of L p, p) end.
Proof.
  intros Hwf. pose proof (wf_shape _ Hwf) as Hsh. pose proof (levels_sorted L Hsh) as Hs.
  assert (Hov : ∀ p l m', overflow L = (p, l) :: m' → in_window L p = false ∧ 0 ≤ p < two64 ∧
    (p, l) ∈ levels L ∧ ∀ q l', (q, l') ∈ overflow L → better IsBid q p = false).
  { intros p l m' Ho. assert (Hin : (p, l) ∈ overflow L) by (rewrite Ho; left).
    destruct (sh_outside _ Hsh p l Hin). split_and!; try done; try lia.
    - apply elem_of_levels; [done|]. by right.
    - intros q l' Hq. pose proof (sh_sorted _ Hsh) as Hso. rewrite Ho in Hq, Hso.
      destruct (StdMap.head_best _ _ _ _ _ _ Hso Hq) as [->|Hb]; [apply StdMap.better_irrefl|].
      by apply StdMap.better_asym. }
  assert (Hnone : occupied L ≤ 0 → ∀ q l', (q, l') ∈ levels L → (q, l') ∈ overflow L).
  { intros Hz q l' [(_ & Hw & He)|]%elem_of_levels; [|done|done]. exfalso.
    assert (0 < occupancy (window L)) as Hpos by (apply occupancy_pos; by eexists _, _).
    rewrite <-(wf_occupied _ Hwf) in Hpos. lia. }
  assert (Hwin : 0 < occupied L → ∀ q l', (q, l') ∈ levels L → (q, l') ∈ overflow L ∨
    better IsBid q (lo L + best_idx L) = false).
  { intros Hocc q l' [(Hr & Hw & He)|]%elem_of_levels; [|by left|done]. right.
    destruct (wf_best _ Hwf Hocc) as [_ Hb]. specialize (Hb _ _ Hw He). unfold better in *.
    destruct IsBid; lia. }
  assert (Hhead : ∀ p l, (p, l) ∈ levels L → (∀ q l', (q, l') ∈ levels L → better IsBid q p = false) →
    match levels L with [] => None | (p, _) :: _ => Some (ref_of L p, p) end = Some (ref_of L p, p)).
  { intros p l Hin Hb. by destruct (head_unique _ p l Hs Hin Hb) as [m' ->]. }
  unfold best. destruct (Z.ltb_spec 0 (occupied L)) as [Hocc|Hocc].
  - destruct (best_in_levels L Hwf Hocc) as (l & Hl & He & Hi & -> & Hin).
    assert (Href : ref_of L (lo L + best_idx L) = InWindow (best_idx L)).
    { pose proof (sh_lo _ Hsh). pose proof (sh_top _ Hsh). rewrite ref_of_in; [f_equal; lia|done|lia|].
      apply in_window_spec; [done|lia|lia]. }
    destruct (overflow L) as [|[p l'] m'] eqn:Ho.
    + rewrite (Hhead _ _ Hin), Href; [done|]. intros q l' Hq.
      destruct (Hwin Hocc q l' Hq) as [?%elem_of_nil|]; done.
    + destruct (Hov p l' m' eq_refl) as (Hpo & Hpr & Hpin & Hpb).
      destruct (better IsBid p (lo L + best_idx L)) eqn:Hbt.
      * rewrite (Hhead _ _ Hpin); [unfold ref_of; by rewrite Hpo|]. intros q l2 Hq.
        destruct (Hwin Hocc q l2 Hq) as [Hq'|Hq']; [by eapply Hpb|].
        destruct (better IsBid q p) eqn:Hqp; [|done].
        rewrite (StdMap.better_trans IsBid q p _ Hqp Hbt) in Hq'. done.
      * rewrite (Hhead _ _ Hin), Href; [done|]. intros q l2 Hq.
        destruct (Hwin Hocc q l2 Hq) as [Hq'|]; [|done]. specialize (Hpb q l2 Hq').
        unfold better in *. destruct IsBid; lia.
  - destruct (overflow L) as [|[p l'] m'] eqn:Ho.
    + destruct (levels L) as [|[q l2] m2] eqn:Hlv; [done|].
      specialize (Hnone Hocc q l2 ltac:(left)). by apply elem_of_nil in Hnone.
    + destruct (Hov p l' m' eq_refl) as (Hpo & Hpr & Hpin & Hpb).
      rewrite (Hhead _ _ Hpin); [unfold ref_of; by rewrite Hpo|].
      intros q l2 Hq. eapply Hpb. by apply Hnone.
Qed.


(** ** Updating one level

    [upd L p l] is the ladder after a write of [l] through the reference to the
    level of [p]. *)

Definition upd (L : PriceLadder) (p : Price) (l : PriceLevel) : PriceLadder :=
  if in_window L p then with_window L ((window L).[p - lo L := l])
  else with_overflow L (StdMap.put IsBid (overflow L) p l).

(** A reference to the level of [p] is valid. *)
Definition present (L : PriceLadder) (p : Price) : Prop :=
  in_window L p = true ∨ is_Some (StdMap.find (overflow L) p).

(** An empty level is always the default one. *)
Definition canonical (l : PriceLevel) : Prop := level_empty l = true → l = empty_level.

Lemma levels_range L p l : shape L → (p, l) ∈ levels L → 0 ≤ p < two64.
Proof.
  intros Hsh [(Hr & _)|Hin]%elem_of_levels; [| |done].
  - pose proof (sh_lo _ Hsh). pose proof (sh_top _ Hsh). lia.
  - by apply (sh_outside _ Hsh) in Hin as [_ ?].
Qed.

Lemma levels_eq L m : shape L → StdMap.sorted IsBid m → (∀ k x, (k, x) ∈ m → 0 ≤ k < two64) →
  (∀ p, 0 ≤ p < two64 → StdMap.find (levels L) p = StdMap.find m p) → levels L = m.
Proof.
  intros Hsh Hs Hr Hf. apply (StdMap.find_ext IsBid); [by apply levels_sorted|done|].
  intros k. destruct (decide (0 ≤ k < two64)) as [Hk|Hk]; [by apply Hf|].
  destruct (StdMap.find (levels L) k) eqn:E1.
  { apply StdMap.find_Some_elem, levels_range in E1; [lia|done]. }
  destruct (StdMap.find m k) eqn:E2; [|done]. apply StdMap.find_Some_elem, Hr in E2. lia.
Qed.

Lemma levels_present L p l : shape L → 0 ≤ p < two64 → StdMap.find (levels L) p = Some l → present L p.
Proof.
  intros Hsh Hp. rewrite find_levels by done. unfold present. destruct (in_window L p); [by left|].
  intros ->. right. by eexists.
Qed.

Section update.
Context (L : PriceLadder) (Hsh : shape L) (p : Price) (Hp : 0 ≤ p < two64).

Lemma in_window_upd l q : in_window (upd L p l) q = in_window L q.
Proof. unfold upd. by destruct (in_window L p). Qed.

Lemma upd_frame l : same_frame L (upd L p l).
Proof. unfold upd, same_frame. destruct (in_window L p); simpl; by rewrite ?zlen_zset. Qed.

Lemma ref_of_upd l q : ref_of (upd L p l) q = ref_of L q.
Proof. unfold ref_of. rewrite in_window_upd. by destruct (upd_frame l) as (-> & _). Qed.

Lemma idx_in_range : in_window L p = true → 0 ≤ p - lo L < limit L ∧ 0 ≤ p - lo L < zlen (window L).
Proof.
  intros Hin. destruct (in_window_idx L Hsh p Hin Hp) as [_ ?]. pose proof (sh_limit _ Hsh). lia.
Qed.

Lemma upd_shape l : canonical l → shape (upd L p l).
Proof.
  intros Hl. unfold upd. destruct (in_window L p) eqn:Hin.
  - destruct (idx_in_range Hin) as [Hi Hi']. destruct Hsh as [? ? ? ? He Hb ? Ho].
    split; simpl; rewrite ?zlen_zset; try done.
    + intros i l'. rewrite zlookup_zset. destruct (decide _); [by intros [= <-]|by apply He].
    + intros i l'. rewrite zlookup_zset. destruct (decide _); [lia|by apply Hb].
  - destruct Hsh as [? ? ? ? He Hb Hs Ho]. split; simpl; try done; [by apply StdMap.sorted_put|].
    intros q l' [[= -> ->]|Hq]%StdMap.put_elem; [done|by eapply Ho].
Qed.

Lemma assign_upd l : present L p → assign L (ref_of L p) l = Ok (upd L p l).
Proof.
  intros Hpr. unfold upd, ref_of. destruct (in_window L p) eqn:Hin; simpl.
  - destruct (in_window_idx L Hsh p Hin Hp) as [-> _]. destruct (idx_in_range Hin).
    by rewrite vset_in_range.
  - destruct Hpr as [|[l' ->]]; [congruence|done].
Qed.

Lemma present_upd l : present L p → present (upd L p l) p.
Proof.
  intros Hpr. unfold present. rewrite in_window_upd. destruct (in_window L p) eqn:Hin; [by left|right].
  unfold upd. rewrite Hin. simpl. rewrite StdMap.find_put, Z.eqb_refl. by eexists.
Qed.

Lemma deref_upd l : present L p → deref (upd L p l) (ref_of L p) = Ok l.
Proof.
  intros Hpr. unfold upd, ref_of. destruct (in_window L p) eqn:Hin; simpl.
  - destruct (in_window_idx L Hsh p Hin Hp) as [-> _]. destruct (idx_in_range Hin).
    apply vget_ok. by apply zlookup_zset_eq.
  - by rewrite StdMap.find_put, Z.eqb_refl.
Qed.

Lemma upd_upd l l' : upd (upd L p l) p l' = upd L p l'.
Proof.
  unfold upd at 1. rewrite in_window_upd. unfold upd. destruct (in_window L p); unfold with_window, with_overflow; simpl.
  - by rewrite zset_zset.
  - rewrite StdMap.put_put; [done|apply Hsh].
Qed.

Lemma upd_id l : StdMap.find (levels L) p = Some l → upd L p l = L.
Proof.
  rewrite find_levels by done. unfold upd. destruct L as [w o b n oc bi out pl]. simpl.
  destruct (in_window _ p); simpl.
  - destruct (w.[p - b]) as [l'|] eqn:Hw; simpl; [|done]. destruct (level_empty l'); [done|].
    intros [= ->]. unfold with_window. simpl. by rewrite (zset_id _ _ _ Hw).
  - intros Hf. unfold with_overflow. simpl. rewrite StdMap.put_id; [done|apply Hsh|done].
Qed.

Lemma find_levels_upd l q : canonical l → 0 ≤ q < two64 →
  StdMap.find (levels (upd L p l)) q =
  if p =? q then (if in_window L p && level_empty l then None else Some l)
  else StdMap.find (levels L) q.
Proof.
  intros Hl Hq. rewrite !find_levels, in_window_upd by (done || by apply upd_shape).
  unfold upd. destruct (Z.eqb_spec p q) as [<-|Hne].
  - destruct (in_window L p) eqn:Hin; simpl.
    + destruct (idx_in_range Hin). by rewrite zlookup_zset_eq.
    + by rewrite StdMap.find_put, Z.eqb_refl.
  - destruct (in_window L p) eqn:Hin, (in_window L q) eqn:Hiq; simpl; try done.
    + by rewrite zlookup_zset_ne by lia.
    + rewrite StdMap.find_put. destruct (Z.eqb_spec p q); [done|done].
Qed.

Lemma levels_upd l : canonical l → nonempty l →
  levels (upd L p l) = StdMap.put IsBid (levels L) p l.
Proof.
  intros Hl He. apply levels_eq; [by apply upd_shape|by apply StdMap.sorted_put, levels_sorted| |].
  - intros k x [[= -> ->]|Hin]%StdMap.put_elem; [done|by eapply levels_range].
  - intros q Hq. rewrite find_levels_upd, StdMap.find_put, He, andb_false_r by done. done.
Qed.
End update.

(** A write that keeps the level occupied. *)
Lemma upd_wf L p l0 l : wf L → 0 ≤ p < two64 → StdMap.find (levels L) p = Some l0 →
  nonempty l → wf (upd L p l) ∧ levels (upd L p l) = StdMap.put IsBid (levels L) p l.
Proof.
  intros Hwf Hp Hf He. pose proof (wf_shape _ Hwf) as Hsh.
  assert (Hl : canonical l) by (intros ?; congruence).
  split; [|by apply levels_upd]. pose proof (upd_shape L Hsh p Hp l Hl) as Hsh'.
  rewrite find_levels in Hf by done. revert Hsh'. unfold upd. destruct (in_window L p) eqn:Hin; intros Hsh'.
  - destruct (idx_in_range L Hsh p Hp Hin) as [Hi Hi'].
    destruct ((window L).[p - lo L]) as [l1|] eqn:Hw; simpl in Hf; [|done].
    destruct (level_empty l1) eqn:He1; [done|]. simplify_eq.
    split; simpl; [done| | |apply Hwf].
    + rewrite (occupancy_zset _ _ l0) by done. unfold weight. rewrite He1, He, (wf_occupied _ Hwf). lia.
    + intros Hocc. simpl in *. destruct (wf_best _ Hwf Hocc) as [(lb & Hlb & Heb) Hb]. split.
      * rewrite zlookup_zset. destruct (decide _); [by exists l|by exists lb].
      * intros i l'. rewrite zlookup_zset. destruct (decide _) as [[<- _]|]; [|by apply Hb].
        intros _ _. by eapply Hb.
  - split; simpl; [done|apply Hwf|exact (wf_best _ Hwf)|].
    intros q l' [[= -> ->]|Hq]%StdMap.put_elem; [done|by eapply wf_solid].
Qed.


(** ** Closing a level *)

(** The scan finds the best of the occupied indices worse than [i]. *)
Lemma next_occupied_spec (fuel : nat) L i k lk :
  shape L → 0 ≤ i < zlen (window L) → better IsBid i k = true →
  (window L).[k] = Some lk → nonempty lk → Z.abs (i - k) ≤ Z.of_nat fuel →
  ∃ j l, next_occupied fuel L i = Ok j ∧ (window L).[j] = Some l ∧ nonempty l ∧
    better IsBid i j = true ∧
    ∀ q lq, (window L).[q] = Some lq → nonempty lq → better IsBid i q = true →
      better IsBid q j = false.
Proof.
  intros Hsh. revert i. induction fuel as [|fuel IH]; intros i Hi Hb Hk He Hf.
  { apply StdMap.better_ne in Hb. lia. }
  simpl. pose proof (zlookup_range _ _ _ Hk) as Hkr. pose proof (sh_size _ Hsh).
  assert (∃ i', (if IsBid then u64 (i - 1) else u64 (i + 1)) = i' ∧ i' = (if IsBid then i - 1 else i + 1))
    as (i' & -> & Hi').
  { eexists. split; [done|]. unfold better in Hb. destruct IsBid; apply u64_small; lia. }
  assert (Hi'r : 0 ≤ i' < zlen (window L)) by (unfold better in Hb; destruct IsBid; lia).
  destruct (zlookup_lt _ _ Hi'r) as [l Hl]. rewrite (vget_ok _ _ _ Hl). simpl.
  assert (Hbi : better IsBid i i' = true) by (unfold better; destruct IsBid; lia).
  destruct (level_empty l) eqn:Hel.
  - assert (i' ≠ k) by (intros ->; unfold nonempty in He; congruence).
    destruct (IH i') as (j & lj & Hn & Hj & Hej & Hbj & Hmax); try done.
    + unfold better in *. destruct IsBid; lia.
    + unfold better in Hb. destruct IsBid; lia.
    + exists j, lj. split_and!; try done; [by eapply StdMap.better_trans|].
      intros q lq Hq Heq Hbq. destruct (decide (q = i')) as [->|]; [unfold nonempty in Heq; congruence|].
      eapply Hmax; [done..|]. unfold better in *. destruct IsBid; lia.
  - exists i', l. split_and!; try done. intros q lq Hq Heq Hbq. unfold better in *. destruct IsBid; lia.
Qed.

Lemma closed_window L p l0 : wf L → 0 ≤ p < two64 → in_window L p = true →
  (window L).[p - lo L] = Some l0 → nonempty l0 → ∃ b,
  closed (upd L p empty_level) p = Ok (mk ((window L).[p - lo L := empty_level]) (overflow L)
    (lo L) (limit L) (occupied L - 1) b (outside_opens L) (is_placed L)) ∧
  let L' := mk ((window L).[p - lo L := empty_level]) (overflow L)
    (lo L) (limit L) (occupied L - 1) b (outside_opens L) (is_placed L) in
  best_valid L' ∧ occupied L' = occupancy (window L').
Proof.
  intros Hwf Hp Hin Hw He. pose proof (wf_shape _ Hwf) as Hsh.
  destruct (idx_in_range L Hsh p Hp Hin) as [Hi Hi'].
  pose proof (upd_shape L Hsh p Hp empty_level ltac:(done)) as Hsh1.
  pose proof (sh_size _ Hsh) as Hsz. pose proof (wf_occupied _ Hwf) as Hoc.
  pose proof (occupancy_zset _ _ _ empty_level Hw) as Hz. unfold weight in Hz. rewrite He in Hz. simpl in Hz.
  pose proof (occupancy_nonneg ((window L).[p - lo L := empty_level])).
  pose proof (occupancy_le (window L)).
  set (w := (window L).[p - lo L := empty_level]) in *.
  assert (Hw' : ∀ i l, w.[i] = Some l → nonempty l → (window L).[i] = Some l ∧ i ≠ p - lo L).
  { intros i l. unfold w. rewrite zlookup_zset. destruct (decide _) as [|Hn]; [intros [= <-]; done|].
    intros Hil Hel. split; [done|]. intros ->. by apply Hn. }
  unfold closed. rewrite in_window_upd, Hin. simpl negb. cbv iota.
  destruct (upd_frame L p empty_level) as (-> & -> & -> & _).
  destruct (in_window_idx L Hsh p Hin Hp) as [-> _].
  revert Hsh1. unfold upd. rewrite Hin. simpl. fold w. intros Hsh1.
  rewrite u64_small by lia. destruct (wf_best _ Hwf ltac:(lia)) as [(lb & Hlb & Heb) Hb].
  assert (Hz2 : occupied L - 1 = occupancy w) by lia.
  destruct (Z.ltb_spec 0 (occupied L - 1)) as [Hocc|Hocc]; simpl.
  - destruct (Z.eqb_spec (p - lo L) (best_idx L)) as [Heq|Hne].
    + pose proof Hocc as Hocc'. rewrite Hz2, occupancy_pos in Hocc'. destruct Hocc' as (k & lk & Hk & Hek).
      destruct (Hw' k lk Hk Hek) as [Hk' Hkne].
      destruct (next_occupied_spec (length (window L)) (with_window L w) (p - lo L) k lk)
        as (j & lj & Hn & Hj & Hej & Hbj & Hmax); simpl; try done.
      * unfold w. by rewrite zlen_zset.
      * apply StdMap.better_total; [done|]. rewrite Heq. by eapply Hb.
      * apply zlookup_range in Hk'. unfold zlen in Hk', Hi'. lia.
      * assert (length w = length (window L)) as -> by (pose proof (zlen_zset (window L) (p - lo L) empty_level) as Hzl; fold w in Hzl; unfold zlen in Hzl; lia).
        rewrite Hn. simpl. exists j. split; [done|]. split; [|done]. intros _. simpl in *. split; [by exists lj|].
        intros q lq Hq Heq'. destruct (Hw' q lq Hq Heq') as [Hq' Hqne].
        eapply Hmax; [done..|]. apply StdMap.better_total; [done|]. rewrite Heq. by eapply Hb.
    + exists (best_idx L). split; [done|]. split; [|done]. intros _. simpl. split.
      * exists lb. unfold w. by rewrite zlookup_zset_ne.
      * intros q lq Hq Heq'. destruct (Hw' q lq Hq Heq') as [Hq' _]. by eapply Hb.
  - exists (best_idx L). split; [done|]. split; [|done]. intros Hpos. simpl in Hpos. lia.
Qed.

Lemma closed_upd L p l0 : wf L → 0 ≤ p < two64 → StdMap.find (levels L) p = Some l0 → ∃ L',
  closed (upd L p empty_level) p = Ok L' ∧ wf L' ∧ same_frame L L' ∧
  levels L' = StdMap.erase (levels L) p.
Proof.
  intros Hwf Hp Hf. pose proof (wf_shape _ Hwf) as Hsh. pose proof (levels_sorted L Hsh) as Hs.
  assert (∃ L', closed (upd L p empty_level) p = Ok L' ∧ wf L' ∧ same_frame L L' ∧
    ∀ q, 0 ≤ q < two64 → StdMap.find (levels L') q = if p =? q then None else StdMap.find (levels L) q)
    as (L' & Hc & Hwf' & Hfr & Hf').
  { pose proof (find_levels_upd L Hsh p Hp empty_level) as Hfu.
    pose proof (upd_shape L Hsh p Hp empty_level ltac:(done)) as Hsh1.
    rewrite find_levels in Hf by done. destruct (in_window L p) eqn:Hin.
    - destruct ((window L).[p - lo L]) as [l1|] eqn:Hw; simpl in Hf; [|done].
      destruct (level_empty l1) eqn:He1; [done|]. simplify_eq.
      destruct (closed_window L p l0 Hwf Hp Hin Hw He1) as (b & Hc & Hbv & Hoc).
      eexists. split; [exact Hc|]. revert Hsh1 Hfu. unfold upd. rewrite Hin. simpl. intros Hsh1 Hfu.
      assert (Hsh' : shape (mk ((window L).[p - lo L := empty_level]) (overflow L) (lo L) (limit L)
        (occupied L - 1) b (outside_opens L) (is_placed L))) by (destruct Hsh1; by split).
      split_and!; [split; try done; apply Hwf|unfold same_frame; simpl; by rewrite zlen_zset|].
      intros q Hq. rewrite <-Hfu by done. by rewrite !find_levels by done.
    - unfold closed. rewrite in_window_upd, Hin. simpl. unfold upd. rewrite Hin.
      eexists. split; [done|]. unfold with_overflow. simpl.
      assert (Her : ∀ k, StdMap.find (StdMap.erase (StdMap.put IsBid (overflow L) p empty_level) p) k =
        if p =? k then None else StdMap.find (overflow L) k).
      { intros k. rewrite (StdMap.find_erase IsBid), StdMap.find_put by (apply StdMap.sorted_put, Hsh).
        by destruct (p =? k). }
      assert (Hsub : ∀ k x, (k, x) ∈ StdMap.erase (StdMap.put IsBid (overflow L) p empty_level) p → (k, x) ∈ overflow L).
      { intros k x Hkx. apply (StdMap.elem_find IsBid) in Hkx; [|apply StdMap.sorted_erase, StdMap.sorted_put, Hsh].
        rewrite Her in Hkx. destruct (p =? k); [done|]. by apply StdMap.find_Some_elem. }
      assert (Hsh' : shape (mk (window L) (StdMap.erase (StdMap.put IsBid (overflow L) p empty_level) p)
        (lo L) (limit L) (occupied L) (best_idx L) (outside_opens L) (is_placed L))).
      { destruct Hsh as [? ? ? ? ? ? Hso Ho]. split; simpl; try done.
        - by apply StdMap.sorted_erase, StdMap.sorted_put.
        - intros q l Hq%Hsub. by eapply Ho. }
      split_and!.
      + split; simpl; [done|apply Hwf|exact (wf_best _ Hwf)|]. intros q l Hq%Hsub. by eapply wf_solid.
      + done.
      + intros q Hq. rewrite !find_levels by done. change (in_window (mk _ _ _ _ _ _ _ _) q) with (in_window L q).
        simpl. rewrite Her. destruct (Z.eqb_spec p q) as [->|]; [by rewrite Hin|done]. }
  exists L'. split_and!; [done..|]. apply levels_eq; [apply Hwf'|by apply StdMap.sorted_erase| |].
  - intros k x Hkx%StdMap.erase_elem. by eapply levels_range.
  - intros q Hq. rewrite Hf', (StdMap.find_erase IsBid) by done. done.
Qed.


(** ** Opening a level *)

Lemma levels_cong L L' : window L' = window L → overflow L' = overflow L → lo L' = lo L →
  limit L' = limit L → levels L' = levels L.
Proof.
  destruct L as [w o b n oc bi out pl], L' as [w' o' b' n' oc' bi' out' pl']. simpl. intros -> -> -> ->.
  assert (∀ m, split_overflow (mk w o b n oc' bi' out' pl') m = split_overflow (mk w o b n oc bi out pl) m) as Hs.
  { induction m as [|[p l] m IH]; [done|]. simpl. by rewrite IH. }
  unfold levels. simpl. by rewrite Hs.
Qed.

Lemma open_new_window L p l0 l : wf L → 0 ≤ p < two64 → in_window L p = true →
  (window L).[p - lo L] = Some l0 → level_empty l0 = true → nonempty l →
  let L1 := note_opened L (p - lo L) in
  wf (upd L1 p l) ∧ levels (upd L1 p l) = StdMap.put IsBid (levels L) p l.
Proof.
  intros Hwf Hp Hin Hw He0 He L1. pose proof (wf_shape _ Hwf) as Hsh.
  destruct (idx_in_range L Hsh p Hp Hin) as [Hi Hi'].
  assert (Hsh1 : shape L1) by (destruct Hsh; by split).
  assert (Hl : canonical l) by (intros ?; unfold nonempty in He; congruence).
  split.
  2:{ rewrite levels_upd by done. f_equal. by apply levels_cong. }
  pose proof (upd_shape L1 Hsh1 p Hp l Hl) as Hsh2. revert Hsh2. unfold upd.
  change (in_window L1 p) with (in_window L p). rewrite Hin. simpl. intros Hsh2.
  pose proof (wf_occupied _ Hwf) as Hoc. pose proof (sh_size _ Hsh).
  pose proof (occupancy_zset _ _ _ l Hw) as Hz. unfold weight in Hz. rewrite He0, He in Hz.
  pose proof (occupancy_le ((window L).[p - lo L := l])) as Hle. rewrite zlen_zset in Hle.
  pose proof (occupancy_nonneg (window L)).
  split; simpl; [done|rewrite u64_small by lia; lia| |apply Hwf].
  intros _. simpl. destruct (Z.eqb_spec (occupied L) 0) as [Hz0|Hnz]; simpl.
  - split; [exists l; split; [by apply zlookup_zset_eq|done]|]. intros i l'. rewrite zlookup_zset.
    destruct (decide _) as [[<- _]|]; [intros; apply StdMap.better_irrefl|]. intros Hil Hel. exfalso.
    assert (0 < occupancy (window L)) by (apply occupancy_pos; by exists i, l'). lia.
  - destruct (wf_best _ Hwf ltac:(lia)) as [(lb & Hlb & Heb) Hb].
    destruct (better IsBid (p - lo L) (best_idx L)) eqn:Hbt.
    + split; [exists l; split; [by apply zlookup_zset_eq|done]|]. intros i l'. rewrite zlookup_zset.
      destruct (decide _) as [[<- _]|]; [intros; apply StdMap.better_irrefl|]. intros Hil Hel.
      specialize (Hb i l' Hil Hel). unfold better in *. destruct IsBid; lia.
    + split.
      * rewrite zlookup_zset. destruct (decide _); [by exists l|by exists lb].
      * intros i l'. rewrite zlookup_zset. destruct (decide _) as [[<- _]|]; [done|]. by apply Hb.
Qed.

Lemma ladder_open_spec L p : wf L → 0 ≤ p < two64 → ∃ L1,
  open L p = Ok (ref_of L p, L1) ∧
  deref L1 (ref_of L p) = Ok (default empty_level (StdMap.find (levels L) p)) ∧
  ∀ l, nonempty l → ∃ L2, assign L1 (ref_of L p) l = Ok L2 ∧ wf L2 ∧ same_frame L L2 ∧
    levels L2 = StdMap.put IsBid (levels L) p l.
Proof.
  intros Hwf Hp. pose proof (wf_shape _ Hwf) as Hsh. unfold open.
  destruct (in_window L p) eqn:Hin.
  - destruct (idx_in_range L Hsh p Hp Hin) as [Hi Hi']. destruct (in_window_idx L Hsh p Hin Hp) as [-> _].
    rewrite ref_of_in by done. destruct (zlookup_lt _ _ Hi') as [l0 Hl0].
    rewrite (vget_ok _ _ _ Hl0). simpl.
    assert (Hfind : StdMap.find (levels L) p = if level_empty l0 then None else Some l0).
    { rewrite find_levels, Hin, Hl0 by done. done. }
    assert (Hasg : ∀ L1 l, shape L1 → lo L1 = lo L → in_window L1 p = true →
      assign L1 (InWindow (p - lo L)) l = Ok (upd L1 p l)).
    { intros L1 l Hs1 Hlo Hi1. rewrite <-Hlo, <-ref_of_in by done. apply assign_upd; [done..|by left]. }
    destruct (level_empty l0) eqn:He0.
    + eexists. split; [done|]. rewrite Hfind. simpl. rewrite (sh_empty _ Hsh _ _ Hl0 He0) in Hl0.
      split; [by apply vget_ok|]. intros l He. eexists.
      destruct (open_new_window L p empty_level l Hwf Hp Hin Hl0 eq_refl He) as [Hwf2 Hlv].
      split; [apply (Hasg (note_opened L (p - lo L))); [destruct Hsh; by split|done..]|].
      split_and!; [done| |done]. destruct (upd_frame (note_opened L (p - lo L)) p l) as (? & ? & ? & ?).
      by split_and!.
    + exists L. split; [done|]. rewrite Hfind. split; [by apply vget_ok|]. intros l He. eexists.
      split; [by apply Hasg|]. destruct (upd_wf L p l0 l Hwf Hp Hfind He) as [? ?].
      split_and!; [done|apply upd_frame|done].
  - assert (Href : ref_of L p = InOverflow p) by (unfold ref_of; by rewrite Hin). rewrite Href.
    eexists. split; [done|]. rewrite find_levels, Hin by done. simpl. pose proof (sh_sorted _ Hsh) as Hs.
    assert (Hput : ∃ l1, StdMap.find (StdMap.try_emplace IsBid (overflow L) p empty_level) p = Some l1 ∧
      l1 = default empty_level (StdMap.find (overflow L) p) ∧
      ∀ l, StdMap.put IsBid (StdMap.try_emplace IsBid (overflow L) p empty_level) p l =
        StdMap.put IsBid (overflow L) p l).
    { rewrite StdMap.try_emplace_eq by done. destruct (StdMap.find (overflow L) p) as [l1|] eqn:Hf; simpl.
      - by exists l1.
      - exists empty_level. rewrite StdMap.find_put, Z.eqb_refl. split_and!; try done.
        intros l. by apply StdMap.put_put. }
    destruct Hput as (l1 & -> & -> & Hput). split; [done|]. intros l He. eexists. split; [done|].
    unfold with_overflow. simpl. rewrite Hput.
    assert (Hl : canonical l) by (intros ?; unfold nonempty in He; congruence).
    pose proof (upd_shape L Hsh p Hp l Hl) as Hsh2. pose proof (levels_upd L Hsh p Hp l Hl He) as Hlv.
    revert Hsh2 Hlv. unfold upd. rewrite Hin. intros Hsh2 Hlv.
    split_and!; [|done|by rewrite <-Hlv; apply levels_cong].
    split; simpl; [destruct Hsh2; by split|apply Hwf|exact (wf_best _ Hwf)|].
    intros q l' [[= -> ->]|Hq]%StdMap.put_elem; [done|by eapply wf_solid].
Qed.

(** ** Iteration *)

Lemma scan_window_spec L (idxs : list Z) : shape L → (∀ i, i ∈ idxs → 0 ≤ i < limit L) →
  scan_window L idxs = Ok (omap (slot_level L) idxs).
Proof.
  intros Hsh. pose proof (sh_lo _ Hsh). pose proof (sh_limit _ Hsh). pose proof (sh_top _ Hsh).
  induction idxs as [|i idxs IH]; intros Hr; [done|]. simpl scan_window.
  pose proof (Hr i ltac:(left)) as Hi. destruct (zlookup_lt (window L) i) as [l Hl]; [lia|].
  rewrite (vget_ok _ _ _ Hl). simpl. rewrite IH by (intros j Hj; apply Hr; by right).
  unfold slot_level. rewrite Hl. simpl. rewrite u64_small by lia. by destruct (level_empty l).
Qed.

Lemma omap_all_None {A B} (f : A → option B) (l : list A) : (∀ x, x ∈ l → f x = None) → omap f l = [].
Proof.
  induction l as [|x l IH]; [done|]. intros Hf. simpl. rewrite Hf by left.
  apply IH. intros y Hy. apply Hf. by right.
Qed.

(** Slots past the best index hold no level, so the scan from it misses none. *)
Lemma scan_from_best L : wf L → 0 < occupied L →
  omap (slot_level L) (scan_indices L) = window_levels L.
Proof.
  intros Hwf Hocc. pose proof (wf_shape _ Hwf) as Hsh.
  destruct (best_in_levels L Hwf Hocc) as (lb & Hlb & Heb & Hi & _ & _).
  destruct (wf_best _ Hwf Hocc) as [_ Hb]. pose proof (sh_limit _ Hsh). pose proof (sh_size _ Hsh).
  assert (Hnone : ∀ i, better IsBid i (best_idx L) = true → slot_level L i = None).
  { intros i Hbi. unfold slot_level. destruct ((window L).[i]) as [l|] eqn:Hl; simpl; [|done].
    destruct (level_empty l) eqn:He; [done|]. specialize (Hb i l Hl He). congruence. }
  unfold window_levels, scan_indices, all_indices. unfold better in Hnone. destruct IsBid.
  - rewrite u64_small by lia.
    replace (seqZ 0 (limit L)) with (seqZ 0 (best_idx L + 1) ++ seqZ (best_idx L + 1) (limit L - (best_idx L + 1))).
    2:{ rewrite <-(Z.add_0_l (best_idx L + 1)) at 2. rewrite <-seqZ_app by lia. f_equal. lia. }
    rewrite reverse_app, omap_app, (omap_all_None _ (reverse (seqZ (best_idx L + 1) _))); [done|].
    intros i. rewrite elem_of_reverse, elem_of_seqZ. intros. apply Hnone. lia.
  - replace (seqZ 0 (limit L)) with (seqZ 0 (best_idx L) ++ seqZ (0 + best_idx L) (limit L - best_idx L)).
    2:{ rewrite <-seqZ_app by lia. f_equal. lia. }
    rewrite omap_app, (omap_all_None _ (seqZ 0 (best_idx L))); [by rewrite Z.add_0_l|].
    intros i Hi'%elem_of_seqZ. apply Hnone. lia.
Qed.

Lemma window_levels_nil L : wf L → occupied L ≤ 0 → window_levels L = [].
Proof.
  intros Hwf Hocc. apply omap_all_None. intros i _. unfold slot_level.
  destruct ((window L).[i]) as [l|] eqn:Hl; simpl; [|done]. destruct (level_empty l) eqn:He; [done|].
  exfalso. assert (0 < occupancy (window L)) as Hpos by (apply occupancy_pos; by exists i, l).
  rewrite <-(wf_occupied _ Hwf) in Hpos. lia.
Qed.

Lemma for_each_level_spec L : wf L → for_each_level L = Ok (levels L).
Proof.
  intros Hwf. pose proof (wf_shape _ Hwf) as Hsh. unfold for_each_level, levels.
  destruct (split_overflow L (overflow L)) as [a b]. simpl.
  destruct (Z.ltb_spec 0 (occupied L)) as [Hocc|Hocc].
  - rewrite scan_window_spec, scan_from_best; [done..|].
    destruct (best_in_levels L Hwf Hocc) as (lb & _ & _ & Hi & _ & _).
    pose proof (sh_limit _ Hsh). pose proof (sh_size _ Hsh).
    intros i. unfold scan_indices. destruct IsBid.
    + rewrite u64_small, elem_of_reverse, elem_of_seqZ by lia. lia.
    + rewrite elem_of_seqZ. lia.
  - by rewrite window_levels_nil.
Qed.

(** ** Construction *)

Lemma occupancy_vmake n : occupancy (vmake n empty_level) = 0.
Proof. unfold vmake. induction (Z.to_nat n) as [|k IH]; [done|]. simpl replicate. by rewrite occupancy_cons, IH. Qed.

Lemma vmake_lookup_eq {A} n (x y : A) i : (vmake n x).[i] = Some y → y = x.
Proof. intros [_ Hy]%zlookup_Some. by apply lookup_replicate in Hy as [-> _]. Qed.

Lemma ladder_make_wf n : 0 ≤ n < two64 → wf (make n) ∧ levels (make n) = [].
Proof.
  intros Hn. split.
  - split; simpl; [|by rewrite occupancy_vmake|unfold best_valid; simpl; lia|by intros ?? ?%elem_of_nil].
    split; simpl; rewrite ?zlen_vmake by lia; try lia; try done.
    + intros i l Hl%vmake_lookup_eq _. done.
    + intros i l Hl%vmake_lookup_eq _. done.
    + constructor.
    + by intros ?? ?%elem_of_nil.
  - unfold levels, window_levels, all_indices. simpl. by destruct IsBid.
Qed.

(** Placing the window of a ladder that holds nothing. *)
Lemma ladder_place_spec L base : wf L → 0 ≤ base < two64 → window L = vmake (zlen (window L)) empty_level →
  overflow L = [] → wf (place L base) ∧ levels (place L base) = [] ∧ lo (place L base) = base ∧
  limit (place L base) = Z.min (zlen (window L)) (two64 - base) ∧ is_placed (place L base) = true.
Proof.
  intros Hwf Hb Hw Ho. pose proof (wf_shape _ Hwf) as Hsh. pose proof (sh_size _ Hsh).
  pose proof (zlen_nonneg (window L)).
  assert (Hlim : limit (place L base) = Z.min (zlen (window L)) (two64 - base)).
  { unfold place. simpl. rewrite (u64_small (kMaxPrice - base)) by bounds.
    destruct (Z.eqb_spec (zlen (window L)) 0); simpl; [lia|]. rewrite (u64_small (zlen _ - 1)) by lia.
    destruct (Z.leb_spec (zlen (window L) - 1) (kMaxPrice - base)); [bounds|].
    rewrite u64_small; bounds. }
  assert (Hocc : occupancy (window L) = 0) by by rewrite Hw, occupancy_vmake.
  split_and!; [|unfold levels|done|done|done].
  - split; [|apply Hwf|exact (wf_best _ Hwf)|apply Hwf].
    destruct Hsh as [? ? ? ? He Hbe ? ?]. split; try done; rewrite ?Hlim; simpl; try lia.
    + intros i l Hil _. rewrite Hw in Hil. by apply vmake_lookup_eq in Hil.
    + rewrite Ho. by intros ?? ?%elem_of_nil.
  - simpl. rewrite Ho. simpl. rewrite app_nil_r. apply omap_all_None. intros i _. unfold slot_level. simpl.
    destruct ((window L).[i]) as [l|] eqn:Hl; simpl; [|done]. rewrite Hw in Hl.
    by apply vmake_lookup_eq in Hl as ->.
Qed.

(** ** The debug check *)

Lemma check_window_spec L (v pre : list PriceLevel) c : wf L → window L = pre ++ v →
  check_window L v (zlen pre) c = Ok (c + occupancy v).
Proof.
  intros Hwf. pose proof (wf_shape _ Hwf) as Hsh.
  revert pre c. induction v as [|l v IH]; intros pre c Hw; [simpl; f_equal; unfold occupancy; simpl; change (zlen (filter _ [])) with 0; lia|].
  assert (Hl : (window L).[zlen pre] = Some l).
  { apply zlookup_Some. rewrite Hw, zlen_app, zlen_cons. pose proof (zlen_nonneg pre). pose proof (zlen_nonneg v).
    split; [lia|]. unfold zlen. rewrite Nat2Z.id. by rewrite list_lookup_middle. }
  assert (Hw' : window L = (pre ++ [l]) ++ v) by by rewrite <-app_assoc.
  assert (Hz : zlen pre + 1 = zlen (pre ++ [l])) by by rewrite zlen_app.
  rewrite occupancy_cons. unfold weight. simpl. destruct (level_empty l) eqn:He.
  - rewrite (sh_empty _ Hsh _ _ Hl He). simpl. rewrite Hz, (IH _ _ Hw'). done.
  - assert ((zlen pre <? limit L) = true) as ->.
    { apply Z.ltb_lt, Z.lt_nge. intros Hge. rewrite (sh_beyond _ Hsh _ _ Hl Hge) in He. done. }
    assert (0 < occupied L) as Hocc.
    { rewrite (wf_occupied _ Hwf). apply occupancy_pos. by exists (zlen pre), l. }
    destruct (wf_best _ Hwf Hocc) as [_ Hb]. rewrite (Hb _ _ Hl He). simpl.
    rewrite Hz, (IH _ _ Hw'). f_equal. lia.
Qed.

Lemma check_overflow_spec L m : wf L → (∀ p l, (p, l) ∈ m → (p, l) ∈ overflow L) → check_overflow L m = Ok ().
Proof.
  intros Hwf. induction m as [|[p l] m IH]; intros Hm; [done|]. simpl.
  pose proof (Hm p l ltac:(left)) as Hin. destruct (sh_outside _ (wf_shape _ Hwf) p l Hin) as [-> _].
  rewrite (wf_solid _ Hwf p l Hin). simpl. apply IH. intros q l' Hq. apply Hm. by right.
Qed.

Lemma ladder_check_spec L : wf L → check L = Ok ().
Proof.
  intros Hwf. unfold check.
  pose proof (check_window_spec L (window L) [] 0 Hwf eq_refl) as Hcw. rewrite zlen_nil in Hcw.
  rewrite Hcw. simpl.
  rewrite <-(wf_occupied _ Hwf), Z.eqb_refl. simpl.
  assert ((if 0 <? occupied L then l ← vget (window L) (best_idx L); assert_that (negb (level_empty l))
    else Ok ()) = Ok ()) as ->.
  { destruct (Z.ltb_spec 0 (occupied L)) as [Hocc|]; [|done].
    destruct (wf_best _ Hwf Hocc) as [(l & Hl & He) _]. rewrite (vget_ok _ _ _ Hl). simpl. by rewrite He. }
  simpl. by apply check_overflow_spec.
Qed.

End ladder.
End PriceLadder.
