(* ===== verification/Queue.v ===== *)
(** * A price level's queue (append and detach, src/order_book.cpp)

    The orders at one price form a doubly linked list threaded through the slot
    pool by index. [dseg] is the segment predicate over the pool's slots and
    [level_repr] says what a [PriceLevel] with its queue represents; the lemmas
    show that [append], [detach] and a fill at the head do to the represented
    list what they should, and touch no slot outside the queue. *)

From stdpp Require Import base decidable list sets.
From S2P Require Import Prelude.
From S2P Require Import Types.
From S2P Require Import Pool.

Module Queue.

Section queue.
Context {build : Build}.

Abbreviation slot := (SlotPool.Slot RestingOrder).
Abbreviation pool := (SlotPool.SlotPool RestingOrder).

(** Writes of one field of a slot. *)
Definition with_prev (s : slot) (i : SlotIndex) : slot := SlotPool.MkSlot (SlotPool.value s) i (SlotPool.next s).
Definition with_next (s : slot) (i : SlotIndex) : slot := SlotPool.MkSlot (SlotPool.value s) (SlotPool.prev s) i.
Definition with_value (s : slot) (r : RestingOrder) : slot := SlotPool.MkSlot r (SlotPool.prev s) (SlotPool.next s).

(** [pool[i].field = ...], as a read, a change and a write. *)
Definition modify_slot (p : pool) (i : SlotIndex) (f : slot → slot) : res pool :=
  s ← SlotPool.at_ p i;
  SlotPool.store p i (f s).

(** [append(level, slot)]: the level is returned, its caller writes it back. *)
Definition append (p : pool) (level : PriceLevel) (i : SlotIndex) : res (pool * PriceLevel) :=
  p ← modify_slot p i (λ s, with_next (with_prev s (level_tail level)) kNoSlot);
  '(p, head) ← (if negb (level_tail level =? kNoSlot)
     then p ← modify_slot p (level_tail level) (λ s, with_next s i); Ok (p, level_head level)
     else Ok (p, i));
  s ← SlotPool.at_ p i;
  Ok (p, MkPriceLevel (u64 (total_qty level + r_qty (SlotPool.value s))) head i).

(** [detach(level, slot)]: [s] is a reference, so each use reads the slot again. *)
Definition detach (p : pool) (level : PriceLevel) (i : SlotIndex) : res (pool * PriceLevel) :=
  s ← SlotPool.at_ p i;
  '(p, head) ← (if negb (SlotPool.prev s =? kNoSlot)
     then p ← modify_slot p (SlotPool.prev s) (λ t, with_next t (SlotPool.next s)); Ok (p, level_head level)
     else Ok (p, SlotPool.next s));
  s ← SlotPool.at_ p i;
  '(p, tail) ← (if negb (SlotPool.next s =? kNoSlot)
     then p ← modify_slot p (SlotPool.next s) (λ t, with_prev t (SlotPool.prev s)); Ok (p, level_tail level)
     else Ok (p, SlotPool.prev s));
  s ← SlotPool.at_ p i;
  p ← SlotPool.release p i;
  Ok (p, MkPriceLevel (u64 (total_qty level - r_qty (SlotPool.value s))) head tail).

(** The walk [for (i = level.head; i != kNoSlot; i = pool[i].next)]: the slots
    visited and the orders in them. *)
Fixpoint walk (fuel : nat) (p : pool) (i : SlotIndex) : res (list (SlotIndex * RestingOrder)) :=
  match fuel with
  | O => Err out_of_fuel
  | S fuel =>
      if i =? kNoSlot then Ok []
      else
        s ← SlotPool.at_ p i;
        rest ← walk fuel p (SlotPool.next s);
        Ok ((i, SlotPool.value s) :: rest)
  end.

(** ** What a queue represents *)

(** A queued order and the slot it is in. *)
Abbreviation node := (SlotIndex * RestingOrder)%type.

(** The slots [q] are linked from [h] to [t]; [pv] and [nx] are the links of its
    two ends to the outside. *)
Fixpoint dseg (v : list slot) (pv h t nx : SlotIndex) (q : list node) : Prop :=
  match q with
  | [] => h = nx ∧ t = pv
  | (i, r) :: q => h = i ∧ i ≠ kNoSlot ∧
      ∃ n, v.[i] = Some (SlotPool.MkSlot r pv n) ∧ dseg v i n t nx q
  end.

Definition volume (q : list node) : Z := foldr (λ n z, r_qty n.2 + z) 0 q.

Record level_repr (v : list slot) (p : Price) (l : PriceLevel) (q : list node) : Prop := {
  lr_seg : dseg v kNoSlot (level_head l) (level_tail l) kNoSlot q;
  lr_total : total_qty l = u64 (volume q);
  lr_price : ∀ n, n ∈ q → r_price n.2 = p;
}.

(** ** Segments *)

Lemma dseg_frame v v' pv h t nx q : (∀ i, i ∈ q.*1 → v'.[i] = v.[i]) →
  dseg v pv h t nx q → dseg v' pv h t nx q.
Proof.
  revert pv h. induction q as [|[i r] q IH]; intros pv h Hf; [done|].
  intros (-> & Hi & n & Hn & Hq). split_and!; [done..|]. exists n. split.
  - rewrite Hf; [done|left].
  - apply IH; [|done]. intros j Hj. apply Hf. by right.
Qed.

Lemma dseg_app v pv h t nx q1 q2 :
  dseg v pv h t nx (q1 ++ q2) ↔ ∃ t1 h2, dseg v pv h t1 h2 q1 ∧ dseg v t1 h2 t nx q2.
Proof.
  revert pv h. induction q1 as [|[i r] q1 IH]; intros pv h; simpl.
  - split; [intros Hq; by exists pv, h|]. by intros (? & ? & (-> & ->) & ?).
  - split.
    + intros (-> & Hi & n & Hn & (t1 & h2 & H1 & H2)%IH). exists t1, h2. split; [|done].
      split_and!; [done..|]. by exists n.
    + intros (t1 & h2 & (-> & Hi & n & Hn & H1) & H2). split_and!; [done..|].
      exists n. split; [done|]. apply IH. by exists t1, h2.
Qed.

Lemma dseg_snoc v pv h t nx q i r :
  dseg v pv h t nx (q ++ [(i, r)]) ↔
  t = i ∧ i ≠ kNoSlot ∧ ∃ t1, dseg v pv h t1 i q ∧ v.[i] = Some (SlotPool.MkSlot r t1 nx).
Proof.
  rewrite dseg_app. simpl. split.
  - intros (t1 & h2 & H1 & -> & Hi & n & Hn & -> & ->). split_and!; [done..|]. by exists t1.
  - intros (-> & Hi & t1 & H1 & Hn). exists t1, i. split_and!; [done..|]. by exists nx.
Qed.

Lemma dseg_slot v pv h t nx q i r : dseg v pv h t nx q → (i, r) ∈ q →
  i ≠ kNoSlot ∧ ∃ a b, v.[i] = Some (SlotPool.MkSlot r a b).
Proof.
  revert pv h. induction q as [|[j s] q IH]; intros pv h; [by intros _ ?%elem_of_nil|].
  intros (-> & Hj & n & Hn & Hq) [[= -> ->]|Hin]%elem_of_cons; [|exact (IH _ _ Hq Hin)].
  split; [done|]. by exists pv, n.
Qed.

Lemma dseg_nil_iff v pv h t q : dseg v pv h t kNoSlot q → h = kNoSlot ↔ q = [].
Proof.
  destruct q as [|[i r] q]; simpl; [by intros [-> _]|]. intros (-> & Hi & _). split; done.
Qed.

(** Redirecting the forward link of the last slot. *)
Lemma dseg_set_last v pv h j nx q r s nx' : dseg v pv h j nx (q ++ [(j, r)]) →
  NoDup (q ++ [(j, r)]).*1 → v.[j] = Some s →
  dseg (v.[j := with_next s nx']) pv h j nx' (q ++ [(j, r)]).
Proof.
  intros (_ & Hj & t1 & Hq & Hv)%dseg_snoc Hnd Hs. simplify_eq.
  apply dseg_snoc. split_and!; [done..|]. exists t1. split.
  - eapply dseg_frame, Hq. intros i Hi. apply zlookup_zset_ne. intros ->.
    rewrite fmap_app in Hnd. apply NoDup_app in Hnd as (_ & Hd & _). apply (Hd i Hi). left.
  - apply zlookup_zset_eq. by eapply zlookup_range.
Qed.

(** Redirecting the back link of the first slot. *)
Lemma dseg_set_first v pv j t nx q r s pv' : dseg v pv j t nx ((j, r) :: q) →
  NoDup ((j, r) :: q).*1 → v.[j] = Some s →
  dseg (v.[j := with_prev s pv']) pv' j t nx ((j, r) :: q).
Proof.
  intros (_ & Hj & n & Hv & Hq) Hnd Hs. simplify_eq. split_and!; [done..|]. exists n. split.
  - apply zlookup_zset_eq. by eapply zlookup_range.
  - eapply dseg_frame, Hq. intros i Hi. apply zlookup_zset_ne. intros ->.
    apply NoDup_cons in Hnd as [Hd _]. done.
Qed.

Lemma walk_dseg (fuel : nat) (p : pool) pv h t q : dseg (SlotPool.slots p) pv h t kNoSlot q →
  (length q < fuel)%nat → walk fuel p h = Ok q.
Proof.
  revert pv h q. induction fuel as [|fuel IH]; intros pv h [|[i r] q] Hq Hf; [simpl in Hf; lia..| |].
  - destruct Hq as [-> _]. done.
  - destruct Hq as (-> & Hi & n & Hv & Hq). simpl. destruct (Z.eqb_spec i kNoSlot); [done|].
    rewrite (SlotPool.at_ok _ _ _ Hv). simpl. rewrite (IH i n q Hq); [done|simpl in Hf; lia].
Qed.

(** ** Volumes *)

Lemma volume_app q1 q2 : volume (q1 ++ q2) = volume q1 + volume q2.
Proof. unfold volume. induction q1 as [|n q1 IH]; simpl; [done|]. rewrite IH. lia. Qed.

Lemma level_repr_nil v p l : level_repr v p l [] → l = empty_level.
Proof. intros [[Hh Ht] Hv _]. destruct l; simpl in *. by subst. Qed.

Lemma level_repr_empty v p : level_repr v p empty_level [].
Proof. split; [done..|by intros ? ?%elem_of_nil]. Qed.

Lemma level_repr_empty_iff v p l q : level_repr v p l q → level_empty l = true ↔ q = [].
Proof.
  intros Hl. unfold level_empty. rewrite Z.eqb_eq. eapply dseg_nil_iff, Hl.
Qed.

Lemma level_repr_frame v v' p l q : (∀ i, i ∈ q.*1 → v'.[i] = v.[i]) →
  level_repr v p l q → level_repr v' p l q.
Proof. intros Hf [? ? ?]. split; [|done..]. by eapply dseg_frame. Qed.

(** ** Pool bookkeeping under writes to live slots *)

Lemma modify_slot_ok (p : pool) i f s : (SlotPool.slots p).[i] = Some s →
  modify_slot p i f = Ok (SlotPool.mk (SlotPool.slots p).[i := f s] (SlotPool.used p) (SlotPool.live p)
    (SlotPool.free_head p) (SlotPool.grow_count p)).
Proof.
  intros Hs. unfold modify_slot. rewrite (SlotPool.at_ok _ _ _ Hs). simpl.
  apply SlotPool.store_ok. by eapply zlookup_range.
Qed.

(** What a queue operation leaves of the pool's bookkeeping. *)
Definition same_pool (p p' : pool) : Prop :=
  SlotPool.used p' = SlotPool.used p ∧ SlotPool.live p' = SlotPool.live p ∧
  SlotPool.free_head p' = SlotPool.free_head p ∧ zlen (SlotPool.slots p') = zlen (SlotPool.slots p).

Lemma same_pool_wf p p' fl : same_pool p p' →
  (∀ i, i ∈ fl → (SlotPool.slots p').[i] = (SlotPool.slots p).[i]) →
  SlotPool.wf p fl → SlotPool.wf p' fl.
Proof.
  intros (Hu & Hl & Hf & Hz) Hs [? ? Hc ? ? ?]. split; rewrite ?Hu, ?Hl, ?Hz; try done.
  rewrite Hf. by eapply SlotPool.chain_frame.
Qed.

(** ** append *)

Lemma append_spec (p : pool) price l q i s r : level_repr (SlotPool.slots p) price l q →
  (SlotPool.slots p).[i] = Some s → SlotPool.value s = r → i ≠ kNoSlot → NoDup (i :: q.*1) →
  r_price r = price → ∃ p' l',
  append p l i = Ok (p', l') ∧ level_repr (SlotPool.slots p') price l' (q ++ [(i, r)]) ∧
  same_pool p p' ∧ ∀ j, j ∉ i :: q.*1 → (SlotPool.slots p').[j] = (SlotPool.slots p).[j].
Proof.
  intros Hl Hs <- Hi Hnd Hpr. apply NoDup_cons in Hnd as [Hni Hnd].
  unfold append. rewrite (modify_slot_ok _ _ _ _ Hs). simpl.
  pose proof (zlookup_range _ _ _ Hs) as Hr. set (v := (SlotPool.slots p).[i := _]).
  assert (Hvi : v.[i] = Some (SlotPool.MkSlot (SlotPool.value s) (level_tail l) kNoSlot)) by by apply zlookup_zset_eq.
  assert (Hl1 : level_repr v price l q).
  { eapply level_repr_frame, Hl. intros j Hj. apply zlookup_zset_ne. congruence. }
  assert (Htot : u64 (total_qty l + r_qty (SlotPool.value s)) = u64 (volume (q ++ [(i, SlotPool.value s)]))).
  { rewrite (lr_total _ _ _ _ Hl), volume_app, u64_add_l. simpl. f_equal. lia. }
  assert (Hord : ∀ n, n ∈ q ++ [(i, SlotPool.value s)] → r_price n.2 = price).
  { intros n [Hn| ->%list_elem_of_singleton]%elem_of_app; [by apply (lr_price _ _ _ _ Hl)|done]. }
  destruct q as [|[j rj] q0 _] using rev_ind.
  - assert (l = empty_level) as -> by by eapply level_repr_nil. simpl.
    erewrite (SlotPool.at_ok _ i) by exact Hvi. simpl. eexists _, _. split; [done|]. split_and!.
    + split; [|done|done]. simpl. split_and!; [done..|]. exists kNoSlot. done.
    + split_and!; try done. simpl. unfold v; by rewrite zlen_zset.
    + intros j Hj. simpl. unfold v; apply zlookup_zset_ne. clear -Hj; set_solver.
  - destruct Hl1 as [Hseg _ _]. pose proof Hseg as (Ht & Hj & t1 & Hq0 & Hvj)%dseg_snoc.
    destruct (Z.eqb_spec (level_tail l) kNoSlot); [congruence|]. simpl. rewrite Ht in *.
    rewrite (modify_slot_ok _ j _ (SlotPool.MkSlot rj t1 kNoSlot)) by done. simpl.
    assert (Hij : i ≠ j) by (rewrite fmap_app in Hni; clear -Hni; set_solver).
    rewrite (SlotPool.at_ok _ i (SlotPool.MkSlot (SlotPool.value s) j kNoSlot))
      by (simpl; rewrite zlookup_zset_ne; [done|congruence]).
    simpl. eexists _, _. split; [done|]. split_and!.
    + split; [|done|done]. simpl. apply dseg_snoc. split_and!; [done..|]. exists j. split.
      * apply (dseg_set_last _ _ _ _ kNoSlot _ _ (SlotPool.MkSlot rj t1 kNoSlot)); done.
      * by rewrite zlookup_zset_ne by congruence.
    + split_and!; try done. simpl. unfold v. by rewrite !zlen_zset.
    + intros k Hk. simpl. unfold v. rewrite fmap_app in Hk. rewrite !zlookup_zset_ne; [done|clear -Hk; set_solver..].
Qed.

(** ** detach *)

(** The first conditional of [detach]: the part before the slot skips it. *)
Lemma relink_left (p : pool) h pv i q1 nx : dseg (SlotPool.slots p) kNoSlot h pv i q1 → NoDup q1.*1 → ∃ p' h',
  (if negb (pv =? kNoSlot)
   then p ← modify_slot p pv (λ t, with_next t nx); Ok (p, h) else Ok (p, nx)) = Ok (p', h') ∧
  dseg (SlotPool.slots p') kNoSlot h' pv nx q1 ∧ same_pool p p' ∧
  ∀ j, j ∉ q1.*1 → (SlotPool.slots p').[j] = (SlotPool.slots p).[j].
Proof.
  destruct q1 as [|[j r] q1 _] using rev_ind.
  - intros [-> ->] _. exists p, nx. simpl. split_and!; try done.
  - intros Hseg Hnd. pose proof Hseg as (-> & Hj & t1 & _ & Hv)%dseg_snoc.
    destruct (Z.eqb_spec j kNoSlot); [done|]. simpl. rewrite (modify_slot_ok _ _ _ _ Hv). simpl.
    eexists _, _. split; [done|]. simpl. split_and!.
    + by eapply dseg_set_last.
    + split_and!; try done. simpl. by rewrite zlen_zset.
    + intros k Hk. apply zlookup_zset_ne. intros ->. apply Hk. rewrite fmap_app. apply elem_of_app. right. left.
Qed.

(** The second one: the part after the slot skips it. *)
Lemma relink_right (p : pool) i nx t q2 pv : dseg (SlotPool.slots p) i nx t kNoSlot q2 → NoDup q2.*1 → t = i ∨ q2 ≠ [] → ∃ p' t',
  (if negb (nx =? kNoSlot)
   then p ← modify_slot p nx (λ s, with_prev s pv); Ok (p, t) else Ok (p, pv)) = Ok (p', t') ∧
  dseg (SlotPool.slots p') pv nx t' kNoSlot q2 ∧ same_pool p p' ∧
  ∀ j, j ∉ q2.*1 → (SlotPool.slots p').[j] = (SlotPool.slots p).[j].
Proof.
  destruct q2 as [|[j r] q2].
  - intros [-> ->] _ _. exists p, pv. simpl. split_and!; try done.
  - intros Hseg Hnd _. pose proof Hseg as (-> & Hj & n & Hv & _).
    destruct (Z.eqb_spec j kNoSlot); [done|]. simpl. rewrite (modify_slot_ok _ _ _ _ Hv). simpl.
    eexists _, _. split; [done|]. split; [|split].
    + by eapply (dseg_set_first _ i).
    + split_and!; try done. simpl. by rewrite zlen_zset.
    + intros k Hk. apply zlookup_zset_ne. intros ->. apply Hk. left.
Qed.

Lemma detach_spec (p : pool) price l q1 i r q2 fl :
  level_repr (SlotPool.slots p) price l (q1 ++ (i, r) :: q2) → NoDup (q1 ++ (i, r) :: q2).*1 →
  SlotPool.wf p fl → (∀ j, j ∈ fl → j ∉ (q1 ++ (i, r) :: q2).*1) → SlotPool.is_live p fl i → ∃ p' l',
  detach p l i = Ok (p', l') ∧ level_repr (SlotPool.slots p') price l' (q1 ++ q2) ∧
  SlotPool.wf p' (i :: fl) ∧ SlotPool.used p' = SlotPool.used p ∧
  SlotPool.live p' = SlotPool.live p - 1 ∧ zlen (SlotPool.slots p') = zlen (SlotPool.slots p) ∧
  ∀ j, j ∉ (q1 ++ (i, r) :: q2).*1 → (SlotPool.slots p').[j] = (SlotPool.slots p).[j].
Proof.
  intros [Hseg Htot Hord] Hnd Hwf Hfl Hlive. rewrite fmap_app in *. simpl in *.
  apply NoDup_app in Hnd as (Hnd1 & Hd & [Hni Hnd2]%NoDup_cons).
  apply dseg_app in Hseg as (pv & h2 & Hq1 & -> & Hi & nx & Hv & Hq2).
  unfold detach. rewrite (SlotPool.at_ok _ _ _ Hv). simpl.
  destruct (relink_left _ _ _ _ _ nx Hq1 Hnd1) as (p1 & h' & -> & Hq1' & (Hu1 & Hl1 & Hf1 & Hz1) & Hs1). simpl.
  assert (Hi1 : i ∉ q1.*1) by (intros ?; eapply Hd; [done|left]).
  assert (Hd12 : ∀ j, j ∈ q2.*1 → j ∉ q1.*1) by (intros j ? ?; eapply Hd; [done|by right]).
  assert (Hv1 : (SlotPool.slots p1).[i] = Some (SlotPool.MkSlot r pv nx)) by by rewrite Hs1.
  rewrite (SlotPool.at_ok _ _ _ Hv1). simpl.
  assert (Hq2' : dseg (SlotPool.slots p1) i nx (level_tail l) kNoSlot q2).
  { eapply dseg_frame, Hq2. intros j Hj. by apply Hs1, Hd12. }
  destruct (relink_right _ _ _ _ _ pv Hq2' Hnd2) as (p2 & t' & -> & Hq2'' & (Hu2 & Hl2 & Hf2 & Hz2) & Hs2).
  { destruct q2; [left; apply Hq2|by right]. }
  simpl. assert (Hv2 : (SlotPool.slots p2).[i] = Some (SlotPool.MkSlot r pv nx)) by by rewrite Hs2.
  rewrite (SlotPool.at_ok _ _ _ Hv2). simpl.
  assert (Hsame : same_pool p p2) by (unfold same_pool; rewrite Hu2, Hl2, Hf2, Hz2; done).
  assert (Hwf2 : SlotPool.wf p2 fl).
  { eapply same_pool_wf; [done| |done]. intros j Hj%Hfl. rewrite Hs2, Hs1; [done|clear -Hj; set_solver..]. }
  destruct Hsame as (Hu & Hl & Hf & Hz).
  destruct (SlotPool.pool_release_spec p2 fl i Hwf2) as (p3 & s & -> & Hwf3 & Hu3 & Hl3 & Hs3).
  { destruct Hlive. split; [by rewrite Hu|done]. }
  simpl. eexists _, _. split; [done|]. rewrite Hu3, Hl3, Hs3, Hu, Hl, zlen_zset, Hz.
  assert (Hs' : ∀ j, j ≠ i → (SlotPool.slots p2).[i := s].[j] = (SlotPool.slots p2).[j])
    by (intros; by apply zlookup_zset_ne).
  split_and!; try done.
  - split; simpl.
    + apply dseg_app. exists pv, nx. split.
      * eapply dseg_frame, Hq1'. intros j Hj. rewrite Hs', Hs2; [done|by intros ?%Hd12|by intros ->].
      * eapply dseg_frame, Hq2''. intros j Hj. apply Hs'. by intros ->.
    + rewrite Htot, u64_sub_l, !volume_app. simpl. f_equal. lia.
    + intros n Hn. apply Hord. apply elem_of_app in Hn. apply elem_of_app. destruct Hn; [by left|right; by right].
  - intros j Hj. rewrite Hs', Hs2, Hs1; [done|clear -Hj; set_solver..].
Qed.

(** ** A fill of the order at the head *)

Lemma fill_repr (v : list slot) price l i r q a b t :
  level_repr v price l ((i, r) :: q) → NoDup ((i, r) :: q).*1 → v.[i] = Some (SlotPool.MkSlot r a b) →
  level_repr (v.[i := SlotPool.MkSlot (r_with_qty r (r_qty r - t)) a b]) price
    (level_with_total l (u64 (total_qty l - t))) ((i, r_with_qty r (r_qty r - t)) :: q).
Proof.
  intros [(Hh & Hi & n & Hv & Hq) Htot Hord] [Hni Hnd]%NoDup_cons Hs. simplify_eq. split; simpl.
  - split_and!; [done..|]. eexists. split; [apply zlookup_zset_eq; by eapply zlookup_range|].
    eapply dseg_frame, Hq. intros j Hj. apply zlookup_zset_ne. intros E. apply Hni. by rewrite E.
  - rewrite Htot, u64_sub_l. simpl. f_equal. lia.
  - intros m [->|Hm]%elem_of_cons; [|apply Hord; by right]. by apply (Hord _ ltac:(left)).
Qed.

(** The exact volume of a queue of resting orders. *)
Lemma volume_bounds q : (∀ n, n ∈ q → resting_ok n.2) → zlen q ≤ volume q ≤ zlen q * (two32 - 1).
Proof.
  induction q as [|n q IH]; [done|]. intros Hq. rewrite zlen_cons. simpl. pose proof (Hq n ltac:(left)) as (_ & _ & ? & _).
  specialize (IH ltac:(intros m Hm; apply Hq; by right)). lia.
Qed.

End queue.
End Queue.
