(* ===== verification/Spec.v ===== *)
(** * The abstract book

    What the engine promises, with no data structure: per side one list of
    resting orders in priority order (price, then arrival), walked from its head
    by an incoming order. The refinement (Refine.v) shows the engine implements
    exactly these functions; the properties of price-time priority, quantity
    conservation and self-trade prevention are proved of them here. *)

From stdpp Require Import base decidable list sorting sets.
From S2P Require Import Prelude.
From S2P Require Import Types.
From S2P Require Import SortedMap.

Module Spec.

Record Book := MkBook {
  policy : SelfTradePolicy;
  bids : list RestingOrder;
  asks : list RestingOrder;
  next_seq : Sequence;
}.

Definition side (s : Side) (b : Book) : list RestingOrder :=
  match s with Buy => bids b | Sell => asks b end.

Definition set_side (s : Side) (l : list RestingOrder) (b : Book) : Book :=
  match s with
  | Buy => MkBook (policy b) l (asks b) (next_seq b)
  | Sell => MkBook (policy b) (bids b) l (next_seq b)
  end.

Definition set_seq (n : Sequence) (b : Book) : Book :=
  MkBook (policy b) (bids b) (asks b) n.

Definition ids (b : Book) : list OrderId := r_id <$> (bids b ++ asks b).

(** ** Matching *)

Record Matched := MkMatched {
  m_queue : list RestingOrder;    (* what is left of the opposite side *)
  m_taker : Order;                (* the taker, with the quantity it has left *)
  m_rep : ExecReport;
  m_seq : Sequence;
  m_trades : list Trade;
}.

Definition add_trade (t : Trade) (m : Matched) : Matched :=
  MkMatched (m_queue m) (m_taker m) (m_rep m) (m_seq m) (t :: m_trades m).

(** Whether the taker meets the order [r] under self-trade prevention. *)
Definition self_trade (pol : SelfTradePolicy) (taker : Order) (r : RestingOrder) : bool :=
  stp_possible pol (o_owner taker) && (o_owner taker =? r_owner r).

Definition trade_of (seq : Sequence) (taker : Order) (r : RestingOrder) (q : Quantity) : Trade :=
  MkTrade seq (r_id r) (o_id taker) (r_price r) q (o_side taker).

Fixpoint match_queue (pol : SelfTradePolicy) (limit : option Price) (taker : Order)
    (rep : ExecReport) (seq : Sequence) (opp : list RestingOrder) : Matched :=
  match opp with
  | [] => MkMatched [] taker rep seq []
  | r :: rest =>
      if negb (0 <? o_qty taker) || negb (crosses (o_side taker) limit (r_price r)) then
        MkMatched opp taker rep seq []
      else if self_trade pol taker r then
        if policy_eqb pol CancelIncoming then MkMatched opp taker (rep_halt rep) seq []
        else match_queue pol limit taker (rep_stp_cancel rep (r_qty r)) seq rest
      else
        let q := Z.min (o_qty taker) (r_qty r) in
        let taker' := o_with_qty taker (o_qty taker - q) in
        add_trade (trade_of seq taker r q)
          (if r_qty r =? q
           then match_queue pol limit taker' (rep_fill rep seq q) (u64 (seq + 1)) rest
           else MkMatched (r_with_qty r (r_qty r - q) :: rest) taker' (rep_fill rep seq q)
                  (u64 (seq + 1)) [])
  end.

(** ** Resting and removing *)

(** A new order goes behind every order at a price at least as good. *)
Fixpoint enqueue (IsBid : bool) (l : list RestingOrder) (r : RestingOrder) : list RestingOrder :=
  match l with
  | [] => [r]
  | x :: l' => if better IsBid (r_price r) (r_price x) then r :: l else x :: enqueue IsBid l' r
  end.

Definition remove_id (id : OrderId) (l : list RestingOrder) : list RestingOrder :=
  filter (λ r, r_id r ≠ id) l.

Definition find_in (id : OrderId) (l : list RestingOrder) : option RestingOrder :=
  head (filter (λ r, r_id r = id) l).

(** ** The interface *)

Definition live (b : Book) (id : OrderId) : bool := bool_decide (id ∈ ids b).

Definition find (b : Book) (id : OrderId) : option Order :=
  match find_in id (bids b) with
  | Some r => Some (order_of Buy r)
  | None => order_of Sell <$> find_in id (asks b)
  end.

Definition submit (b : Book) (id : OrderId) (owner : ParticipantId) (s : Side)
    (limit : option Price) (qty : Quantity) (rest_leftover : bool) :
    Book * ExecReport * list Trade :=
  if (qty =? 0) || live b id then (b, rep_reject qty, [])
  else
    let taker := MkOrder id owner (default 0 limit) qty s in
    let m := match_queue (policy b) limit taker ExecReport0 (next_seq b) (side (opposite s) b) in
    let left := o_qty (m_taker m) in
    let rep := rep_with_remaining (m_rep m) left in
    let b := set_seq (m_seq m) (set_side (opposite s) (m_queue m) b) in
    if rest_leftover && (0 <? left) && negb (stp_halted rep) then
      (set_side s (enqueue (is_bid s) (side s b) (resting_of (m_taker m))) b,
       rep_rested rep, m_trades m)
    else (b, rep, m_trades m).

Definition cancel (b : Book) (id : OrderId) : Book * bool :=
  (set_side Buy (remove_id id (bids b)) (set_side Sell (remove_id id (asks b)) b), live b id).

Definition modify (b : Book) (id : OrderId) (new_price : Price) (new_qty : Quantity) :
    Book * ExecReport * list Trade :=
  match find b id with
  | None => (b, rep_reject new_qty, [])
  | Some o =>
      let b := (cancel b id).1 in
      if new_qty =? 0 then (b, ExecReport0, [])
      else submit b id (o_owner o) (o_side o) (Some new_price) new_qty true
  end.

Definition best (s : Side) (b : Book) : option Price := r_price <$> head (side s b).

Definition at_price (s : Side) (b : Book) (price : Price) : list RestingOrder :=
  filter (λ r, r_price r = price) (side s b).

Definition volume (l : list RestingOrder) : Z := foldr (λ r z, r_qty r + z) 0 l.

Definition empty (pol : SelfTradePolicy) : Book := MkBook pol [] [] 1.

(** ** The invariant *)

(** [x] may stand before [y]: at least as good a price. *)
Definition not_worse (IsBid : bool) (x y : RestingOrder) : Prop :=
  better IsBid (r_price y) (r_price x) = false.

Definition priority (IsBid : bool) (l : list RestingOrder) : Prop :=
  StronglySorted (not_worse IsBid) l.

Record wf (b : Book) : Prop := {
  wf_bids : priority true (bids b);
  wf_asks : priority false (asks b);
  wf_ids : NoDup (ids b);
  wf_orders : ∀ r, r ∈ bids b ++ asks b → resting_ok r;
  wf_uncrossed : ∀ x y, x ∈ bids b → y ∈ asks b → r_price x < r_price y;
}.

Lemma empty_wf pol : wf (empty pol).
Proof. split; simpl; try by constructor. - by intros r ?%elem_of_nil. - by intros x y ?%elem_of_nil. Qed.

(** ** Updates of a side *)

Lemma side_set_side s l b : side s (set_side s l b) = l.
Proof. by destruct s. Qed.

Lemma side_set_opposite s l b : side (opposite s) (set_side s l b) = side (opposite s) b.
Proof. by destruct s. Qed.

Lemma opposite_opposite s : opposite (opposite s) = s.
Proof. by destruct s. Qed.

Lemma set_side_set_side s l l' b : set_side s l (set_side s l' b) = set_side s l b.
Proof. by destruct s. Qed.

Lemma ids_sides s b : ids b ≡ₚ r_id <$> (side s b ++ side (opposite s) b).
Proof. unfold ids. destruct s; simpl; [done|]. by rewrite (Permutation_app_comm (asks b)). Qed.

Lemma wf_side s b : wf b → priority (is_bid s) (side s b).
Proof. intros [? ? _ _ _]. by destruct s. Qed.

(** ** Priority *)

Lemma not_worse_trans IsBid x y z : not_worse IsBid x y → not_worse IsBid y z → not_worse IsBid x z.
Proof. unfold not_worse, better. destruct IsBid; lia. Qed.

Lemma enqueue_perm IsBid l r : enqueue IsBid l r ≡ₚ r :: l.
Proof.
  induction l as [|x l IH]; simpl; [done|]. destruct (better _ _ _); [done|]. rewrite IH. constructor.
Qed.

Lemma enqueue_sorted IsBid l r : priority IsBid l → priority IsBid (enqueue IsBid l r).
Proof.
  induction 1 as [|x l Hs IH Hf]; simpl; [repeat constructor|].
  destruct (better IsBid (r_price r) (r_price x)) eqn:Hb.
  - constructor; [by constructor|]. rewrite list.Forall_forall in Hf. apply list.Forall_forall.
    assert (Hrx : not_worse IsBid r x) by (unfold not_worse, better in *; destruct IsBid; lia).
    intros y [->|Hy]%elem_of_cons; [done|]. eapply not_worse_trans; [done|by apply Hf].
  - constructor; [done|]. rewrite list.Forall_forall in Hf. apply list.Forall_forall.
    intros y Hy. rewrite enqueue_perm in Hy. apply elem_of_cons in Hy as [->|Hy]; [done|by apply Hf].
Qed.

Lemma priority_sublist IsBid l l' : l `sublist_of` l' → priority IsBid l' → priority IsBid l.
Proof.
  intros Hs. induction Hs as [|x l l' Hs IH|x l l' Hs IH]; [done|..]; intros Hp; inversion_clear Hp as [|? ? Hp' Hf].
  - constructor; [by apply IH|]. rewrite list.Forall_forall in *. intros y Hy. apply Hf.
    by eapply elem_of_sublist.
  - by apply IH.
Qed.

(** ** What matching leaves *)

Lemma match_queue_nil pol limit taker rep seq :
  match_queue pol limit taker rep seq [] = MkMatched [] taker rep seq [].
Proof. done. Qed.

(** A taker with nothing left, or no price to take, leaves the queue alone. *)
Lemma match_queue_stop pol limit taker rep seq opp :
  o_qty taker ≤ 0 ∨ (∀ r, head opp = Some r → crosses (o_side taker) limit (r_price r) = false) →
  match_queue pol limit taker rep seq opp = MkMatched opp taker rep seq [].
Proof.
  destruct opp as [|r opp]; [done|]. intros Hs. simpl.
  destruct (Z.ltb_spec 0 (o_qty taker)); simpl; [|done].
  destruct Hs as [|Hs]; [lia|]. by rewrite (Hs r).
Qed.

(** Walking a queue of orders that all cross, then the rest. *)
Lemma match_queue_app pol limit taker rep seq q rest :
  (∀ r, r ∈ q → crosses (o_side taker) limit (r_price r) = true) → stp_halted rep = false →
  match_queue pol limit taker rep seq (q ++ rest) =
  let m := match_queue pol limit taker rep seq q in
  if (0 <? o_qty (m_taker m)) && negb (stp_halted (m_rep m)) then
    let m' := match_queue pol limit (m_taker m) (m_rep m) (m_seq m) rest in
    MkMatched (m_queue m') (m_taker m') (m_rep m') (m_seq m') (m_trades m ++ m_trades m')
  else MkMatched (m_queue m ++ rest) (m_taker m) (m_rep m) (m_seq m) (m_trades m).
Proof.
  revert taker rep seq. induction q as [|r q IH]; intros taker rep seq Hc Hh; simpl.
  { rewrite Hh. destruct (Z.ltb_spec 0 (o_qty taker)); simpl; [by destruct match_queue|].
    apply match_queue_stop. by left. }
  rewrite (Hc r) by left. assert (Hc' : ∀ r, r ∈ q → crosses (o_side taker) limit (r_price r) = true)
    by (intros ? ?; apply Hc; by right).
  destruct (Z.ltb_spec 0 (o_qty taker)) as [Hq|Hq]; simpl.
  2:{ destruct (Z.ltb_spec 0 (o_qty taker)); [lia|done]. }
  destruct (self_trade pol taker r).
  { destruct (policy_eqb pol CancelIncoming); simpl; [by rewrite andb_false_r|]. by apply IH. }
  set (t := Z.min _ _). destruct (Z.eqb_spec (r_qty r) t) as [E|E]; simpl.
  - rewrite IH by done. simpl. by destruct (_ && _).
  - assert (o_qty taker - t = 0) as -> by lia. done.
Qed.

Definition orders_ok (l : list RestingOrder) : Prop := ∀ r, r ∈ l → resting_ok r.

Lemma orders_ok_cons r l : orders_ok (r :: l) → resting_ok r ∧ orders_ok l.
Proof. intros Hl. split; [apply Hl; left|]. intros x Hx. apply Hl. by right. Qed.

Lemma match_queue_drained pol limit taker rep seq q :
  (∀ r, r ∈ q → crosses (o_side taker) limit (r_price r) = true) → orders_ok q →
  let m := match_queue pol limit taker rep seq q in
  0 < o_qty (m_taker m) → stp_halted (m_rep m) = false → m_queue m = [].
Proof.
  revert taker rep seq. induction q as [|r q IH]; intros taker rep seq Hc Hok; simpl; [done|].
  rewrite (Hc r) by left. assert (Hc' : ∀ r, r ∈ q → crosses (o_side taker) limit (r_price r) = true)
    by (intros ? ?; apply Hc; by right).
  apply orders_ok_cons in Hok as [_ Hok].
  destruct (Z.ltb_spec 0 (o_qty taker)); simpl; [|lia]. destruct (self_trade _ _ _).
  { destruct (policy_eqb _ _); [done|by apply IH]. }
  set (t := Z.min _ _). destruct (Z.eqb_spec (r_qty r) t); simpl; [|lia].
  by apply (IH (o_with_qty taker (o_qty taker - t))).
Qed.

Lemma match_queue_left pol limit taker rep seq q : orders_ok q → 0 ≤ o_qty taker →
  0 ≤ o_qty (m_taker (match_queue pol limit taker rep seq q)) ≤ o_qty taker.
Proof.
  revert taker rep seq. induction q as [|r q IH]; intros taker rep seq Hok Hq; simpl; [lia|].
  apply orders_ok_cons in Hok as [(_ & _ & Hr & _) Hok].
  destruct (_ || _); [simpl; lia|]. destruct (self_trade _ _ _).
  { destruct (policy_eqb _ _); [simpl; lia|by apply IH]. }
  simpl. destruct (_ =? _); simpl; [|lia].
  specialize (IH (o_with_qty taker (o_qty taker - Z.min (o_qty taker) (r_qty r)))
    (rep_fill rep seq (Z.min (o_qty taker) (r_qty r))) (u64 (seq + 1)) Hok). simpl in IH. lia.
Qed.

Lemma match_queue_taker pol limit taker rep seq opp :
  let t := m_taker (match_queue pol limit taker rep seq opp) in
  o_id t = o_id taker ∧ o_owner t = o_owner taker ∧ o_price t = o_price taker ∧ o_side t = o_side taker.
Proof.
  revert taker rep seq. induction opp as [|r opp IH]; intros taker rep seq; simpl; [done|].
  destruct (_ || _); [done|]. destruct (self_trade _ _ _).
  { destruct (policy_eqb _ _); [done|apply IH]. }
  simpl. destruct (_ =? _); [|done]. exact (IH (o_with_qty taker _) _ _).
Qed.

(** What is left is a tail of the queue, its first order perhaps reduced. *)
Inductive leaves : list RestingOrder → list RestingOrder → Prop :=
  | leaves_same l : leaves l l
  | leaves_cut r q l : 0 < q < r_qty r → leaves (r :: l) (r_with_qty r q :: l)
  | leaves_drop r l l' : leaves l l' → leaves (r :: l) l'.

Lemma match_queue_leaves pol limit taker rep seq opp : orders_ok opp →
  leaves opp (m_queue (match_queue pol limit taker rep seq opp)).
Proof.
  revert taker rep seq. induction opp as [|r opp IH]; intros taker rep seq Hok; simpl; [constructor|].
  apply orders_ok_cons in Hok as [(_ & _ & Hr & _) Hok].
  destruct (negb (0 <? o_qty taker) || _) eqn:Hst; [constructor|]. destruct (self_trade _ _ _).
  { destruct (policy_eqb _ _); [constructor|]. constructor. by apply IH. }
  simpl. destruct (Z.eqb_spec (r_qty r) (Z.min (o_qty taker) (r_qty r))); simpl.
  - constructor. by apply IH.
  - constructor. destruct (Z.ltb_spec 0 (o_qty taker)); simpl in Hst; [lia|done].
Qed.

(** An order survives with its identity, price and owner. *)
Lemma leaves_elem l l' x : leaves l l' → x ∈ l' → ∃ y, y ∈ l ∧ r_id x = r_id y ∧
  r_price x = r_price y ∧ r_owner x = r_owner y ∧ r_qty x ≤ r_qty y ∧ (0 < r_qty y → 0 < r_qty x).
Proof.
  induction 1 as [l|r q l Hq|r l l' Hl IH]; intros Hx.
  - exists x. split_and!; auto with lia.
  - apply elem_of_cons in Hx as [->|Hx]; [exists r|exists x]; rewrite elem_of_cons; simpl; split_and!; auto with lia.
  - destruct (IH Hx) as (y & Hy & ?). exists y. split; [by right|done].
Qed.

Lemma leaves_ok l l' : leaves l l' → orders_ok l → orders_ok l'.
Proof.
  intros Hl Hok x Hx. destruct (leaves_elem _ _ _ Hl Hx) as (y & Hy & E1 & E2 & E3 & Hle & Hpos).
  destruct (Hok y Hy) as (? & ? & ? & ?). unfold resting_ok. rewrite E1, E2, E3. split_and!; lia.
Qed.

Lemma leaves_ids l l' : leaves l l' → (r_id <$> l') `sublist_of` (r_id <$> l).
Proof. induction 1; simpl; [done..|by constructor]. Qed.

Lemma leaves_priority IsBid l l' : leaves l l' → priority IsBid l → priority IsBid l'.
Proof.
  induction 1 as [l|r q l Hq|r l l' Hl IH]; intros Hp; [done| |].
  - inversion_clear Hp. by constructor.
  - inversion_clear Hp. by apply IH.
Qed.

(** If the taker has quantity left and was not halted, nothing that is left
    crosses its limit. *)
Lemma match_queue_exhausted pol limit taker rep seq opp :
  priority (is_bid (opposite (o_side taker))) opp → stp_halted rep = false →
  let m := match_queue pol limit taker rep seq opp in
  0 < o_qty (m_taker m) → stp_halted (m_rep m) = false →
  ∀ r, r ∈ m_queue m → crosses (o_side taker) limit (r_price r) = false.
Proof.
  revert taker rep seq. induction opp as [|r opp IH]; intros taker rep seq Hp Hh; simpl.
  { by intros _ _ ? ?%elem_of_nil. }
  inversion_clear Hp as [|? ? Hp' Hf].
  destruct (Z.ltb_spec 0 (o_qty taker)); simpl; [|lia].
  destruct (crosses (o_side taker) limit (r_price r)) eqn:Hc; simpl.
  - destruct (self_trade _ _ _).
    { destruct (policy_eqb _ _); [done|]. by apply IH. }
    set (t := Z.min _ _). destruct (Z.eqb_spec (r_qty r) t); simpl; [|lia]. by apply (IH (o_with_qty taker (o_qty taker - t))).
  - intros _ _ x [->|Hx]%elem_of_cons; [done|]. rewrite list.Forall_forall in Hf. specialize (Hf x Hx).
    unfold not_worse, better, crosses in *. destruct limit as [lim|]; [|done].
    destruct (o_side taker); simpl in *; lia.
Qed.

(** ** The report adds up *)

Definition traded (ts : list Trade) : Z := foldr (λ t z, t_qty t + z) 0 ts.

Lemma volume_nonneg l : orders_ok l → 0 ≤ volume l.
Proof.
  induction l as [|r l IH]; [done|]. intros [(_ & _ & ? & _) Hl]%orders_ok_cons. simpl. specialize (IH Hl). lia.
Qed.

(** Room for the report's counters. *)
Definition rep_room (rep : ExecReport) (taker : Order) (opp : list RestingOrder) : Prop :=
  0 ≤ filled rep ∧ 0 ≤ o_qty taker ∧ filled rep + o_qty taker < two32 ∧
  0 ≤ trade_count rep ∧ trade_count rep + zlen opp < two32 ∧
  0 ≤ stp_cancelled rep ∧ stp_cancelled rep + volume opp < two64.

Lemma match_queue_counts pol limit taker rep seq opp : orders_ok opp → rep_room rep taker opp →
  let m := match_queue pol limit taker rep seq opp in
  filled (m_rep m) = filled rep + traded (m_trades m) ∧
  o_qty (m_taker m) = o_qty taker - traded (m_trades m) ∧ 0 ≤ o_qty (m_taker m) ∧
  trade_count (m_rep m) = trade_count rep + zlen (m_trades m) ∧
  stp_cancelled (m_rep m) = stp_cancelled rep + (volume opp - volume (m_queue m) - traded (m_trades m)) ∧
  0 ≤ volume opp - volume (m_queue m) - traded (m_trades m).
Proof.
  revert taker rep seq. induction opp as [|r opp IH]; intros taker rep seq Hok (? & ? & ? & ? & ? & ? & Hv).
  { simpl in *. split_and!; unfold zlen; simpl; lia. }
  apply orders_ok_cons in Hok as [(_ & _ & Hr & _) Hok]. rewrite zlen_cons in *. simpl in Hv.
  pose proof (volume_nonneg _ Hok). pose proof (zlen_nonneg opp). simpl.
  destruct (negb (0 <? o_qty taker) || _) eqn:Hst.
  { simpl. split_and!; unfold zlen; simpl; lia. }
  assert (0 < o_qty taker) by (destruct (Z.ltb_spec 0 (o_qty taker)); simpl in *; [lia|done]).
  destruct (self_trade _ _ _).
  { destruct (policy_eqb _ _); [simpl; split_and!; unfold zlen; simpl; lia|].
    destruct (IH taker (rep_stp_cancel rep (r_qty r)) seq Hok) as (E1 & E2 & ? & E3 & E4 & ?).
    { unfold rep_room. simpl. rewrite u64_small by lia. split_and!; lia. }
    rewrite E1, E2, E3, E4. simpl. rewrite u64_small by lia. split_and!; lia. }
  set (q := Z.min _ _). assert (Hq : 0 < q ∧ q ≤ o_qty taker ∧ q ≤ r_qty r) by lia.
  simpl. destruct (Z.eqb_spec (r_qty r) q); simpl.
  - destruct (IH (o_with_qty taker (o_qty taker - q)) (rep_fill rep seq q) (u64 (seq + 1)) Hok) as (E1 & E2 & ? & E3 & E4 & ?).
    { unfold rep_room. simpl. rewrite !u32_small by lia. split_and!; lia. }
    rewrite zlen_cons, E1, E2, E3, E4. simpl in *. rewrite !u32_small by lia. split_and!; lia.
  - rewrite !u32_small by lia. unfold zlen; simpl. split_and!; lia.
Qed.

(** Trades carry consecutive sequence numbers, from the book's counter on. *)
Fixpoint numbered (seq : Sequence) (ts : list Trade) : Prop :=
  match ts with
  | [] => True
  | t :: ts => t_seq t = seq ∧ numbered (u64 (seq + 1)) ts
  end.

Lemma match_queue_seq pol limit taker rep seq opp : 0 ≤ seq < two64 →
  let m := match_queue pol limit taker rep seq opp in
  numbered seq (m_trades m) ∧ m_seq m = u64 (seq + zlen (m_trades m)).
Proof.
  revert taker rep seq. induction opp as [|r opp IH]; intros taker rep seq Hs; simpl.
  { split; [done|]. change (zlen []) with 0. by rewrite Z.add_0_r, u64_small. }
  assert (Hstop : numbered seq [] ∧ seq = u64 (seq + zlen (@nil Trade))).
  { split; [done|]. change (zlen []) with 0. by rewrite Z.add_0_r, u64_small. }
  destruct (_ || _); [done|]. destruct (self_trade _ _ _).
  { destruct (policy_eqb _ _); [done|]. by apply IH. }
  simpl. rewrite zlen_cons. destruct (_ =? _); simpl.
  - destruct (IH (o_with_qty taker (o_qty taker - Z.min (o_qty taker) (r_qty r)))
      (rep_fill rep seq (Z.min (o_qty taker) (r_qty r))) (u64 (seq + 1)) (u64_range _)) as [Hn ->].
    split; [done|]. rewrite u64_add_l. f_equal. lia.
  - done.
Qed.

(** Each trade is against an order of the queue, at that order's price, of at
    most its quantity, on the taker's behalf and within the taker's limit. *)
Definition fair (limit : option Price) (taker : Order) (opp : list RestingOrder) (t : Trade) : Prop :=
  t_taker_id t = o_id taker ∧ t_taker_side t = o_side taker ∧
  crosses (o_side taker) limit (t_price t) = true ∧
  ∃ r, r ∈ opp ∧ t_maker_id t = r_id r ∧ t_price t = r_price r ∧ 0 < t_qty t ≤ r_qty r.

Lemma fair_mono limit taker q opp t r :
  fair limit (o_with_qty taker q) opp t → fair limit taker (r :: opp) t.
Proof.
  intros (? & ? & ? & x & ? & ?). split_and!; [done..|]. exists x. split; [by right|done].
Qed.

Lemma match_queue_fair pol limit taker rep seq opp : orders_ok opp →
  ∀ t, t ∈ m_trades (match_queue pol limit taker rep seq opp) → fair limit taker opp t.
Proof.
  revert taker rep seq. induction opp as [|r opp IH]; intros taker rep seq Hok t; simpl.
  { by intros ?%elem_of_nil. }
  apply orders_ok_cons in Hok as [(_ & _ & Hr & _) Hok].
  destruct (negb (0 <? o_qty taker) || _) eqn:Hst; [by intros ?%elem_of_nil|].
  apply orb_false_elim in Hst as [Hq Hc]. apply negb_false_iff in Hq, Hc. apply Z.ltb_lt in Hq.
  assert (Hsame : ∀ x, fair limit taker opp x → fair limit taker (r :: opp) x).
  { intros x (? & ? & ? & y & ? & ?). split_and!; [done..|]. exists y. split; [by right|done]. }
  destruct (self_trade _ _ _).
  { destruct (policy_eqb _ _); [by intros ?%elem_of_nil|]. intros Ht. by eapply Hsame, IH. }
  simpl. intros [->|Ht]%elem_of_cons.
  - split_and!; [done..|]. exists r. split; [left|]. simpl. split_and!; [done..|lia|lia].
  - destruct (_ =? _); simpl in Ht; [|by apply elem_of_nil in Ht].
    apply IH in Ht; [|done]. by eapply fair_mono.
Qed.

Lemma traded_nonneg ts : (∀ t, t ∈ ts → 0 < t_qty t) → 0 ≤ traded ts.
Proof.
  induction ts as [|t ts IH]; [done|]. intros Ht. simpl. pose proof (Ht t ltac:(left)).
  assert (0 ≤ traded ts) by (apply IH; intros u Hu; apply Ht; by right). lia.
Qed.

(** ** Price-time priority *)

(** When an order trades, every order ahead of it has left the book. *)
Lemma match_queue_priority pol limit taker rep seq l1 r l2 t x :
  NoDup (r_id <$> l1 ++ r :: l2) → orders_ok (l1 ++ r :: l2) →
  let m := match_queue pol limit taker rep seq (l1 ++ r :: l2) in
  t ∈ m_trades m → t_maker_id t = r_id r → x ∈ l1 → r_id x ∉ r_id <$> m_queue m.
Proof.
  revert taker rep seq. induction l1 as [|y l1 IH]; intros taker rep seq Hnd Hok; simpl.
  { by intros _ _ ?%elem_of_nil. }
  apply orders_ok_cons in Hok as [_ Hok]. simpl in Hnd. apply NoDup_cons in Hnd as [Hy Hnd].
  assert (Hrec : ∀ taker rep seq, let m := match_queue pol limit taker rep seq (l1 ++ r :: l2) in
    t ∈ m_trades m → t_maker_id t = r_id r → x ∈ y :: l1 → r_id x ∉ r_id <$> m_queue m).
  { intros tk rp sq m Ht Hm [->|Hx]%elem_of_cons; [|by eapply IH].
    intros Hin. apply Hy. eapply elem_of_sublist; [exact Hin|]. apply leaves_ids. by apply match_queue_leaves. }
  destruct (_ || _); [by intros ?%elem_of_nil|]. destruct (self_trade _ _ _).
  { destruct (policy_eqb _ _); [by intros ?%elem_of_nil|]. apply Hrec. }
  simpl. intros [->|Ht]%elem_of_cons Hm Hx.
  - exfalso. apply Hy. simpl in Hm. rewrite Hm, fmap_app. apply elem_of_app. right. left.
  - destruct (_ =? _); simpl in *; [by apply (Hrec _ _ _ Ht Hm Hx)|by apply elem_of_nil in Ht].
Qed.

(** ** The interface preserves the invariant *)

Lemma wf_intro s b : priority (is_bid s) (side s b) → priority (is_bid (opposite s)) (side (opposite s) b) →
  NoDup (r_id <$> (side s b ++ side (opposite s) b)) → orders_ok (side s b ++ side (opposite s) b) →
  (∀ x y, x ∈ side s b → y ∈ side (opposite s) b → better (is_bid s) (r_price x) (r_price y) = false ∧ r_price x ≠ r_price y) →
  wf b.
Proof.
  intros Hp Ho Hn Hok Hu. split.
  - by destruct s.
  - by destruct s.
  - by rewrite (ids_sides s).
  - intros r Hr. apply Hok. destruct s; simpl; [done|]. by rewrite Permutation_app_comm.
  - intros x y Hx Hy. destruct s; simpl in *.
    + destruct (Hu x y Hx Hy) as [Hb ?]. unfold better in Hb. lia.
    + destruct (Hu y x Hy Hx) as [Hb ?]. unfold better in Hb. lia.
Qed.

Lemma wf_elim s b : wf b → priority (is_bid s) (side s b) ∧ priority (is_bid (opposite s)) (side (opposite s) b) ∧
  NoDup (r_id <$> (side s b ++ side (opposite s) b)) ∧ orders_ok (side s b ++ side (opposite s) b) ∧
  (∀ x y, x ∈ side s b → y ∈ side (opposite s) b → better (is_bid s) (r_price x) (r_price y) = false ∧ r_price x ≠ r_price y).
Proof.
  intros Hwf. split_and!; [by apply wf_side..| | |].
  - rewrite <-ids_sides. apply Hwf.
  - intros r Hr. apply (wf_orders _ Hwf). destruct s; simpl in *; [done|]. by rewrite Permutation_app_comm.
  - intros x y Hx Hy. destruct s; simpl in *.
    + pose proof (wf_uncrossed _ Hwf x y Hx Hy). unfold better. lia.
    + pose proof (wf_uncrossed _ Hwf y x Hy Hx). unfold better. lia.
Qed.

Lemma remove_id_sublist id l : remove_id id l `sublist_of` l.
Proof. apply sublist_filter. Qed.

Lemma sublist_fmap {A B} (f : A → B) l l' : l `sublist_of` l' → (f <$> l) `sublist_of` (f <$> l').
Proof. induction 1; simpl; by constructor. Qed.

Lemma cancel_wf b id : wf b → wf (cancel b id).1.
Proof.
  intros [Hb Ha Hn Hok Hu]. unfold cancel. simpl.
  pose proof (remove_id_sublist id (bids b)) as Sb. pose proof (remove_id_sublist id (asks b)) as Sa.
  split; unfold ids in *; simpl.
  - by eapply priority_sublist.
  - by eapply priority_sublist.
  - refine (sublist_NoDup _ _ Hn _). by apply sublist_fmap, sublist_app.
  - intros r [Hr|Hr]%elem_of_app; apply Hok; apply elem_of_app; [left|right]; by eapply elem_of_sublist.
  - intros x y Hx Hy. apply Hu; by eapply elem_of_sublist.
Qed.

(** ** Lookup by id *)

Lemma remove_id_fresh id l : id ∉ r_id <$> l → remove_id id l = l.
Proof.
  intros Hid. apply filter_whole. intros r Hr E. apply Hid, list_elem_of_fmap. by exists r.
Qed.

Lemma remove_id_mid l1 r l2 : NoDup (r_id <$> l1 ++ r :: l2) → remove_id (r_id r) (l1 ++ r :: l2) = l1 ++ l2.
Proof.
  rewrite fmap_app. intros (_ & Hd & [Hn _]%NoDup_cons)%NoDup_app. unfold remove_id.
  rewrite filter_app, filter_cons_False by auto. f_equal; [|by apply remove_id_fresh].
  apply remove_id_fresh. intros Hin. eapply Hd; [done|left].
Qed.

Lemma find_in_Some id l r : find_in id l = Some r → r ∈ l ∧ r_id r = id.
Proof.
  unfold find_in. intros Hh. assert (r ∈ filter (λ r, r_id r = id) l) as Hin.
  { destruct (filter _ l); [done|]. simpl in Hh. simplify_eq. left. }
  apply list_elem_of_filter in Hin. tauto.
Qed.

Lemma find_in_None id l : id ∉ r_id <$> l → find_in id l = None.
Proof.
  intros Hid. unfold find_in. rewrite filter_none; [done|]. intros r Hr E. apply Hid.
  apply list_elem_of_fmap. by exists r.
Qed.

Lemma find_in_unique l r : NoDup (r_id <$> l) → r ∈ l → find_in (r_id r) l = Some r.
Proof.
  induction l as [|x l IH]; [by intros _ ?%elem_of_nil|]. intros [Hx Hn]%NoDup_cons. unfold find_in.
  intros [->|Hr]%elem_of_cons; [by rewrite filter_cons_True|].
  rewrite filter_cons_False; [by apply IH|]. intros E. apply Hx. apply list_elem_of_fmap. by exists r.
Qed.

Lemma find_resting b s r : wf b → r ∈ side s b → find b (r_id r) = Some (order_of s r).
Proof.
  intros Hwf Hr. destruct (wf_elim s b Hwf) as (_ & _ & Hn & _). rewrite fmap_app in Hn.
  apply NoDup_app in Hn as (Hn1 & Hd & Hn2). pose proof (find_in_unique _ _ Hn1 Hr) as Hf.
  unfold find. destruct s; simpl in *; rewrite Hf; [done|].
  rewrite find_in_None; [done|]. apply Hd, list_elem_of_fmap. by exists r.
Qed.

Lemma find_dead b id : id ∉ ids b → find b id = None.
Proof.
  unfold ids. rewrite fmap_app, elem_of_app. intros Hid. unfold find.
  by rewrite !find_in_None by tauto.
Qed.

Lemma find_Some b id o : find b id = Some o → ∃ r, r ∈ side (o_side o) b ∧ r_id r = id ∧ o = order_of (o_side o) r.
Proof.
  unfold find. destruct (find_in id (bids b)) as [r|] eqn:Hb.
  - intros [= <-]. apply find_in_Some in Hb as [? ?]. by exists r.
  - destruct (find_in id (asks b)) as [r|] eqn:Ha; [|done]. intros [= <-].
    apply find_in_Some in Ha as [? ?]. by exists r.
Qed.

(** ** What [cancel] does *)

Lemma cancel_dead b id : id ∉ ids b → cancel b id = (b, false).
Proof.
  intros Hid. unfold cancel, live. rewrite bool_decide_false by done.
  unfold ids in Hid. rewrite fmap_app, elem_of_app in Hid.
  rewrite !remove_id_fresh by tauto. by destruct b.
Qed.

Lemma cancel_live b s r : wf b → r ∈ side s b →
  cancel b (r_id r) = (set_side s (remove_id (r_id r) (side s b)) b, true).
Proof.
  intros Hwf Hr. unfold cancel. destruct (wf_elim s b Hwf) as (_ & _ & Hnd & _).
  rewrite fmap_app in Hnd. apply NoDup_app in Hnd as (_ & Hd & _).
  assert (Hin : r_id r ∈ r_id <$> side s b) by (apply list_elem_of_fmap; by exists r).
  assert (live b (r_id r) = true) as ->.
  { apply bool_decide_eq_true. rewrite (ids_sides s), fmap_app. apply elem_of_app. by left. }
  specialize (Hd _ Hin). f_equal. pose proof (remove_id_fresh _ _ Hd) as Ef.
  destruct b as [? ? ? ?], s; simpl in *; by rewrite Ef.
Qed.

Lemma cancel_room b id : wf b → id ∈ ids b →
  zlen (ids (cancel b id).1) < zlen (ids b).
Proof.
  intros Hwf Hid. pose proof (cancel_wf b id Hwf) as Hwf'.
  assert (Hin : ∀ i, i ∈ ids (cancel b id).1 → i ∈ ids b ∧ i ≠ id).
  { intros i. unfold ids, cancel, remove_id. simpl. rewrite !fmap_app, !elem_of_app, !list_elem_of_fmap.
    intros [(r & -> & [? ?]%list_elem_of_filter)|(r & -> & [? ?]%list_elem_of_filter)];
      (split; [|done]); [left|right]; by exists r. }
  assert (id :: ids (cancel b id).1 ⊆+ ids b) as Hsub.
  { apply NoDup_submseteq.
    - apply NoDup_cons. split; [|apply Hwf']. by intros [_ ?]%Hin.
    - intros i [->|[? _]%Hin]%elem_of_cons; done. }
  apply submseteq_length in Hsub. unfold zlen. rewrite length_cons in Hsub. lia.
Qed.

(** The arguments are in range for their C++ types. *)
Definition args_ok (id : OrderId) (owner : ParticipantId) (limit : option Price) (qty : Quantity) : Prop :=
  0 ≤ id < two64 ∧ 0 ≤ owner < two32 ∧ 0 ≤ qty < two32 ∧ 0 ≤ default 0 limit < two64.

(** The counters of one report cannot wrap while the side is this small. *)
Definition side_ok (l : list RestingOrder) : Prop := zlen l ≤ two31.

Lemma volume_le l : orders_ok l → 0 ≤ volume l ≤ zlen l * two32.
Proof.
  intros Hok. split; [by apply volume_nonneg|]. induction l as [|r l IH]; [done|].
  apply orders_ok_cons in Hok as [(_ & _ & ? & _) Hok]. rewrite zlen_cons. simpl. specialize (IH Hok). lia.
Qed.

Lemma rep_room_start taker l : orders_ok l → side_ok l → 0 ≤ o_qty taker < two32 →
  rep_room ExecReport0 taker l.
Proof.
  intros Hok Hs Hq. pose proof (volume_le l Hok). unfold side_ok in Hs. unfold rep_room. simpl. lia.
Qed.

Lemma live_false b id : live b id = false → id ∉ ids b.
Proof. unfold live. by intros ?%bool_decide_eq_false. Qed.

Lemma set_seq_wf n b : wf b → wf (set_seq n b).
Proof. intros [? ? ? ? ?]. by split. Qed.

(** The side that was matched against, cut down, keeps the invariant. *)
Lemma leaves_wf s l b : wf b → leaves (side (opposite s) b) l → wf (set_side (opposite s) l b).
Proof.
  intros Hwf Hl. destruct (wf_elim s b Hwf) as (Hp & Ho & Hn & Hok & Hu).
  apply (wf_intro s); rewrite ?side_set_side; replace (side s (set_side (opposite s) l b)) with (side s b) by by destruct s.
  - done.
  - by eapply leaves_priority.
  - rewrite fmap_app in Hn |- *. refine (sublist_NoDup _ _ Hn _). apply sublist_app; [done|by apply leaves_ids].
  - intros r [Hr|Hr]%elem_of_app; [apply Hok, elem_of_app; by left|].
    eapply (leaves_ok _ _ Hl); [|done]. intros y Hy. apply Hok, elem_of_app. by right.
  - intros x y Hx Hy. destruct (leaves_elem _ _ _ Hl Hy) as (z & Hz & _ & -> & _). by apply Hu.
Qed.

(** An order that crosses nothing on the other side may rest. *)
Lemma enqueue_wf s b r : wf b → resting_ok r → r_id r ∉ ids b →
  (∀ y, y ∈ side (opposite s) b → crosses s (Some (r_price r)) (r_price y) = false) →
  wf (set_side s (enqueue (is_bid s) (side s b) r) b).
Proof.
  intros Hwf Hr Hid Hc. destruct (wf_elim s b Hwf) as (Hp & Ho & Hn & Hok & Hu).
  apply (wf_intro s); rewrite ?side_set_side, ?side_set_opposite; [by apply enqueue_sorted|done|..].
  - rewrite enqueue_perm. simpl. apply NoDup_cons. split; [|done]. by rewrite <-ids_sides.
  - intros x Hx. rewrite enqueue_perm in Hx. apply elem_of_cons in Hx as [->|Hx]; [done|by apply Hok].
  - intros x y Hx Hy. rewrite enqueue_perm in Hx. apply elem_of_cons in Hx as [->|Hx]; [|by apply Hu].
    specialize (Hc y Hy). unfold better. destruct s; simpl in *; lia.
Qed.

Lemma submit_wf b id owner s limit qty rest : wf b → args_ok id owner limit qty →
  side_ok (side (opposite s) b) → (rest = true → is_Some limit) →
  wf (submit b id owner s limit qty rest).1.1.
Proof.
  intros Hwf (Hid & How & Hq & Hpr) Hso Hrest. unfold submit.
  destruct ((qty =? 0) || live b id) eqn:Hrej; [done|].
  apply orb_false_elim in Hrej as [_ Hlive%live_false].
  destruct (wf_elim s b Hwf) as (_ & Ho & Hn & Hok & _).
  set (taker := MkOrder id owner (default 0 limit) qty s).
  assert (Hopp : orders_ok (side (opposite s) b)) by (intros x Hx; apply Hok, elem_of_app; by right).
  pose proof (match_queue_leaves (policy b) limit taker ExecReport0 (next_seq b) _ Hopp) as Hl.
  pose proof (match_queue_taker (policy b) limit taker ExecReport0 (next_seq b) (side (opposite s) b)) as (Ti & To & Tp & Ts).
  destruct (match_queue_counts (policy b) limit taker ExecReport0 (next_seq b) (side (opposite s) b) Hopp) as (_ & Hleft & Hleft0 & _).
  { by apply rep_room_start. }
  pose proof (match_queue_exhausted (policy b) limit taker ExecReport0 (next_seq b) (side (opposite s) b) Ho eq_refl) as Hex.
  revert Hl Ti To Tp Ts Hleft Hleft0 Hex.
  set (m := match_queue _ _ _ _ _ _). intros Hl Ti To Tp Ts Hleft Hleft0 Hex.
  set (b1 := set_seq _ _). assert (Hwf1 : wf b1) by by apply set_seq_wf, leaves_wf.
  destruct (rest && _ && _) eqn:Hr; simpl; [|done].
  apply andb_true_iff in Hr as [[-> Hpos%Z.ltb_lt]%andb_true_iff Hh%negb_true_iff]. simpl in Hh.
  destruct (Hrest eq_refl) as [lim ->].
  assert (0 ≤ traded (m_trades m)).
  { apply traded_nonneg. intros t (_ & _ & _ & r & _ & _ & _ & ?)%match_queue_fair; [lia|done]. }
  apply enqueue_wf; [done| | |].
  - unfold resting_of, resting_ok. rewrite Ti, To, Tp. simpl in *. split_and!; lia.
  - unfold resting_of. simpl. rewrite Ti. simpl. intros Hin. apply Hlive.
    revert Hin. rewrite !(ids_sides s). unfold b1.
    replace (side s (set_seq (m_seq m) (set_side (opposite s) (m_queue m) b))) with (side s b) by by destruct s.
    replace (side (opposite s) (set_seq (m_seq m) (set_side (opposite s) (m_queue m) b))) with (m_queue m) by by destruct s.
    rewrite !fmap_app, !elem_of_app. intros [?|Hin]; [by left|right].
    eapply elem_of_sublist; [exact Hin|by apply leaves_ids].
  - replace (side (opposite s) b1) with (m_queue m) by by destruct s.
    intros y Hy. specialize (Hex Hpos Hh y Hy). simpl in Hex.
    unfold resting_of. simpl. by rewrite Tp.
Qed.
(** ** The book grows by at most the submitted order *)

Lemma leaves_length l l' : leaves l l' → (length l' ≤ length l)%nat.
Proof. induction 1; simpl; lia. Qed.

Lemma ids_length s b : zlen (ids b) = zlen (side s b) + zlen (side (opposite s) b).
Proof. unfold ids, zlen. rewrite length_fmap, length_app. destruct s; simpl; lia. Qed.

Lemma submit_size b id owner s limit qty rest : wf b →
  zlen (ids (submit b id owner s limit qty rest).1.1) ≤ zlen (ids b) + 1.
Proof.
  intros Hwf. unfold submit. destruct (_ || _); [simpl; lia|]. set (m := match_queue _ _ _ _ _ _).
  assert (Hl : leaves (side (opposite s) b) (m_queue m)).
  { apply match_queue_leaves. intros r Hr. apply (wf_orders _ Hwf). apply elem_of_app. destruct s; simpl in *; auto. }
  apply leaves_length in Hl.
  assert (E : zlen (ids (set_seq (m_seq m) (set_side (opposite s) (m_queue m) b))) ≤ zlen (ids b)).
  { rewrite !(ids_length s). unfold zlen. destruct s; simpl in *; lia. }
  destruct (_ && _ && _); simpl; [|lia].
  revert E. rewrite !(ids_length s). unfold zlen. destruct s; simpl; rewrite enqueue_perm; simpl; lia.
Qed.

Lemma cancel_size b id : zlen (ids (cancel b id).1) ≤ zlen (ids b).
Proof.
  unfold ids, cancel, remove_id, zlen. simpl. rewrite !length_fmap, !length_app.
  pose proof (length_filter (λ r, r_id r ≠ id) (bids b)). pose proof (length_filter (λ r, r_id r ≠ id) (asks b)). lia.
Qed.

Lemma modify_size b id price qty : wf b → zlen (ids (modify b id price qty).1.1) ≤ zlen (ids b) + 1.
Proof.
  intros Hwf. unfold modify. destruct (find b id) as [o|]; [|simpl; lia].
  pose proof (cancel_size b id). destruct (qty =? 0); [simpl in *; lia|].
  pose proof (submit_size (cancel b id).1 id (o_owner o) (o_side o) (Some price) qty true (cancel_wf b id Hwf)). lia.
Qed.

(** ** At most one trade per operation

    A trade that does not finish the taker takes a maker off the book, and a
    taker that trades out does not rest. *)

Lemma match_queue_trades pol limit taker rep seq opp :
  let m := match_queue pol limit taker rep seq opp in
  zlen (m_trades m) + zlen (m_queue m) ≤ zlen opp + 1 ∧
  (0 < o_qty (m_taker m) → zlen (m_trades m) + zlen (m_queue m) ≤ zlen opp).
Proof.
  revert taker rep seq. induction opp as [|r opp IH]; intros taker rep seq; simpl; [change (zlen []) with 0; change (zlen []) with 0; lia|].
  pose proof (zlen_cons r opp) as Hz. destruct (_ || _); [simpl; change (zlen []) with 0; lia|].
  destruct (self_trade _ _ _).
  { destruct (policy_eqb _ _); [simpl; change (zlen []) with 0; lia|]. specialize (IH taker (rep_stp_cancel rep (r_qty r)) seq). simpl in IH. lia. }
  simpl. set (q := Z.min _ _). destruct (Z.eqb_spec (r_qty r) q); simpl; rewrite zlen_cons.
  - specialize (IH (o_with_qty taker (o_qty taker - q)) (rep_fill rep seq q) (u64 (seq + 1))). simpl in IH. lia.
  - rewrite zlen_cons. change (zlen []) with 0. lia.
Qed.

Lemma submit_trades b id owner s limit qty rest :
  let '(b', _, ts) := submit b id owner s limit qty rest in zlen ts + zlen (ids b') ≤ zlen (ids b) + 1.
Proof.
  unfold submit. destruct (_ || _); [change (zlen []) with 0; lia|]. set (m := match_queue _ _ _ _ _ _).
  pose proof (match_queue_trades (policy b) limit (MkOrder id owner (default 0 limit) qty s) ExecReport0
    (next_seq b) (side (opposite s) b)) as [Hm Hm']. fold m in Hm, Hm'.
  assert (E : zlen (ids (set_seq (m_seq m) (set_side (opposite s) (m_queue m) b))) = zlen (side s b) + zlen (m_queue m)).
  { rewrite (ids_length s). by destruct s. }
  pose proof (ids_length s b) as Eb.
  destruct (rest && (0 <? o_qty (m_taker m)) && _) eqn:Hr; [|lia].
  apply andb_true_iff in Hr as [[_ Hpos%Z.ltb_lt]%andb_true_iff _].
  revert E. rewrite !(ids_length s). unfold zlen in *. destruct s; simpl in *; rewrite enqueue_perm; simpl; lia.
Qed.

Lemma modify_trades b id price qty :
  let '(b', _, ts) := modify b id price qty in zlen ts + zlen (ids b') ≤ zlen (ids b) + 1.
Proof.
  unfold modify. destruct (find b id) as [o|]; [|change (zlen []) with 0; lia].
  pose proof (cancel_size b id). destruct (qty =? 0); [change (zlen []) with 0; lia|].
  pose proof (submit_trades (cancel b id).1 id (o_owner o) (o_side o) (Some price) qty true).
  destruct (submit _ _ _ _ _ _ _) as [[b' rep] ts]. lia.
Qed.

Lemma submit_policy b id owner s limit qty rest : policy (submit b id owner s limit qty rest).1.1 = policy b.
Proof. unfold submit. destruct (_ || _); [done|]. destruct (_ && _ && _), s; done. Qed.

Lemma modify_policy b id price qty : policy (modify b id price qty).1.1 = policy b.
Proof. unfold modify. destruct (find b id); [|done]. destruct (qty =? 0); [done|]. by rewrite submit_policy. Qed.

(** ** What a submission did, by cases *)

(** The state once the walk of the opposite side is over. *)
Definition matched (b : Book) (s : Side) (m : Matched) : Book :=
  set_seq (m_seq m) (set_side (opposite s) (m_queue m) b).

Lemma submit_cases b id owner s limit qty rest b' rep ts :
  submit b id owner s limit qty rest = (b', rep, ts) →
  (b' = b ∧ rep = rep_reject qty ∧ ts = [] ∧ (qty = 0 ∨ id ∈ ids b)) ∨
  (qty ≠ 0 ∧ id ∉ ids b ∧
   let m := match_queue (policy b) limit (MkOrder id owner (default 0 limit) qty s) ExecReport0
     (next_seq b) (side (opposite s) b) in
   let rep1 := rep_with_remaining (m_rep m) (o_qty (m_taker m)) in
   ts = m_trades m ∧
   ((rest = true ∧ 0 < o_qty (m_taker m) ∧ stp_halted (m_rep m) = false ∧ rep = rep_rested rep1 ∧
     b' = set_side s (enqueue (is_bid s) (side s b) (resting_of (m_taker m))) (matched b s m)) ∨
    ((rest = false ∨ o_qty (m_taker m) ≤ 0 ∨ stp_halted (m_rep m) = true) ∧ rep = rep1 ∧ b' = matched b s m))).
Proof.
  unfold submit. destruct (Z.eqb_spec qty 0) as [Hq|Hq]; simpl; [intros [= <- <- <-]; left; auto|].
  destruct (live b id) eqn:Hl; [intros [= <- <- <-]; left|]; [apply bool_decide_eq_true in Hl; auto|].
  apply live_false in Hl. set (m := match_queue _ _ _ _ _ _). fold (matched b s m).
  intros E. right. split; [done|]. split; [done|]. cbv zeta. fold m.
  replace (side s (matched b s m)) with (side s b) in E by by destruct s.
  destruct rest; simpl in E; [|injection E as <- <- <-; split; [done|right; auto]].
  destruct (Z.ltb_spec 0 (o_qty (m_taker m))); simpl in E; [|injection E as <- <- <-; split; [done|right; auto]].
  destruct (stp_halted (m_rep m)); simpl in E; injection E as <- <- <-; (split; [done|]); [right|left]; auto.
Qed.

Lemma match_queue_stp pol limit taker rep seq opp t :
  t ∈ m_trades (match_queue pol limit taker rep seq opp) →
  ∃ r, r ∈ opp ∧ t_maker_id t = r_id r ∧ self_trade pol taker r = false.
Proof.
  revert taker rep seq. induction opp as [|r opp IH]; intros taker rep seq; simpl; [by intros ?%elem_of_nil|].
  assert (Hrec : (∃ x, x ∈ opp ∧ t_maker_id t = r_id x ∧ self_trade pol taker x = false) →
    ∃ x, x ∈ r :: opp ∧ t_maker_id t = r_id x ∧ self_trade pol taker x = false).
  { intros (x & ? & ?). exists x. split; [by right|done]. }
  destruct (_ || _); [by intros ?%elem_of_nil|]. destruct (self_trade pol taker r) eqn:Hst.
  { destruct (policy_eqb _ _); [by intros ?%elem_of_nil|]. intros Ht. eapply Hrec, IH, Ht. }
  simpl. intros [->|Ht]%elem_of_cons; [exists r; split; [left|done]|].
  destruct (_ =? _); simpl in Ht; [|by apply elem_of_nil in Ht]. apply Hrec, (IH _ _ _ Ht).
Qed.

(** A halted taker stopped in front of an order of its own owner, and under
    [CancelIncoming] only. *)
Lemma match_queue_halted pol limit taker rep seq opp : stp_halted rep = false →
  let m := match_queue pol limit taker rep seq opp in
  stp_halted (m_rep m) = true → pol = CancelIncoming ∧ 0 < o_qty (m_taker m) ∧
  ∃ r rest, m_queue m = r :: rest ∧ crosses (o_side taker) limit (r_price r) = true ∧
    r_owner r = o_owner taker ∧ o_owner taker ≠ kAnonymous.
Proof.
  revert taker rep seq. induction opp as [|r opp IH]; intros taker rep seq Hh; simpl; [by rewrite Hh|].
  destruct (Z.ltb_spec 0 (o_qty taker)); simpl; [|by rewrite Hh].
  destruct (crosses _ _ _) eqn:Hc; simpl; [|by rewrite Hh].
  destruct (self_trade pol taker r) eqn:Hst.
  - destruct (policy_eqb pol CancelIncoming) eqn:Hp; [|by apply IH].
    apply bool_decide_eq_true in Hp as ->. simpl. intros _. split_and!; [done..|]. exists r, opp.
    unfold self_trade, stp_possible in Hst. apply andb_true_iff in Hst as [Ha Ho%Z.eqb_eq].
    apply andb_true_iff in Ha as [_ Ha%negb_true_iff%Z.eqb_neq]. done.
  - destruct (_ =? _); simpl; [|by rewrite Hh].
    by apply (IH (o_with_qty taker (o_qty taker - Z.min (o_qty taker) (r_qty r)))).
Qed.

(** The orders a walk leaves are a tail of the queue, its head perhaps cut. *)
Lemma leaves_suffix l l' : leaves l l' → l' `suffix_of` l ∨
  ∃ k r q rest, l = k ++ r :: rest ∧ l' = r_with_qty r q :: rest ∧ 0 < q < r_qty r.
Proof.
  induction 1 as [l|r q l Hq|r l l' Hl [IH|IH]].
  - left. by exists [].
  - right. by exists [], r, q, l.
  - left. by apply suffix_cons_r.
  - right. destruct IH as (k & x & q & rest & -> & -> & ?). by exists (r :: k), x, q, rest.
Qed.

Lemma enqueue_split IsBid l r : priority IsBid l → ∃ l1 l2, l = l1 ++ l2 ∧ enqueue IsBid l r = l1 ++ r :: l2 ∧
  (∀ x, x ∈ l1 → better IsBid (r_price r) (r_price x) = false) ∧
  (∀ x, x ∈ l2 → better IsBid (r_price r) (r_price x) = true).
Proof.
  induction 1 as [|x l Hs (l1 & l2 & -> & E & H1 & H2) Hf]; simpl.
  { exists [], []. split_and!; [done..| |]; by intros ? ?%elem_of_nil. }
  destruct (better IsBid (r_price r) (r_price x)) eqn:Hb.
  - exists [], (x :: l1 ++ l2). split_and!; [done..|by intros ? ?%elem_of_nil|].
    intros y [->|Hy]%elem_of_cons; [done|]. rewrite list.Forall_forall in Hf. specialize (Hf y Hy).
    unfold not_worse, better in *. destruct IsBid; lia.
  - exists (x :: l1), l2. rewrite E. split_and!; [done..| |done]. intros y [->|Hy]%elem_of_cons; auto.
Qed.

(** The report names the first fill's sequence number. *)
Lemma match_queue_first pol limit taker rep seq opp :
  0 ≤ trade_count rep → trade_count rep + zlen opp < two32 →
  let m := match_queue pol limit taker rep seq opp in
  first_seq (m_rep m) = if trade_count rep =? 0 then from_option t_seq (first_seq rep) (head (m_trades m)) else first_seq rep.
Proof.
  revert taker rep seq. induction opp as [|r opp IH]; intros taker rep seq Hc Hlt; simpl; [by destruct (_ =? _)|].
  rewrite zlen_cons in Hlt. pose proof (zlen_nonneg opp). destruct (_ || _); [simpl; by destruct (_ =? _)|].
  destruct (self_trade _ _ _).
  { destruct (policy_eqb _ _); [simpl; by destruct (_ =? _)|]. apply (IH taker (rep_stp_cancel rep (r_qty r))); simpl; lia. }
  simpl. destruct (r_qty r =? _); simpl; [|done]. set (q := Z.min _ _).
  specialize (IH (o_with_qty taker (o_qty taker - q)) (rep_fill rep seq q) (u64 (seq + 1))). simpl in IH.
  rewrite u32_small in IH by lia. rewrite IH by lia. destruct (Z.eqb_spec (trade_count rep + 1) 0); [lia|done].
Qed.

Lemma numbered_take seq ts k : numbered seq ts → numbered seq (take k ts).
Proof. revert seq k. induction ts as [|t ts IH]; intros seq [|k]; simpl; try done. intros [? ?]. split; [done|by apply IH]. Qed.

Lemma numbered_app seq ts ts' : 0 ≤ seq < two64 → numbered seq ts → numbered (u64 (seq + zlen ts)) ts' → numbered seq (ts ++ ts').
Proof.
  revert seq. induction ts as [|t ts IH]; intros seq Hs; simpl.
  { change (zlen []) with 0. intros _. by rewrite Z.add_0_r, u64_small. }
  rewrite zlen_cons. intros [? Hn] Hn'. split; [done|]. apply IH; [apply u64_range|done|].
  rewrite u64_add_l. by replace (seq + 1 + zlen ts) with (seq + (zlen ts + 1)) by lia.
Qed.

Lemma submit_seq b id owner s limit qty rest b' rep ts : 0 ≤ next_seq b < two64 →
  submit b id owner s limit qty rest = (b', rep, ts) → numbered (next_seq b) ts ∧ next_seq b' = u64 (next_seq b + zlen ts).
Proof.
  intros Hs [(-> & _ & -> & _)|(_ & _ & Hm)]%submit_cases.
  { split; [done|]. change (zlen []) with 0. by rewrite Z.add_0_r, u64_small. }
  pose proof (match_queue_seq (policy b) limit (MkOrder id owner (default 0 limit) qty s) ExecReport0
    (next_seq b) (side (opposite s) b) Hs) as [Hn Hq].
  destruct Hm as [-> [(_ & _ & _ & _ & ->)|(_ & _ & ->)]]; (split; [done|]); unfold matched; rewrite <-Hq; by destruct s.
Qed.

Lemma volume_perm l l' : l ≡ₚ l' → volume l = volume l'.
Proof. induction 1; simpl; lia. Qed.

Lemma match_queue_rested pol limit taker rep seq opp :
  rested (m_rep (match_queue pol limit taker rep seq opp)) = rested rep.
Proof.
  revert taker rep seq. induction opp as [|r opp IH]; intros taker rep seq; simpl; [done|].
  destruct (_ || _); [done|]. destruct (self_trade _ _ _).
  { destruct (policy_eqb _ _); [done|]. by rewrite IH. }
  simpl. destruct (_ =? _); simpl; by rewrite ?IH.
Qed.

(** The report and the books add up. *)
Lemma submit_counts b id owner s limit qty rest b' rep ts : wf b → side_ok (side (opposite s) b) → 0 ≤ qty < two32 →
  submit b id owner s limit qty rest = (b', rep, ts) → accepted rep = true →
  filled rep + remaining rep = qty ∧ 0 ≤ remaining rep ∧ filled rep = traded ts ∧ trade_count rep = zlen ts ∧
  0 ≤ stp_cancelled rep ∧
  volume (bids b') + volume (asks b') =
    volume (bids b) + volume (asks b) - filled rep - stp_cancelled rep + (if rested rep then remaining rep else 0).
Proof.
  intros Hwf Hso Hq [(_ & -> & _ & _)|(_ & _ & Hm)]%submit_cases; [done|]. intros _.
  destruct (wf_elim s b Hwf) as (_ & _ & _ & Hok & _).
  assert (Hok' : orders_ok (side (opposite s) b)) by (intros x Hx; apply Hok, elem_of_app; by right).
  pose proof (rep_room_start (MkOrder id owner (default 0 limit) qty s) _ Hok' Hso Hq) as Hroom.
  pose proof (match_queue_counts (policy b) limit _ ExecReport0 (next_seq b) _ Hok' Hroom) as (E1 & E2 & E3 & E4 & E5 & E6).
  pose proof (match_queue_rested (policy b) limit (MkOrder id owner (default 0 limit) qty s) ExecReport0 (next_seq b) (side (opposite s) b)) as Er.
  simpl in E1, E2, E4, E5, Er. remember (match_queue _ _ _ _ _ _) as m eqn:Em. cbv zeta in Hm. clear Em.
  assert (Hv : ∀ l, volume (enqueue (is_bid s) l (resting_of (m_taker m))) = o_qty (m_taker m) + volume l).
  { intros l. rewrite volume_perm with (l' := resting_of (m_taker m) :: l) by apply enqueue_perm. done. }
  destruct Hm as [-> [(_ & ? & _ & -> & ->)|(_ & -> & ->)]]; simpl; rewrite ?E1, ?E4, ?E5, ?Er.
  - split_and!; try lia. destruct s; simpl in *; rewrite ?Hv; lia.
  - split_and!; try lia. destruct s; simpl in *; lia.
Qed.

(** The ids after an accepted submission. *)
Lemma submit_ids b id owner s limit qty rest b' rep ts x :
  submit b id owner s limit qty rest = (b', rep, ts) → accepted rep = true → x ∈ ids b' →
  x = id ∨ x ∈ r_id <$> side s b ∨
  x ∈ r_id <$> m_queue (match_queue (policy b) limit (MkOrder id owner (default 0 limit) qty s) ExecReport0
    (next_seq b) (side (opposite s) b)).
Proof.
  intros [(_ & -> & _)|(_ & _ & Hm)]%submit_cases; [done|]. intros _.
  pose proof (match_queue_taker (policy b) limit (MkOrder id owner (default 0 limit) qty s) ExecReport0
    (next_seq b) (side (opposite s) b)) as (Hid & _). simpl in Hid.
  destruct Hm as [_ [(_ & _ & _ & _ & ->)|(_ & _ & ->)]]; rewrite (ids_sides s), fmap_app, elem_of_app.
  - rewrite side_set_side, side_set_opposite, enqueue_perm. unfold matched. rewrite fmap_cons, elem_of_cons. simpl. rewrite Hid.
    destruct s; simpl; tauto.
  - unfold matched. destruct s; simpl; tauto.
Qed.

Lemma match_queue_accepted pol limit taker rep seq opp :
  accepted (m_rep (match_queue pol limit taker rep seq opp)) = accepted rep.
Proof.
  revert taker rep seq. induction opp as [|r opp IH]; intros taker rep seq; simpl; [done|].
  destruct (_ || _); [done|]. destruct (self_trade _ _ _).
  { destruct (policy_eqb _ _); [done|]. by rewrite IH. }
  simpl. destruct (_ =? _); simpl; by rewrite ?IH.
Qed.

Lemma submit_accepted b id owner s limit qty rest b' rep ts :
  submit b id owner s limit qty rest = (b', rep, ts) → accepted rep = true ↔ qty ≠ 0 ∧ id ∉ ids b.
Proof.
  intros [(_ & -> & _ & [?|?])|(? & ? & Hm)]%submit_cases; [split; [done|tauto]..|].
  split; [done|]. intros _. destruct Hm as [_ [(_ & _ & _ & -> & _)|(_ & -> & _)]]; simpl; by rewrite match_queue_accepted.
Qed.

End Spec.
