(* ===== verification/Book.v ===== *)
(** * The order book (class OrderBook, order_book.hpp and src/order_book.cpp)

    The whole engine over the components: a slot pool, one ladder per side, the
    id index and the trade ring. Operations are in the [res] monad; the C++
    member functions that take a [BookSide&] template argument take the side
    here, and [ladder s b] is the ladder it names. *)

From stdpp Require Import base decidable list.
From S2P Require Import Prelude.
From S2P Require Import Types.
From S2P Require Import Ring.
From S2P Require Import Pool.
From S2P Require Import Index.
From S2P Require Import SortedMap.
From S2P Require Import Ladder.
From S2P Require Import Queue.

Module OrderBook.

Section book.
Context {build : Build}.

(** [arena] is whether the fallback maps draw on a [NodeArena]. *)
Record OrderBook := mk {
  arena : bool;
  pool : SlotPool.SlotPool RestingOrder;
  bids : PriceLadder.PriceLadder;
  asks : PriceLadder.PriceLadder;
  order_index : IdIndex.IdIndex Z;
  trade_out : TradeRing.TradeRing;
  policy : SelfTradePolicy;
  next_seq : Sequence;
}.

Definition ladder (s : Side) (b : OrderBook) : PriceLadder.PriceLadder :=
  match s with Buy => bids b | Sell => asks b end.

Definition set_ladder (s : Side) (L : PriceLadder.PriceLadder) (b : OrderBook) : OrderBook :=
  match s with
  | Buy => mk (arena b) (pool b) L (asks b) (order_index b) (trade_out b) (policy b) (next_seq b)
  | Sell => mk (arena b) (pool b) (bids b) L (order_index b) (trade_out b) (policy b) (next_seq b)
  end.

Definition set_pool (p : SlotPool.SlotPool RestingOrder) (b : OrderBook) : OrderBook :=
  mk (arena b) p (bids b) (asks b) (order_index b) (trade_out b) (policy b) (next_seq b).

Definition set_index (t : IdIndex.IdIndex Z) (b : OrderBook) : OrderBook :=
  mk (arena b) (pool b) (bids b) (asks b) t (trade_out b) (policy b) (next_seq b).

Definition set_trades (r : TradeRing.TradeRing) (b : OrderBook) : OrderBook :=
  mk (arena b) (pool b) (bids b) (asks b) (order_index b) r (policy b) (next_seq b).

Definition set_seq (n : Sequence) (b : OrderBook) : OrderBook :=
  mk (arena b) (pool b) (bids b) (asks b) (order_index b) (trade_out b) (policy b) n.

(** ** Construction *)

Definition kDefaultPoolSlots : Z := 1024.

(** [make_arena]: whether the book gets an arena. *)
Definition make_arena (cfg : Config) : bool := negb (kAsan || negb (pool_nodes cfg)).

(** [centred_base(price, levels)]. *)
Definition centred_base (price : Price) (levels : Z) : Price :=
  if levels =? 0 then price
  else
    let half := levels / 2 in
    let highest := u64 (kMaxPrice - u64 (levels - 1)) in
    Z.min (if half <=? price then u64 (price - half) else 0) highest.

Definition make (cfg : Config) : res OrderBook :=
  let n := if 0 <? expected_orders cfg then expected_orders cfg else kDefaultPoolSlots in
  let p := SlotPool.make n in
  let L := PriceLadder.make (price_levels cfg) in
  t ← IdIndex.make 0 n;
  r ← TradeRing.make (trade_capacity cfg);
  let place L := match price_base cfg with Some base => PriceLadder.place L base | None => L end in
  Ok (mk (make_arena cfg) p (place L) (place L) t r (self_trade cfg) 1).

Definition place_windows (b : OrderBook) (price : Price) : OrderBook :=
  let base := centred_base price (PriceLadder.capacity (bids b)) in
  set_ladder Sell (PriceLadder.place (asks b) base) (set_ladder Buy (PriceLadder.place (bids b) base) b).

(** ** Index entries *)

Definition index_value (slot : SlotIndex) (side : Side) : Z :=
  Z.lor (u32 (Z.shiftl slot 1)) (match side with Sell => 1 | Buy => 0 end).

Definition slot_of (value : Z) : SlotIndex := Z.shiftr value 1.

Definition side_of (value : Z) : Side := if Z.land value 1 =? 0 then Buy else Sell.

(** ** Matching *)

(** What [match] changes: the book, the incoming order and the report. *)
Definition matching : Type := OrderBook * Order * ExecReport.

(** [order_index.erase(resting.id); detach(level, slot)] on the level [r] of
    side [s]. *)
Definition unlink (s : Side) (b : OrderBook) (r : PriceLadder.LevelRef) (level : PriceLevel)
    (slot : SlotIndex) (id : OrderId) : res OrderBook :=
  '(_, t) ← IdIndex.erase (order_index b) id;
  '(p, level) ← Queue.detach (pool b) level slot;
  L ← PriceLadder.assign (is_bid s) (ladder s b) r level;
  Ok (set_ladder s L (set_pool p (set_index t b))).

(** One fill against the order [resting] in [slot], the head of the level. *)
Definition fill (s : Side) (b : OrderBook) (r : PriceLadder.LevelRef) (level : PriceLevel)
    (level_price : Price) (slot : SlotIndex) (resting : RestingOrder) (incoming : Order)
    (rep : ExecReport) : res matching :=
  let traded := Z.min (o_qty incoming) (r_qty resting) in
  let incoming := o_with_qty incoming (u32 (o_qty incoming - traded)) in
  let resting := r_with_qty resting (u32 (r_qty resting - traded)) in
  p ← Queue.modify_slot (pool b) slot (λ n, Queue.with_value n resting);
  let level := level_with_total level (u64 (total_qty level - traded)) in
  L ← PriceLadder.assign (is_bid s) (ladder s b) r level;
  let t := MkTrade (next_seq b) (r_id resting) (o_id incoming) level_price traded (o_side incoming) in
  let rep := rep_fill rep (next_seq b) traded in
  '(_, ring) ← TradeRing.push (trade_out b) t;
  let b := set_trades ring (set_seq (u64 (next_seq b + 1)) (set_ladder s L (set_pool p b))) in
  b ← (if r_qty resting =? 0 then unlink s b r level slot (r_id resting) else Ok b);
  Ok (b, incoming, rep).

(** The inner loop of [match]: the queue of one level, oldest first. [s] is the
    opposite side; each round takes an order off the level or ends the loop. *)
Fixpoint match_level (fuel : nat) (s : Side) (b : OrderBook) (r : PriceLadder.LevelRef)
    (level_price : Price) (incoming : Order) (rep : ExecReport) : res matching :=
  match fuel with
  | O => Err out_of_fuel
  | S fuel =>
      level ← PriceLadder.deref (ladder s b) r;
      if negb ((0 <? o_qty incoming) && negb (level_empty level)) then Ok (b, incoming, rep)
      else
        let slot := level_head level in
        n ← SlotPool.at_ (pool b) slot;
        let resting := SlotPool.value n in
        if stp_possible (policy b) (o_owner incoming) && (o_owner incoming =? r_owner resting) then
          if policy_eqb (policy b) CancelIncoming then Ok (b, incoming, rep_halt rep)
          else
            let rep := rep_stp_cancel rep (r_qty resting) in
            b ← unlink s b r level slot (r_id resting);
            match_level fuel s b r level_price incoming rep
        else
          '(b, incoming, rep) ← fill s b r level level_price slot resting incoming rep;
          match_level fuel s b r level_price incoming rep
  end.

(** An upper bound on the rounds either loop can make: every round but the last
    takes a resting order off the book. *)
Definition rounds (b : OrderBook) : nat := S (Z.to_nat (SlotPool.size (pool b))).

(** The outer loop: levels best price first, until [incoming] is exhausted or
    the next level does not cross the limit. *)
Fixpoint match_loop (fuel : nat) (s : Side) (b : OrderBook) (incoming : Order)
    (limit : option Price) (rep : ExecReport) : res matching :=
  match fuel with
  | O => Err out_of_fuel
  | S fuel =>
      if negb (0 <? o_qty incoming) then Ok (b, incoming, rep)
      else
        match PriceLadder.best (is_bid s) (ladder s b) with
        | None => Ok (b, incoming, rep)
        | Some (r, level_price) =>
            if negb (crosses (o_side incoming) limit level_price) then Ok (b, incoming, rep)
            else
              '(b, incoming, rep) ← match_level (rounds b) s b r level_price incoming rep;
              level ← PriceLadder.deref (ladder s b) r;
              L ← (if level_empty level then PriceLadder.closed (is_bid s) (ladder s b) level_price
                   else Ok (ladder s b));
              let b := set_ladder s L b in
              if stp_halted rep then Ok (b, incoming, rep)
              else match_loop fuel s b incoming limit rep
        end
  end.

(** [match(opposite, incoming, limit, rep)]. *)
Definition match_ (s : Side) (b : OrderBook) (incoming : Order) (limit : option Price)
    (rep : ExecReport) : res matching :=
  match_loop (rounds b) s b incoming limit rep.

(** ** Resting and removing *)

(** [insert(book, order)]. *)
Definition insert (s : Side) (b : OrderBook) (order : Order) : res OrderBook :=
  let b := if negb (PriceLadder.is_placed (ladder s b)) then place_windows b (o_price order) else b in
  '(r, L) ← PriceLadder.open (is_bid s) (ladder s b) (o_price order);
  '(slot, p) ← SlotPool.acquire (pool b);
  if two31 <=? slot then Err length_error
  else
    p ← Queue.modify_slot p slot (λ n, Queue.with_value n (resting_of order));
    level ← PriceLadder.deref L r;
    '(p, level) ← Queue.append p level slot;
    L ← PriceLadder.assign (is_bid s) L r level;
    t ← IdIndex.insert 0 (order_index b) (o_id order) (index_value slot (o_side order));
    Ok (set_index t (set_pool p (set_ladder s L b))).

(** [remove(book, slot)]. A missing level fails the [assert] of a debug build
    and is a null dereference otherwise. *)
Definition remove (s : Side) (b : OrderBook) (slot : SlotIndex) : res OrderBook :=
  n ← SlotPool.at_ (pool b) slot;
  let price := r_price (SlotPool.value n) in
  o ← PriceLadder.find (ladder s b) price;
  match o with
  | None => Err (if NDEBUG then undefined_behaviour else assertion_failed)
  | Some r =>
      level ← PriceLadder.deref (ladder s b) r;
      '(p, level) ← Queue.detach (pool b) level slot;
      L ← PriceLadder.assign (is_bid s) (ladder s b) r level;
      L ← (if level_empty level then PriceLadder.closed (is_bid s) L price else Ok L);
      Ok (set_ladder s L (set_pool p b))
  end.

(** ** The debug checks *)

(** The queue walk of [check_side]: the last slot, the sum and the count. *)
Fixpoint check_queue (fuel : nat) (b : OrderBook) (side : Side) (price : Price)
    (i prev : SlotIndex) (sum in_queue : Z) : res (SlotIndex * Z * Z) :=
  match fuel with
  | O => Err out_of_fuel
  | S fuel =>
      if i =? kNoSlot then Ok (prev, sum, in_queue)
      else
        n ← SlotPool.at_ (pool b) i;
        let o := SlotPool.value n in
        _ ← assert_that (SlotPool.prev n =? prev);
        _ ← assert_that (r_price o =? price);
        _ ← assert_that (0 <? r_qty o);
        indexed ← IdIndex.find (order_index b) (r_id o);
        match indexed with
        | None => Err assertion_failed
        | Some value =>
            _ ← assert_that (slot_of value =? i);
            _ ← assert_that (side_eqb (side_of value) side);
            check_queue fuel b side price (SlotPool.next n) i (u64 (sum + r_qty o)) (u64 (in_queue + 1))
        end
  end.

Fixpoint check_levels (b : OrderBook) (side : Side) (ls : list (Price * PriceLevel))
    (counted : Z) : res Z :=
  match ls with
  | [] => Ok counted
  | (price, level) :: ls =>
      _ ← assert_that (negb (level_empty level));
      '(prev, sum, in_queue) ←
        check_queue (rounds b) b side price (level_head level) kNoSlot 0 0;
      _ ← assert_that (prev =? level_tail level);
      _ ← assert_that (sum =? total_qty level);
      _ ← assert_that (0 <? total_qty level);
      check_levels b side ls (u64 (counted + in_queue))
  end.

Definition check_side (b : OrderBook) (side : Side) (counted : Z) : res Z :=
  _ ← PriceLadder.check (is_bid side) (ladder side b);
  ls ← PriceLadder.for_each_level (is_bid side) (ladder side b);
  check_levels b side ls counted.

Definition check_invariants (b : OrderBook) : res unit :=
  if NDEBUG then Ok ()
  else
    counted ← check_side b Buy 0;
    counted ← check_side b Sell counted;
    _ ← assert_that (counted =? IdIndex.size (order_index b));
    _ ← assert_that (SlotPool.size (pool b) =? counted);
    ok ← SlotPool.consistent (pool b);
    _ ← assert_that ok;
    ok ← IdIndex.consistent (order_index b);
    _ ← assert_that ok;
    match PriceLadder.best_price true (bids b), PriceLadder.best_price false (asks b) with
    | Some bid, Some ask => assert_that (bid <? ask)
    | _, _ => Ok ()
    end.

(** ** The interface *)

Definition submit (b : OrderBook) (id : OrderId) (owner : ParticipantId) (side : Side)
    (limit : option Price) (qty : Quantity) (rest_leftover : bool) : res (OrderBook * ExecReport) :=
  let rep := ExecReport0 in
  dup ← (if qty =? 0 then Ok true else IdIndex.contains (order_index b) id);
  if dup : bool then Ok (b, rep_reject qty)
  else
    let incoming := MkOrder id owner (default 0 limit) qty side in
    '(b, incoming, rep) ← match_ (opposite side) b incoming limit rep;
    let rep := rep_with_remaining rep (o_qty incoming) in
    '(b, rep) ← (if rest_leftover && (0 <? o_qty incoming) && negb (stp_halted rep)
      then b ← insert side b incoming; Ok (b, rep_rested rep)
      else Ok (b, rep));
    _ ← check_invariants b;
    Ok (b, rep).

Definition add_limit (b : OrderBook) (id : OrderId) (owner : ParticipantId) (side : Side)
    (price : Price) (qty : Quantity) : res (OrderBook * ExecReport) :=
  submit b id owner side (Some price) qty true.

Definition add_market (b : OrderBook) (id : OrderId) (owner : ParticipantId) (side : Side)
    (qty : Quantity) : res (OrderBook * ExecReport) :=
  submit b id owner side None qty false.

(** The overloads without an owner. *)
Definition add_limit_anonymous (b : OrderBook) (id : OrderId) (side : Side) (price : Price)
    (qty : Quantity) : res (OrderBook * ExecReport) :=
  submit b id kAnonymous side (Some price) qty true.

Definition add_market_anonymous (b : OrderBook) (id : OrderId) (side : Side) (qty : Quantity) :
    res (OrderBook * ExecReport) :=
  submit b id kAnonymous side None qty false.

Definition cancel (b : OrderBook) (id : OrderId) : res (OrderBook * bool) :=
  '(entry, t) ← IdIndex.take (order_index b) id;
  match entry with
  | None => Ok (set_index t b, false)
  | Some entry =>
      b ← remove (side_of entry) (set_index t b) (slot_of entry);
      _ ← check_invariants b;
      Ok (b, true)
  end.

Definition modify (b : OrderBook) (id : OrderId) (new_price : Price) (new_qty : Quantity) :
    res (OrderBook * ExecReport) :=
  entry ← IdIndex.find (order_index b) id;
  match entry with
  | None => Ok (b, rep_reject new_qty)
  | Some entry =>
      let side := side_of entry in
      n ← SlotPool.at_ (pool b) (slot_of entry);
      let owner := r_owner (SlotPool.value n) in
      '(b, _) ← cancel b id;
      if new_qty =? 0 then Ok (b, ExecReport0)
      else add_limit b id owner side new_price new_qty
  end.

(** [drain_trades(on_trade)]: the trades the callback sees, in order; their
    number is the value returned. *)
Definition drain_trades (b : OrderBook) : res (list Trade * OrderBook) :=
  '(ts, r) ← TradeRing.drain (trade_out b);
  Ok (ts, set_trades r b).

(** ** Queries *)

Definition best_bid (b : OrderBook) : option Price := PriceLadder.best_price true (bids b).
Definition best_ask (b : OrderBook) : option Price := PriceLadder.best_price false (asks b).

Definition level_at (b : OrderBook) (side : Side) (price : Price) : res (option PriceLevel) :=
  o ← PriceLadder.find (ladder side b) price;
  match o with
  | None => Ok None
  | Some r => level ← PriceLadder.deref (ladder side b) r; Ok (Some level)
  end.

Definition qty_at (b : OrderBook) (side : Side) (price : Price) : res Volume :=
  level ← level_at b side price;
  Ok (match level with Some level => total_qty level | None => 0 end).

Definition order_count_at (b : OrderBook) (side : Side) (price : Price) : res Z :=
  level ← level_at b side price;
  match level with
  | None => Ok 0
  | Some level => q ← Queue.walk (rounds b) (pool b) (level_head level); Ok (u64 (zlen q))
  end.

Definition find (b : OrderBook) (id : OrderId) : res (option Order) :=
  entry ← IdIndex.find (order_index b) id;
  match entry with
  | None => Ok None
  | Some entry =>
      n ← SlotPool.at_ (pool b) (slot_of entry);
      Ok (Some (order_of (side_of entry) (SlotPool.value n)))
  end.

(** One side of [for_each_resting]: the orders its closure visits. *)
Fixpoint visit_levels (b : OrderBook) (side : Side) (ls : list (Price * PriceLevel)) :
    res (list Order) :=
  match ls with
  | [] => Ok []
  | (_, level) :: ls =>
      q ← Queue.walk (rounds b) (pool b) (level_head level);
      rest ← visit_levels b side ls;
      Ok (((λ n, order_of side n.2) <$> q) ++ rest)
  end.

Definition for_each_resting (b : OrderBook) : res (list Order) :=
  bs ← PriceLadder.for_each_level true (bids b);
  bs ← visit_levels b Buy bs;
  ks ← PriceLadder.for_each_level false (asks b);
  ks ← visit_levels b Sell ks;
  Ok (bs ++ ks).

Definition size (b : OrderBook) : Z := IdIndex.size (order_index b).
Definition empty (b : OrderBook) : bool := IdIndex.size (order_index b) =? 0.
Definition self_trade_policy (b : OrderBook) : SelfTradePolicy := policy b.

Definition price_window_base (b : OrderBook) : option Price :=
  if PriceLadder.is_placed (bids b) then Some (PriceLadder.lo (bids b)) else None.
Definition price_window_levels (b : OrderBook) : Z := PriceLadder.span (bids b).
Definition levels_opened_outside_window (b : OrderBook) : Z :=
  u64 (PriceLadder.opened_outside (bids b) + PriceLadder.opened_outside (asks b)).
Definition pools_nodes (b : OrderBook) : bool := arena b.
Definition order_pool_capacity (b : OrderBook) : Z := SlotPool.capacity (pool b).
Definition order_pool_growths (b : OrderBook) : Z := SlotPool.growths (pool b).
Definition id_index_growths (b : OrderBook) : Z := IdIndex.growths (order_index b).

End book.
End OrderBook.
