(* ===== verification/Inv.v ===== *)
(** * The invariant of the engine

    [core] ties the slot pool and the id index to the list of resting orders:
    their slots and the free list are exactly the slots ever used, and the index
    maps each order's id to its slot and side. [side_repr] ties the levels of a
    ladder to their queues. [inv] is both for a whole book, and [abs] is the
    abstract book it stands for. *)

From stdpp Require Import base decidable list gmap fin_maps sets.
From S2P Require Import Prelude.
From S2P Require Import Types.
From S2P Require Import Ring.
From S2P Require Import Pool.
From S2P Require Import Index.
From S2P Require Import SortedMap.
From S2P Require Import Ladder.
From S2P Require Import Queue.
From S2P Require Import Spec.
From S2P Require Import Book.

Module BookInv.

(** A queued order with its slot; a side's queues, best price first. *)
Abbreviation node := (SlotIndex * RestingOrder)%type.
Abbreviation queues := (list (Price * list node)).
Abbreviation slot_pool := (SlotPool.SlotPool RestingOrder).

Definition nodes (Q : queues) : list node := concat (snd <$> Q).
Definition orders (Q : queues) : list RestingOrder := snd <$> nodes Q.

Definition tag (s : Side) (q : list node) : list (Side * node) := pair s <$> q.

Definition slot_in (x : Side * node) : SlotIndex := x.2.1.
Definition id_in (x : Side * node) : OrderId := r_id x.2.2.
Definition entry_of (x : Side * node) : Z * Z := (id_in x, OrderBook.index_value (slot_in x) x.1).

(** ** Index entries round-trip *)

Lemma index_value_eq i s : 0 ≤ i < two31 → OrderBook.index_value i s = 2 * i + (match s with Buy => 0 | Sell => 1 end).
Proof.
  intros Hi. unfold OrderBook.index_value. rewrite Z.shiftl_mul_pow2 by lia. change (2 ^ 1) with 2.
  rewrite u32_small by lia. destruct s; [rewrite Z.lor_0_r; lia|].
  assert (Z.land (i * 2) 1 = 0) as Hl.
  { change 1 with (2 ^ 1 - 1). rewrite land_pow2_mask by lia. change (2 ^ 1) with 2. by rewrite Z.mod_mul. }
  pose proof (Z.add_lor_land (i * 2) 1). lia.
Qed.

Lemma slot_of_value i s : 0 ≤ i < two31 → OrderBook.slot_of (OrderBook.index_value i s) = i.
Proof.
  intros Hi. rewrite index_value_eq by done. unfold OrderBook.slot_of. rewrite Z.shiftr_div_pow2 by lia.
  change (2 ^ 1) with 2. destruct s; Z.div_mod_to_equations; lia.
Qed.

Lemma side_of_value i s : 0 ≤ i < two31 → OrderBook.side_of (OrderBook.index_value i s) = s.
Proof.
  intros Hi. rewrite index_value_eq by done. unfold OrderBook.side_of.
  change 1 with (2 ^ 1 - 1) at 2. rewrite land_pow2_mask by lia. change (2 ^ 1) with 2.
  destruct s; [destruct (Z.eqb_spec ((2 * i + 0) mod 2) 0)|destruct (Z.eqb_spec ((2 * i + 1) mod 2) 0)];
    try done; Z.div_mod_to_equations; lia.
Qed.

(** ** Pool, index and the resting orders *)

Record core (p : slot_pool) (t : IdIndex.IdIndex Z) (fl : list SlotIndex) (all : list (Side * node)) : Prop := {
  c_pool : SlotPool.wf p fl;
  c_room : 0 < zlen (SlotPool.slots p);
  c_used : SlotPool.used p ≤ two31;
  c_slots : (slot_in <$> all) ++ fl ≡ₚ seqZ 0 (SlotPool.used p);
  c_index : IdIndex.wf t;
  c_contents : IdIndex.contents t = list_to_map (entry_of <$> all);
  c_ids : NoDup (id_in <$> all);
}.

Lemma entry_of_fst all : (entry_of <$> all).*1 = id_in <$> all.
Proof. by rewrite <-list_fmap_compose. Qed.

#[global] Instance core_proper p t fl : Proper ((≡ₚ) ==> iff) (core p t fl).
Proof.
  assert (∀ l l', l ≡ₚ l' → core p t fl l → core p t fl l') as Himp.
  { intros l l' Hl [? ? ? Hs ? Hc Hi]. split; try done.
    - by rewrite <-Hl.
    - rewrite Hc. apply list_to_map_proper; [by rewrite entry_of_fst|]. by rewrite Hl.
    - by rewrite <-Hl. }
  intros l l' Hl. split; by apply Himp.
Qed.

Section core.
Context {p : slot_pool} {t : IdIndex.IdIndex Z} {fl : list SlotIndex}.

Lemma core_nodup all : core p t fl all → NoDup (slot_in <$> all) ∧
  ∀ i, i ∈ fl → i ∉ slot_in <$> all.
Proof.
  intros Hc. assert (NoDup ((slot_in <$> all) ++ fl)) as Hn by (rewrite (c_slots _ _ _ _ Hc); apply NoDup_seqZ).
  apply NoDup_app in Hn as (? & Hd & _). split; [done|]. intros i Hi Hin. by eapply Hd.
Qed.

Lemma core_live all s i r : core p t fl all → (s, (i, r)) ∈ all →
  SlotPool.is_live p fl i ∧ 0 ≤ i < two31 ∧ i ≠ kNoSlot.
Proof.
  intros Hc Hin. destruct (core_nodup _ Hc) as [_ Hd].
  assert (Hi : i ∈ slot_in <$> all) by (apply list_elem_of_fmap; by exists (s, (i, r))).
  assert (Hu : i ∈ seqZ 0 (SlotPool.used p)) by (rewrite <-(c_slots _ _ _ _ Hc); apply elem_of_app; by left).
  apply elem_of_seqZ in Hu. pose proof (c_used _ _ _ _ Hc). split_and!; [split; [lia|]|lia..|bounds].
  intros Hf. by eapply Hd.
Qed.

Lemma core_length all : core p t fl all → SlotPool.live p = zlen all.
Proof.
  intros Hc. pose proof (Permutation_length (c_slots _ _ _ _ Hc)) as Hl.
  rewrite length_app, length_fmap, length_seqZ in Hl.
  pose proof (SlotPool.wf_live _ _ (c_pool _ _ _ _ Hc)). pose proof (SlotPool.wf_used _ _ (c_pool _ _ _ _ Hc)).
  unfold zlen in *. lia.
Qed.

Lemma core_count all : core p t fl all → IdIndex.count t = zlen all.
Proof.
  intros Hc. pose proof (c_index _ _ _ _ Hc) as Hwf. rewrite (IdIndex.wf_count _ Hwf).
  pose proof (f_equal (length ∘ map_to_list) (c_contents _ _ _ _ Hc)) as Hs. unfold IdIndex.contents in Hs. simpl in Hs.
  rewrite !map_to_list_to_map in Hs; [|by rewrite entry_of_fst; apply Hc|apply Hwf].
  rewrite length_fmap in Hs. unfold zlen. lia.
Qed.

Lemma core_lookup all s i r : core p t fl all → (s, (i, r)) ∈ all →
  IdIndex.contents t !! r_id r = Some (OrderBook.index_value i s).
Proof.
  intros Hc Hin. rewrite (c_contents _ _ _ _ Hc). apply elem_of_list_to_map.
  - rewrite entry_of_fst. apply Hc.
  - apply list_elem_of_fmap. by exists (s, (i, r)).
Qed.

Lemma core_lookup_inv all id v : core p t fl all → IdIndex.contents t !! id = Some v →
  ∃ s i r, (s, (i, r)) ∈ all ∧ r_id r = id ∧ v = OrderBook.index_value i s.
Proof.
  intros Hc. rewrite (c_contents _ _ _ _ Hc). intros Hv%elem_of_list_to_map_2.
  apply list_elem_of_fmap in Hv as ([s [i r]] & [= -> ->] & Hin). by exists s, i, r.
Qed.

Lemma core_lookup_None all id : core p t fl all →
  IdIndex.contents t !! id = None ↔ id ∉ id_in <$> all.
Proof.
  intros Hc. rewrite (c_contents _ _ _ _ Hc), <-entry_of_fst. split; [apply not_elem_of_list_to_map_2|apply not_elem_of_list_to_map_1].
Qed.

End core.

(** *** How the operations move it *)

(** An order leaves: its slot is freed and its index entry taken out. *)
Lemma core_unlink p t fl s i r all p' t' : core p t fl ((s, (i, r)) :: all) →
  SlotPool.wf p' (i :: fl) → SlotPool.used p' = SlotPool.used p → zlen (SlotPool.slots p') = zlen (SlotPool.slots p) →
  IdIndex.wf t' → IdIndex.contents t' = delete (r_id r) (IdIndex.contents t) →
  core p' t' (i :: fl) all.
Proof.
  intros [? ? ? Hs ? Hc Hi] Hp' Hu Hz Ht' Hct. simpl in Hi. apply NoDup_cons in Hi as [Hni Hi].
  split; rewrite ?Hu, ?Hz; try done.
  - rewrite <-Hs. simpl. by rewrite <-Permutation_middle.
  - rewrite Hct, Hc. simpl. rewrite delete_insert_id; [done|].
    apply not_elem_of_list_to_map_1. by rewrite entry_of_fst.
Qed.

(** An order's record is overwritten. *)
Lemma core_same p t fl s i r r' all p' : core p t fl ((s, (i, r)) :: all) → Queue.same_pool p p' →
  (∀ j, j ≠ i → (SlotPool.slots p').[j] = (SlotPool.slots p).[j]) → r_id r' = r_id r →
  core p' t fl ((s, (i, r')) :: all).
Proof.
  intros Hcore Hsame Hfr Hid. destruct (core_live _ s i r Hcore ltac:(left)) as ([_ Hni] & _ & _).
  destruct Hcore as [? ? ? Hs ? Hc Hi]. pose proof Hsame as (Hu & _ & _ & Hz).
  split; rewrite ?Hu, ?Hz; try done.
  - eapply Queue.same_pool_wf; [done| |done]. intros j Hj. apply Hfr. congruence.
  - rewrite Hc. unfold entry_of, id_in, slot_in. simpl. by rewrite Hid.
  - unfold id_in in *. simpl in *. by rewrite Hid.
Qed.

Lemma core_frame p t fl all p' : core p t fl all → Queue.same_pool p p' →
  (∀ j, j ∈ fl → (SlotPool.slots p').[j] = (SlotPool.slots p).[j]) → core p' t fl all.
Proof.
  intros [? ? ? Hs ? Hc Hi] Hsame Hfr. pose proof Hsame as (Hu & _ & _ & Hz).
  split; rewrite ?Hu, ?Hz; try done. by eapply Queue.same_pool_wf.
Qed.

(** An order arrives in the slot [acquire] hands out. *)
Lemma core_arrive p t fl all s r p' t' : core p t fl all → SlotPool.wf p' (tail fl) →
  SlotPool.used p' = SlotPool.used_after p fl → zlen (SlotPool.slots p) ≤ zlen (SlotPool.slots p') →
  SlotPool.next_slot p fl < two31 → r_id r ∉ id_in <$> all → IdIndex.wf t' →
  IdIndex.contents t' = <[r_id r := OrderBook.index_value (SlotPool.next_slot p fl) s]> (IdIndex.contents t) →
  core p' t' (tail fl) ((s, (SlotPool.next_slot p fl, r)) :: all).
Proof.
  intros Hcore Hp' Hu Hz Hn Hid Ht' Hct. pose proof (SlotPool.wf_used _ _ (c_pool _ _ _ _ Hcore)).
  destruct Hcore as [? ? ? Hs ? Hc Hi].
  split; rewrite ?Hu; try done; try lia.
  - unfold SlotPool.used_after. destruct fl; simpl in *; lia.
  - unfold SlotPool.used_after, SlotPool.next_slot in *. destruct fl as [|x fl]; simpl in *.
    + rewrite app_nil_r in *. rewrite Hs, seqZ_app by lia. unfold slot_in at 1. simpl.
      assert (seqZ (0 + SlotPool.used p) 1 = [SlotPool.used p]) as -> by done.
      by rewrite Permutation_app_comm.
    + rewrite <-Hs. unfold slot_in at 1. simpl. by rewrite Permutation_middle.
  - rewrite Hct, Hc. done.
  - simpl. by apply NoDup_cons.
Qed.

(** ** Levels and their queues *)

Definition side_repr (v : list (SlotPool.Slot RestingOrder)) (ls : list (Price * PriceLevel)) (Q : queues) : Prop :=
  Forall2 (λ x y, x.1 = y.1 ∧ y.2 ≠ [] ∧ Queue.level_repr v x.1 x.2 y.2) ls Q.

Lemma side_repr_frame v v' ls Q : (∀ i, i ∈ (nodes Q).*1 → v'.[i] = v.[i]) →
  side_repr v ls Q → side_repr v' ls Q.
Proof.
  intros Hf HQ. induction HQ as [|[p l] [p' q] ls Q (E & Hq & Hl) HQ IH]; [constructor|].
  unfold nodes in Hf. simpl in Hf. rewrite fmap_app in Hf.
  constructor; [|apply IH; intros i Hi; apply Hf, elem_of_app; by right].
  split_and!; [done..|]. eapply Queue.level_repr_frame; [|done]. intros i Hi. apply Hf, elem_of_app. by left.
Qed.

Lemma side_repr_find v ls Q p l : side_repr v ls Q → (p, l) ∈ ls → ∃ Q1 q Q2,
  Q = Q1 ++ (p, q) :: Q2 ∧ q ≠ [] ∧ Queue.level_repr v p l q.
Proof.
  induction 1 as [|[p1 l1] [p2 q] ls Q (E & Hq & Hl) HQ IH]; [by intros ?%elem_of_nil|].
  simpl in *. subst p2. intros [[= -> ->]|Hin]%elem_of_cons; [by exists [], q, Q|].
  destruct (IH Hin) as (Q1 & q' & Q2 & -> & ? & ?). exists ((p1, q) :: Q1), q', Q2. done.
Qed.

Lemma side_repr_split v ls Q1 p q Q2 : side_repr v ls (Q1 ++ (p, q) :: Q2) → ∃ ls1 l ls2,
  ls = ls1 ++ (p, l) :: ls2 ∧ side_repr v ls1 Q1 ∧ q ≠ [] ∧ Queue.level_repr v p l q ∧ side_repr v ls2 Q2.
Proof.
  intros (ls1 & ls' & H1 & H2 & ->)%Forall2_app_inv_r. inversion_clear H2 as [|[p' l] ? ls2 ? (E & Hq & Hl) H2'].
  simpl in *. subst p'. by exists ls1, l, ls2.
Qed.

Lemma side_repr_keys v ls Q : side_repr v ls Q → Q.*1 = ls.*1.
Proof. induction 1 as [|x y ls Q (E & _) HQ IH]; [done|]. csimpl. by rewrite IH, E. Qed.

Lemma nodes_app Q1 Q2 : nodes (Q1 ++ Q2) = nodes Q1 ++ nodes Q2.
Proof. unfold nodes. by rewrite fmap_app, concat_app. Qed.

Lemma nodes_cons p q Q : nodes ((p, q) :: Q) = q ++ nodes Q.
Proof. done. Qed.

Lemma elem_of_nodes n Q : n ∈ nodes Q ↔ ∃ p q, (p, q) ∈ Q ∧ n ∈ q.
Proof.
  induction Q as [|[p q] Q IH]; [split; [by intros ?%elem_of_nil|by intros (? & ? & ?%elem_of_nil & _)]|].
  rewrite nodes_cons, elem_of_app, IH. split.
  - intros [Hn|(p' & q' & Hq & Hn)]; [exists p, q|exists p', q']; rewrite elem_of_cons; auto.
  - intros (p' & q' & [[= -> ->]|Hq]%elem_of_cons & Hn); [by left|right; by exists p', q'].
Qed.

Lemma orders_app Q1 Q2 : orders (Q1 ++ Q2) = orders Q1 ++ orders Q2.
Proof. unfold orders. by rewrite nodes_app, fmap_app. Qed.

Lemma orders_cons p q Q : orders ((p, q) :: Q) = q.*2 ++ orders Q.
Proof. unfold orders. by rewrite nodes_cons, fmap_app. Qed.

Lemma side_repr_orders v ls Q : side_repr v ls Q → ∀ p q, (p, q) ∈ Q → ∀ n, n ∈ q → r_price n.2 = p.
Proof.
  induction 1 as [|[p1 l1] [p2 q] ls Q (E & Hq & Hl) HQ IH]; intros p q'; [by intros ?%elem_of_nil|].
  simpl in *. subst p2. intros [[= -> ->]|Hin]%elem_of_cons; [apply Hl|by apply IH].
Qed.

(** ** The whole book *)

Section inv.
Context {build : Build}.

(** A ladder whose window is not placed holds nothing yet. *)
Definition unplaced_empty (L : PriceLadder.PriceLadder) : Prop :=
  PriceLadder.is_placed L = false →
  PriceLadder.window L = vmake (zlen (PriceLadder.window L)) empty_level ∧ PriceLadder.overflow L = [].

Record inv (b : OrderBook.OrderBook) (Q : Side → queues) (fl : list SlotIndex) : Prop := {
  i_core : core (OrderBook.pool b) (OrderBook.order_index b) fl
    (tag Buy (nodes (Q Buy)) ++ tag Sell (nodes (Q Sell)));
  i_ladder : ∀ s, PriceLadder.wf (is_bid s) (OrderBook.ladder s b);
  i_side : ∀ s, side_repr (SlotPool.slots (OrderBook.pool b))
    (PriceLadder.levels (is_bid s) (OrderBook.ladder s b)) (Q s);
  i_placed : PriceLadder.is_placed (OrderBook.asks b) = PriceLadder.is_placed (OrderBook.bids b);
  i_unplaced : ∀ s, unplaced_empty (OrderBook.ladder s b);
  i_ring : TradeRing.wf (OrderBook.trade_out b);
  i_seq : 0 ≤ OrderBook.next_seq b < two64;
}.

Definition abs (b : OrderBook.OrderBook) (Q : Side → queues) : Spec.Book :=
  Spec.MkBook (OrderBook.policy b) (orders (Q Buy)) (orders (Q Sell)) (OrderBook.next_seq b).

(** [b] is an engine state that stands for the abstract book [S] and the trade
    output [F]. *)
Definition repr (b : OrderBook.OrderBook) (S : Spec.Book) (F : TradeRing.Fifo) : Prop :=
  ∃ Q fl, inv b Q fl ∧ S = abs b Q ∧ Spec.wf S ∧ F = TradeRing.abs (OrderBook.trade_out b).

End inv.

End BookInv.
