(* ===== verification/Match.v ===== *)
(** * The matching loops refine [Spec.match_queue]

    During [match] one level of the opposite side is open: [focus] says what
    holds then. [match_level] walks that level's queue, [match_loop] the levels;
    together they do to the engine what [Spec.match_queue] does to the flat
    list, with fuel [rounds] to spare. *)

From stdpp Require Import base decidable list gmap fin_maps sets.
From S2P Require Import Prelude.
From S2P Require Import Types.
From S2P Require Import Ring.
From S2P Require Import Pool.
From S2P Require Import Index.
From S2P Require Import SortedMap.
From S2P Require Import Ladder.
From S2P Require Import Queue.
From S2P Require Import Spec.
From S2P Require Import Book.
From S2P Require Import Inv.
Import BookInv.

Module Matching.

Section matching.
Context {build : Build} (s : Side).
Abbreviation IB := (is_bid s).
Abbreviation op := (opposite s).
Abbreviation book := OrderBook.OrderBook.

(** What [match] never touches: the taker's side, the policy, the arena. *)
Definition same_rest (b b' : book) : Prop :=
  OrderBook.ladder op b' = OrderBook.ladder op b ∧ OrderBook.policy b' = OrderBook.policy b ∧
  OrderBook.arena b' = OrderBook.arena b.

Lemma same_rest_trans b1 b2 b3 : same_rest b1 b2 → same_rest b2 b3 → same_rest b1 b3.
Proof. unfold same_rest. intuition congruence. Qed.

Lemma ladder_set_ladder L (b : book) : OrderBook.ladder s (OrderBook.set_ladder s L b) = L.
Proof. by destruct s. Qed.

Lemma ladder_set_ladder_op L (b : book) :
  OrderBook.ladder op (OrderBook.set_ladder s L b) = OrderBook.ladder op b.
Proof. by destruct s. Qed.

Lemma set_ladder_rest L (b : book) : let b' := OrderBook.set_ladder s L b in
  OrderBook.arena b' = OrderBook.arena b ∧ OrderBook.pool b' = OrderBook.pool b ∧
  OrderBook.order_index b' = OrderBook.order_index b ∧ OrderBook.trade_out b' = OrderBook.trade_out b ∧
  OrderBook.policy b' = OrderBook.policy b ∧ OrderBook.next_seq b' = OrderBook.next_seq b.
Proof. by destruct s. Qed.

Lemma updated_book L p ring n (b : book) :
  let b' := OrderBook.set_trades ring (OrderBook.set_seq n (OrderBook.set_ladder s L (OrderBook.set_pool p b))) in
  OrderBook.ladder s b' = L ∧ OrderBook.pool b' = p ∧ OrderBook.order_index b' = OrderBook.order_index b ∧
  OrderBook.trade_out b' = ring ∧ OrderBook.next_seq b' = n ∧ same_rest b b'.
Proof. unfold same_rest. by destruct s. Qed.

Lemma slots_tag s' q : slot_in <$> tag s' q = q.*1.
Proof. unfold tag. by rewrite <-list_fmap_compose. Qed.

Lemma ids_tag s' q : id_in <$> tag s' q = r_id <$> q.*2.
Proof. unfold tag. by rewrite <-!list_fmap_compose. Qed.

Lemma tag_app s' q1 q2 : tag s' (q1 ++ q2) = tag s' q1 ++ tag s' q2.
Proof. apply fmap_app. Qed.

(** ** One open level *)

Section level.
Context (L0 : PriceLadder.PriceLadder) (p : Price) (l0 : PriceLevel) (rest0 : list (Price * PriceLevel)).
Context (Hwf0 : PriceLadder.wf IB L0) (Hlv : PriceLadder.levels IB L0 = (p, l0) :: rest0).

Record focus (b : book) (l : PriceLevel) (q : list node) (Qs Qo : queues) (fl : list SlotIndex) : Prop := {
  fo_ladder : OrderBook.ladder s b = PriceLadder.upd IB L0 p l;
  fo_level : Queue.level_repr (SlotPool.slots (OrderBook.pool b)) p l q;
  fo_rest : side_repr (SlotPool.slots (OrderBook.pool b)) rest0 Qs;
  fo_other : side_repr (SlotPool.slots (OrderBook.pool b)) (PriceLadder.levels (is_bid op) (OrderBook.ladder op b)) Qo;
  fo_core : core (OrderBook.pool b) (OrderBook.order_index b) fl
    (tag s q ++ tag s (nodes Qs) ++ tag op (nodes Qo));
  fo_ring : TradeRing.wf (OrderBook.trade_out b);
  fo_seq : 0 ≤ OrderBook.next_seq b < two64;
}.

Lemma price_range : 0 ≤ p < two64.
Proof. eapply (PriceLadder.levels_range IB L0 p l0); [apply Hwf0|]. rewrite Hlv. left. Qed.

Lemma find_p : StdMap.find (PriceLadder.levels IB L0) p = Some l0.
Proof. rewrite Hlv. simpl. by rewrite Z.eqb_refl. Qed.

Lemma present_p : PriceLadder.present L0 p.
Proof. eapply (PriceLadder.levels_present IB); [apply Hwf0|apply price_range|apply find_p]. Qed.

Lemma repr_canonical v l q : Queue.level_repr v p l q → PriceLadder.canonical l.
Proof.
  intros Hl He. destruct (Queue.level_repr_empty_iff _ _ _ _ Hl) as [Hq _]. rewrite (Hq He) in Hl.
  by eapply Queue.level_repr_nil.
Qed.

Abbreviation ref := (PriceLadder.ref_of L0 p).

Lemma focus_deref b l q Qs Qo fl : focus b l q Qs Qo fl →
  PriceLadder.deref (OrderBook.ladder s b) ref = Ok l.
Proof.
  intros Hf. rewrite (fo_ladder _ _ _ _ _ _ Hf). apply PriceLadder.deref_upd;
    [apply Hwf0|apply price_range|apply present_p].
Qed.

Lemma focus_assign b l q Qs Qo fl l' : focus b l q Qs Qo fl →
  PriceLadder.assign IB (OrderBook.ladder s b) ref l' = Ok (PriceLadder.upd IB L0 p l').
Proof.
  intros Hf. rewrite (fo_ladder _ _ _ _ _ _ Hf). pose proof price_range. pose proof (PriceLadder.wf_shape _ _ Hwf0).
  rewrite <-(PriceLadder.ref_of_upd IB L0 p l).
  rewrite PriceLadder.assign_upd; [|by eapply PriceLadder.upd_shape, repr_canonical, fo_level|done|by apply PriceLadder.present_upd, present_p].
  by rewrite PriceLadder.upd_upd.
Qed.

Lemma focus_nodup b l q Qs Qo fl : focus b l q Qs Qo fl →
  NoDup q.*1 ∧ (∀ j, j ∈ q.*1 → j ∉ (nodes Qs).*1 ∧ j ∉ (nodes Qo).*1) ∧ (∀ j, j ∈ fl → j ∉ q.*1).
Proof.
  intros Hf. destruct (core_nodup _ (fo_core _ _ _ _ _ _ Hf)) as [Hn Hd].
  rewrite !fmap_app, !slots_tag in Hn, Hd. apply NoDup_app in Hn as (Hn & Hx & _).
  split_and!; [done| |].
  - intros j Hj. specialize (Hx j Hj). rewrite elem_of_app in Hx. tauto.
  - intros j Hj. specialize (Hd j Hj). rewrite elem_of_app in Hd. tauto.
Qed.

(** The other queues are out of reach of a change to this one. *)
Lemma focus_frame b l q Qs Qo fl v' : focus b l q Qs Qo fl →
  (∀ j, j ∉ q.*1 → v'.[j] = (SlotPool.slots (OrderBook.pool b)).[j]) →
  side_repr v' rest0 Qs ∧ side_repr v' (PriceLadder.levels (is_bid op) (OrderBook.ladder op b)) Qo.
Proof.
  intros Hf Hv. destruct (focus_nodup _ _ _ _ _ _ Hf) as (_ & Hd & _).
  split; eapply side_repr_frame; [|apply Hf| |apply Hf]; intros j Hj; apply Hv; intros Hq; by destruct (Hd j Hq).
Qed.

Lemma unlink_spec b l i r q Qs Qo fl : focus b l ((i, r) :: q) Qs Qo fl → ∃ b' l',
  OrderBook.unlink s b ref l i (r_id r) = Ok b' ∧ focus b' l' q Qs Qo (i :: fl) ∧ same_rest b b' ∧
  OrderBook.trade_out b' = OrderBook.trade_out b ∧ OrderBook.next_seq b' = OrderBook.next_seq b.
Proof.
  intros Hf. pose proof (fo_core _ _ _ _ _ _ Hf) as Hc. destruct (focus_nodup _ _ _ _ _ _ Hf) as (Hn & _ & Hd).
  unfold OrderBook.unlink.
  destruct (IdIndex.erase_spec (OrderBook.order_index b) (r_id r) (c_index _ _ _ _ Hc)) as (t' & -> & Ht' & Hct & _).
  destruct (core_live _ s i r Hc ltac:(left)) as (Hlive & _ & _). simpl.
  destruct (Queue.detach_spec (OrderBook.pool b) p l [] i r q fl) as (p' & l' & -> & Hl' & Hp' & Hu & _ & Hz & Hfr);
    [apply Hf|done|apply Hc|done|done|].
  simpl. rewrite (focus_assign _ _ _ _ _ _ l' Hf). simpl. eexists _, l'. split; [done|].
  set (b' := OrderBook.set_ladder _ _ _). destruct (focus_frame _ _ _ _ _ _ (SlotPool.slots p') Hf Hfr) as [Hs Ho].
  destruct (set_ladder_rest (PriceLadder.upd IB L0 p l') (OrderBook.set_pool p' (OrderBook.set_index t' b)))
    as (E1 & E2 & E3 & E4 & E5 & E6).
  assert (Eop : OrderBook.ladder op b' = OrderBook.ladder op b) by (unfold b'; by destruct s).
  split_and!; [split; unfold b'|split_and!; done|exact E4|exact E6].
  - by rewrite ladder_set_ladder.
  - by rewrite E2.
  - by rewrite E2.
  - fold b'. rewrite Eop. unfold b'. by rewrite E2.
  - rewrite E2, E3. simpl. eapply core_unlink; [exact Hc|done..].
  - rewrite E4. apply Hf.
  - rewrite E6. apply Hf.
Qed.

(** The fill without the removal of an exhausted maker. *)
Lemma fill_head_spec b l i r q Qs Qo fl n t tr : focus b l ((i, r) :: q) Qs Qo fl →
  (SlotPool.slots (OrderBook.pool b)).[i] = Some n →
  let r' := r_with_qty r (r_qty r - t) in
  let l' := level_with_total l (u64 (total_qty l - t)) in
  ∃ p' ring b', Queue.modify_slot (OrderBook.pool b) i (λ n, Queue.with_value n r') = Ok p' ∧
    TradeRing.push (OrderBook.trade_out b) tr = Ok (negb (TradeRing.full (OrderBook.trade_out b)), ring) ∧
    b' = OrderBook.set_trades ring (OrderBook.set_seq (u64 (OrderBook.next_seq b + 1))
      (OrderBook.set_ladder s (PriceLadder.upd IB L0 p l') (OrderBook.set_pool p' b))) ∧
    focus b' l' ((i, r') :: q) Qs Qo fl ∧ same_rest b b' ∧
    TradeRing.abs (OrderBook.trade_out b') = TradeRing.fifo_push (TradeRing.abs (OrderBook.trade_out b)) tr ∧
    OrderBook.next_seq b' = u64 (OrderBook.next_seq b + 1).
Proof.
  intros Hf Hn r' l'. destruct (focus_nodup _ _ _ _ _ _ Hf) as (Hnd & _ & _).
  pose proof (fo_level _ _ _ _ _ _ Hf) as Hl.
  assert (Hv : SlotPool.value n = r).
  { destruct (Queue.lr_seg _ _ _ _ Hl) as (_ & _ & m & Hm & _). rewrite Hm in Hn. by simplify_eq. }
  destruct (TradeRing.push_refines (OrderBook.trade_out b) tr (fo_ring _ _ _ _ _ _ Hf)) as (ring & Hpush & Hring & Habs).
  eexists _, ring, _. split; [by apply Queue.modify_slot_ok|]. split; [done|]. split; [done|].
  set (p' := SlotPool.mk _ _ _ _ _).
  assert (Hsame : Queue.same_pool (OrderBook.pool b) p') by (split_and!; try done; simpl; by rewrite zlen_zset).
  assert (Hfr : ∀ j, j ≠ i → (SlotPool.slots p').[j] = (SlotPool.slots (OrderBook.pool b)).[j])
    by (intros j Hj; simpl; by apply zlookup_zset_ne).
  destruct (focus_frame _ _ _ _ _ _ (SlotPool.slots p') Hf) as [Hs Ho].
  { intros j Hj. apply Hfr. intros ->. apply Hj. left. }
  destruct n as [v a c]. simpl in Hv. subst v.
  destruct (updated_book (PriceLadder.upd IB L0 p l') p' ring (u64 (OrderBook.next_seq b + 1)) b)
    as (E1 & E2 & E3 & E4 & E5 & E6). revert E1 E2 E3 E4 E5 E6. set (b' := OrderBook.set_trades _ _).
  intros E1 E2 E3 E4 E5 E6. pose proof E6 as (Eop & _).
  split_and!; [split; rewrite ?E1, ?E2, ?E3, ?E4, ?E5, ?Eop|done|by rewrite E4|done]; try done; try apply u64_range.
  - by eapply Queue.fill_repr.
  - eapply core_same; [apply Hf|done|exact Hfr|done].
Qed.

Lemma fill_spec b l i r q Qs Qo fl incoming rep : focus b l ((i, r) :: q) Qs Qo fl →
  resting_ok r → 0 < o_qty incoming < two32 →
  let t := Z.min (o_qty incoming) (r_qty r) in
  ∃ b' l' fl',
  OrderBook.fill s b ref l p i r incoming rep =
    Ok (b', o_with_qty incoming (o_qty incoming - t), rep_fill rep (OrderBook.next_seq b) t) ∧
  focus b' l' (if r_qty r =? t then q else (i, r_with_qty r (r_qty r - t)) :: q) Qs Qo fl' ∧ same_rest b b' ∧
  TradeRing.abs (OrderBook.trade_out b') = TradeRing.fifo_push (TradeRing.abs (OrderBook.trade_out b))
    (Spec.trade_of (OrderBook.next_seq b) incoming r t) ∧
  OrderBook.next_seq b' = u64 (OrderBook.next_seq b + 1).
Proof.
  intros Hf (_ & _ & Hr & _) Hq t. pose proof (fo_level _ _ _ _ _ _ Hf) as Hl.
  destruct (Queue.lr_seg _ _ _ _ Hl) as (_ & _ & m & Hm & _).
  assert (r_price r = p) as Hp by (apply (Queue.lr_price _ _ _ _ Hl (i, r)); left).
  destruct (fill_head_spec _ _ _ _ _ _ _ _ _ t (Spec.trade_of (OrderBook.next_seq b) incoming r t) Hf Hm)
    as (p' & ring & b1 & Hmod & Hpush & Hb1 & Hf1 & Hs1 & Hab1 & Hsq1).
  unfold OrderBook.fill. fold t. rewrite !u32_small by lia. rewrite Hmod. simpl.
  rewrite (focus_assign _ _ _ _ _ _ _ Hf). simpl.
  assert (OrderBook.trade_out (OrderBook.set_seq 0 b) = OrderBook.trade_out b) as _ by done.
  unfold Spec.trade_of in Hpush. rewrite Hp in Hpush. rewrite Hpush. simpl. rewrite <-Hb1.
  destruct (Z.eqb_spec (r_qty r) t) as [E|E].
  - destruct (Z.eqb_spec (r_qty r - t) 0); [|lia].
    destruct (unlink_spec _ _ _ _ _ _ _ _ Hf1) as (b2 & l2 & Hun & Hf2 & Hs2 & Ht2 & Hn2). simpl in Hun.
    rewrite Hun. simpl. exists b2, l2, (i :: fl). rewrite Ht2, Hn2.
    split_and!; [done..|by eapply same_rest_trans|done|done].
  - destruct (Z.eqb_spec (r_qty r - t) 0); [lia|]. simpl. by eexists b1, _, fl.
Qed.

Lemma match_level_stop (fuel : nat) b l q Qs Qo fl incoming rep : focus b l q Qs Qo fl →
  (0 < fuel)%nat → o_qty incoming ≤ 0 →
  OrderBook.match_level fuel s b ref p incoming rep = Ok (b, incoming, rep).
Proof.
  intros Hf Hfuel Hq. destruct fuel as [|fuel]; [lia|]. simpl. rewrite (focus_deref _ _ _ _ _ _ Hf). simpl.
  by destruct (Z.ltb_spec 0 (o_qty incoming)); [lia|].
Qed.

(** The inner loop is [match_queue] on the level's queue. *)
Lemma match_level_spec (fuel : nat) limit b l q Qs Qo fl incoming rep : focus b l q Qs Qo fl →
  Spec.orders_ok q.*2 → 0 ≤ o_qty incoming < two32 → (length q < fuel)%nat →
  crosses (o_side incoming) limit p = true →
  let m := Spec.match_queue (OrderBook.policy b) limit incoming rep (OrderBook.next_seq b) q.*2 in
  ∃ b' l' q' fl',
  OrderBook.match_level fuel s b ref p incoming rep = Ok (b', Spec.m_taker m, Spec.m_rep m) ∧
  focus b' l' q' Qs Qo fl' ∧ same_rest b b' ∧ q'.*2 = Spec.m_queue m ∧
  TradeRing.abs (OrderBook.trade_out b') =
    foldl TradeRing.fifo_push (TradeRing.abs (OrderBook.trade_out b)) (Spec.m_trades m) ∧
  OrderBook.next_seq b' = Spec.m_seq m.
Proof.
  revert b l q fl incoming rep. induction fuel as [|fuel IH]; intros b l q fl incoming rep Hf Hok Hq Hfuel Hc; [lia|].
  simpl OrderBook.match_level. rewrite (focus_deref _ _ _ _ _ _ Hf). simpl.
  pose proof (Queue.level_repr_empty_iff _ _ _ _ (fo_level _ _ _ _ _ _ Hf)) as He.
  destruct q as [|[i r] q].
  { destruct He as [_ ->]; [|done]. rewrite andb_false_r. simpl. by exists b, l, [], fl. }
  destruct (level_empty l) eqn:Hle; [by destruct He as [He _]; specialize (He eq_refl)|]. clear He.
  simpl in Hok. apply Spec.orders_ok_cons in Hok as [Hr Hok]. simpl in Hfuel. simpl Spec.match_queue. rewrite andb_true_r.
  pose proof (fo_level _ _ _ _ _ _ Hf) as Hl. destruct (Queue.lr_seg _ _ _ _ Hl) as (Hh & _ & n & Hn & _).
  pose proof (Queue.lr_price _ _ _ _ Hl (i, r) ltac:(left)) as Hp. simpl in Hp. rewrite Hp, Hc, orb_false_r.
  destruct (Z.ltb_spec 0 (o_qty incoming)) as [Hpos|Hpos]; simpl; [|by exists b, l, ((i, r) :: q), fl].
  rewrite Hh, (SlotPool.at_ok _ _ _ Hn). simpl. unfold Spec.self_trade.
  destruct (stp_possible _ _ && _).
  - destruct (policy_eqb _ _); [by exists b, l, ((i, r) :: q), fl|].
    destruct (unlink_spec _ _ _ _ _ _ _ _ Hf) as (b1 & l1 & -> & Hf1 & Hs1 & Ht1 & Hn1). simpl.
    destruct (IH b1 l1 q (i :: fl) incoming (rep_stp_cancel rep (r_qty r)) Hf1 Hok Hq ltac:(lia) Hc)
      as (b2 & l2 & q2 & fl2 & Hm & Hf2 & Hs2 & Hq2 & Ht2 & Hn2).
    pose proof Hs1 as (_ & Hp1 & _). rewrite Hp1, Hn1, Ht1 in *.
    exists b2, l2, q2, fl2. split_and!; try done. by eapply same_rest_trans.
  - destruct (fill_spec _ _ _ _ _ _ _ _ incoming rep Hf Hr ltac:(lia)) as (b1 & l1 & fl1 & -> & Hf1 & Hs1 & Ht1 & Hn1).
    simpl. set (t := Z.min _ _) in *. set (inc' := o_with_qty _ _) in *. destruct Hr as (_ & _ & Hr & _).
    assert (Hq' : 0 ≤ o_qty inc' < two32) by (simpl; lia). pose proof Hs1 as (_ & Hp1 & _).
    destruct (Z.eqb_spec (r_qty r) t) as [E|E].
    + destruct (IH b1 l1 q fl1 inc' (rep_fill rep (OrderBook.next_seq b) t) Hf1 Hok Hq' ltac:(lia) Hc)
        as (b2 & l2 & q2 & fl2 & Hm & Hf2 & Hs2 & Hq2 & Ht2 & Hn2).
      rewrite Hp1, Hn1, Ht1 in *. exists b2, l2, q2, fl2.
      split_and!; try done. by eapply same_rest_trans.
    + rewrite (match_level_stop fuel _ _ _ _ _ _ _ _ Hf1); [|lia|simpl; lia].
      exists b1, l1, ((i, r_with_qty r (r_qty r - t)) :: q), fl1. by split_and!.
Qed.

End level.
(** ** The levels *)

(** A book between two rounds of the outer loop; [Qs] are the queues of the side
    that is walked. *)
Record sides (b : book) (Qs Qo : queues) (fl : list SlotIndex) : Prop := {
  si_core : core (OrderBook.pool b) (OrderBook.order_index b) fl (tag s (nodes Qs) ++ tag op (nodes Qo));
  si_wf : PriceLadder.wf IB (OrderBook.ladder s b);
  si_side : side_repr (SlotPool.slots (OrderBook.pool b)) (PriceLadder.levels IB (OrderBook.ladder s b)) Qs;
  si_other : side_repr (SlotPool.slots (OrderBook.pool b)) (PriceLadder.levels (is_bid op) (OrderBook.ladder op b)) Qo;
  si_ring : TradeRing.wf (OrderBook.trade_out b);
  si_seq : 0 ≤ OrderBook.next_seq b < two64;
}.

Lemma rounds_enough b Qs Qo fl : sides b Qs Qo fl → (length (nodes Qs) < OrderBook.rounds b)%nat.
Proof.
  intros Hs. pose proof (core_length _ (si_core _ _ _ _ Hs)) as Hl. unfold zlen in Hl.
  unfold tag in Hl. rewrite length_app, !length_fmap in Hl. unfold OrderBook.rounds, SlotPool.size. lia.
Qed.

(** Opening the best level, and closing or keeping it afterwards. *)
Lemma sides_focus b p q Qs Qo fl : sides b ((p, q) :: Qs) Qo fl → ∃ l rest,
  PriceLadder.levels IB (OrderBook.ladder s b) = (p, l) :: rest ∧
  focus (OrderBook.ladder s b) p rest b l q Qs Qo fl.
Proof.
  intros [Hc Hwf Hs Ho Hr Hn].
  destruct (side_repr_split _ _ [] _ _ _ Hs) as (ls1 & l & rest & Hls & Hs1 & _ & Hl & Hrest).
  inversion Hs1; subst ls1. simpl in Hls. exists l, rest. split; [done|]. split; try done.
  - rewrite PriceLadder.upd_id; [done|apply Hwf| |by rewrite Hls; simpl; rewrite Z.eqb_refl].
    eapply (PriceLadder.levels_range IB _ p l); [apply Hwf|]. rewrite Hls. left.
  - by rewrite nodes_cons, tag_app, <-app_assoc in Hc.
Qed.

Lemma focus_close L0 p l0 rest0 b l q Qs Qo fl : PriceLadder.wf IB L0 →
  PriceLadder.levels IB L0 = (p, l0) :: rest0 → focus L0 p rest0 b l q Qs Qo fl → ∃ L',
  (if level_empty l then PriceLadder.closed IB (OrderBook.ladder s b) p else Ok (OrderBook.ladder s b)) = Ok L' ∧
  sides (OrderBook.set_ladder s L' b) (if decide (q = []) then Qs else (p, q) :: Qs) Qo fl ∧
  same_rest b (OrderBook.set_ladder s L' b) ∧ PriceLadder.same_frame L0 L'.
Proof.
  intros Hwf0 Hlv Hf. pose proof (Queue.level_repr_empty_iff _ _ _ _ (fo_level _ _ _ _ _ _ _ _ _ Hf)) as He.
  pose proof (price_range _ _ _ _ Hwf0 Hlv) as Hp. pose proof (find_p _ _ _ _ Hlv) as Hfind.
  assert (Hsides : ∀ L' Q', PriceLadder.wf IB L' →
    side_repr (SlotPool.slots (OrderBook.pool b)) (PriceLadder.levels IB L') Q' → nodes Q' = q ++ nodes Qs →
    sides (OrderBook.set_ladder s L' b) Q' Qo fl).
  { intros L' Q' Hwf' HQ' Hn. destruct (set_ladder_rest L' b) as (_ & E2 & E3 & E4 & _ & E6).
    split; rewrite ?ladder_set_ladder, ?ladder_set_ladder_op, ?E2, ?E3, ?E4, ?E6; try apply Hf; try done.
    rewrite Hn, tag_app, <-app_assoc. apply Hf. }
  assert (Hrest : ∀ L', same_rest b (OrderBook.set_ladder s L' b)) by (intros; unfold same_rest; by destruct s).
  rewrite (fo_ladder _ _ _ _ _ _ _ _ _ Hf). destruct (level_empty l) eqn:Hl.
  - assert (q = []) by by apply He. subst q. pose proof (Queue.level_repr_nil _ _ _ (fo_level _ _ _ _ _ _ _ _ _ Hf)) as ->.
    destruct (PriceLadder.closed_upd IB L0 p l0 Hwf0 Hp Hfind) as (L' & -> & Hwf' & Hfr & Hlv').
    exists L'. split_and!; try done. rewrite decide_True by done. apply Hsides; [done| |done].
    rewrite Hlv', Hlv, StdMap.erase_head. apply Hf.
  - assert (Hq : q ≠ []) by (intros Hq; by apply He in Hq). rewrite decide_False by done.
    destruct (PriceLadder.upd_wf IB L0 p l0 l Hwf0 Hp Hfind Hl) as [Hwf' Hlv'].
    eexists. split_and!; try done; [|by apply PriceLadder.upd_frame]. apply Hsides; [done| |done].
    rewrite Hlv', Hlv, StdMap.put_head. constructor; [|apply Hf]. split_and!; [done..|apply Hf].
Qed.

Lemma match_loop_stop (fuel : nat) b incoming limit rep : (0 < fuel)%nat → o_qty incoming ≤ 0 →
  OrderBook.match_loop fuel s b incoming limit rep = Ok (b, incoming, rep).
Proof.
  intros Hfuel Hq. destruct fuel as [|fuel]; [lia|]. simpl. by destruct (Z.ltb_spec 0 (o_qty incoming)); [lia|].
Qed.

Lemma same_frame_trans L1 L2 L3 : PriceLadder.same_frame L1 L2 → PriceLadder.same_frame L2 L3 → PriceLadder.same_frame L1 L3.
Proof. unfold PriceLadder.same_frame. intuition congruence. Qed.

#[local] Opaque OrderBook.rounds.

(** The outcome [o] of a run from [b] is the abstract outcome [m]. *)
Definition refines (b : book) (Qs Qo : queues) (m : Spec.Matched) (o : res OrderBook.matching) : Prop :=
  ∃ b' Qs' fl', o = Ok (b', Spec.m_taker m, Spec.m_rep m) ∧
  sides b' Qs' Qo fl' ∧ same_rest b b' ∧ orders Qs' = Spec.m_queue m ∧
  PriceLadder.same_frame (OrderBook.ladder s b) (OrderBook.ladder s b') ∧
  (Qs = [] → OrderBook.ladder s b' = OrderBook.ladder s b) ∧
  TradeRing.abs (OrderBook.trade_out b') =
    foldl TradeRing.fifo_push (TradeRing.abs (OrderBook.trade_out b)) (Spec.m_trades m) ∧
  OrderBook.next_seq b' = Spec.m_seq m.

(** The outer loop is [match_queue] on the whole side. *)
Lemma match_loop_spec (fuel : nat) limit b Qs Qo fl incoming rep : sides b Qs Qo fl →
  Spec.orders_ok (orders Qs) → 0 ≤ o_qty incoming < two32 → (length Qs < fuel)%nat → stp_halted rep = false →
  refines b Qs Qo (Spec.match_queue (OrderBook.policy b) limit incoming rep (OrderBook.next_seq b) (orders Qs))
    (OrderBook.match_loop fuel s b incoming limit rep).
Proof.
  revert b Qs fl incoming rep. induction fuel as [|fuel IH]; intros b Qs fl incoming rep Hs Hok Hq Hfuel Hh; [lia|].
  assert (Hstop : o_qty incoming ≤ 0 ∨ (∀ r, head (orders Qs) = Some r → crosses (o_side incoming) limit (r_price r) = false) →
    refines b Qs Qo (Spec.match_queue (OrderBook.policy b) limit incoming rep (OrderBook.next_seq b) (orders Qs)) (Ok (b, incoming, rep))).
  { intros Hst. rewrite Spec.match_queue_stop by done. exists b, Qs, fl. by split_and!. }
  simpl OrderBook.match_loop.
  destruct (Z.ltb_spec 0 (o_qty incoming)) as [Hpos|Hpos]; simpl; [|apply Hstop; by left].
  rewrite PriceLadder.ladder_best_spec by apply Hs.
  destruct Qs as [|[p q] Qs].
  { pose proof (si_side _ _ _ _ Hs) as Hs'. inversion Hs' as [Hnil|]. apply Hstop. by right. }
  destruct (sides_focus _ _ _ _ _ _ Hs) as (l & rest & Hlv & Hf). rewrite Hlv.
  pose proof (si_wf _ _ _ _ Hs) as Hwf0. pose proof (fo_level _ _ _ _ _ _ _ _ _ Hf) as Hl.
  assert (Hqne : q ≠ []) by (pose proof (si_side _ _ _ _ Hs) as Hs'; inversion_clear Hs' as [|? ? ? ? (_ & ? & _)]; done).
  assert (Hprice : ∀ r, r ∈ q.*2 → r_price r = p).
  { intros r (n & -> & Hn)%list_elem_of_fmap. by apply (Queue.lr_price _ _ _ _ Hl). }
  rewrite orders_cons in *.
  destruct (crosses (o_side incoming) limit p) eqn:Hc; simpl.
  2:{ apply Hstop. right. intros r Hr. destruct q as [|n q]; [done|]. simpl in Hr. simplify_eq.
      by rewrite (Hprice n.2) by left. }
  clear Hstop. assert (Hcr : ∀ r, r ∈ q.*2 → crosses (o_side incoming) limit (r_price r) = true)
    by (intros r Hr; by rewrite Hprice).
  assert (Hok1 : Spec.orders_ok q.*2) by (intros r Hr; apply Hok, elem_of_app; by left).
  assert (Hok2 : Spec.orders_ok (orders Qs)) by (intros r Hr; apply Hok, elem_of_app; by right).
  assert (Hrounds : (length q < OrderBook.rounds b)%nat).
  { pose proof (rounds_enough _ _ _ _ Hs) as Hr. rewrite nodes_cons, length_app in Hr. lia. }
  rewrite Spec.match_queue_app by done.
  pose proof (Spec.match_queue_drained (OrderBook.policy b) limit incoming rep (OrderBook.next_seq b) _ Hcr Hok1) as Hdr.
  destruct (Spec.match_queue_left (OrderBook.policy b) limit incoming rep (OrderBook.next_seq b) _ Hok1 ltac:(lia)) as [Hl0 Hl1].
  destruct (match_level_spec _ _ _ _ Hwf0 Hlv _ limit _ _ _ _ _ _ incoming rep Hf Hok1 Hq Hrounds Hc)
    as (b1 & l1 & q1 & fl1 & -> & Hf1 & Hs1 & Hq1 & Ht1 & Hn1). simpl.
  revert Hdr Hl0 Hl1 Hq1 Ht1 Hn1. set (m1 := Spec.match_queue _ _ _ _ _ q.*2). intros Hdr Hl0 Hl1 Hq1 Ht1 Hn1.
  rewrite (focus_deref _ _ _ _ Hwf0 Hlv _ _ _ _ _ _ Hf1). simpl.
  destruct (focus_close _ _ _ _ _ _ _ _ _ _ Hwf0 Hlv Hf1) as (L' & -> & Hsd & Hs2 & Hfr). simpl.
  destruct (set_ladder_rest L' b1) as (_ & _ & _ & E4 & E5 & E6).
  pose proof (same_rest_trans _ _ _ Hs1 Hs2) as Hsr. clear Hs2. pose proof Hsr as (_ & Hpol & _).
  set (b2 := OrderBook.set_ladder s L' b1) in *. rewrite <-E4 in Ht1. rewrite <-E6 in Hn1. clear E4 E5 E6.
  assert (Eb2 : OrderBook.ladder s b2 = L') by apply ladder_set_ladder. rewrite <-Eb2 in Hfr.
  assert (Hqs : orders (if decide (q1 = []) then Qs else (p, q1) :: Qs) = Spec.m_queue m1 ++ orders Qs).
  { rewrite <-Hq1. destruct (decide _) as [->|]; [done|by rewrite orders_cons]. }
  destruct (stp_halted (Spec.m_rep m1)) eqn:Hhalt; simpl.
  { rewrite andb_false_r. exists b2, (if decide (q1 = []) then Qs else (p, q1) :: Qs), fl1. simpl. by split_and!. }
  rewrite andb_true_r. destruct (Z.ltb_spec 0 (o_qty (Spec.m_taker m1))) as [Hmore|Hdone].
  - assert (q1 = []) as -> by (apply (fmap_nil_inv snd); rewrite Hq1; by apply Hdr).
    rewrite decide_True in Hsd by done. simpl in Hfuel.
    destruct (IH b2 Qs fl1 (Spec.m_taker m1) (Spec.m_rep m1) Hsd Hok2 ltac:(lia) ltac:(lia) Hhalt)
      as (b3 & Q3 & fl3 & Ho & Hsd3 & Hs3 & Hq3 & Hfr3 & _ & Ht3 & Hn3).
    rewrite Hpol, Hn1, Ht1 in *. exists b3, Q3, fl3. simpl. rewrite foldl_app.
    split_and!; try done; [by eapply same_rest_trans|by eapply same_frame_trans].
  - rewrite match_loop_stop by (simpl in Hfuel; lia).
    exists b2, (if decide (q1 = []) then Qs else (p, q1) :: Qs), fl1. simpl. by split_and!.
Qed.

End matching.
End Matching.
