(* ===== verification/Checks.v ===== *)
(** * The queries and the debug checks read the abstract book

    On a state that satisfies the invariant every query returns what the
    abstract book says, and [check_invariants] (which a debug build runs after
    every mutating call) never fails an assertion. *)

From stdpp Require Import base decidable list gmap fin_maps sets.
From S2P Require Import Prelude.
From S2P Require Import Types.
From S2P Require Import Ring.
From S2P Require Import Pool.
From S2P Require Import Index.
From S2P Require Import SortedMap.
From S2P Require Import Ladder.
From S2P Require Import Queue.
From S2P Require Import Spec.
From S2P Require Import Book.
From S2P Require Import Inv.
From S2P Require Import Match.
Import BookInv.

Module Checks.

Section checks.
Context {build : Build} (b : OrderBook.OrderBook) (Q : Side → queues) (fl : list SlotIndex).
Context (Hinv : inv b Q fl).

Abbreviation slots := (SlotPool.slots (OrderBook.pool b)).

#[local] Opaque OrderBook.rounds.

Lemma abs_side s : Spec.side s (abs b Q) = orders (Q s).
Proof. by destruct s. Qed.

Lemma core_side s : core (OrderBook.pool b) (OrderBook.order_index b) fl
  (tag s (nodes (Q s)) ++ tag (opposite s) (nodes (Q (opposite s)))).
Proof. destruct s; simpl; [apply Hinv|]. rewrite (Permutation_app_comm (tag Sell _)). apply Hinv. Qed.

Lemma inv_sides s : Matching.sides s b (Q s) (Q (opposite s)) fl.
Proof. split; try apply Hinv. apply core_side. Qed.

(** An order in a queue is in the list the pool and the index are tied to. *)
Lemma node_in s p q n : (p, q) ∈ Q s → n ∈ q →
  (s, n) ∈ tag s (nodes (Q s)) ++ tag (opposite s) (nodes (Q (opposite s))).
Proof.
  intros Hq Hn. apply elem_of_app. left. apply list_elem_of_fmap. exists n. split; [done|].
  apply elem_of_nodes. by exists p, q.
Qed.

Lemma nodes_le : zlen (nodes (Q Buy)) + zlen (nodes (Q Sell)) = SlotPool.live (OrderBook.pool b) ∧
  zlen (nodes (Q Buy)) + zlen (nodes (Q Sell)) ≤ two31.
Proof.
  pose proof (core_length _ (i_core _ _ _ Hinv)) as Hl. rewrite zlen_app in Hl.
  assert (Ht : ∀ s q, zlen (tag s q) = zlen q) by (intros; unfold zlen, tag; by rewrite length_fmap).
  rewrite !Ht in Hl. split; [done|]. rewrite <-Hl.
  pose proof (c_pool _ _ _ _ (i_core _ _ _ Hinv)) as Hp. pose proof (SlotPool.wf_live _ _ Hp).
  pose proof (zlen_nonneg fl). pose proof (c_used _ _ _ _ (i_core _ _ _ Hinv)). lia.
Qed.

Lemma nodes_side_le s : zlen (nodes (Q s)) ≤ two31.
Proof.
  destruct nodes_le as [_ Hl]. pose proof (zlen_nonneg (nodes (Q Buy))). pose proof (zlen_nonneg (nodes (Q Sell))).
  destruct s; lia.
Qed.

Lemma queue_short s p q : (p, q) ∈ Q s → zlen q ≤ zlen (nodes (Q s)) ∧ (length q < OrderBook.rounds b)%nat.
Proof.
  intros Hq. assert (zlen q ≤ zlen (nodes (Q s))) as Hle.
  { apply list_elem_of_split in Hq as (Q1 & Q2 & ->). rewrite nodes_app, nodes_cons, !zlen_app.
    pose proof (zlen_nonneg (nodes Q1)). pose proof (zlen_nonneg (nodes Q2)). lia. }
  split; [done|]. pose proof (Matching.rounds_enough _ _ _ _ _ (inv_sides s)). unfold zlen in Hle. lia.
Qed.

(** ** Levels *)

(** The level at a price and its queue, or neither. *)
Lemma level_cases s p : 0 ≤ p < two64 →
  (OrderBook.level_at b s p = Ok None ∧ ∀ q, (p, q) ∉ Q s) ∨
  (∃ Q1 q Q2 l, OrderBook.level_at b s p = Ok (Some l) ∧ Q s = Q1 ++ (p, q) :: Q2 ∧
    Queue.level_repr slots p l q).
Proof.
  intros Hp. pose proof (i_ladder _ _ _ Hinv s) as Hwf. pose proof (PriceLadder.wf_shape _ _ Hwf) as Hsh.
  pose proof (i_side _ _ _ Hinv s) as Hs. pose proof (PriceLadder.levels_sorted _ _ Hsh) as Hsort.
  unfold OrderBook.level_at. rewrite (PriceLadder.ladder_find_spec (is_bid s)) by done. simpl.
  destruct (StdMap.find _ p) as [l|] eqn:Hf.
  - right. rewrite (PriceLadder.ladder_deref_spec (is_bid s) _ Hsh p l) by done. simpl.
    apply StdMap.find_Some_elem in Hf. destruct (side_repr_find _ _ _ _ _ Hs Hf) as (Q1 & q & Q2 & -> & _ & Hl).
    by exists Q1, q, Q2, l.
  - left. split; [done|]. intros q Hq. apply list_elem_of_split in Hq as (Q1 & Q2 & HQ). rewrite HQ in Hs.
    apply side_repr_split in Hs as (ls1 & l & ls2 & Hls & _).
    rewrite (StdMap.elem_find (is_bid s) _ p l Hsort) in Hf; [done|]. rewrite Hls. apply elem_of_app. right. left.
Qed.

Lemma price_at_queue s p q n : (p, q) ∈ Q s → n ∈ q → r_price n.2 = p.
Proof. intros Hq Hn. by eapply side_repr_orders; [apply (i_side _ _ _ Hinv s)|..]. Qed.

(** The orders of one price are those of its queue. *)
Lemma at_price_other (Q' : queues) p : (∀ q, (p, q) ∉ Q') →
  (∀ p' q n, (p', q) ∈ Q' → n ∈ q → r_price n.2 = p') → filter (λ r, r_price r = p) (orders Q') = [].
Proof.
  intros Hno Hpr. apply filter_none. intros r (n & -> & (p' & q & Hq & Hn)%elem_of_nodes)%list_elem_of_fmap Heq.
  rewrite (Hpr p' q n) in Heq by done. subst p'. by eapply Hno.
Qed.

Lemma queue_prices s : NoDup (Q s).*1.
Proof.
  rewrite (side_repr_keys _ _ _ (i_side _ _ _ Hinv s)). apply (StdMap.sorted_keys (is_bid s)).
  apply PriceLadder.levels_sorted. apply (i_ladder _ _ _ Hinv s).
Qed.

Lemma at_price_queue s Q1 p q Q2 : Q s = Q1 ++ (p, q) :: Q2 →
  Spec.at_price s (abs b Q) p = q.*2.
Proof.
  intros HQ. unfold Spec.at_price. rewrite abs_side, HQ, orders_app, orders_cons, !filter_app.
  pose proof (queue_prices s) as Hnd. rewrite HQ, fmap_app in Hnd. simpl in Hnd.
  apply NoDup_app in Hnd as (_ & Hd & [Hn _]%NoDup_cons).
  rewrite (at_price_other Q1), (at_price_other Q2), app_nil_r.
  - apply filter_whole. intros r (n & -> & Hn')%list_elem_of_fmap. eapply (price_at_queue s p q n); [|done].
    rewrite HQ. apply elem_of_app. right. left.
  - intros q' Hq. apply Hn. apply list_elem_of_fmap. by exists (p, q').
  - intros p' q' n Hq. apply (price_at_queue s). rewrite HQ. apply elem_of_app. right. by right.
  - intros q' Hq. eapply (Hd p); [|left]. apply list_elem_of_fmap. by exists (p, q').
  - intros p' q' n Hq. apply (price_at_queue s). rewrite HQ. apply elem_of_app. by left.
Qed.

Lemma at_price_none s p : (∀ q, (p, q) ∉ Q s) → Spec.at_price s (abs b Q) p = [].
Proof.
  intros Hno. unfold Spec.at_price. rewrite abs_side. apply at_price_other; [done|].
  intros p' q n. apply price_at_queue.
Qed.

Context (Hwf : Spec.wf (abs b Q)).

Lemma orders_ok_side s : Spec.orders_ok (orders (Q s)).
Proof. intros r Hr. apply (Spec.wf_orders _ Hwf). apply elem_of_app. destruct s; [by left|by right]. Qed.

Lemma queue_ok s p q : (p, q) ∈ Q s → ∀ n, n ∈ q → resting_ok n.2.
Proof.
  intros Hq n Hn. apply (orders_ok_side s). apply list_elem_of_fmap. exists n. split; [done|].
  apply elem_of_nodes. by exists p, q.
Qed.

Lemma volume_snd q : Spec.volume q.*2 = Queue.volume q.
Proof. induction q as [|n q IH]; [done|]. csimpl. by rewrite <-IH. Qed.

(** The stored total of a level is the exact volume of its queue. *)
Lemma total_exact s p q l : (p, q) ∈ Q s → Queue.level_repr slots p l q →
  total_qty l = Queue.volume q ∧ zlen q ≤ Queue.volume q < two64.
Proof.
  intros Hq Hl. pose proof (Queue.volume_bounds q (queue_ok s p q Hq)).
  destruct (queue_short s p q Hq) as [Hle _]. pose proof (nodes_side_le s). pose proof (zlen_nonneg q).
  rewrite (Queue.lr_total _ _ _ _ Hl), u64_small by lia. lia.
Qed.

Lemma qty_at_abs s p : 0 ≤ p < two64 →
  OrderBook.qty_at b s p = Ok (Spec.volume (Spec.at_price s (abs b Q) p)).
Proof.
  intros Hp. unfold OrderBook.qty_at. destruct (level_cases s p Hp) as [[-> Hno]|(Q1 & q & Q2 & l & -> & HQ & Hl)]; simpl.
  - by rewrite at_price_none.
  - rewrite (at_price_queue s Q1 p q Q2 HQ), volume_snd. f_equal. eapply (total_exact s p); [|done].
    rewrite HQ. apply elem_of_app. right. left.
Qed.

Lemma order_count_at_abs s p : 0 ≤ p < two64 →
  OrderBook.order_count_at b s p = Ok (zlen (Spec.at_price s (abs b Q) p)).
Proof.
  intros Hp. unfold OrderBook.order_count_at.
  destruct (level_cases s p Hp) as [[-> Hno]|(Q1 & q & Q2 & l & -> & HQ & Hl)]; simpl; [by rewrite at_price_none|].
  assert (Hq : (p, q) ∈ Q s) by (rewrite HQ; apply elem_of_app; right; left).
  destruct (queue_short s p q Hq) as [Hle Hr]. pose proof (nodes_side_le s). pose proof (zlen_nonneg q).
  rewrite (Queue.walk_dseg _ _ _ _ _ _ (Queue.lr_seg _ _ _ _ Hl) Hr). simpl.
  rewrite (at_price_queue s Q1 p q Q2 HQ), u64_small by lia. unfold zlen. by rewrite length_fmap.
Qed.

(** ** Top of book *)

Lemma best_price_abs s :
  PriceLadder.best_price (is_bid s) (OrderBook.ladder s b) = Spec.best s (abs b Q).
Proof.
  unfold PriceLadder.best_price, Spec.best. rewrite abs_side, PriceLadder.ladder_best_spec by apply (i_ladder _ _ _ Hinv s).
  pose proof (i_side _ _ _ Hinv s) as Hs. pose proof (price_at_queue s) as Hpr.
  destruct Hs as [|[p l] [p' q] ls Q' (E & Hq & Hl) _]; [done|]. simpl in *. subst p'.
  destruct q as [|n q]; [done|]. rewrite orders_cons. simpl. f_equal. symmetry.
  by apply (Queue.lr_price _ _ _ _ Hl n); left.
Qed.

(** ** Lookup by id *)

Lemma all_elem s n : (s, n) ∈ tag Buy (nodes (Q Buy)) ++ tag Sell (nodes (Q Sell)) ↔ n ∈ nodes (Q s).
Proof.
  rewrite elem_of_app. unfold tag. rewrite !list_elem_of_fmap. split.
  - intros [(m & [= -> ->] & Hm)|(m & [= -> ->] & Hm)]; done.
  - intros Hn. destruct s; [left|right]; by exists n.
Qed.

Lemma node_slot s i r : (i, r) ∈ nodes (Q s) → ∃ a c, slots.[i] = Some (SlotPool.MkSlot r a c).
Proof.
  intros (p & q & Hq & Hn)%elem_of_nodes. apply list_elem_of_split in Hq as (Q1 & Q2 & HQ).
  pose proof (i_side _ _ _ Hinv s) as Hs. rewrite HQ in Hs.
  apply side_repr_split in Hs as (_ & l & _ & _ & _ & _ & Hl & _).
  eapply Queue.dseg_slot; [apply Hl|done].
Qed.

Lemma ids_all : id_in <$> (tag Buy (nodes (Q Buy)) ++ tag Sell (nodes (Q Sell))) = Spec.ids (abs b Q).
Proof. unfold Spec.ids. simpl. by rewrite !fmap_app, !Matching.ids_tag. Qed.

(** What the index knows of an id, against the abstract book. *)
Lemma index_cases id :
  (IdIndex.contents (OrderBook.order_index b) !! id = None ∧ id ∉ Spec.ids (abs b Q)) ∨
  (∃ s i r, IdIndex.contents (OrderBook.order_index b) !! id = Some (OrderBook.index_value i s) ∧
    (i, r) ∈ nodes (Q s) ∧ r_id r = id ∧ 0 ≤ i < two31).
Proof.
  pose proof (i_core _ _ _ Hinv) as Hc. destruct (_ !! id) as [v|] eqn:Hv.
  - right. destruct (core_lookup_inv _ _ _ Hc Hv) as (s & i & r & Hin & Hid & ->). exists s, i, r.
    destruct (core_live _ _ _ _ Hc Hin) as (_ & ? & _). apply all_elem in Hin. done.
  - left. split; [done|]. apply (core_lookup_None _ _ Hc) in Hv. by rewrite ids_all in Hv.
Qed.

Lemma find_abs id : OrderBook.find b id = Ok (Spec.find (abs b Q) id).
Proof.
  unfold OrderBook.find. rewrite IdIndex.index_find_spec by apply (i_core _ _ _ Hinv). simpl.
  destruct (index_cases id) as [[-> Hid]|(s & i & r & -> & Hn & <- & Hi)].
  - by rewrite Spec.find_dead.
  - rewrite slot_of_value, side_of_value by done. destruct (node_slot s i r Hn) as (a & c & Hs).
    rewrite (SlotPool.at_ok _ _ _ Hs). simpl. rewrite (Spec.find_resting _ s r Hwf); [done|].
    rewrite abs_side. apply list_elem_of_fmap. by exists (i, r).
Qed.

Lemma contains_abs id : IdIndex.contains (OrderBook.order_index b) id = Ok (Spec.live (abs b Q) id).
Proof.
  rewrite IdIndex.contains_spec by apply (i_core _ _ _ Hinv). f_equal. unfold Spec.live. apply bool_decide_ext.
  destruct (index_cases id) as [[-> Hid]|(s & i & r & -> & Hn & <- & Hi)].
  - split; [by intros [? ?]|done].
  - split; [|by eexists]. intros _. rewrite <-ids_all. apply list_elem_of_fmap.
    exists (s, (i, r)). split; [done|]. by apply all_elem.
Qed.

Lemma size_abs : OrderBook.size b = zlen (Spec.ids (abs b Q)).
Proof.
  unfold OrderBook.size, IdIndex.size. rewrite (core_count _ (i_core _ _ _ Hinv)), <-ids_all.
  unfold zlen. by rewrite length_fmap.
Qed.

(** ** Iteration *)

Lemma visit_levels_abs s ls Q' : side_repr slots ls Q' → (∀ p q, (p, q) ∈ Q' → (length q < OrderBook.rounds b)%nat) →
  OrderBook.visit_levels b s ls = Ok (order_of s <$> orders Q').
Proof.
  induction 1 as [|[p l] [p' q] ls Q' (E & Hq & Hl) HQ IH]; intros Hr; [done|]. simpl in *. subst p'.
  rewrite (Queue.walk_dseg _ _ _ _ _ _ (Queue.lr_seg _ _ _ _ Hl)) by (eapply Hr; left). simpl.
  rewrite IH by (intros p' q' Hq'; eapply Hr; by right). simpl.
  rewrite orders_cons, fmap_app, <-list_fmap_compose. done.
Qed.

Lemma for_each_resting_abs : OrderBook.for_each_resting b =
  Ok ((order_of Buy <$> Spec.bids (abs b Q)) ++ (order_of Sell <$> Spec.asks (abs b Q))).
Proof.
  unfold OrderBook.for_each_resting.
  assert (Hs : ∀ s, (ls ← PriceLadder.for_each_level (is_bid s) (OrderBook.ladder s b); OrderBook.visit_levels b s ls) =
    Ok (order_of s <$> orders (Q s))).
  { intros s. rewrite PriceLadder.for_each_level_spec by apply (i_ladder _ _ _ Hinv s). simpl.
    apply visit_levels_abs; [apply (i_side _ _ _ Hinv s)|]. intros p q Hq. by apply (queue_short s p q). }
  pose proof (Hs Buy) as Hb. pose proof (Hs Sell) as Ha. simpl in Hb, Ha.
  destruct (PriceLadder.for_each_level true _) as [bs|]; [|done]. simpl in *. rewrite Hb. simpl.
  destruct (PriceLadder.for_each_level false _) as [ks|]; [|done]. simpl in *. by rewrite Ha.
Qed.

(** ** The debug checks *)

Lemma check_queue_ok (fuel : nat) s price i pv t q sum n : Queue.dseg slots pv i t kNoSlot q →
  (∀ x, x ∈ q → r_price x.2 = price ∧ resting_ok x.2 ∧ x ∈ nodes (Q s)) → (length q < fuel)%nat →
  0 ≤ sum < two64 → 0 ≤ n < two64 →
  OrderBook.check_queue fuel b s price i pv sum n =
    Ok (t, u64 (sum + Queue.volume q), u64 (n + zlen q)).
Proof.
  revert i pv q sum n. induction fuel as [|fuel IH]; intros i pv q sum n Hq Hx Hf Hsum Hn; [lia|].
  destruct q as [|[j r] q].
  { destruct Hq as [-> ->]. simpl. change (zlen []) with 0. by rewrite !Z.add_0_r, !u64_small. }
  destruct Hq as (-> & Hj & nx & Hv & Hq). simpl OrderBook.check_queue. destruct (Z.eqb_spec j kNoSlot); [done|].
  rewrite (SlotPool.at_ok _ _ _ Hv). simpl. rewrite Z.eqb_refl. simpl.
  destruct (Hx (j, r) ltac:(left)) as (Hp & (_ & _ & Hr & _) & Hin). simpl in *. rewrite Hp, Z.eqb_refl. simpl.
  destruct (Z.ltb_spec 0 (r_qty r)); [|lia]. simpl. pose proof (i_core _ _ _ Hinv) as Hc. apply all_elem in Hin.
  rewrite IdIndex.index_find_spec by apply Hc. simpl. rewrite (core_lookup _ s j r Hc Hin).
  destruct (core_live _ _ _ _ Hc Hin) as (_ & Hjr & _). rewrite slot_of_value, side_of_value, Z.eqb_refl by done. simpl.
  unfold side_eqb. rewrite bool_decide_true by done. simpl.
  rewrite (IH nx j q); [|done|by intros x Hxq; apply Hx; right|lia|apply u64_range..].
  rewrite zlen_cons, !u64_add_l. f_equal. f_equal; [f_equal|]; f_equal; simpl; lia.
Qed.

Lemma check_levels_ok s ls Q' c : side_repr slots ls Q' → (∀ x, x ∈ Q' → x ∈ Q s) → 0 ≤ c < two64 →
  OrderBook.check_levels b s ls c = Ok (u64 (c + zlen (nodes Q'))).
Proof.
  intros HQ. revert c. induction HQ as [|[p l] [p' q] ls Q' (E & Hq & Hl) HQ IH]; intros c Hin Hc.
  { simpl. change (zlen _) with 0. by rewrite Z.add_0_r, u64_small. }
  simpl in *. subst p'. pose proof (Hin (p, q) ltac:(left)) as Hpq.
  destruct (level_empty l) eqn:He; [by apply (Queue.level_repr_empty_iff _ _ _ _ Hl) in He|]. simpl.
  destruct (queue_short s p q Hpq) as [Hle Hr].
  rewrite (check_queue_ok (OrderBook.rounds b) s p (level_head l) kNoSlot (level_tail l) q 0 0);
    [|apply Hl| |done|lia..].
  2:{ intros x Hx. split_and!; [by eapply price_at_queue|by eapply queue_ok|apply elem_of_nodes; by exists p, q]. }
  destruct (total_exact s p q l Hpq Hl) as [Ht Hvol]. simpl. rewrite Z.eqb_refl. simpl.
  pose proof (zlen_nonneg q). rewrite Ht, !Z.add_0_l, (u64_small (Queue.volume q)), Z.eqb_refl by lia. simpl.
  assert (0 < zlen q) by (destruct q; [done|]; rewrite zlen_cons; pose proof (zlen_nonneg q); lia).
  destruct (Z.ltb_spec 0 (Queue.volume q)); [|lia]. simpl.
  rewrite IH; [|intros x Hx; apply Hin; by right|apply u64_range].
  rewrite nodes_cons, zlen_app, u64_add_r, u64_add_l. f_equal. f_equal. lia.
Qed.

Lemma check_side_ok s c : 0 ≤ c < two64 →
  OrderBook.check_side b s c = Ok (u64 (c + zlen (nodes (Q s)))).
Proof.
  intros Hc. unfold OrderBook.check_side. pose proof (i_ladder _ _ _ Hinv s) as Hl.
  rewrite PriceLadder.ladder_check_spec by done. simpl. rewrite PriceLadder.for_each_level_spec by done. simpl.
  by apply check_levels_ok; [apply (i_side _ _ _ Hinv s)|..].
Qed.

Lemma head_elem {A} (l : list A) x : head l = Some x → x ∈ l.
Proof. destruct l; [done|]. intros [= ->]. left. Qed.

Lemma check_invariants_ok : OrderBook.check_invariants b = Ok ().
Proof.
  unfold OrderBook.check_invariants. destruct NDEBUG; [done|].
  rewrite check_side_ok by lia. simpl. rewrite check_side_ok by apply u64_range. simpl.
  destruct nodes_le as [Hlive Hle]. pose proof (zlen_nonneg (nodes (Q Buy))). pose proof (zlen_nonneg (nodes (Q Sell))).
  rewrite u64_add_l, Z.add_0_l, u64_small by lia.
  pose proof (i_core _ _ _ Hinv) as Hc. pose proof (core_count _ Hc) as Hcnt.
  rewrite <-(core_length _ Hc), <-Hlive in Hcnt. unfold IdIndex.size, SlotPool.size.
  rewrite Hcnt, <-Hlive, Z.eqb_refl. simpl.
  rewrite (SlotPool.pool_consistent_wf _ fl) by apply Hc. simpl.
  rewrite IdIndex.index_consistent_wf by apply Hc. simpl.
  pose proof (best_price_abs Buy) as Hb. pose proof (best_price_abs Sell) as Ha. simpl in Hb, Ha. rewrite Hb, Ha.
  unfold Spec.best. destruct (head (Spec.side Buy _)) as [x|] eqn:Hx; [|done].
  destruct (head (Spec.side Sell _)) as [y|] eqn:Hy; [|done]. simpl.
  apply head_elem in Hx, Hy. pose proof (Spec.wf_uncrossed _ Hwf x y Hx Hy).
  by destruct (Z.ltb_spec (r_price x) (r_price y)); [|lia].
Qed.

End checks.
End Checks.
