(* ===== verification/Refine.v ===== *)
(** * The engine refines the abstract book

    For each operation of [OrderBook]: from a state that represents an abstract
    book it returns (no exception, no undefined behaviour, no failed assertion,
    no loop out of fuel), with the report of the abstract operation, in a state
    that represents the abstract operation's result, having pushed exactly its
    trades to the ring. *)

From stdpp Require Import base decidable list gmap fin_maps sets.
From S2P Require Import Prelude.
From S2P Require Import Types.
From S2P Require Import Ring.
From S2P Require Import Pool.
From S2P Require Import Index.
From S2P Require Import SortedMap.
From S2P Require Import Ladder.
From S2P Require Import Queue.
From S2P Require Import Spec.
From S2P Require Import Book.
From S2P Require Import Inv.
From S2P Require Import Match.
From S2P Require Import Checks.
Import BookInv.

Module Refine.

Section refine.
Context {build : Build}.
Abbreviation book := OrderBook.OrderBook.

#[local] Opaque OrderBook.rounds.

(** The queues with those of one side replaced. *)
Definition with_side (s : Side) (q : queues) (Q : Side → queues) (s' : Side) : queues :=
  if decide (s' = s) then q else Q s'.

Lemma with_side_eq s q Q : with_side s q Q s = q.
Proof. unfold with_side. by rewrite decide_True. Qed.

Lemma with_side_op s q Q : with_side s q Q (opposite s) = Q (opposite s).
Proof. unfold with_side. rewrite decide_False; [done|by destruct s]. Qed.

(** ** Assembling the invariant side by side *)

Lemma side_cases (P : Side → Prop) s : P s → P (opposite s) → ∀ s', P s'.
Proof. intros H1 H2 s'. by destruct s, s'. Qed.

Lemma inv_intro s b Q fl :
  core (OrderBook.pool b) (OrderBook.order_index b) fl (tag s (nodes (Q s)) ++ tag (opposite s) (nodes (Q (opposite s)))) →
  (∀ s', PriceLadder.wf (is_bid s') (OrderBook.ladder s' b)) →
  (∀ s', side_repr (SlotPool.slots (OrderBook.pool b)) (PriceLadder.levels (is_bid s') (OrderBook.ladder s' b)) (Q s')) →
  PriceLadder.is_placed (OrderBook.ladder s b) = PriceLadder.is_placed (OrderBook.ladder (opposite s) b) →
  (∀ s', unplaced_empty (OrderBook.ladder s' b)) →
  TradeRing.wf (OrderBook.trade_out b) → 0 ≤ OrderBook.next_seq b < two64 → inv b Q fl.
Proof.
  intros Hc Hl Hs Hp Hu Hr Hn. split; try done.
  - destruct s; simpl in *; [done|]. by rewrite (Permutation_app_comm (tag Buy _)).
  - by destruct s.
Qed.

Lemma unplaced_no_levels IB L : unplaced_empty L → PriceLadder.is_placed L = false →
  PriceLadder.levels IB L = [].
Proof.
  intros Hu Hp. destruct (Hu Hp) as [Hw Ho]. unfold PriceLadder.levels. rewrite Ho. simpl. rewrite app_nil_r.
  apply PriceLadder.omap_all_None. intros i _. unfold PriceLadder.slot_level.
  destruct ((PriceLadder.window L).[i]) as [l|] eqn:Hl; simpl; [|done]. rewrite Hw in Hl.
  by apply PriceLadder.vmake_lookup_eq in Hl as ->.
Qed.

(** ** Matching *)

Lemma queues_le v ls (Q : queues) : side_repr v ls Q → (length Q ≤ length (nodes Q))%nat.
Proof.
  induction 1 as [|x [p q] ls Q (_ & Hq & _) HQ IH]; [done|]. rewrite nodes_cons, length_app.
  destruct q; simpl in *; [done|lia].
Qed.

Lemma match_refines b Q fl s limit incoming rep : inv b Q fl → Spec.wf (abs b Q) →
  0 ≤ o_qty incoming < two32 → stp_halted rep = false →
  let m := Spec.match_queue (OrderBook.policy b) limit incoming rep (OrderBook.next_seq b) (orders (Q s)) in
  ∃ b' Q' fl', OrderBook.match_ s b incoming limit rep = Ok (b', Spec.m_taker m, Spec.m_rep m) ∧ inv b' Q' fl' ∧
  abs b' Q' = Spec.set_seq (Spec.m_seq m) (Spec.set_side s (Spec.m_queue m) (abs b Q)) ∧
  TradeRing.abs (OrderBook.trade_out b') =
    foldl TradeRing.fifo_push (TradeRing.abs (OrderBook.trade_out b)) (Spec.m_trades m).
Proof.
  intros Hinv Hwf Hq Hh. pose proof (Checks.inv_sides b Q fl Hinv s) as Hs.
  pose proof (Matching.rounds_enough s b _ _ _ Hs). pose proof (queues_le _ _ _ (i_side _ _ _ Hinv s)).
  destruct (Matching.match_loop_spec s (OrderBook.rounds b) limit b _ _ fl incoming rep Hs) as
    (b' & Qs' & fl' & Hm & Hs' & (Hop & Hpol & _) & Hord & Hfr & Hnil & Ht & Hn); [by eapply Checks.orders_ok_side|done|lia|done|].
  intros m. exists b', (with_side s Qs' Q), fl'. split; [done|]. destruct Hs' as [Hc Hl Hsd Hot Hr Hsq].
  assert (Hpl : PriceLadder.is_placed (OrderBook.ladder s b') = PriceLadder.is_placed (OrderBook.ladder s b)) by apply Hfr.
  split_and!; [|unfold abs|done].
  - apply (inv_intro s); rewrite ?with_side_eq, ?with_side_op; try done.
    + apply (side_cases _ s); [done|]. rewrite Hop. apply Hinv.
    + apply (side_cases _ s); [by rewrite with_side_eq|by rewrite with_side_op].
    + rewrite Hpl, Hop. pose proof (i_placed _ _ _ Hinv). by destruct s.
    + apply (side_cases _ s); [|rewrite Hop; apply Hinv]. intros Hup. rewrite Hpl in Hup.
      pose proof (i_unplaced _ _ _ Hinv s) as Hu. pose proof (i_side _ _ _ Hinv s) as Hsd0.
      rewrite (unplaced_no_levels _ _ Hu Hup) in Hsd0. inversion Hsd0 as [HQ|]. rewrite Hnil by done. by apply Hu.
  - rewrite Hpol, Hn. unfold m, Spec.set_seq, Spec.set_side. rewrite <-Hord.
    destruct s; simpl; unfold with_side; rewrite ?decide_True, ?decide_False by done; done.
Qed.

(** ** Placing the windows *)

Lemma centred_base_range price n : 0 ≤ price < two64 → 0 ≤ n < two64 →
  0 ≤ OrderBook.centred_base price n < two64.
Proof.
  intros Hp Hn. unfold OrderBook.centred_base. destruct (Z.eqb_spec n 0); [done|].
  pose proof (u64_range (kMaxPrice - u64 (n - 1))). pose proof (u64_range (price - n / 2)).
  destruct (n / 2 <=? price); lia.
Qed.

(** The windows are in place before an order rests; no order moves. *)
Definition placed_for (s : Side) (b : book) (price : Price) : book :=
  if negb (PriceLadder.is_placed (OrderBook.ladder s b)) then OrderBook.place_windows b price else b.

Lemma placed_for_inv s b Q fl price : inv b Q fl → 0 ≤ price < two64 →
  let b' := placed_for s b price in
  inv b' Q fl ∧ abs b' Q = abs b Q ∧ OrderBook.pool b' = OrderBook.pool b ∧
  OrderBook.order_index b' = OrderBook.order_index b ∧ OrderBook.trade_out b' = OrderBook.trade_out b ∧
  ∀ s', PriceLadder.is_placed (OrderBook.ladder s' b') = true.
Proof.
  intros Hinv Hp b'. unfold b', placed_for. pose proof (i_placed _ _ _ Hinv) as Hpl.
  destruct (PriceLadder.is_placed (OrderBook.ladder s b)) eqn:Hs; simpl.
  { split_and!; try done. intros s'. by destruct s, s'; simpl in *; congruence. }
  assert (Hup : ∀ s', PriceLadder.is_placed (OrderBook.ladder s' b) = false)
    by (intros s'; by destruct s, s'; simpl in *; congruence).
  assert (Hsz : 0 ≤ zlen (PriceLadder.window (OrderBook.bids b)) < two64).
  { split; [apply zlen_nonneg|]. apply (PriceLadder.sh_size true), (PriceLadder.wf_shape true), (i_ladder _ _ _ Hinv Buy). }
  pose proof (centred_base_range price _ Hp Hsz) as Hbase.
  assert (Hplace : ∀ s', let L' := PriceLadder.place (OrderBook.ladder s' b)
      (OrderBook.centred_base price (PriceLadder.capacity (OrderBook.bids b))) in
    PriceLadder.wf (is_bid s') L' ∧ PriceLadder.levels (is_bid s') L' = [] ∧ PriceLadder.is_placed L' = true).
  { intros s'. destruct (i_unplaced _ _ _ Hinv s' (Hup s')) as [Hw Ho].
    destruct (PriceLadder.ladder_place_spec (is_bid s') (OrderBook.ladder s' b) _ (i_ladder _ _ _ Hinv s') Hbase Hw Ho)
      as (? & ? & _ & _ & ?). done. }
  split_and!; try done; [|by intros [|]].
  assert (HQ : ∀ s', Q s' = []).
  { intros s'. pose proof (i_side _ _ _ Hinv s') as Hsd.
    rewrite (unplaced_no_levels _ _ (i_unplaced _ _ _ Hinv s') (Hup s')) in Hsd. by inversion Hsd. }
  destruct Hinv as [Hc Hl Hsd _ _ Hr Hn]. split; try done.
  - intros [|]; [apply (Hplace Buy)|apply (Hplace Sell)].
  - intros s'. rewrite HQ. assert (PriceLadder.levels (is_bid s') (OrderBook.ladder s' (OrderBook.place_windows b price)) = []) as ->
      by (destruct s'; [apply (Hplace Buy)|apply (Hplace Sell)]). constructor.
  - by intros [|] ?.
Qed.

(** ** A new order among the queues *)

Lemma enqueue_skip IB l1 l2 r : (∀ x, x ∈ l1 → better IB (r_price r) (r_price x) = false) →
  Spec.enqueue IB (l1 ++ l2) r = l1 ++ Spec.enqueue IB l2 r.
Proof.
  induction l1 as [|x l1 IH]; [done|]. intros Hx. simpl. rewrite Hx by left. f_equal.
  apply IH. intros y Hy. apply Hx. by right.
Qed.

(** Appending to the queue of its price is [enqueue] on the flat list. *)
Lemma orders_put IB (Q : queues) p n : StdMap.sorted IB Q → r_price n.2 = p →
  (∀ p' q, (p', q) ∈ Q → q ≠ [] ∧ ∀ m, m ∈ q → r_price m.2 = p') →
  orders (StdMap.put IB Q p (default [] (StdMap.find Q p) ++ [n])) = Spec.enqueue IB (orders Q) n.2.
Proof.
  intros Hs Hp. induction Q as [|[p' q] Q IH]; intros HQ; [done|].
  pose proof (StdMap.sorted_cons IB p' q Q) as [Hcons _]. destruct (Hcons Hs) as [Hs' Hb].
  destruct (HQ p' q ltac:(left)) as [Hq Hpr].
  assert (Hpr2 : ∀ x, x ∈ q.*2 → r_price x = p') by (intros x (m & -> & Hm)%list_elem_of_fmap; by apply Hpr).
  destruct (better IB p p') eqn:Hlt.
  - rewrite (StdMap.find_None_better IB) by done. simpl. rewrite Hlt, !orders_cons. simpl.
    destruct q as [|m q]; [done|]. csimpl. rewrite Hp, (Hpr m) by left. by rewrite Hlt.
  - simpl. rewrite Hlt. destruct (Z.eqb_spec p' p) as [->|Hne]; rewrite !orders_cons, enqueue_skip.
    + simpl. rewrite fmap_app, <-app_assoc. f_equal. simpl. destruct Q as [|[p2 q2] Q]; [done|].
      destruct (HQ p2 q2 ltac:(right; left)) as [Hq2 Hpr3]. destruct q2 as [|m q2]; [done|]. rewrite orders_cons. csimpl.
      rewrite Hp, (Hpr3 m) by left. by rewrite (Hb p2 (m :: q2)) by left.
    + intros x Hx. by rewrite (Hpr2 x Hx), Hp.
    + rewrite IH; [done..|]. intros p2 q2 Hq2. apply HQ. by right.
    + intros x Hx. by rewrite (Hpr2 x Hx), Hp.
Qed.

Lemma side_repr_cons v ls (Q : queues) p l q : side_repr v ls Q → q ≠ [] → Queue.level_repr v p l q →
  side_repr v ((p, l) :: ls) ((p, q) :: Q).
Proof. intros. by apply Forall2_cons. Qed.

(** Writing one level: the queues at the other prices must not have moved. *)
Lemma side_repr_put IB v v' ls (Q : queues) p l q : side_repr v ls Q → StdMap.sorted IB Q →
  (∀ p' q', (p', q') ∈ Q → p' ≠ p → ∀ i, i ∈ q'.*1 → v'.[i] = v.[i]) →
  q ≠ [] → Queue.level_repr v' p l q → side_repr v' (StdMap.put IB ls p l) (StdMap.put IB Q p q).
Proof.
  intros HQ Hs Hfr Hq Hl. induction HQ as [|[p1 l1] [p2 q1] ls Q (E & Hq1 & Hl1) HQ IH]; simpl in *.
  { apply side_repr_cons; [constructor|done..]. }
  subst p2. apply (StdMap.sorted_cons IB) in Hs as [Hs Hb].
  assert (Hrest : (∀ k x, (k, x) ∈ Q → k ≠ p) → side_repr v' ls Q).
  { intros Hne. eapply side_repr_frame; [|exact HQ]. intros i (n & -> & (p' & q' & Hpq & Hn)%elem_of_nodes)%list_elem_of_fmap.
    eapply (Hfr p' q'); [by right|by eapply Hne|]. apply list_elem_of_fmap. by exists n. }
  assert (Hhead : p1 ≠ p → Queue.level_repr v' p1 l1 q1).
  { intros Hne. eapply Queue.level_repr_frame; [|exact Hl1]. eapply Hfr; [left|done]. }
  destruct (better IB p p1) eqn:Hlt.
  - pose proof (StdMap.better_ne _ _ _ Hlt). do 2 (apply side_repr_cons; try done); [|by apply Hhead].
    apply Hrest. intros k x Hk ->. pose proof (StdMap.better_asym _ _ _ (Hb _ _ Hk)). congruence.
  - destruct (Z.eqb_spec p1 p) as [->|Hne]; apply side_repr_cons; try done.
    + apply Hrest. intros k x Hk ->. pose proof (Hb _ _ Hk) as H. by rewrite StdMap.better_irrefl in H.
    + apply IH; [done|]. intros p' q' Hpq. apply Hfr. by right.
    + by apply Hhead.
Qed.

(** Queues at different prices share no slot. *)
Lemma queues_disjoint (Q : queues) p1 q1 p2 q2 i : NoDup (nodes Q).*1 → (p1, q1) ∈ Q → (p2, q2) ∈ Q → p1 ≠ p2 →
  i ∈ q1.*1 → i ∉ q2.*1.
Proof.
  induction Q as [|[p q] Q IH]; [by intros _ ?%elem_of_nil|]. rewrite nodes_cons, fmap_app.
  intros (_ & Hd & Hn)%NoDup_app H1 H2 Hne Hi Hi2.
  assert (Hin : ∀ p' q', (p', q') ∈ Q → i ∈ q'.*1 → i ∈ (nodes Q).*1).
  { intros p' q' Hpq (n & -> & Hn')%list_elem_of_fmap. apply list_elem_of_fmap. exists n. split; [done|].
    apply elem_of_nodes. by exists p', q'. }
  apply elem_of_cons in H1 as [[= -> ->]|H1]; apply elem_of_cons in H2 as [[= -> ->]|H2]; try done.
  - by eapply Hd, Hin.
  - by eapply Hd, Hin.
  - by eapply IH.
Qed.

Lemma queue_nodup (Q : queues) p q : NoDup (nodes Q).*1 → (p, q) ∈ Q → NoDup q.*1.
Proof.
  intros Hn (Q1 & Q2 & ->)%list_elem_of_split. rewrite nodes_app, nodes_cons, !fmap_app in Hn.
  apply NoDup_app in Hn as (_ & _ & Hn). by apply NoDup_app in Hn as (? & _).
Qed.

Lemma side_nodup s b Q fl : inv b Q fl → NoDup (nodes (Q s)).*1 ∧
  (∀ j, j ∈ fl → j ∉ (nodes (Q s)).*1) ∧ ∀ j, j ∈ (nodes (Q s)).*1 → j ∉ (nodes (Q (opposite s))).*1.
Proof.
  intros Hinv. destruct (core_nodup _ (Checks.core_side b Q fl Hinv s)) as [Hn Hd].
  rewrite fmap_app, !Matching.slots_tag in Hn, Hd. apply NoDup_app in Hn as (Hn & Hx & _).
  split_and!; [done| |done]. intros j Hj Hin. apply (Hd j Hj). apply elem_of_app. by left.
Qed.

Lemma side_repr_find_queue v ls (Q : queues) p : side_repr v ls Q →
  match StdMap.find ls p, StdMap.find Q p with
  | Some l, Some q => q ≠ [] ∧ Queue.level_repr v p l q
  | None, None => True
  | _, _ => False
  end.
Proof.
  induction 1 as [|[p1 l1] [p2 q1] ls Q (E & Hq1 & Hl1) HQ IH]; [done|]. simpl in *. subst p2.
  destruct (Z.eqb_spec p1 p) as [->|]; done.
Qed.

Lemma nodes_put IB (Q : queues) p n : StdMap.sorted IB Q →
  nodes (StdMap.put IB Q p (default [] (StdMap.find Q p) ++ [n])) ≡ₚ n :: nodes Q.
Proof.
  intros Hs. induction Q as [|[p' q] Q IH]; [done|].
  pose proof Hs as [Hs' Hb]%(StdMap.sorted_cons IB).
  destruct (better IB p p') eqn:Hlt.
  - rewrite (StdMap.find_None_better IB) by done. simpl. by rewrite Hlt.
  - simpl. rewrite Hlt. destruct (p' =? p); rewrite !nodes_cons.
    + simpl. rewrite <-app_assoc. simpl. by rewrite <-Permutation_middle.
    + rewrite IH by done. by rewrite <-Permutation_middle.
Qed.

(** Taking a slot for a new order: the record is in place, every queue as it was. *)
Lemma take_slot_spec (p : slot_pool) t fl all r : core p t fl all → zlen all < two31 → ∃ p1 p2,
  let i := SlotPool.next_slot p fl in
  SlotPool.acquire p = Ok (i, p1) ∧ 0 ≤ i < two31 ∧
  Queue.modify_slot p1 i (λ n, Queue.with_value n r) = Ok p2 ∧
  (SlotPool.slots p2).[i] = Some (SlotPool.MkSlot r kNoSlot kNoSlot) ∧
  SlotPool.wf p2 (tail fl) ∧ SlotPool.used p2 = SlotPool.used_after p fl ∧
  zlen (SlotPool.slots p) ≤ zlen (SlotPool.slots p2) ∧ i ∉ slot_in <$> all ∧ i ∉ tail fl ∧
  ∀ j x, j ≠ i → (SlotPool.slots p).[j] = Some x → (SlotPool.slots p2).[j] = Some x.
Proof.
  intros Hc Hlt. pose proof (c_pool _ _ _ _ Hc) as Hp. pose proof (core_length _ Hc) as Hlen.
  pose proof (SlotPool.wf_live _ _ Hp) as Hlive. pose proof (c_used _ _ _ _ Hc).
  destruct (SlotPool.pool_acquire_spec p fl Hp (c_room _ _ _ _ Hc)) as
    (p1 & v & Hacq & Hp1 & Hu1 & _ & Hz1 & Hs1 & Hfr1).
  { intros ->. change (zlen []) with 0 in Hlive. bounds. }
  assert (Hi : 0 ≤ SlotPool.next_slot p fl < two31).
  { unfold SlotPool.next_slot. destruct fl as [|x fl]; [change (zlen []) with 0 in Hlive; pose proof (zlen_nonneg all); lia|].
    pose proof (SlotPool.wf_range _ _ Hp x ltac:(left)). lia. }
  assert (Hni : SlotPool.next_slot p fl ∉ slot_in <$> all).
  { intros Hin. apply list_elem_of_fmap in Hin as ([s' [j r']] & E & Hin). simpl in E.
    destruct (core_live _ _ _ _ Hc Hin) as ([Hu Hn] & _). unfold slot_in in E. simpl in E. subst j.
    unfold SlotPool.next_slot in *. destruct fl; [lia|]. apply Hn. left. }
  exists p1. eexists. split; [done|]. split; [done|].
  split; [by apply Queue.modify_slot_ok|]. simpl. split_and!; try done.
  - apply zlookup_zset_eq. by eapply zlookup_range.
  - eapply (Queue.same_pool_wf p1); [split_and!; try done; simpl; by rewrite zlen_zset| |exact Hp1].
    intros j Hj. simpl. apply zlookup_zset_ne. intros <-.
    unfold SlotPool.next_slot in Hj. destruct fl as [|x fl]; simpl in Hj; [by apply elem_of_nil in Hj|].
    pose proof (SlotPool.wf_nodup _ _ Hp) as [? _]%NoDup_cons. done.
  - by rewrite zlen_zset.
  - unfold SlotPool.next_slot. destruct fl as [|x fl]; simpl; [by intros ?%elem_of_nil|].
    by pose proof (SlotPool.wf_nodup _ _ Hp) as [? _]%NoDup_cons.
  - intros j x Hj Hx. rewrite zlookup_zset_ne by congruence. by apply Hfr1.
Qed.

Lemma find_queue_in (Q : queues) p n : n ∈ default [] (StdMap.find Q p) → n ∈ nodes Q.
Proof.
  destruct (StdMap.find Q p) as [q|] eqn:Hf; simpl; [|by intros ?%elem_of_nil].
  intros Hn. apply elem_of_nodes. exists p, q. split; [|done]. by eapply StdMap.find_Some_elem.
Qed.

Lemma side_repr_queue v ls (Q : queues) p q : side_repr v ls Q → (p, q) ∈ Q →
  q ≠ [] ∧ ∀ n, n ∈ q → r_price n.2 = p.
Proof.
  intros HQ (Q1 & Q2 & ->)%list_elem_of_split. apply side_repr_split in HQ as (_ & l & _ & _ & _ & ? & Hl & _).
  split; [done|]. apply Hl.
Qed.

Lemma side_repr_sorted IB v ls (Q : queues) : side_repr v ls Q → StdMap.sorted IB ls → StdMap.sorted IB Q.
Proof.
  induction 1 as [|[p l] [p' q] ls Q (E & _) HQ IH]; [constructor|]. simpl in E. subst p'.
  intros [Hs Hb]%StdMap.sorted_cons. apply StdMap.sorted_cons. split; [by apply IH|].
  intros k x Hk. assert (k ∈ Q.*1) as Hk' by (apply list_elem_of_fmap; by exists (k, x)).
  rewrite (side_repr_keys _ _ _ HQ) in Hk'. apply list_elem_of_fmap in Hk' as ([k' x'] & -> & Hin). by eapply Hb.
Qed.

Lemma queues_sorted s b Q fl : inv b Q fl → StdMap.sorted (is_bid s) (Q s).
Proof.
  intros Hinv. eapply side_repr_sorted; [apply Hinv|]. apply PriceLadder.levels_sorted. apply (i_ladder _ _ _ Hinv s).
Qed.

Lemma set_side_abs s b b' Q q : OrderBook.policy b' = OrderBook.policy b → OrderBook.next_seq b' = OrderBook.next_seq b →
  abs b' (with_side s q Q) = Spec.set_side s (orders q) (abs b Q).
Proof.
  intros Hp Hn. unfold abs, Spec.set_side. rewrite Hp, Hn.
  destruct s; simpl; unfold with_side; rewrite ?decide_True, ?decide_False by done; done.
Qed.

(** The level an arriving order joins, as the frame of the queues sees it. *)
Lemma queue_at_level s b Q fl p2 p : inv b Q fl →
  (∀ j, j ∈ (nodes (Q s)).*1 → (SlotPool.slots p2).[j] = (SlotPool.slots (OrderBook.pool b)).[j]) →
  Queue.level_repr (SlotPool.slots p2) p
    (default empty_level (StdMap.find (PriceLadder.levels (is_bid s) (OrderBook.ladder s b)) p))
    (default [] (StdMap.find (Q s) p)).
Proof.
  intros Hinv Hfr. pose proof (side_repr_find_queue _ _ _ p (i_side _ _ _ Hinv s)) as Hf.
  destruct (StdMap.find _ p) as [l|], (StdMap.find (Q s) p) as [q|] eqn:Hq; simpl; try done.
  - destruct Hf as [_ Hl]. eapply Queue.level_repr_frame, Hl. intros i (n & -> & Hn)%list_elem_of_fmap.
    apply Hfr. apply list_elem_of_fmap. exists n. split; [done|]. apply (find_queue_in _ p). by rewrite Hq.
  - apply Queue.level_repr_empty.
Qed.

Lemma nodes_frame s b Q fl (v' : list (SlotPool.Slot RestingOrder)) i : inv b Q fl → i ∉ (nodes (Q s)).*1 →
  (∀ j x, j ≠ i → (SlotPool.slots (OrderBook.pool b)).[j] = Some x → v'.[j] = Some x) →
  ∀ j, j ∈ (nodes (Q s)).*1 → v'.[j] = (SlotPool.slots (OrderBook.pool b)).[j].
Proof.
  intros Hinv Hi Hfr j Hj. pose proof Hj as ([k r] & -> & Hn)%list_elem_of_fmap.
  destruct (Checks.node_slot b Q fl Hinv s k r Hn) as (a & c & Hs). simpl. rewrite Hs. apply Hfr; [|done].
  intros E. apply Hi. by rewrite <-E.
Qed.

Lemma inserted_book s L p t (b : book) :
  let b' := OrderBook.set_index t (OrderBook.set_pool p (OrderBook.set_ladder s L b)) in
  OrderBook.ladder s b' = L ∧ OrderBook.ladder (opposite s) b' = OrderBook.ladder (opposite s) b ∧
  OrderBook.pool b' = p ∧ OrderBook.order_index b' = t ∧ OrderBook.trade_out b' = OrderBook.trade_out b ∧
  OrderBook.next_seq b' = OrderBook.next_seq b ∧ OrderBook.policy b' = OrderBook.policy b.
Proof. by destruct s. Qed.

(** The invariant once slot [i] holds the new order [r] at the end of its
    level's queue, the level is written back and the id is indexed. *)
Lemma insert_inv s b Q fl r p3 L2 t' l' : let i := SlotPool.next_slot (OrderBook.pool b) fl in
  let price := r_price r in let q := default [] (StdMap.find (Q s) price) in
  inv b Q fl → (∀ s', PriceLadder.is_placed (OrderBook.ladder s' b) = true) → i < two31 →
  r_id r ∉ Spec.ids (abs b Q) →
  SlotPool.wf p3 (tail fl) → SlotPool.used p3 = SlotPool.used_after (OrderBook.pool b) fl →
  zlen (SlotPool.slots (OrderBook.pool b)) ≤ zlen (SlotPool.slots p3) →
  (∀ s' j, j ∈ (nodes (Q s')).*1 → j ∉ q.*1 → (SlotPool.slots p3).[j] = (SlotPool.slots (OrderBook.pool b)).[j]) →
  Queue.level_repr (SlotPool.slots p3) price l' (q ++ [(i, r)]) →
  PriceLadder.wf (is_bid s) L2 → PriceLadder.same_frame (OrderBook.ladder s b) L2 →
  PriceLadder.levels (is_bid s) L2 = StdMap.put (is_bid s) (PriceLadder.levels (is_bid s) (OrderBook.ladder s b)) price l' →
  IdIndex.wf t' →
  IdIndex.contents t' = <[r_id r := OrderBook.index_value i s]> (IdIndex.contents (OrderBook.order_index b)) →
  let b' := OrderBook.set_index t' (OrderBook.set_pool p3 (OrderBook.set_ladder s L2 b)) in
  let Q' := with_side s (StdMap.put (is_bid s) (Q s) price (q ++ [(i, r)])) Q in
  inv b' Q' (tail fl) ∧ abs b' Q' = Spec.set_side s (Spec.enqueue (is_bid s) (orders (Q s)) r) (abs b Q).
Proof.
  intros i price q Hinv Hpl Hi Hid Hp3 Hu3 Hz3 Hfr Hl' Hwf2 Hfr2 Hlv2 Ht' Hct' b' Q'.
  destruct (inserted_book s L2 p3 t' b) as (E1 & E2 & E3 & E4 & E5 & E6 & E7). fold b' in E1, E2, E3, E4, E5, E6, E7.
  destruct (side_nodup s b Q fl Hinv) as (Hnd & Hndf & Hndo). pose proof (queues_sorted s b Q fl Hinv) as Hsort.
  assert (Hqin : ∀ j, j ∈ q.*1 → ∃ q', (price, q') ∈ Q s ∧ j ∈ q'.*1).
  { unfold q. intros j Hj. destruct (StdMap.find (Q s) price) as [q'|] eqn:Hf; [|by apply elem_of_nil in Hj].
    exists q'. split; [by eapply StdMap.find_Some_elem|done]. }
  assert (Hqn : ∀ j, j ∈ q.*1 → j ∈ (nodes (Q s)).*1).
  { intros j (n & -> & Hn)%list_elem_of_fmap. apply list_elem_of_fmap. exists n. split; [done|]. by eapply find_queue_in. }
  split.
  - apply (inv_intro s); unfold Q'; rewrite ?with_side_eq, ?with_side_op, ?E1, ?E2, ?E3, ?E4, ?E5, ?E6; try apply Hinv.
    + assert (nodes (StdMap.put (is_bid s) (Q s) price (q ++ [(i, r)])) ≡ₚ (i, r) :: nodes (Q s)) as Hperm by by apply nodes_put.
      unfold tag at 1. rewrite Hperm. change (pair s <$> (i, r) :: nodes (Q s)) with ((s, (i, r)) :: tag s (nodes (Q s))). rewrite <-app_comm_cons.
      eapply core_arrive; try done; [by apply Checks.core_side|].
      intros Hin. apply Hid. rewrite <-Checks.ids_all. revert Hin. clear. destruct s; cbn [opposite]; rewrite !fmap_app, !elem_of_app; tauto.
    + apply (side_cases _ s); [by rewrite E1|rewrite E2; apply Hinv].
    + apply (side_cases _ s); rewrite ?with_side_eq, ?with_side_op, ?E1, ?E2.
      * rewrite Hlv2. eapply side_repr_put; [apply Hinv|done| |by destruct q|done].
        intros p' q' Hpq Hne j Hj. apply Hfr with s.
        { apply list_elem_of_fmap in Hj as (n & -> & Hn). apply list_elem_of_fmap. exists n. split; [done|]. apply elem_of_nodes. by exists p', q'. }
        intros (q2 & Hq2 & Hj2)%Hqin. by eapply (queues_disjoint (Q s) p' q' price q2).
      * eapply side_repr_frame; [|apply Hinv]. intros j Hj. apply Hfr with (opposite s); [done|].
        intros ?%Hqn. by eapply Hndo.
    + destruct Hfr2 as (_ & _ & -> & _). by rewrite !Hpl.
    + apply (side_cases _ s); unfold unplaced_empty; [rewrite E1|rewrite E2, Hpl; done].
      destruct Hfr2 as (_ & _ & -> & _). by rewrite Hpl.
  - unfold Q'. rewrite (set_side_abs s b) by done. f_equal.
    apply (orders_put (is_bid s) (Q s) price (i, r)); [done..|]. intros p' q' Hpq. by eapply side_repr_queue; [apply Hinv|].
Qed.

Lemma insert_refines b Q fl order : let s := o_side order in inv b Q fl →
  0 ≤ o_price order < two64 → o_id order ∉ Spec.ids (abs b Q) → SlotPool.live (OrderBook.pool b) < two31 →
  ∃ b' Q' fl', OrderBook.insert s b order = Ok b' ∧ inv b' Q' fl' ∧
  abs b' Q' = Spec.set_side s (Spec.enqueue (is_bid s) (orders (Q s)) (resting_of order)) (abs b Q) ∧
  OrderBook.trade_out b' = OrderBook.trade_out b.
Proof.
  intros s Hinv0 Hp Hid Hlt. unfold OrderBook.insert. fold (placed_for s b (o_price order)).
  destruct (placed_for_inv s b Q fl (o_price order) Hinv0 Hp) as (Hinv & Habs & Epool & Eidx & Etr & Hpl).
  rewrite <-Etr, <-Habs in *. rewrite <-Epool in Hlt. revert Hinv Hpl Hlt Hid.
  generalize (placed_for s b (o_price order)). clear b Hinv0 Habs Epool Eidx Etr. intros b Hinv Hpl Hlt Hid.
  set (r := resting_of order). pose proof (Checks.core_side b Q fl Hinv s) as Hc.
  assert (Hall : zlen (tag s (nodes (Q s)) ++ tag (opposite s) (nodes (Q (opposite s)))) < two31)
    by by rewrite <-(core_length _ Hc).
  destruct (PriceLadder.ladder_open_spec (is_bid s) _ (o_price order) (i_ladder _ _ _ Hinv s) Hp) as (L1 & -> & Hde & Hasg).
  simpl. destruct (take_slot_spec _ _ _ _ r Hc Hall) as (p1 & p2 & -> & Hi & Hmod & Hs2 & Hp2 & Hu2 & Hz2 & Hni & Hnt & Hfr2).
  simpl. set (i := SlotPool.next_slot _ fl) in *. destruct (Z.leb_spec two31 i); [lia|].
  change (resting_of order) with r. rewrite Hmod. simpl. rewrite Hde. simpl.
  rewrite fmap_app, !Matching.slots_tag in Hni.
  assert (Hfrs : ∀ s', ∀ j, j ∈ (nodes (Q s')).*1 → (SlotPool.slots p2).[j] = (SlotPool.slots (OrderBook.pool b)).[j]).
  { apply (side_cases (λ s', ∀ j, j ∈ (nodes (Q s')).*1 → (SlotPool.slots p2).[j] = (SlotPool.slots (OrderBook.pool b)).[j]) s);
      eapply nodes_frame; try done; intros Hin; apply Hni, elem_of_app; auto. }
  pose proof (queue_at_level s b Q fl p2 (o_price order) Hinv (Hfrs s)) as Hlev.
  set (q := default [] _) in *. set (l := default empty_level _) in *.
  destruct (side_nodup s b Q fl Hinv) as (Hnd & Hndf & Hndo).
  assert (Hqn : ∀ j, j ∈ q.*1 → j ∈ (nodes (Q s)).*1).
  { intros j (n & -> & Hn)%list_elem_of_fmap. apply list_elem_of_fmap. exists n. split; [done|]. by eapply find_queue_in. }
  assert (Hndq : NoDup (i :: q.*1)).
  { apply NoDup_cons. split; [intros ?%Hqn; apply Hni, elem_of_app; by left|].
    unfold q. destruct (StdMap.find (Q s) _) as [q'|] eqn:Hf; [|constructor].
    eapply queue_nodup; [done|by eapply StdMap.find_Some_elem]. }
  destruct (Queue.append_spec p2 (o_price order) l q i _ r Hlev Hs2 eq_refl) as (p3 & l' & -> & Hl' & Hsame & Hfr3);
    [bounds|done..|].
  simpl. assert (Hne : PriceLadder.nonempty l').
  { unfold PriceLadder.nonempty. destruct (level_empty l') eqn:E; [|done].
    apply (Queue.level_repr_empty_iff _ _ _ _ Hl') in E. by destruct q. }
  destruct (Hasg l' Hne) as (L2 & -> & Hwf2 & Hfr & Hlv2). simpl.
  destruct (IdIndex.insert_spec 0 (OrderBook.order_index b) (o_id order) (OrderBook.index_value i s)) as (t' & Hins & Ht' & Hct' & _).
  { apply Hc. }
  { apply (core_lookup_None _ (o_id order) (i_core _ _ _ Hinv)). by rewrite (Checks.ids_all b). }
  { rewrite (core_count _ Hc). lia. }
  fold s. rewrite Hins. simpl.
  pose proof Hsame as (Hu3 & _ & _ & Hz3).
  assert (Hp3 : SlotPool.wf p3 (tail fl)).
  { eapply Queue.same_pool_wf; [exact Hsame| |exact Hp2]. intros j Hj. apply Hfr3. intros [->|Hjq]%elem_of_cons; [done|].
    eapply Hndf; [|by apply Hqn]. destruct fl; [by apply elem_of_nil in Hj|by right]. }
  assert (Hfrq : ∀ s' j, j ∈ (nodes (Q s')).*1 → j ∉ q.*1 → (SlotPool.slots p3).[j] = (SlotPool.slots (OrderBook.pool b)).[j]).
  { intros s' j Hj Hjq. rewrite Hfr3; [by apply (Hfrs s')|]. intros [->|?]%elem_of_cons; [|done].
    apply Hni, elem_of_app. by destruct s, s'; auto. }
  destruct (insert_inv s b Q fl r p3 L2 t' l') as [Hinv' Habs']; try done; [congruence|lia|].
  eexists _, _, _. split_and!; [done|exact Hinv'|exact Habs'|by destruct s].
Qed.

(** ** Removing an order *)

(** The level at [p] is written back with queue [q'], or closed when that is empty. *)
Lemma settle_level s b Q fl Q1 p q Q2 l v' l' q' : inv b Q fl → Q s = Q1 ++ (p, q) :: Q2 →
  StdMap.find (PriceLadder.levels (is_bid s) (OrderBook.ladder s b)) p = Some l →
  Queue.level_repr v' p l' q' →
  (∀ j, j ∈ (nodes Q1).*1 ++ (nodes Q2).*1 → v'.[j] = (SlotPool.slots (OrderBook.pool b)).[j]) → ∃ L1 L',
  PriceLadder.assign (is_bid s) (OrderBook.ladder s b) (PriceLadder.ref_of (OrderBook.ladder s b) p) l' = Ok L1 ∧
  (if level_empty l' then PriceLadder.closed (is_bid s) L1 p else Ok L1) = Ok L' ∧
  PriceLadder.wf (is_bid s) L' ∧ PriceLadder.same_frame (OrderBook.ladder s b) L' ∧
  side_repr v' (PriceLadder.levels (is_bid s) L') (if decide (q' = []) then Q1 ++ Q2 else Q1 ++ (p, q') :: Q2).
Proof.
  intros Hinv HQ Hf Hl' Hfr. pose proof (i_ladder _ _ _ Hinv s) as Hwf. pose proof (PriceLadder.wf_shape _ _ Hwf) as Hsh.
  pose proof (PriceLadder.levels_sorted _ _ Hsh) as Hsort. pose proof (i_side _ _ _ Hinv s) as Hs. rewrite HQ in Hs.
  assert (Hp : 0 ≤ p < two64) by (eapply (PriceLadder.levels_range (is_bid s)); [done|by eapply StdMap.find_Some_elem]).
  destruct (side_repr_split _ _ _ _ _ _ Hs) as (ls1 & l1 & ls2 & Hls & H1 & _ & _ & H2).
  assert (Hs' : ∀ ls Q', side_repr (SlotPool.slots (OrderBook.pool b)) ls Q' → (∀ j, j ∈ (nodes Q').*1 → j ∈ (nodes Q1).*1 ++ (nodes Q2).*1) →
    side_repr v' ls Q') by (intros ls Q' HQ' Hj; eapply side_repr_frame; [|done]; intros j Hjq; by apply Hfr, Hj).
  apply Hs' in H1; [|intros j Hj; apply elem_of_app; by left]. apply Hs' in H2; [|intros j Hj; apply elem_of_app; by right].
  exists (PriceLadder.upd (is_bid s) (OrderBook.ladder s b) p l').
  rewrite PriceLadder.assign_upd; [|done..|by eapply PriceLadder.levels_present].
  rewrite Hls in Hsort. destruct (level_empty l') eqn:He.
  - assert (q' = []) as -> by by apply (Queue.level_repr_empty_iff _ _ _ _ Hl').
    pose proof (Queue.level_repr_nil _ _ _ Hl') as ->. rewrite decide_True by done.
    destruct (PriceLadder.closed_upd _ _ _ _ Hwf Hp Hf) as (L' & -> & Hwf' & Hfr' & Hlv'). exists L'.
    split_and!; try done. rewrite Hlv', Hls, (StdMap.erase_mid (is_bid s)) by done. by apply Forall2_app.
  - rewrite decide_False by (intros ->; by rewrite (Queue.level_repr_nil _ _ _ Hl') in He).
    destruct (PriceLadder.upd_wf _ _ _ _ l' Hwf Hp Hf He) as [Hwf' Hlv'].
    eexists. split_and!; [done..|apply PriceLadder.upd_frame|].
    rewrite Hlv', Hls, StdMap.put_mid by done. apply Forall2_app; [done|]. apply side_repr_cons; [done| |done].
    intros ->. by rewrite (Queue.level_repr_nil _ _ _ Hl') in He.
Qed.

Lemma nodes_settled Q1 p (qa qb : list node) n Q2 :
  nodes (if decide (qa ++ qb = []) then Q1 ++ Q2 else Q1 ++ (p, qa ++ qb) :: Q2) = (nodes Q1 ++ qa) ++ qb ++ nodes Q2 ∧
  nodes (Q1 ++ (p, qa ++ n :: qb) :: Q2) = (nodes Q1 ++ qa) ++ n :: qb ++ nodes Q2.
Proof.
  split.
  - destruct (decide _) as [[-> ->]%app_eq_nil|]; rewrite nodes_app, ?nodes_cons; simpl; [by rewrite app_nil_r|].
    by rewrite <-!app_assoc.
  - by rewrite nodes_app, nodes_cons, <-!app_assoc.
Qed.

(** Cutting one order out of a side. *)
Lemma remove_inv s b Q fl Q1 p qa i r qb Q2 p' t' L' : inv b Q fl → Spec.wf (abs b Q) →
  Q s = Q1 ++ (p, qa ++ (i, r) :: qb) :: Q2 →
  let Qn := if decide (qa ++ qb = []) then Q1 ++ Q2 else Q1 ++ (p, qa ++ qb) :: Q2 in
  SlotPool.wf p' (i :: fl) → SlotPool.used p' = SlotPool.used (OrderBook.pool b) →
  zlen (SlotPool.slots p') = zlen (SlotPool.slots (OrderBook.pool b)) →
  (∀ j, j ∈ (nodes (Q (opposite s))).*1 → (SlotPool.slots p').[j] = (SlotPool.slots (OrderBook.pool b)).[j]) →
  PriceLadder.wf (is_bid s) L' → PriceLadder.same_frame (OrderBook.ladder s b) L' →
  side_repr (SlotPool.slots p') (PriceLadder.levels (is_bid s) L') Qn →
  IdIndex.wf t' → IdIndex.contents t' = delete (r_id r) (IdIndex.contents (OrderBook.order_index b)) →
  let b' := OrderBook.set_ladder s L' (OrderBook.set_pool p' (OrderBook.set_index t' b)) in
  inv b' (with_side s Qn Q) (i :: fl) ∧
  abs b' (with_side s Qn Q) = Spec.set_side s (Spec.remove_id (r_id r) (orders (Q s))) (abs b Q) ∧
  OrderBook.trade_out b' = OrderBook.trade_out b.
Proof.
  intros Hinv Hwf HQ Qn Hp' Hu' Hz' Hfr HL' Hfr' Hsd' Ht' Hct' b'.
  destruct (Matching.updated_book s L' p' (OrderBook.trade_out b) (OrderBook.next_seq b) (OrderBook.set_index t' b))
    as (E1 & E2 & E3 & E4 & E5 & (E6 & E7 & _)).
  assert (OrderBook.set_trades (OrderBook.trade_out b) (OrderBook.set_seq (OrderBook.next_seq b)
    (OrderBook.set_ladder s L' (OrderBook.set_pool p' (OrderBook.set_index t' b)))) = b') as Eb by by destruct s.
  rewrite Eb in E1, E2, E3, E4, E5, E6, E7. simpl in E3, E6, E7.
  destruct (nodes_settled Q1 p qa qb (i, r) Q2) as [Hn1 Hn2]. fold Qn in Hn1. rewrite <-HQ in Hn2.
  assert (Eop : OrderBook.ladder (opposite s) (OrderBook.set_index t' b) = OrderBook.ladder (opposite s) b) by by destruct s.
  assert (Hpl : ∀ s', PriceLadder.is_placed (OrderBook.ladder s' b) = true).
  { destruct (PriceLadder.is_placed (OrderBook.ladder s b)) eqn:Hs.
    - intros s'. pose proof (i_placed _ _ _ Hinv). destruct s, s'; simpl in *; congruence.
    - pose proof (i_side _ _ _ Hinv s) as Hsd. rewrite (unplaced_no_levels _ _ (i_unplaced _ _ _ Hinv s) Hs) in Hsd.
      apply Forall2_nil_inv_l in Hsd. rewrite HQ in Hsd. by destruct Q1. }
  rewrite Eop in E6. split_and!; [| |by rewrite E4].
  - apply (inv_intro s); rewrite ?with_side_eq, ?with_side_op, ?E1, ?E2, ?E3, ?E4, ?E5, ?E6; try apply Hinv.
    + eapply core_unlink; [|done..]. pose proof (Checks.core_side b Q fl Hinv s) as Hc.
      assert (nodes (Q s) ≡ₚ (i, r) :: nodes Qn) as Hperm by (rewrite Hn1, Hn2; by rewrite <-Permutation_middle).
      unfold tag at 1 in Hc. rewrite Hperm in Hc. exact Hc.
    + apply (side_cases _ s); [by rewrite E1|rewrite E6; apply Hinv].
    + apply (side_cases _ s); rewrite ?with_side_eq, ?with_side_op, ?E1, ?E6; [done|].
      eapply side_repr_frame; [exact Hfr|apply Hinv].
    + destruct Hfr' as (_ & _ & -> & _). by rewrite !Hpl.
    + apply (side_cases _ s); unfold unplaced_empty; [rewrite E1|rewrite E6, Hpl; done].
      destruct Hfr' as (_ & _ & -> & _). by rewrite Hpl.
  - rewrite (set_side_abs s b) by done. f_equal.
    assert (Eo : orders (Q s) = (nodes Q1 ++ qa).*2 ++ r :: (qb ++ nodes Q2).*2) by (unfold orders; by rewrite Hn2, fmap_app).
    destruct (Spec.wf_elim s _ Hwf) as (_ & _ & Hnd & _). rewrite Checks.abs_side, Eo, fmap_app in Hnd.
    apply NoDup_app in Hnd as (Hnd & _). rewrite Eo, Spec.remove_id_mid by done. unfold orders. by rewrite Hn1, fmap_app.
Qed.

Lemma remove_refines s b Q fl i r t' : inv b Q fl → Spec.wf (abs b Q) → (i, r) ∈ nodes (Q s) →
  IdIndex.wf t' → IdIndex.contents t' = delete (r_id r) (IdIndex.contents (OrderBook.order_index b)) →
  ∃ b' Q' fl', OrderBook.remove s (OrderBook.set_index t' b) i = Ok b' ∧ inv b' Q' fl' ∧
  abs b' Q' = Spec.set_side s (Spec.remove_id (r_id r) (orders (Q s))) (abs b Q) ∧
  OrderBook.trade_out b' = OrderBook.trade_out b.
Proof.
  intros Hinv Hwf Hn Ht' Hct'. pose proof Hn as (p & q & Hq & Hin)%elem_of_nodes.
  pose proof (Checks.price_at_queue b Q fl Hinv s p q _ Hq Hin) as Hpr. simpl in Hpr.
  apply list_elem_of_split in Hq as (Q1 & Q2 & HQ). apply list_elem_of_split in Hin as (qa & qb & ->).
  pose proof (i_ladder _ _ _ Hinv s) as Hl. pose proof (PriceLadder.wf_shape _ _ Hl) as Hsh.
  pose proof (i_side _ _ _ Hinv s) as Hsd. rewrite HQ in Hsd.
  destruct (side_repr_split _ _ _ _ _ _ Hsd) as (ls1 & l & ls2 & Hls & _ & _ & Hlev & _).
  assert (Hin : (p, l) ∈ PriceLadder.levels (is_bid s) (OrderBook.ladder s b)) by (rewrite Hls; apply elem_of_app; right; left).
  pose proof (PriceLadder.levels_range _ _ _ _ Hsh Hin) as Hp.
  pose proof (StdMap.elem_find (is_bid s) _ _ _ (PriceLadder.levels_sorted _ _ Hsh) Hin) as Hf.
  destruct (Checks.node_slot b Q fl Hinv s i r Hn) as (a & c & Hslot).
  destruct (side_nodup s b Q fl Hinv) as (Hnd & Hndf & Hndo).
  pose proof (Checks.core_side b Q fl Hinv s) as Hc.
  destruct (core_live _ s i r Hc) as (Hlive & _).
  { apply elem_of_app. left. apply list_elem_of_fmap. by exists (i, r). }
  rewrite HQ, nodes_app, nodes_cons, !fmap_app in Hnd.
  pose proof Hnd as (_ & Hd1 & (Hndq & Hd2 & _)%NoDup_app)%NoDup_app.
  assert (Hqn : ∀ j, j ∈ (qa ++ (i, r) :: qb).*1 → j ∈ (nodes (Q s)).*1).
  { intros j Hj. rewrite HQ, nodes_app, nodes_cons, !fmap_app, !elem_of_app. right; left. by rewrite fmap_app, elem_of_app in Hj. }
  destruct (Queue.detach_spec (OrderBook.pool b) p l qa i r qb fl Hlev) as (p' & l' & Hdet & Hl' & Hp' & Hu' & _ & Hz' & Hfr).
  { by rewrite fmap_app. }
  { apply Hc. }
  { intros j Hj Hjq. by eapply Hndf, Hqn. }
  { done. }
  destruct (settle_level s b Q fl Q1 p _ Q2 l (SlotPool.slots p') l' (qa ++ qb) Hinv HQ Hf Hl') as (L1 & L' & Has & Hcl & HL' & Hfr' & Hsd').
  { intros j Hj. apply Hfr. rewrite fmap_app. intros Hjq. apply elem_of_app in Hj as [Hj|Hj].
    - eapply Hd1; [done|]. apply elem_of_app. by left.
    - by eapply Hd2. }
  unfold OrderBook.remove. assert (OrderBook.ladder s (OrderBook.set_index t' b) = OrderBook.ladder s b) as -> by by destruct s.
  simpl. rewrite (SlotPool.at_ok _ _ _ Hslot). simpl. rewrite Hpr, (PriceLadder.ladder_find_spec (is_bid s)), Hf by done. simpl.
  rewrite (PriceLadder.ladder_deref_spec (is_bid s) _ Hsh p l) by done. simpl. rewrite Hdet. simpl. rewrite Has. simpl. rewrite Hcl. simpl.
  destruct (remove_inv s b Q fl Q1 p qa i r qb Q2 p' t' L') as (Hinv' & Habs' & Htr'); try done.
  { intros j Hj. apply Hfr. intros Hjq. eapply Hndo; [by apply Hqn|done]. }
  eexists _, _, _. by split_and!.
Qed.

(** ** The interface *)

Lemma live_ids b Q fl : inv b Q fl → SlotPool.live (OrderBook.pool b) = zlen (Spec.ids (abs b Q)).
Proof.
  intros Hinv. rewrite (core_length _ (i_core _ _ _ Hinv)), <-Checks.ids_all. unfold zlen. by rewrite length_fmap.
Qed.

Lemma set_index_inv b Q fl t' : inv b Q fl → IdIndex.wf t' →
  IdIndex.contents t' = IdIndex.contents (OrderBook.order_index b) →
  inv (OrderBook.set_index t' b) Q fl ∧ abs (OrderBook.set_index t' b) Q = abs b Q.
Proof.
  intros [[? ? ? ? ? ? ?] Hl Hs ? Hu ? ?] Ht' Hct'. split; [|done]. split; try done.
  split; try done. simpl. congruence.
Qed.

Lemma repr_wf b S F : repr b S F → Spec.wf S.
Proof. by intros (? & ? & ? & ? & ? & ?). Qed.

Lemma cancel_refines b S F id : repr b S F → ∃ b',
  OrderBook.cancel b id = Ok (b', (Spec.cancel S id).2) ∧ repr b' (Spec.cancel S id).1 F.
Proof.
  intros (Q & fl & Hinv & -> & Hwf & ->). remember (Spec.cancel (abs b Q) id) as sc eqn:Hsc.
  unfold OrderBook.cancel.
  destruct (IdIndex.take_spec (OrderBook.order_index b) id) as (t' & -> & Ht' & Hct' & _); [apply Hinv|]. simpl.
  destruct (Checks.index_cases b Q fl Hinv id) as [[Hnone Hid]|(s & i & r & Hv & Hn & <- & Hi)].
  - rewrite Hnone, Hsc, Spec.cancel_dead by done. rewrite delete_id in Hct' by done.
    destruct (set_index_inv b Q fl t' Hinv Ht' Hct') as [Hinv' Habs']. eexists. split; [done|].
    exists Q, fl. by rewrite Habs'.
  - rewrite Hv, slot_of_value, side_of_value by done.
    destruct (remove_refines s b Q fl i r t' Hinv Hwf Hn Ht' Hct') as (b' & Q' & fl' & -> & Hinv' & Habs' & Htr'). simpl.
    rewrite Hsc, (Spec.cancel_live _ s) by (done || (rewrite Checks.abs_side; apply list_elem_of_fmap; by exists (i, r))).
    rewrite Checks.abs_side, <-Habs'.
    assert (Hwf' : Spec.wf (abs b' Q')).
    { pose proof (Spec.cancel_wf _ (r_id r) Hwf) as Hw.
      rewrite (Spec.cancel_live _ s) in Hw by (done || (rewrite Checks.abs_side; apply list_elem_of_fmap; by exists (i, r))).
      by rewrite Checks.abs_side, <-Habs' in Hw. }
    rewrite (Checks.check_invariants_ok b' Q' fl' Hinv' Hwf'). simpl. exists b'. split; [done|].
    exists Q', fl'. by rewrite Htr'.
Qed.

Lemma ids_after_match S s l n : Spec.leaves (Spec.side s S) l →
  zlen (Spec.ids (Spec.set_seq n (Spec.set_side s l S))) ≤ zlen (Spec.ids S) ∧
  ∀ id, id ∈ Spec.ids (Spec.set_seq n (Spec.set_side s l S)) → id ∈ Spec.ids S.
Proof.
  intros Hl. pose proof (Spec.leaves_ids _ _ Hl) as Hs.
  assert (Spec.ids (Spec.set_seq n (Spec.set_side s l S)) `sublist_of` Spec.ids S) as Hsub.
  { unfold Spec.ids. destruct s; simpl in *; rewrite !fmap_app; by apply sublist_app. }
  split; [apply sublist_length in Hsub; unfold zlen; lia|]. intros id Hid. by eapply elem_of_sublist.
Qed.

Lemma submit_refines b S F id owner s limit qty rest : repr b S F → Spec.args_ok id owner limit qty →
  zlen (Spec.ids S) < two31 → (rest = true → is_Some limit) →
  let '(S', rep, ts) := Spec.submit S id owner s limit qty rest in
  ∃ b', OrderBook.submit b id owner s limit qty rest = Ok (b', rep) ∧ repr b' S' (foldl TradeRing.fifo_push F ts).
Proof.
  intros (Q & fl & Hinv & -> & Hwf & ->) Hargs Hroom Hrest.
  assert (Hside : Spec.side_ok (Spec.side (opposite s) (abs b Q))).
  { rewrite Checks.abs_side. pose proof (Checks.nodes_side_le b Q fl Hinv (opposite s)) as Hle.
    unfold Spec.side_ok, orders, zlen in *. by rewrite length_fmap. }
  pose proof (Spec.submit_wf _ id owner s limit qty rest Hwf Hargs Hside Hrest) as Hwf'. revert Hwf'.
  destruct Hargs as (_ & _ & Hq & Hlim). unfold Spec.submit, OrderBook.submit.
  rewrite (Checks.contains_abs b Q fl Hinv).
  assert ((if qty =? 0 then Ok true else Ok (Spec.live (abs b Q) id)) = Ok ((qty =? 0) || Spec.live (abs b Q) id)) as ->
    by by destruct (qty =? 0).
  simpl. destruct (_ || _) eqn:Hrej; [intros _; exists b; split; [done|by exists Q, fl]|].
  apply orb_false_elim in Hrej as [_ Hlive%Spec.live_false].
  set (taker := MkOrder id owner (default 0 limit) qty s). rewrite Checks.abs_side. simpl Spec.policy. simpl Spec.next_seq.
  destruct (match_refines b Q fl (opposite s) limit taker ExecReport0 Hinv Hwf Hq eq_refl) as
    (b1 & Q1 & fl1 & -> & Hinv1 & Habs1 & Ht1). simpl.
  pose proof (Spec.match_queue_leaves (OrderBook.policy b) limit taker ExecReport0 (OrderBook.next_seq b)
    _ (Checks.orders_ok_side b Q Hwf (opposite s))) as Hl.
  pose proof (Spec.match_queue_taker (OrderBook.policy b) limit taker ExecReport0 (OrderBook.next_seq b)
    (orders (Q (opposite s)))) as (Ti & _ & Tp & Ts).
  revert Habs1 Ht1 Hl Ti Tp Ts. set (m := Spec.match_queue _ _ _ _ _ _). intros Habs1 Ht1 Hl Ti Tp Ts.
  rewrite <-(Checks.abs_side b Q) in Hl. destruct (ids_after_match _ _ _ (Spec.m_seq m) Hl) as [Hids Hidin].
  rewrite <-Habs1 in *.
  destruct (rest && _ && _) eqn:Hr; simpl; intros Hwf'.
  - destruct (insert_refines b1 Q1 fl1 (Spec.m_taker m) Hinv1) as (b2 & Q2 & fl2 & Hins & Hinv2 & Habs2 & Ht2).
    { rewrite Tp. simpl. lia. }
    { rewrite Ti. simpl. by intros ?%Hidin. }
    { rewrite (live_ids _ _ _ Hinv1). lia. }
    rewrite Ts in Hins, Habs2. simpl in Hins, Habs2. rewrite Hins. simpl.
    rewrite <-(Checks.abs_side b1) in Habs2. rewrite <-Habs2 in *.
    rewrite (Checks.check_invariants_ok b2 Q2 fl2 Hinv2 Hwf'). simpl. exists b2. split; [done|].
    exists Q2, fl2. by rewrite Ht2, <-Ht1.
  - rewrite (Checks.check_invariants_ok b1 Q1 fl1 Hinv1 Hwf'). simpl. exists b1. split; [done|].
    exists Q1, fl1. by rewrite <-Ht1.
Qed.

Lemma modify_refines b S F id price qty : repr b S F → 0 ≤ price < two64 → 0 ≤ qty < two32 →
  let '(S', rep, ts) := Spec.modify S id price qty in
  ∃ b', OrderBook.modify b id price qty = Ok (b', rep) ∧ repr b' S' (foldl TradeRing.fifo_push F ts).
Proof.
  intros Hrepr Hp Hq. pose proof Hrepr as (Q & fl & Hinv & HS & Hwf & HF). unfold Spec.modify, OrderBook.modify.
  rewrite IdIndex.index_find_spec by apply Hinv. simpl.
  destruct (Checks.index_cases b Q fl Hinv id) as [[-> Hid]|(s & i & r & -> & Hn & <- & Hi)].
  { rewrite <-HS in Hid. rewrite Spec.find_dead by done. by exists b. }
  rewrite slot_of_value, side_of_value by done. destruct (Checks.node_slot b Q fl Hinv s i r Hn) as (a & c & Hs).
  assert (Hr : r ∈ Spec.side s S) by (rewrite HS, Checks.abs_side; apply list_elem_of_fmap; by exists (i, r)).
  rewrite (Spec.find_resting S s r Hwf Hr), (SlotPool.at_ok _ _ _ Hs). simpl o_owner. simpl o_side.
  destruct (cancel_refines b S F (r_id r) Hrepr) as (b1 & Hcan & Hrepr1). simpl SlotPool.value. simpl mbind. rewrite Hcan. simpl.
  destruct (qty =? 0); [by exists b1|]. unfold OrderBook.add_limit.
  assert (Hrok : resting_ok r) by (eapply (Checks.orders_ok_side b Q); [by rewrite <-HS|]; rewrite HS, Checks.abs_side in Hr; exact Hr).
  destruct Hrok as (Hrid & _ & _ & Hrow).
  assert (Hid : r_id r ∈ Spec.ids S).
  { rewrite (Spec.ids_sides s), fmap_app. apply elem_of_app. left. apply list_elem_of_fmap. by exists r. }
  apply (submit_refines b1 _ F); [done|by repeat split; simpl; lia| |by eexists].
  pose proof (Spec.cancel_room S (r_id r) Hwf Hid) as Hlt. pose proof (live_ids b Q fl Hinv) as Hlive.
  destruct (Checks.nodes_le b Q fl Hinv) as [Hn1 Hn2]. rewrite <-HS in Hlive. simpl in Hlt. lia.
Qed.

(** ** Construction, draining, queries *)

Definition config_ok (cfg : Config) : Prop :=
  0 ≤ expected_orders cfg ≤ 2 ^ 62 ∧ 0 ≤ trade_capacity cfg ≤ two63 ∧ 0 ≤ price_levels cfg < two64 ∧
  0 ≤ default 0 (price_base cfg) < two64.

(** The capacity the ring gets: the configured one, rounded up. *)
Definition ring_capacity (cfg : Config) : Z :=
  match TradeRing.make (trade_capacity cfg) with Ok r => TradeRing.capacity r | Err _ => 0 end.

Lemma make_refines cfg : config_ok cfg → ∃ b, OrderBook.make cfg = Ok b ∧
  repr b (Spec.empty (self_trade cfg)) (TradeRing.MkFifo [] (ring_capacity cfg) 0) ∧
  trade_capacity cfg ≤ ring_capacity cfg ∧ 0 < ring_capacity cfg.
Proof.
  intros (He & Ht & Hl & Hb). unfold OrderBook.make, ring_capacity.
  set (n := if 0 <? expected_orders cfg then _ else _).
  assert (Hn : 0 < n ≤ 2 ^ 62).
  { unfold n, OrderBook.kDefaultPoolSlots. destruct (Z.ltb_spec 0 (expected_orders cfg)); lia. }
  clearbody n. destruct (IdIndex.index_make_spec 0 n) as (t & -> & Hwt & Hct & Hcnt & _); [lia|]. simpl.
  destruct (TradeRing.ring_make_wf _ Ht) as (r & -> & Hwr & Hcr & Hdr & Hcap & Hpos). simpl.
  eexists. split; [done|]. split; [|done].
  assert (HL : ∀ IB, let L := match price_base cfg with Some base => PriceLadder.place (PriceLadder.make (price_levels cfg)) base
    | None => PriceLadder.make (price_levels cfg) end in
    PriceLadder.wf IB L ∧ PriceLadder.levels IB L = [] ∧ unplaced_empty L).
  { intros IB. destruct (PriceLadder.ladder_make_wf IB (price_levels cfg) Hl) as [Hwf Hlv].
    assert (Hw : PriceLadder.window (PriceLadder.make (price_levels cfg)) =
      vmake (zlen (PriceLadder.window (PriceLadder.make (price_levels cfg)))) empty_level)
      by (simpl; by rewrite zlen_vmake by lia).
    destruct (price_base cfg) as [base|]; [|split_and!; try done; by intros _].
    destruct (PriceLadder.ladder_place_spec IB _ base Hwf Hb Hw eq_refl) as (? & ? & _ & _ & Hpl).
    split_and!; [done..|]. intros Hp. by rewrite Hpl in Hp. }
  exists (λ _, []), []. split_and!; [|done|apply Spec.empty_wf|by unfold TradeRing.abs; simpl; rewrite Hcr, Hdr].
  split; simpl; try done.
  - split; simpl; try done.
    + apply SlotPool.pool_make_wf. lia.
    + destruct (n =? 0); rewrite zlen_vmake; lia.
    + constructor.
  - intros [|]; [apply (HL true)|apply (HL false)].
  - intros s. destruct (HL (is_bid s)) as (_ & Hnil & _). unfold side_repr.
    match goal with |- Forall2 _ ?ls _ => assert (ls = []) as -> by (destruct s; exact Hnil) end. constructor.
  - intros [|]; [apply (HL true)|apply (HL false)].
Qed.

Lemma drain_trades_refines b S F : repr b S F → ∃ b', OrderBook.drain_trades b = Ok (TradeRing.items F, b') ∧
  repr b' S (TradeRing.MkFifo [] (TradeRing.bound F) (TradeRing.lost F)).
Proof.
  intros (Q & fl & Hinv & -> & Hwf & ->). unfold OrderBook.drain_trades.
  destruct (TradeRing.drain_refines _ (i_ring _ _ _ Hinv)) as (r & -> & Hwr & Habs). simpl.
  eexists. split; [done|]. exists Q, fl. split_and!; [|done..|by rewrite <-Habs].
  destruct Hinv as [? Hl Hs ? Hu ? ?]. split; try done.
Qed.

End refine.
End Refine.
