(* ===== verification/RefBook.v ===== *)
(** * The reference book (tests/reference_book.hpp)

    The naive book the differential tests compare the engine with: one flat
    vector, linear scans, arrival numbers for time priority. It refines the same
    abstract book as the engine. *)

From stdpp Require Import base decidable list sorting sets.
From S2P Require Import Prelude.
From S2P Require Import Types.
From S2P Require Import SortedMap.
From S2P Require Import Spec.

Module RefBook.

Record Resting := MkResting {
  id : OrderId;
  owner : ParticipantId;
  price : Price;
  qty : Quantity;
  side : Side;
  arrival : Z;              (* uint64; lower arrives earlier *)
}.

Record ReferenceBook := mk {
  resting : list Resting;
  trade_log : list Trade;
  policy : SelfTradePolicy;
  next_arrival : Z;
  next_seq : Sequence;
}.

Definition make (stp : SelfTradePolicy) : ReferenceBook := mk [] [] stp 1 1.

Definition with_resting (b : ReferenceBook) (v : list Resting) : ReferenceBook :=
  mk v (trade_log b) (policy b) (next_arrival b) (next_seq b).

Definition with_qty (r : Resting) (q : Quantity) : Resting :=
  MkResting (id r) (owner r) (price r) q (side r) (arrival r).

(** [resting.erase(resting.begin() + i)]. *)
Definition erase_at (v : list Resting) (i : nat) : list Resting := take i v ++ drop (S i) v.

(** [find]: [None] is [nullptr]. *)
Fixpoint find (v : list Resting) (x : OrderId) : option Resting :=
  match v with
  | [] => None
  | r :: v => if id r =? x then Some r else find v x
  end.

(** The loop of [cancel], from index [i]. *)
Fixpoint cancel_loop (all v : list Resting) (i : nat) (x : OrderId) : option (list Resting) :=
  match v with
  | [] => None
  | r :: v => if id r =? x then Some (erase_at all i) else cancel_loop all v (S i) x
  end.

Definition cancel (b : ReferenceBook) (x : OrderId) : ReferenceBook * bool :=
  match cancel_loop (resting b) (resting b) 0 x with
  | Some v => (with_resting b v, true)
  | None => (b, false)
  end.

(** [best_price(side)]. *)
Fixpoint best_price_loop (s : Side) (v : list Resting) (best : option Price) : option Price :=
  match v with
  | [] => best
  | r :: v =>
      if negb (side_eqb (side r) s) then best_price_loop s v best
      else match best with
      | None => best_price_loop s v (Some (price r))
      | Some p =>
          best_price_loop s v
            (if (match s with Buy => p <? price r | Sell => price r <? p end) then Some (price r) else best)
      end
  end.

Definition best_price (b : ReferenceBook) (s : Side) : option Price :=
  best_price_loop s (resting b) None.

(** The comparison of [next_maker]: [r] beats the current best [m]. *)
Definition beats (maker_side : Side) (r m : Resting) : bool :=
  let better_price := match maker_side with Sell => price r <? price m | Buy => price m <? price r end in
  better_price || ((price r =? price m) && (arrival r <? arrival m)).

(** [next_maker(taker_side)]: the index of the order to hit next. *)
Fixpoint next_maker_loop (maker_side : Side) (all v : list Resting) (i : nat) (best : option nat) : option nat :=
  match v with
  | [] => best
  | r :: v =>
      if negb (side_eqb (side r) maker_side) then next_maker_loop maker_side all v (S i) best
      else match best with
      | None => next_maker_loop maker_side all v (S i) (Some i)
      | Some k =>
          match all !! k with
          | Some m => next_maker_loop maker_side all v (S i) (if beats maker_side r m then Some i else best)
          | None => best    (* an index out of the vector: never taken *)
          end
      end
  end.

Definition next_maker (b : ReferenceBook) (taker_side : Side) : option nat :=
  next_maker_loop (opposite taker_side) (resting b) (resting b) 0 None.

(** The matching loop of [submit]: each round but the last erases a maker. *)
Fixpoint submit_loop (fuel : nat) (b : ReferenceBook) (x : OrderId) (o : ParticipantId) (s : Side)
    (p : Price) (is_market : bool) (left_ : Quantity) (rep : ExecReport) :
    res (ReferenceBook * Quantity * ExecReport) :=
  match fuel with
  | O => Err out_of_fuel
  | S fuel =>
      if negb (0 <? left_) then Ok (b, left_, rep)
      else
        match next_maker b s with
        | None => Ok (b, left_, rep)
        | Some i =>
            match resting b !! i with
            | None => Err undefined_behaviour
            | Some maker =>
                if negb is_market && negb (match s with Buy => price maker <=? p | Sell => p <=? price maker end)
                then Ok (b, left_, rep)
                else if negb (policy_eqb (policy b) Allow) && negb (o =? kAnonymous) && (o =? owner maker) then
                  if policy_eqb (policy b) CancelIncoming then Ok (b, left_, rep_halt rep)
                  else
                    submit_loop fuel (with_resting b (erase_at (resting b) i)) x o s p is_market left_
                      (rep_stp_cancel rep (qty maker))
                else
                  let traded := Z.min left_ (qty maker) in
                  let left_ := u32 (left_ - traded) in
                  let maker := with_qty maker (u32 (qty maker - traded)) in
                  let t := MkTrade (next_seq b) (id maker) x (price maker) traded s in
                  let rep := rep_fill rep (next_seq b) traded in
                  let v := <[i := maker]> (resting b) in
                  let v := if qty maker =? 0 then erase_at v i else v in
                  submit_loop fuel
                    (mk v (trade_log b ++ [t]) (policy b) (next_arrival b) (u64 (next_seq b + 1)))
                    x o s p is_market left_ rep
            end
        end
  end.

Definition submit (b : ReferenceBook) (x : OrderId) (o : ParticipantId) (s : Side) (p : Price)
    (q : Quantity) (is_market : bool) : res (ReferenceBook * ExecReport) :=
  if (q =? 0) || bool_decide (is_Some (find (resting b) x)) then Ok (b, rep_reject q)
  else
    '(b, left_, rep) ← submit_loop (S (length (resting b))) b x o s p is_market q ExecReport0;
    let rep := rep_with_remaining rep left_ in
    if negb is_market && (0 <? left_) && negb (stp_halted rep) then
      Ok (mk (resting b ++ [MkResting x o p left_ s (next_arrival b)]) (trade_log b) (policy b)
            (u64 (next_arrival b + 1)) (next_seq b), rep_rested rep)
    else Ok (b, rep).

Definition add_limit (b : ReferenceBook) (x : OrderId) (o : ParticipantId) (s : Side) (p : Price)
    (q : Quantity) : res (ReferenceBook * ExecReport) := submit b x o s p q false.

Definition add_market (b : ReferenceBook) (x : OrderId) (o : ParticipantId) (s : Side)
    (q : Quantity) : res (ReferenceBook * ExecReport) := submit b x o s 0 q true.

Definition modify (b : ReferenceBook) (x : OrderId) (new_price : Price) (new_qty : Quantity) :
    res (ReferenceBook * ExecReport) :=
  match find (resting b) x with
  | None => Ok (b, rep_reject new_qty)
  | Some live =>
      let '(b, _) := cancel b x in
      if new_qty =? 0 then Ok (b, ExecReport0)
      else add_limit b x (owner live) (side live) new_price new_qty
  end.

Definition qty_at (b : ReferenceBook) (s : Side) (p : Price) : Volume :=
  foldl (λ total r, if side_eqb (side r) s && (price r =? p) then u64 (total + qty r) else total) 0 (resting b).

Definition size (b : ReferenceBook) : Z := zlen (resting b).

(** [queue_snapshot]: [std::sort] with this comparator, as insertion sort. *)
Definition snapshot_less (a b : Resting) : bool :=
  if negb (side_eqb (side a) (side b)) then side_eqb (side a) Buy
  else if negb (price a =? price b) then
    match side a with Buy => price b <? price a | Sell => price a <? price b end
  else arrival a <? arrival b.

Fixpoint sort_insert (r : Resting) (l : list Resting) : list Resting :=
  match l with
  | [] => [r]
  | x :: l' => if snapshot_less r x then r :: l else x :: sort_insert r l'
  end.

Definition queue_snapshot (b : ReferenceBook) : list Resting :=
  foldr sort_insert [] (resting b).

(** ** What the flat vector represents *)

Definition to_resting (r : Resting) : RestingOrder := MkRestingOrder (id r) (price r) (qty r) (owner r).

(** [a] goes before [b] on one side. *)
Definition ahead (s : Side) (a b : Resting) : Prop := beats s a b = true.

Record ref_inv (b : ReferenceBook) (A : Side → list Resting) : Prop := {
  ri_perm : resting b ≡ₚ A Buy ++ A Sell;
  ri_side : ∀ s r, r ∈ A s → side r = s;
  ri_sorted : ∀ s, StronglySorted (ahead s) (A s);
  ri_arrival : ∀ r, r ∈ resting b → arrival r < next_arrival b;
  ri_seq : 0 ≤ next_seq b < two64;
}.

Definition ref_abs (b : ReferenceBook) (A : Side → list Resting) : Spec.Book :=
  Spec.MkBook (policy b) (to_resting <$> A Buy) (to_resting <$> A Sell) (next_seq b).

(** ** The order of makers *)

Lemma beats_irrefl s r : beats s r r = false.
Proof. unfold beats. destruct s; rewrite Z.ltb_irrefl, Z.eqb_refl, Z.ltb_irrefl; done. Qed.

Lemma beats_trans s a b c : beats s a b = true → beats s b c = true → beats s a c = true.
Proof. unfold beats. destruct s; lia. Qed.

Lemma ahead_cases s A x y : StronglySorted (ahead s) A → x ∈ A → y ∈ A → x = y ∨ ahead s x y ∨ ahead s y x.
Proof.
  induction 1 as [|r l Hs IH Hf]; [by intros ?%elem_of_nil|]. rewrite list.Forall_forall in Hf.
  intros [->|Hx]%elem_of_cons [->|Hy]%elem_of_cons; auto.
Qed.

(** ** Positions of the vector *)

Lemma erase_at_perm v i r : v !! i = Some r → v ≡ₚ r :: erase_at v i.
Proof.
  intros Hi. unfold erase_at. rewrite <-(take_drop_middle v i r) at 1 by done. by rewrite Permutation_middle.
Qed.

Lemma erase_at_insert v i r : erase_at (<[i := r]> v) i = erase_at v i.
Proof. unfold erase_at. rewrite take_insert_ge by lia. by rewrite drop_insert_lt by lia. Qed.

Lemma insert_perm v i (r r' : Resting) : v !! i = Some r → <[i := r']> v ≡ₚ r' :: erase_at v i.
Proof.
  intros Hi. rewrite <-(erase_at_insert v i r'). apply erase_at_perm.
  apply list_lookup_insert_eq. by eapply lookup_lt_Some.
Qed.

(** ** The next maker *)

Lemma next_maker_loop_spec ms all pre v best : all = pre ++ v →
  match best with
  | None => ∀ r, r ∈ pre → side r ≠ ms
  | Some k => ∃ m, all !! k = Some m ∧ side m = ms ∧ ∀ r, r ∈ pre → side r = ms → beats ms r m = false
  end →
  match next_maker_loop ms all v (length pre) best with
  | None => ∀ r, r ∈ all → side r ≠ ms
  | Some k => ∃ m, all !! k = Some m ∧ side m = ms ∧ ∀ r, r ∈ all → side r = ms → beats ms r m = false
  end.
Proof.
  revert pre best. induction v as [|r v IH]; intros pre best Hall Hb; simpl.
  { rewrite app_nil_r in Hall. by subst pre. }
  assert (Hall' : all = (pre ++ [r]) ++ v) by by rewrite <-app_assoc.
  assert (Hlen : S (length pre) = length (pre ++ [r])) by (rewrite length_app; simpl; lia).
  assert (Hr : all !! length pre = Some r) by by rewrite Hall, list_lookup_middle.
  unfold side_eqb. destruct (decide (side r = ms)) as [Hs|Hs].
  2:{ rewrite bool_decide_false by done. simpl. rewrite Hlen. apply IH; [done|].
      destruct best as [k|].
      - destruct Hb as (m & Hm & Hsm & Hb). exists m. split_and!; [done..|].
        intros x [Hx| ->%list_elem_of_singleton]%elem_of_app; [by apply Hb|done].
      - intros x [Hx| ->%list_elem_of_singleton]%elem_of_app; [by apply Hb|done]. }
  rewrite bool_decide_true by done. simpl. rewrite Hlen. destruct best as [k|].
  - destruct Hb as (m & Hm & Hsm & Hb). rewrite Hm. apply IH; [done|].
    destruct (beats ms r m) eqn:Hbt.
    + exists r. split_and!; [done..|].
      intros x [Hx| ->%list_elem_of_singleton]%elem_of_app Hsx; [|apply beats_irrefl].
      destruct (beats ms x r) eqn:Hxr; [|done]. rewrite <-(Hb x Hx Hsx). symmetry. by eapply beats_trans.
    + exists m. split_and!; [done..|].
      intros x [Hx| ->%list_elem_of_singleton]%elem_of_app Hsx; [by apply Hb|done].
  - apply IH; [done|]. exists r. split_and!; [done..|].
    intros x [Hx| ->%list_elem_of_singleton]%elem_of_app Hsx; [by destruct (Hb x Hx)|apply beats_irrefl].
Qed.

Lemma elem_of_side b A s r : ref_inv b A → r ∈ resting b → side r = s → r ∈ A s.
Proof.
  intros Hi Hr Hs. rewrite (ri_perm _ _ Hi) in Hr.
  apply elem_of_app in Hr as [Hr|Hr]; pose proof (ri_side _ _ Hi _ _ Hr); congruence.
Qed.

Lemma side_elem b A s r : ref_inv b A → r ∈ A s → r ∈ resting b.
Proof. intros Hi Hr. rewrite (ri_perm _ _ Hi), elem_of_app. destruct s; auto. Qed.

(** The maker found is the head of the side's queue. *)
Lemma next_maker_spec b A s : ref_inv b A →
  match A (opposite s) with
  | [] => next_maker b s = None
  | h :: _ => ∃ i, next_maker b s = Some i ∧ resting b !! i = Some h
  end.
Proof.
  intros Hi. unfold next_maker.
  pose proof (next_maker_loop_spec (opposite s) (resting b) [] (resting b) None eq_refl ltac:(by intros ? ?%elem_of_nil)) as Hn.
  simpl in Hn. destruct (next_maker_loop _ _ _ _ _) as [k|]; destruct (A (opposite s)) as [|h tl] eqn:HA.
  - destruct Hn as (m & Hm & Hs & _). apply list_elem_of_lookup_2 in Hm.
    pose proof (elem_of_side _ _ _ _ Hi Hm Hs) as Hin. rewrite HA in Hin. by apply elem_of_nil in Hin.
  - destruct Hn as (m & Hm & Hs & Hb). exists k. split; [done|]. rewrite Hm. f_equal.
    pose proof (elem_of_side _ _ _ _ Hi (list_elem_of_lookup_2 _ _ _ Hm) Hs) as Hin. rewrite HA in Hin.
    apply elem_of_cons in Hin as [|Hin]; [done|]. exfalso.
    pose proof (ri_sorted _ _ Hi (opposite s)) as Hso. rewrite HA in Hso. inversion_clear Hso as [|? ? _ Hf].
    rewrite list.Forall_forall in Hf. specialize (Hf m Hin). unfold ahead in Hf.
    assert (Hh : h ∈ A (opposite s)) by (rewrite HA; left).
    rewrite (Hb h) in Hf; [done|by eapply side_elem|by eapply ri_side].
  - done.
  - exfalso. assert (Hh : h ∈ A (opposite s)) by (rewrite HA; left).
    apply (Hn h); [by eapply side_elem|by eapply ri_side].
Qed.

Lemma opposite_involutive s : opposite (opposite s) = s.
Proof. by destruct s. Qed.

(** ** Replacing one side *)

Definition with_side (s : Side) (l : list Resting) (A : Side → list Resting) (s' : Side) : list Resting :=
  if decide (s' = s) then l else A s'.

Lemma with_side_at s l A : with_side s l A s = l.
Proof. unfold with_side. by rewrite decide_True. Qed.

Lemma with_side_opp s l A : with_side s l A (opposite s) = A (opposite s).
Proof. unfold with_side. rewrite decide_False; [done|by destruct s]. Qed.

Lemma sides_perm (A : Side → list Resting) s : A Buy ++ A Sell ≡ₚ A s ++ A (opposite s).
Proof. destruct s; simpl; [done|apply Permutation_app_comm]. Qed.

(** The invariant after side [s] becomes [l] and the vector [v]. *)
Lemma with_side_inv b A s l b' : ref_inv b A →
  resting b' ≡ₚ l ++ A (opposite s) → (∀ r, r ∈ l → side r = s) → StronglySorted (ahead s) l →
  (∀ r, r ∈ l → arrival r < next_arrival b') → next_arrival b ≤ next_arrival b' → 0 ≤ next_seq b' < two64 →
  ref_inv b' (with_side s l A).
Proof.
  intros Hi Hp Hside Hsort Harr Hle Hseq.
  assert (Hcases : ∀ P : Side → Prop, P s → P (opposite s) → ∀ s', P s') by (intros P ? ? s'; by destruct s, s').
  split; [|apply (Hcases (λ s', ∀ r, r ∈ with_side s l A s' → side r = s'))|
    apply (Hcases (λ s', StronglySorted (ahead s') (with_side s l A s')))| |done];
    rewrite ?with_side_at, ?with_side_opp; try done; try apply Hi.
  - by rewrite (sides_perm _ s), with_side_at, with_side_opp.
  - intros r Hr. rewrite Hp in Hr. apply elem_of_app in Hr as [Hr|Hr]; [by apply Harr|].
    pose proof (ri_arrival _ _ Hi r ltac:(by eapply side_elem)). lia.
Qed.

Lemma ref_abs_with_side b (A : Side → list Resting) s l b' : policy b' = policy b →
  ref_abs b' (with_side s l A) = Spec.set_seq (next_seq b') (Spec.set_side s (to_resting <$> l) (ref_abs b A)).
Proof.
  intros Hp. unfold ref_abs, Spec.set_seq, Spec.set_side. rewrite Hp.
  destruct s; simpl; unfold with_side; rewrite ?decide_True, ?decide_False by done; done.
Qed.

Lemma ref_side b A s : Spec.side s (ref_abs b A) = to_resting <$> A s.
Proof. by destruct s. Qed.

(** Erasing the head of a side. *)
Lemma erase_head_perm b A s i h tl : ref_inv b A → A s = h :: tl → resting b !! i = Some h →
  erase_at (resting b) i ≡ₚ tl ++ A (opposite s).
Proof.
  intros Hi HA Hh. pose proof (ri_perm _ _ Hi) as Hp. rewrite (sides_perm A s), HA in Hp. simpl in Hp.
  rewrite (erase_at_perm _ _ _ Hh) in Hp. by apply Permutation_cons_inv in Hp.
Qed.

Lemma sorted_reduce s h q tl : StronglySorted (ahead s) (h :: tl) → StronglySorted (ahead s) (with_qty h q :: tl).
Proof. intros Hs. inversion_clear Hs. by constructor. Qed.

(** ** The matching loop *)

(** A state reached by matching from [b]: side [s] cut to [l]. *)
Definition matched (b b' : ReferenceBook) (A A' : Side → list Resting) (s : Side) : Prop :=
  ref_inv b' A' ∧ A' (opposite s) = A (opposite s) ∧ policy b' = policy b ∧ next_arrival b' = next_arrival b.

Lemma submit_loop_stop (fuel : nat) b x o s p mkt left_ rep : (0 < fuel)%nat → left_ ≤ 0 →
  submit_loop fuel b x o s p mkt left_ rep = Ok (b, left_, rep).
Proof. intros Hf Hl. destruct fuel; [lia|]. simpl. by destruct (Z.ltb_spec 0 left_); [lia|]. Qed.

Lemma submit_loop_spec (fuel : nat) b A p (mkt : bool) T rep : let os := opposite (o_side T) in
  ref_inv b A → Spec.orders_ok (to_resting <$> A os) → 0 ≤ o_qty T < two32 → (length (A os) < fuel)%nat →
  let m := Spec.match_queue (policy b) (if mkt then None else Some p) T rep (next_seq b) (to_resting <$> A os) in
  ∃ b' A', submit_loop fuel b (o_id T) (o_owner T) (o_side T) p mkt (o_qty T) rep = Ok (b', o_qty (Spec.m_taker m), Spec.m_rep m) ∧
  matched b b' A A' os ∧ to_resting <$> A' os = Spec.m_queue m ∧ next_seq b' = Spec.m_seq m ∧
  trade_log b' = trade_log b ++ Spec.m_trades m.
Proof.
  revert b A T rep. induction fuel as [|fuel IH]; intros b A T rep os Hi Hok Hq Hf; [lia|].
  pose proof (next_maker_spec b A (o_side T) Hi) as Hnm. fold os in Hnm. pose proof (ri_sorted _ _ Hi os) as Hsort.
  assert (Hstop : ∃ b' A', Ok (b, o_qty T, rep) = Ok (b', o_qty T, rep) ∧ matched b b' A A' os ∧ to_resting <$> A' os = to_resting <$> A os ∧
    next_seq b' = next_seq b ∧ trade_log b' = trade_log b ++ []) by (exists b, A; rewrite app_nil_r; by split_and!).
  simpl submit_loop. destruct (A os) as [|h tl] eqn:HA.
  { rewrite Hnm. by destruct (0 <? o_qty T). }
  destruct Hnm as (i & -> & Hh). rewrite Hh. simpl fmap in *. simpl Spec.match_queue.
  destruct (Z.ltb_spec 0 (o_qty T)) as [Hpos|Hpos]; simpl; [|done].
  assert ((negb mkt && negb (match o_side T with Buy => price h <=? p | Sell => p <=? price h end)) =
    negb (crosses (o_side T) (if mkt then None else Some p) (price h))) as -> by by destruct mkt.
  destruct (crosses _ _ _); simpl; [|done]. clear Hstop.
  apply Spec.orders_ok_cons in Hok as [(_ & _ & Hr & _) Hok]. simpl in Hr, Hf.
  pose proof (erase_head_perm b A os i h tl Hi HA Hh) as Hperm. pose proof Hsort as [_ Hsort']%StronglySorted_cons.
  assert (Hsd : ∀ r, r ∈ tl → side r = os) by (intros r Hrt; apply (ri_side _ _ Hi); rewrite HA; by right).
  assert (Har : ∀ r, r ∈ h :: tl → arrival r < next_arrival b).
  { intros r Hrt. apply (ri_arrival _ _ Hi). eapply (side_elem _ _ os); [done|]. by rewrite HA. }
  unfold Spec.self_trade, stp_possible. simpl r_owner.
  destruct (_ && _ && _).
  { destruct (policy_eqb _ _).
    - exists b, A. rewrite app_nil_r. split_and!; try done. by rewrite HA.
    - assert (Hi1 : ref_inv (with_resting b (erase_at (resting b) i)) (with_side os tl A)).
      { eapply with_side_inv; try done; simpl; [|apply Hi]. intros r Hrt. apply Har. by right. }
      destruct (IH _ _ T (rep_stp_cancel rep (qty h)) Hi1) as (b' & A' & -> & (Hi' & Hop & Hpo & Hna) & Hq' & Hn' & Ht');
        fold os; rewrite ?with_side_at; [done..|lia|]. fold os in Hop, Hq', Hn', Ht'. rewrite with_side_at, with_side_opp in *.
      simpl in *. exists b', A'. by split_and!. }
  set (t := Z.min _ _). rewrite !u32_small by lia. simpl in Hq.
  set (T' := o_with_qty T (o_qty T - t)). change (o_qty T - t) with (o_qty T').
  destruct (Z.eqb_spec (qty h) t) as [E|E].
  - destruct (Z.eqb_spec (qty h - t) 0); [|lia]. rewrite erase_at_insert. set (b1 := mk _ _ _ _ _).
    assert (Hi1 : ref_inv b1 (with_side os tl A)).
    { eapply with_side_inv; try done; simpl; [|apply u64_range]. intros r Hrt. apply Har. by right. }
    destruct (IH b1 _ T' (rep_fill rep (next_seq b) t) Hi1) as (b' & A' & Hl & (Hi' & Hop & Hpo & Hna) & Hq' & Hn' & Ht');
      fold os; rewrite ?with_side_at; [done|simpl; lia..|].
    change (o_id T') with (o_id T) in Hl. change (o_owner T') with (o_owner T) in Hl. change (o_side T') with (o_side T) in Hl. rewrite Hl.
    fold os in Hop, Hq', Hn', Ht'. rewrite with_side_at, with_side_opp in *.
    exists b', A'. simpl in *. rewrite <-app_assoc in Ht'. by split_and!.
  - destruct (Z.eqb_spec (qty h - t) 0); [lia|]. rewrite submit_loop_stop by (simpl; lia). set (b1 := mk _ _ _ _ _).
    exists b1, (with_side os (with_qty h (qty h - t) :: tl) A). rewrite with_side_at. split_and!; try done.
    split_and!; [|by rewrite with_side_opp|done..].
    eapply with_side_inv; try done; simpl; [|by intros r [->|Hrt]%elem_of_cons; [exact (ri_side _ _ Hi os h ltac:(rewrite HA; left))|by apply Hsd]|
      by apply sorted_reduce| |apply u64_range].
    + rewrite (insert_perm _ _ _ _ Hh). by constructor.
    + intros r [->|Hrt]%elem_of_cons; [exact (Har h ltac:(left))|apply Har; by right].
Qed.

(** ** The operations refine the abstract book *)

Definition ref_repr (b : ReferenceBook) (S : Spec.Book) (ts : list Trade) : Prop :=
  ∃ A, ref_inv b A ∧ S = ref_abs b A ∧ Spec.wf S ∧ trade_log b = ts.

Lemma find_elem v x : is_Some (find v x) ↔ ∃ r, r ∈ v ∧ id r = x.
Proof.
  induction v as [|r v IH]; simpl; [split; [by intros []|by intros (? & ?%elem_of_nil & _)]|].
  destruct (Z.eqb_spec (id r) x) as [E|E].
  - split; [|by eexists]. intros _. exists r. split; [left|done].
  - rewrite IH. split; intros (y & Hy & Hx); exists y.
    + split; [by right|done].
    + apply elem_of_cons in Hy as [->|]; [congruence|done].
Qed.

Lemma ref_find_Some v x r : find v x = Some r → r ∈ v ∧ id r = x.
Proof.
  induction v as [|y v IH]; simpl; [done|]. destruct (Z.eqb_spec (id y) x).
  - intros [= ->]. split; [left|done].
  - intros Hf. destruct (IH Hf). split; [by right|done].
Qed.

Lemma ids_resting b A x : ref_inv b A → x ∈ Spec.ids (ref_abs b A) ↔ ∃ r, r ∈ resting b ∧ id r = x.
Proof.
  intros Hi. unfold Spec.ids. simpl. rewrite <-fmap_app, <-(ri_perm _ _ Hi), list_elem_of_fmap. split.
  - intros (y & -> & (r & -> & Hr)%list_elem_of_fmap). by exists r.
  - intros (r & Hr & <-). exists (to_resting r). split; [done|]. apply list_elem_of_fmap. by exists r.
Qed.

Lemma find_live b A x : ref_inv b A →
  bool_decide (is_Some (find (resting b) x)) = Spec.live (ref_abs b A) x.
Proof. intros Hi. apply bool_decide_ext. by rewrite find_elem, (ids_resting b A). Qed.

(** The position a new order takes among the orders of its side. *)
Fixpoint join (s : Side) (l : list Resting) (r : Resting) : list Resting :=
  match l with
  | [] => [r]
  | x :: l' => if better (is_bid s) (price r) (price x) then r :: l else x :: join s l' r
  end.

Lemma join_perm s l r : join s l r ≡ₚ r :: l.
Proof. induction l as [|x l IH]; simpl; [done|]. destruct (better _ _ _); [done|]. rewrite IH. constructor. Qed.

Lemma join_map s l r : to_resting <$> join s l r = Spec.enqueue (is_bid s) (to_resting <$> l) (to_resting r).
Proof. induction l as [|x l IH]; [done|]. csimpl. destruct (better _ _ _); [done|]. csimpl. by rewrite IH. Qed.

Lemma join_sorted s l r : StronglySorted (ahead s) l → (∀ x, x ∈ l → arrival x < arrival r) →
  StronglySorted (ahead s) (join s l r).
Proof.
  induction 1 as [|x l Hs IH Hf]; intros Ha; simpl; [repeat constructor|]. rewrite list.Forall_forall in Hf.
  destruct (better (is_bid s) (price r) (price x)) eqn:Hb.
  - constructor; [by constructor; [|apply list.Forall_forall]|]. apply list.Forall_forall.
    assert (Hrx : ahead s r x) by (unfold ahead, beats, better in *; destruct s; simpl in *; lia).
    intros y [->|Hy]%elem_of_cons; [done|]. eapply beats_trans; [done|by apply Hf].
  - constructor; [apply IH; intros y Hy; apply Ha; by right|]. apply list.Forall_forall. intros y Hy.
    rewrite join_perm in Hy. apply elem_of_cons in Hy as [->|Hy]; [|by apply Hf].
    specialize (Ha x ltac:(left)). unfold ahead, beats, better in *. destruct s; simpl in *; lia.
Qed.

(** A new order joins the back of the vector. *)
Lemma push_inv b A r : ref_inv b A → arrival r = next_arrival b →
  let b' := mk (resting b ++ [r]) (trade_log b) (policy b) (next_arrival b + 1) (next_seq b) in
  let A' := with_side (side r) (join (side r) (A (side r)) r) A in
  ref_inv b' A' ∧ ref_abs b' A' = Spec.set_side (side r) (to_resting <$> join (side r) (A (side r)) r) (ref_abs b A).
Proof.
  intros Hi Har b' A'.
  assert (Harr : ∀ x, x ∈ A (side r) → arrival x < arrival r).
  { intros x Hx. rewrite Har. apply (ri_arrival _ _ Hi). by eapply side_elem. }
  split.
  - eapply with_side_inv; try done; simpl; try lia; [| | | |apply Hi].
    + rewrite (ri_perm _ _ Hi), (sides_perm A (side r)), join_perm. by rewrite Permutation_app_comm.
    + intros x Hx. rewrite join_perm in Hx. apply elem_of_cons in Hx as [->|Hx]; [done|by eapply ri_side].
    + apply join_sorted; [apply Hi|done].
    + intros x Hx. rewrite join_perm in Hx. apply elem_of_cons in Hx as [->|Hx]; [lia|]. specialize (Harr x Hx). lia.
  - unfold A'. rewrite (ref_abs_with_side b) by done. simpl. by destruct (side r).
Qed.

Lemma reference_submit b S ts x o s p q (mkt : bool) : ref_repr b S ts →
  let limit := if mkt then None else Some p in
  Spec.args_ok x o limit q → Spec.side_ok (Spec.side (opposite s) S) → next_arrival b + 1 < two64 → 0 ≤ next_arrival b →
  let '(S', rep, ts') := Spec.submit S x o s limit q (negb mkt) in
  ∃ b', submit b x o s p q mkt = Ok (b', rep) ∧ ref_repr b' S' (ts ++ ts') ∧
    next_arrival b ≤ next_arrival b' ≤ next_arrival b + 1.
Proof.
  intros (A & Hi & -> & Hwf & <-) limit Hargs Hside Hna Hna0.
  assert (Hlim : negb mkt = true → is_Some limit) by (destruct mkt; [done|by eexists]).
  pose proof (Spec.submit_wf _ x o s limit q (negb mkt) Hwf Hargs Hside Hlim) as Hwf'. revert Hwf'.
  destruct Hargs as (_ & _ & Hq & _). unfold Spec.submit, submit. rewrite (find_live b A) by done.
  destruct (_ || _); [intros _; exists b; rewrite app_nil_r; split_and!; [done|by exists A|lia|lia]|].
  set (T := MkOrder x o (default 0 limit) q s). rewrite ref_side.
  assert (Hok : Spec.orders_ok (to_resting <$> A (opposite s))).
  { intros r Hr. apply (Spec.wf_orders _ Hwf). apply elem_of_app. destruct s; simpl in *; auto. }
  pose proof (Spec.match_queue_taker (policy b) limit T ExecReport0 (next_seq b) (to_resting <$> A (opposite s))) as (Ti & To & Tp & _).
  assert (Hfuel : (length (A (opposite s)) < S (length (resting b)))%nat).
  { rewrite (ri_perm _ _ Hi), length_app. destruct s; simpl; lia. }
  destruct (submit_loop_spec _ b A p mkt T ExecReport0 Hi Hok Hq Hfuel) as
    (b1 & A1 & Hl & (Hi1 & Hop & Hpo & Hna1) & Hq1 & Hn1 & Ht1).
  change (o_id T) with x in *. change (o_owner T) with o in *. change (o_side T) with s in *. change (o_qty T) with q in *.
  rewrite Hl. simpl Spec.policy. simpl Spec.next_seq. cbn [mbind res_bind]. fold limit in Hq1, Hn1, Ht1 |- *. rewrite opposite_involutive in Hop.
  revert Ti To Tp Hq1 Hn1 Ht1. set (m := Spec.match_queue _ _ _ _ _ _). intros Ti To Tp Hq1 Hn1 Ht1.
  assert (Habs1 : Spec.set_seq (Spec.m_seq m) (Spec.set_side (opposite s) (Spec.m_queue m) (ref_abs b A)) = ref_abs b1 A1).
  { unfold ref_abs, Spec.set_seq, Spec.set_side. rewrite <-Hq1, <-Hn1, Hpo. destruct s; simpl in *; by rewrite Hop. }
  rewrite Habs1. destruct (_ && _ && _) eqn:Hr; simpl; intros Hwf'.
  2:{ exists b1. split_and!; [done|by exists A1|lia|lia]. }
  assert (Hmkt : mkt = false) by (destruct mkt; done). unfold T, limit in Tp. simpl in Tp. rewrite Hmkt in Tp. simpl in Tp.
  set (r := MkResting x o p (o_qty (Spec.m_taker m)) s (next_arrival b1)).
  assert (Er : resting_of (Spec.m_taker m) = to_resting r).
  { unfold resting_of, to_resting. simpl. by rewrite Ti, To, Tp. }
  rewrite Er, ref_side, <-join_map in *. rewrite u64_small by lia.
  destruct (push_inv b1 A1 r Hi1 eq_refl) as [Hi2 Habs2].
  eexists. split; [done|]. split; [|simpl; lia]. eexists. split_and!; [exact Hi2|by rewrite Habs2|done|done].
Qed.

Lemma cancel_loop_spec all pre v x : all = pre ++ v →
  match cancel_loop all v (length pre) x with
  | None => ∀ r, r ∈ v → id r ≠ x
  | Some v' => ∃ i r, all !! i = Some r ∧ id r = x ∧ v' = erase_at all i
  end.
Proof.
  revert pre. induction v as [|r v IH]; intros pre Hall; simpl; [by intros ? ?%elem_of_nil|].
  destruct (Z.eqb_spec (id r) x).
  - exists (length pre), r. split_and!; [by rewrite Hall, list_lookup_middle|done..].
  - assert (Hlen : S (length pre) = length (pre ++ [r])) by (rewrite length_app; simpl; lia).
    rewrite Hlen. specialize (IH (pre ++ [r])). rewrite <-app_assoc in IH. specialize (IH Hall).
    destruct (cancel_loop _ _ _ _); [done|]. intros y [->|Hy]%elem_of_cons; [done|by apply IH].
Qed.

Lemma sorted_cut s l1 r l2 : StronglySorted (ahead s) (l1 ++ r :: l2) → StronglySorted (ahead s) (l1 ++ l2).
Proof.
  intros (Hd & H1 & [_ H2]%StronglySorted_cons)%StronglySorted_app. apply StronglySorted_app. split_and!; [|done..].
  intros x y Hx Hy. apply Hd; [done|by right].
Qed.

Lemma reference_cancel b S ts x : ref_repr b S ts →
  ∃ b', cancel b x = (b', (Spec.cancel S x).2) ∧ ref_repr b' (Spec.cancel S x).1 ts ∧
  next_arrival b' = next_arrival b.
Proof.
  intros (A & Hi & HS & Hwf & Ht). unfold cancel.
  pose proof (cancel_loop_spec (resting b) [] (resting b) x eq_refl) as Hc. simpl in Hc.
  destruct (cancel_loop _ _ _ _) as [v'|].
  - destruct Hc as (i & r & Hr & <- & ->). exists (with_resting b (erase_at (resting b) i)).
    set (s := side r). assert (HrA : r ∈ A s) by (eapply elem_of_side; [done|by eapply list_elem_of_lookup_2|done]).
    assert (HrS : to_resting r ∈ Spec.side s S) by (rewrite HS, ref_side; apply list_elem_of_fmap; by exists r).
    pose proof (Spec.cancel_live S s (to_resting r) Hwf HrS) as Hcl. simpl in Hcl.
    pose proof (Spec.cancel_wf S (id r) Hwf) as Hwf'. rewrite Hcl in Hwf' |- *. split; [done|]. split; [|done].
    apply list_elem_of_split in HrA as (l1 & l2 & HA).
    assert (Hperm : erase_at (resting b) i ≡ₚ (l1 ++ l2) ++ A (opposite s)).
    { pose proof (ri_perm _ _ Hi) as Hp. rewrite (sides_perm A s), HA, (erase_at_perm _ _ _ Hr), <-Permutation_middle in Hp.
      simpl in Hp. by apply Permutation_cons_inv in Hp. }
    assert (Hin : ∀ y, y ∈ l1 ++ l2 → y ∈ A s) by (intros y; rewrite HA, !elem_of_app, elem_of_cons; tauto).
    exists (with_side s (l1 ++ l2) A). split_and!; [| |done|done].
    + eapply with_side_inv; try done; simpl; [|apply (sorted_cut s l1 r l2); rewrite <-HA; apply Hi| |apply Hi].
      * intros y Hy. by apply (ri_side _ _ Hi), Hin.
      * intros y Hy. apply (ri_arrival _ _ Hi). eapply side_elem; [done|by apply Hin].
    + rewrite (ref_abs_with_side b) by done. simpl. rewrite HS, ref_side, HA, !fmap_app. simpl.
      destruct (Spec.wf_elim s S Hwf) as (_ & _ & Hnd & _). rewrite HS, ref_side, HA, !fmap_app in Hnd.
      apply NoDup_app in Hnd as (Hnd & _). rewrite <-fmap_app in Hnd.
      rewrite (Spec.remove_id_mid (to_resting <$> l1) (to_resting r)) by exact Hnd.
      by destruct s.
  - exists b. assert (Hid : x ∉ Spec.ids S).
    { rewrite HS, (ids_resting b A) by done. intros (r & Hr & E). by apply (Hc r). }
    rewrite Spec.cancel_dead by done. split; [done|]. split; [by exists A|done].
Qed.

Lemma find_spec_abs b S ts x r : ref_repr b S ts → find (resting b) x = Some r →
  Spec.find S x = Some (order_of (side r) (to_resting r)) ∧ x ∈ Spec.ids S ∧ resting_ok (to_resting r) ∧ id r = x.
Proof.
  intros (A & Hi & HS & Hwf & _) [Hr Hid]%ref_find_Some. subst x.
  assert (HrS : to_resting r ∈ Spec.side (side r) S).
  { rewrite HS, ref_side. apply list_elem_of_fmap. exists r. split; [done|by eapply elem_of_side]. }
  split_and!; [exact (Spec.find_resting S (side r) (to_resting r) Hwf HrS)| | |done].
  - rewrite (Spec.ids_sides (side r)), fmap_app. apply elem_of_app. left. apply list_elem_of_fmap. by exists (to_resting r).
  - apply (Spec.wf_orders _ Hwf). apply elem_of_app. destruct (side r); simpl in *; auto.
Qed.

Lemma reference_modify b S ts x p q : ref_repr b S ts → 0 ≤ p < two64 → 0 ≤ q < two32 →
  zlen (Spec.ids S) ≤ two31 → next_arrival b + 1 < two64 → 0 ≤ next_arrival b →
  let '(S', rep, ts') := Spec.modify S x p q in
  ∃ b', modify b x p q = Ok (b', rep) ∧ ref_repr b' S' (ts ++ ts') ∧
    next_arrival b ≤ next_arrival b' ≤ next_arrival b + 1.
Proof.
  intros Hrepr Hp Hq Hroom Hna Hna0. pose proof Hrepr as (A & Hi & HS & Hwf & Ht). unfold Spec.modify, modify.
  destruct (find (resting b) x) as [r|] eqn:Hf.
  2:{ rewrite Spec.find_dead.
      - exists b. rewrite app_nil_r. split_and!; [done|done|lia|lia].
      - rewrite HS, (ids_resting b A), <-find_elem, Hf by done. by intros []. }
  destruct (find_spec_abs _ _ _ _ _ Hrepr Hf) as (-> & Hid & (Hrid & _ & _ & Hrow) & Hx). simpl o_owner. simpl o_side.
  destruct (reference_cancel b S ts x Hrepr) as (b1 & -> & Hrepr1 & Hna1). pose proof (Spec.cancel_room S x Hwf Hid) as Hlt.
  destruct (q =? 0).
  { exists b1. rewrite app_nil_r. split_and!; [done|done|lia|lia]. }
  simpl in Hrid, Hrow. rewrite Hx in Hrid.
  pose proof (reference_submit b1 _ ts x (owner r) (side r) p q false Hrepr1) as Hsub. cbn [negb] in Hsub.
  rewrite Hna1 in Hsub. unfold add_limit. apply Hsub; [by repeat split; simpl; lia| |done|done].
  unfold Spec.side_ok. assert (∀ S0 s, zlen (Spec.side s S0) ≤ zlen (Spec.ids S0)) as Hle.
  { intros S0 s0. unfold Spec.ids, zlen. rewrite length_fmap, length_app. destruct s0; simpl; lia. }
  specialize (Hle (Spec.cancel S x).1 (opposite (side r))). lia.
Qed.

(** ** The snapshot is the queues, bids first *)

(** [a] may stand before [b] in the snapshot. *)
Definition not_after (a b : Resting) : Prop := snapshot_less b a = false.

Lemma not_after_trans a b c : not_after a b → not_after b c → not_after a c.
Proof.
  unfold not_after, snapshot_less, side_eqb. destruct (side a), (side b), (side c); simpl; try done;
    repeat match goal with |- context [?x =? ?y] => destruct (Z.eqb_spec x y) end; simpl; lia.
Qed.

Lemma less_not_after a b : snapshot_less a b = true → not_after a b.
Proof.
  unfold not_after, snapshot_less, side_eqb. destruct (side a), (side b); simpl; try done;
    repeat match goal with |- context [?x =? ?y] => destruct (Z.eqb_spec x y) end; simpl; lia.
Qed.

Lemma sort_insert_perm r l : sort_insert r l ≡ₚ r :: l.
Proof. induction l as [|x l IH]; simpl; [done|]. destruct (snapshot_less r x); [done|]. rewrite IH. constructor. Qed.

Lemma sort_insert_sorted r l : StronglySorted not_after l → StronglySorted not_after (sort_insert r l).
Proof.
  induction 1 as [|x l Hs IH Hf]; simpl; [repeat constructor|]. rewrite list.Forall_forall in Hf.
  destruct (snapshot_less r x) eqn:Hlt.
  - constructor; [by constructor; [|apply list.Forall_forall]|]. apply list.Forall_forall.
    intros y [->|Hy]%elem_of_cons; [by apply less_not_after|]. eapply not_after_trans; [by apply less_not_after|by apply Hf].
  - constructor; [done|]. apply list.Forall_forall. intros y Hy. rewrite sort_insert_perm in Hy.
    apply elem_of_cons in Hy as [->|Hy]; [done|by apply Hf].
Qed.

Lemma queue_snapshot_sorted b : StronglySorted not_after (queue_snapshot b) ∧ queue_snapshot b ≡ₚ resting b.
Proof.
  unfold queue_snapshot. induction (resting b) as [|r v [IH1 IH2]]; simpl; [split; [constructor|done]|].
  split; [by apply sort_insert_sorted|]. by rewrite sort_insert_perm, IH2.
Qed.

Lemma ahead_less s a b : side a = s → side b = s → ahead s a b → snapshot_less a b = true.
Proof.
  unfold ahead, beats, snapshot_less, side_eqb. intros -> ->. rewrite bool_decide_true by done. simpl.
  destruct (Z.eqb_spec (price a) (price b)) as [->|]; simpl; destruct s; lia.
Qed.

Lemma reference_snapshot b A : ref_inv b A → queue_snapshot b = A Buy ++ A Sell.
Proof.
  intros Hi. destruct (queue_snapshot_sorted b) as [Hs Hp]. rewrite (ri_perm _ _ Hi) in Hp.
  assert (Hsort : ∀ s, StronglySorted not_after (A s)).
  { intros s. pose proof (ri_sorted _ _ Hi s) as Ha. pose proof (ri_side _ _ Hi s) as Hsd. revert Ha Hsd.
    generalize (A s) as l. induction 1 as [|x l Hl IH Hf]; intros Hsd; constructor.
    - apply IH. intros r Hr. apply Hsd. by right.
    - rewrite list.Forall_forall in Hf |- *. intros y Hy. apply less_not_after, (ahead_less s); [apply Hsd; left|apply Hsd; by right|by apply Hf]. }
  eapply (StronglySorted_unique_strong not_after); [|done| |done].
  - intros x y Hx Hy H1 H2. rewrite Hp in Hx.
    assert (Hsd : side x = side y) by (revert H1 H2; unfold not_after, snapshot_less, side_eqb; by destruct (side x), (side y)).
    assert (Hin : ∀ z, z ∈ A Buy ++ A Sell → z ∈ A (side z)).
    { intros z [Hz|Hz]%elem_of_app; by rewrite (ri_side _ _ Hi _ _ Hz). }
    pose proof (Hin x Hx) as Hx'. pose proof (Hin y Hy) as Hy'. rewrite Hsd in Hx'.
    destruct (ahead_cases _ _ x y (ri_sorted _ _ Hi (side y)) Hx' Hy') as [?|[Ha|Ha]]; [done|..].
    + apply (ahead_less (side y)) in Ha; [|done..]. unfold not_after in H2. congruence.
    + apply (ahead_less (side y)) in Ha; [|done..]. unfold not_after in H1. congruence.
  - apply StronglySorted_app. split_and!; [|done..]. intros x y Hx Hy.
    pose proof (ri_side _ _ Hi _ _ Hx) as Ex. pose proof (ri_side _ _ Hi _ _ Hy) as Ey.
    unfold not_after, snapshot_less, side_eqb. by rewrite Ex, Ey.
Qed.

Lemma reference_make stp : ref_repr (make stp) (Spec.empty stp) [].
Proof.
  exists (λ _, []). split_and!; [|done|apply Spec.empty_wf|done]. split; simpl; try done.
  - by intros s r ?%elem_of_nil.
  - intros s. constructor.
  - by intros r ?%elem_of_nil.
Qed.

End RefBook.
