(* ===== verification/Diff.v ===== *)
(** * The differential harness (tests/diff_harness.hpp, .cpp)

    A sequence of operations drives the engine and the reference book; what each
    reports, prints and leaves resting is compared. [Implements] is what a book
    promises the harness; both books are instances of it, and every theorem about
    runs is proved once against the class. *)

From stdpp Require Import base decidable list.
From S2P Require Import Prelude.
From S2P Require Import Types.
From S2P Require Import Ring.
From S2P Require Import SortedMap.
From S2P Require Import Spec.
From S2P Require Import Book.
From S2P Require Import Inv.
From S2P Require Import Checks.
From S2P Require Import Refine.
From S2P Require Import RefBook.

Module Diff.

(** ** Operations *)

Inductive Kind := AddLimit | AddMarket | Cancel | Modify.

Record Op := MkOp {
  op_kind : Kind;
  op_id : OrderId;
  op_owner : ParticipantId;
  op_side : Side;
  op_price : Price;
  op_qty : Quantity;
}.

#[global] Instance Kind_eq_dec : EqDecision Kind.
Proof. solve_decision. Defined.
#[global] Instance Op_eq_dec : EqDecision Op.
Proof. solve_decision. Defined.

(** The fields are in range for their C++ types. *)
Definition op_ok (op : Op) : Prop :=
  0 ≤ op_id op < two64 ∧ 0 ≤ op_owner op < two32 ∧ 0 ≤ op_price op < two64 ∧ 0 ≤ op_qty op < two32.

#[global] Instance op_ok_dec op : Decision (op_ok op).
Proof. unfold op_ok. apply _. Defined.

(** ** A book the harness can drive *)

Class Drives (B : Type) := {
  add_limit : B → OrderId → ParticipantId → Side → Price → Quantity → res (B * ExecReport);
  add_market : B → OrderId → ParticipantId → Side → Quantity → res (B * ExecReport);
  cancel : B → OrderId → res (B * bool);
  modify : B → OrderId → Price → Quantity → res (B * ExecReport);
  settle : B → res unit;      (* what the harness calls after each operation *)
}.

(** The report the harness makes of a cancel: [r.accepted = book.cancel(id)]. *)
Definition cancel_report (ok : bool) : ExecReport :=
  MkExecReport 0 0 0 0 0 false ok false.

Section runs.
Context {B : Type} {D : Drives B}.

Definition step (b : B) (op : Op) : res (B * ExecReport) :=
  match op_kind op with
  | AddLimit => add_limit b (op_id op) (op_owner op) (op_side op) (op_price op) (op_qty op)
  | AddMarket => add_market b (op_id op) (op_owner op) (op_side op) (op_qty op)
  | Cancel => '(b, ok) ← cancel b (op_id op); Ok (b, cancel_report ok)
  | Modify => modify b (op_id op) (op_price op) (op_qty op)
  end.

Fixpoint run (b : B) (ops : list Op) : res (B * list ExecReport) :=
  match ops with
  | [] => Ok (b, [])
  | op :: ops =>
      '(b, rep) ← step b op;
      _ ← settle b;
      '(b, reps) ← run b ops;
      Ok (b, rep :: reps)
  end.

End runs.

(** The same operations on the abstract book. *)
Definition spec_step (S : Spec.Book) (op : Op) : Spec.Book * ExecReport * list Trade :=
  match op_kind op with
  | AddLimit => Spec.submit S (op_id op) (op_owner op) (op_side op) (Some (op_price op)) (op_qty op) true
  | AddMarket => Spec.submit S (op_id op) (op_owner op) (op_side op) None (op_qty op) false
  | Cancel => ((Spec.cancel S (op_id op)).1, cancel_report (Spec.cancel S (op_id op)).2, [])
  | Modify => Spec.modify S (op_id op) (op_price op) (op_qty op)
  end.

Fixpoint spec_run (S : Spec.Book) (ops : list Op) : Spec.Book * list ExecReport * list Trade :=
  match ops with
  | [] => (S, [], [])
  | op :: ops =>
      let '(S1, rep, ts) := spec_step S op in
      let '(S2, reps, ts') := spec_run S1 ops in
      (S2, rep :: reps, ts ++ ts')
  end.

(** ** What a book promises

    [rel n b S ts]: after at most [n] operations the book [b] stands for the
    abstract book [S] and has printed the trades [ts]. *)
Class Implements (B : Type) {D : Drives B} (rel : Z → B → Spec.Book → list Trade → Prop) := {
  implements_wf n b S ts : rel n b S ts → Spec.wf S ∧ zlen (Spec.ids S) ≤ n;
  implements_limit n b S ts id owner s price qty : rel n b S ts → n < two31 →
    Spec.args_ok id owner (Some price) qty →
    let '(S', rep, ts') := Spec.submit S id owner s (Some price) qty true in
    ∃ b', add_limit b id owner s price qty = Ok (b', rep) ∧ rel (n + 1) b' S' (ts ++ ts');
  implements_market n b S ts id owner s qty : rel n b S ts → n < two31 →
    Spec.args_ok id owner None qty →
    let '(S', rep, ts') := Spec.submit S id owner s None qty false in
    ∃ b', add_market b id owner s qty = Ok (b', rep) ∧ rel (n + 1) b' S' (ts ++ ts');
  implements_cancel n b S ts id : rel n b S ts → n < two31 →
    ∃ b', cancel b id = Ok (b', (Spec.cancel S id).2) ∧ rel (n + 1) b' (Spec.cancel S id).1 ts;
  implements_modify n b S ts id price qty : rel n b S ts → n < two31 →
    0 ≤ price < two64 → 0 ≤ qty < two32 →
    let '(S', rep, ts') := Spec.modify S id price qty in
    ∃ b', modify b id price qty = Ok (b', rep) ∧ rel (n + 1) b' S' (ts ++ ts');
  implements_settle n b S ts : rel n b S ts → settle b = Ok ();
}.

Section implements.
Context {B : Type} {D : Drives B} {rel : Z → B → Spec.Book → list Trade → Prop}.
Context {I : Implements B rel}.

Lemma step_implements n b S ts op : rel n b S ts → n < two31 → op_ok op →
  let '(S', rep, ts') := spec_step S op in
  ∃ b', step b op = Ok (b', rep) ∧ rel (n + 1) b' S' (ts ++ ts').
Proof.
  intros Hrel Hn (Hid & How & Hp & Hq). unfold spec_step, step. destruct (op_kind op).
  - apply (implements_limit n); [done..|]. repeat split; simpl; lia.
  - apply (implements_market n); [done..|]. repeat split; simpl; lia.
  - destruct (implements_cancel n b S ts (op_id op) Hrel Hn) as (b' & -> & Hrel').
    exists b'. by rewrite app_nil_r.
  - by apply (implements_modify n).
Qed.

Lemma run_implements n b S ts ops : rel n b S ts → n + zlen ops ≤ two31 → Forall op_ok ops →
  let '(S', reps, ts') := spec_run S ops in
  ∃ b', run b ops = Ok (b', reps) ∧ rel (n + zlen ops) b' S' (ts ++ ts').
Proof.
  intros Hrel Hn Hops. revert n b S ts Hrel Hn.
  induction Hops as [|op ops Hop Hops IH]; intros n b S ts Hrel Hn.
  { simpl. exists b. change (zlen []) with 0. by rewrite app_nil_r, Z.add_0_r. }
  rewrite zlen_cons in *. pose proof (zlen_nonneg ops) as Hlen. cbn [spec_run run].
  pose proof (step_implements n b S ts op Hrel ltac:(lia) Hop) as Hstep.
  destruct (spec_step S op) as [[S1 rep] ts1]. destruct Hstep as (b1 & -> & Hrel1). cbn [mbind res_bind].
  rewrite (implements_settle _ _ _ _ Hrel1). cbn [mbind res_bind].
  specialize (IH (n + 1) b1 S1 (ts ++ ts1) Hrel1 ltac:(lia)).
  destruct (spec_run S1 ops) as [[S2 reps] ts2]. destruct IH as (b2 & -> & Hrel2).
  exists b2. split; [done|]. rewrite <-app_assoc in Hrel2. by replace (n + (zlen ops + 1)) with (n + 1 + zlen ops) by lia.
Qed.

End implements.

(** ** The two books *)

Section engine.
Context {build : Build}.

#[global] Instance engine_drives : Drives OrderBook.OrderBook := {
  add_limit := OrderBook.add_limit;
  add_market := OrderBook.add_market;
  cancel := OrderBook.cancel;
  modify := OrderBook.modify;
  settle := OrderBook.check_invariants;
}.

(** The engine keeps at most [cap] undrained trades. *)
Definition engine_rel (cap n : Z) (b : OrderBook.OrderBook) (S : Spec.Book) (ts : list Trade) : Prop :=
  BookInv.repr b S (foldl TradeRing.fifo_push (TradeRing.MkFifo [] cap 0) ts) ∧ zlen (Spec.ids S) ≤ n.

Lemma engine_submit b S F n id owner s limit qty rest : BookInv.repr b S F → zlen (Spec.ids S) ≤ n → n < two31 →
  Spec.args_ok id owner limit qty → (rest = true → is_Some limit) →
  let '(S', rep, ts) := Spec.submit S id owner s limit qty rest in
  ∃ b', OrderBook.submit b id owner s limit qty rest = Ok (b', rep) ∧
    BookInv.repr b' S' (foldl TradeRing.fifo_push F ts) ∧ zlen (Spec.ids S') ≤ n + 1.
Proof.
  intros Hrepr Hlen Hn Hargs Hrest. pose proof (Refine.repr_wf b S F Hrepr) as Hwf.
  pose proof (Spec.submit_size S id owner s limit qty rest Hwf) as Hsize.
  pose proof (Refine.submit_refines b S _ id owner s limit qty rest Hrepr Hargs ltac:(lia) Hrest) as Hsub.
  destruct (Spec.submit _ _ _ _ _ _ _) as [[S' rep] ts']. destruct Hsub as (b' & Hb' & Hrepr').
  exists b'. split_and!; [done..|]. simpl in Hsize. lia.
Qed.

Lemma engine_modify b S F n id price qty : BookInv.repr b S F → zlen (Spec.ids S) ≤ n →
  0 ≤ price < two64 → 0 ≤ qty < two32 →
  let '(S', rep, ts) := Spec.modify S id price qty in
  ∃ b', OrderBook.modify b id price qty = Ok (b', rep) ∧
    BookInv.repr b' S' (foldl TradeRing.fifo_push F ts) ∧ zlen (Spec.ids S') ≤ n + 1.
Proof.
  intros Hrepr Hlen Hp Hq. pose proof (Refine.repr_wf b S F Hrepr) as Hwf.
  pose proof (Spec.modify_size S id price qty Hwf) as Hsize.
  pose proof (Refine.modify_refines b S _ id price qty Hrepr Hp Hq) as Hm.
  destruct (Spec.modify _ _ _ _) as [[S' rep] ts']. destruct Hm as (b' & Hb' & Hrepr').
  exists b'. split_and!; [done..|]. simpl in Hsize. lia.
Qed.

(** One operation of the harness, from any state that stands for a book. *)
Lemma engine_step b S F n op : BookInv.repr b S F → zlen (Spec.ids S) ≤ n → n < two31 → op_ok op →
  let '(S', rep, ts) := spec_step S op in
  ∃ b', step b op = Ok (b', rep) ∧ BookInv.repr b' S' (foldl TradeRing.fifo_push F ts) ∧
    zlen (Spec.ids S') ≤ n + 1.
Proof.
  intros Hrepr Hlen Hn (Hid & How & Hp & Hq). unfold spec_step, step. destruct (op_kind op).
  - apply (engine_submit b S F n); [done..| |by eexists]. repeat split; simpl; lia.
  - apply (engine_submit b S F n); [done..| |done]. repeat split; simpl; lia.
  - destruct (Refine.cancel_refines b S F (op_id op) Hrepr) as (b' & Hb' & Hrepr').
    pose proof (Spec.cancel_size S (op_id op)). exists b'. cbn [cancel engine_drives]. rewrite Hb'.
    split_and!; [done..|lia].
  - by apply (engine_modify b S F n).
Qed.

#[global] Instance engine_implements cap : Implements OrderBook.OrderBook (engine_rel cap).
Proof.
  assert (Happ : ∀ ts ts', foldl TradeRing.fifo_push (TradeRing.MkFifo [] cap 0) (ts ++ ts') =
    foldl TradeRing.fifo_push (foldl TradeRing.fifo_push (TradeRing.MkFifo [] cap 0) ts) ts') by (intros; apply foldl_app).
  unfold engine_rel. split.
  - intros n b S ts [Hrepr ?]. split; [by eapply Refine.repr_wf|done].
  - intros n b S ts id owner s price qty [Hrepr Hlen] Hn Hargs.
    pose proof (engine_submit b S _ n id owner s (Some price) qty true Hrepr Hlen Hn Hargs ltac:(by eexists)) as Hsub.
    destruct (Spec.submit _ _ _ _ _ _ _) as [[? ?] ts']. by rewrite Happ.
  - intros n b S ts id owner s qty [Hrepr Hlen] Hn Hargs.
    pose proof (engine_submit b S _ n id owner s None qty false Hrepr Hlen Hn Hargs ltac:(done)) as Hsub.
    destruct (Spec.submit _ _ _ _ _ _ _) as [[? ?] ts']. by rewrite Happ.
  - intros n b S ts id [Hrepr Hlen] Hn. destruct (Refine.cancel_refines b S _ id Hrepr) as (b' & Hb' & Hrepr').
    exists b'. pose proof (Spec.cancel_size S id). split; [done|]. split; [done|lia].
  - intros n b S ts id price qty [Hrepr Hlen] Hn Hp Hq.
    pose proof (engine_modify b S _ n id price qty Hrepr Hlen Hp Hq) as Hm.
    destruct (Spec.modify _ _ _ _) as [[? ?] ts']. by rewrite Happ.
  - intros n b S ts [(Q & fl & Hinv & -> & Hwf & _) _]. by apply (Checks.check_invariants_ok b Q fl).
Qed.

End engine.

#[global] Instance reference_drives : Drives RefBook.ReferenceBook := {
  add_limit := RefBook.add_limit;
  add_market := RefBook.add_market;
  cancel := λ b id, Ok (RefBook.cancel b id);
  modify := RefBook.modify;
  settle := λ _, Ok ();
}.

Definition reference_rel (n : Z) (b : RefBook.ReferenceBook) (S : Spec.Book) (ts : list Trade) : Prop :=
  RefBook.ref_repr b S ts ∧ zlen (Spec.ids S) ≤ n ∧ 0 ≤ RefBook.next_arrival b ≤ n + 1.

Lemma reference_implements_submit n b S ts id owner s p qty (mkt : bool) : reference_rel n b S ts → n < two31 →
  let limit := if mkt then None else Some p in Spec.args_ok id owner limit qty →
  let '(S', rep, ts') := Spec.submit S id owner s limit qty (negb mkt) in
  ∃ b', RefBook.submit b id owner s p qty mkt = Ok (b', rep) ∧ reference_rel (n + 1) b' S' (ts ++ ts').
Proof.
  intros (Hrepr & Hlen & Hna) Hn limit Hargs.
  assert (Hwf : Spec.wf S) by (destruct Hrepr as (? & ? & ? & ? & ?); done).
  assert (Hside : Spec.side_ok (Spec.side (opposite s) S)).
  { unfold Spec.side_ok. rewrite (Spec.ids_length s) in Hlen. pose proof (zlen_nonneg (Spec.side s S)). lia. }
  pose proof (Spec.submit_size S id owner s limit qty (negb mkt) Hwf) as Hsize.
  pose proof (RefBook.reference_submit b S ts id owner s p qty mkt Hrepr Hargs Hside ltac:(lia) ltac:(lia)) as Hsub.
  fold limit in Hsub. destruct (Spec.submit _ _ _ _ _ _ _) as [[S' rep] ts']. destruct Hsub as (b' & Hb' & Hrepr' & Hna').
  exists b'. split; [done|]. simpl in Hsize. split_and!; [done|lia..].
Qed.

#[global] Instance reference_implements : Implements RefBook.ReferenceBook reference_rel.
Proof.
  split.
  - intros n b S ts ((? & ? & ? & ? & ?) & ? & _). done.
  - intros n b S ts id owner s price qty Hrel Hn Hargs.
    exact (reference_implements_submit n b S ts id owner s price qty false Hrel Hn Hargs).
  - intros n b S ts id owner s qty Hrel Hn Hargs.
    exact (reference_implements_submit n b S ts id owner s 0 qty true Hrel Hn Hargs).
  - intros n b S ts id (Hrepr & Hlen & Hna) Hn. cbn [cancel reference_drives].
    destruct (RefBook.reference_cancel b S ts id Hrepr) as (b' & -> & Hrepr' & Hna').
    exists b'. pose proof (Spec.cancel_size S id). split; [done|]. split_and!; [done|lia..].
  - intros n b S ts id price qty (Hrepr & Hlen & Hna) Hn Hp Hq.
    assert (Hwf : Spec.wf S) by (destruct Hrepr as (? & ? & ? & ? & ?); done).
    pose proof (Spec.modify_size S id price qty Hwf) as Hsize.
    pose proof (RefBook.reference_modify b S ts id price qty Hrepr Hp Hq ltac:(lia) ltac:(lia) ltac:(lia)) as Hm.
    destruct (Spec.modify _ _ _ _) as [[S' rep] ts']. destruct Hm as (b' & Hb' & Hrepr' & Hna').
    exists b'. split; [done|]. simpl in Hsize. split_and!; [done|lia..].
  - done.
Qed.

(** ** Observing and comparing *)

Record Observed := MkObserved {
  trades : list Trade;
  reports : list ExecReport;
  queue : list (Z * Price * OrderId * Quantity);     (* side, price, id, qty *)
}.

(** [static_cast<std::uint64_t>(o.side)]. *)
Definition side_code (s : Side) : Z := match s with Buy => 0 | Sell => 1 end.

Definition row (side : Z) (price : Price) (id : OrderId) (qty : Quantity) :
    Z * Price * OrderId * Quantity := (side, price, id, qty).

Definition same_trade (x y : Trade) : bool :=
  (t_seq x =? t_seq y) && (t_maker_id x =? t_maker_id y) && (t_taker_id x =? t_taker_id y) &&
  (t_price x =? t_price y) && (t_qty x =? t_qty y) && side_eqb (t_taker_side x) (t_taker_side y).

Definition same_report (a b : ExecReport) : bool :=
  (first_seq a =? first_seq b) && (trade_count a =? trade_count b) &&
  (filled a =? filled b) && (remaining a =? remaining b) &&
  (stp_cancelled a =? stp_cancelled b) && Bool.eqb (rested a) (rested b) &&
  Bool.eqb (accepted a) (accepted b) && Bool.eqb (stp_halted a) (stp_halted b).

(** The loops of [operator==]: equal sizes, then equal elements. *)
Fixpoint same_all {A} (same : A → A → bool) (xs ys : list A) : bool :=
  match xs, ys with
  | [], [] => true
  | x :: xs, y :: ys => same x y && same_all same xs ys
  | _, _ => false
  end.

Definition same (a b : Observed) : bool :=
  same_all same_trade (trades a) (trades b) && same_all same_report (reports a) (reports b) &&
  bool_decide (queue a = queue b).

Definition run_engine {build : Build} (ops : list Op) (cfg : Config) : res Observed :=
  book ← OrderBook.make cfg;
  '(book, reps) ← run book ops;
  '(ts, book) ← OrderBook.drain_trades book;
  q ← OrderBook.for_each_resting book;
  Ok (MkObserved ts reps ((λ o, row (side_code (o_side o)) (o_price o) (o_id o) (o_qty o)) <$> q)).

Definition run_reference (ops : list Op) (policy : SelfTradePolicy) : res Observed :=
  '(book, reps) ← run (RefBook.make policy) ops;
  Ok (MkObserved (RefBook.trade_log book) reps
    ((λ r, row (side_code (RefBook.side r)) (RefBook.price r) (RefBook.id r) (RefBook.qty r))
      <$> RefBook.queue_snapshot book)).

(** [diverges(ops, cfg)]. *)
Definition diverges {build : Build} (ops : list Op) (cfg : Config) : res bool :=
  e ← run_engine ops cfg;
  r ← run_reference ops (self_trade cfg);
  Ok (negb (same e r)).

(** [engine_config(policy)]. *)
Definition engine_config (policy : SelfTradePolicy) : Config :=
  MkConfig policy 65536 true 0 1024 None.

(** ** The books agree *)

Lemma spec_step_trades S op : let '(S', _, ts) := spec_step S op in zlen ts + zlen (Spec.ids S') ≤ zlen (Spec.ids S) + 1.
Proof.
  unfold spec_step. destruct (op_kind op).
  - pose proof (Spec.submit_trades S (op_id op) (op_owner op) (op_side op) (Some (op_price op)) (op_qty op) true).
    by destruct (Spec.submit _ _ _ _ _ _ _) as [[? ?] ?].
  - pose proof (Spec.submit_trades S (op_id op) (op_owner op) (op_side op) None (op_qty op) false).
    by destruct (Spec.submit _ _ _ _ _ _ _) as [[? ?] ?].
  - pose proof (Spec.cancel_size S (op_id op)). change (zlen []) with 0. lia.
  - pose proof (Spec.modify_trades S (op_id op) (op_price op) (op_qty op)).
    by destruct (Spec.modify _ _ _ _) as [[? ?] ?].
Qed.

Lemma spec_run_trades S ops : let '(S', _, ts) := spec_run S ops in
  zlen ts + zlen (Spec.ids S') ≤ zlen (Spec.ids S) + zlen ops.
Proof.
  revert S. induction ops as [|op ops IH]; intros S; cbn [spec_run]; [change (zlen []) with 0; change (zlen []) with 0; lia|].
  pose proof (spec_step_trades S op). destruct (spec_step S op) as [[S1 rep] ts].
  specialize (IH S1). destruct (spec_run S1 ops) as [[S2 reps] ts']. rewrite zlen_app, zlen_cons. lia.
Qed.

Definition spec_rows (S : Spec.Book) : list (Z * Price * OrderId * Quantity) :=
  ((λ r, row 0 (r_price r) (r_id r) (r_qty r)) <$> Spec.bids S) ++
  ((λ r, row 1 (r_price r) (r_id r) (r_qty r)) <$> Spec.asks S).

(** What the harness sees of a run of the abstract book, with the trades cut to
    the engine's ring. *)
Definition spec_observed (S : Spec.Book) (ops : list Op) : Observed :=
  let '(S', reps, ts) := spec_run S ops in MkObserved ts reps (spec_rows S').

Definition cut_trades (cap : Z) (o : Observed) : Observed :=
  MkObserved (take (Z.to_nat cap) (trades o)) (reports o) (queue o).

Lemma run_engine_spec {build : Build} cfg ops : Refine.config_ok cfg → Forall op_ok ops → zlen ops ≤ two31 →
  run_engine ops cfg = Ok (cut_trades (Refine.ring_capacity cfg) (spec_observed (Spec.empty (self_trade cfg)) ops)).
Proof.
  intros Hcfg Hops Hlen. destruct (Refine.make_refines cfg Hcfg) as (b & Hb & Hrepr & Hcap & Hpos).
  revert Hrepr Hcap Hpos. generalize (Refine.ring_capacity cfg) as cap. intros cap Hrepr Hcap Hpos. unfold run_engine, spec_observed. rewrite Hb. cbn [mbind res_bind].
  assert (Hrel : engine_rel cap 0 b (Spec.empty (self_trade cfg)) []) by done.
  pose proof (run_implements (I := engine_implements cap) 0 b _ [] ops Hrel ltac:(lia) Hops) as Hrun.
  destruct (spec_run _ ops) as [[S' reps] ts]. destruct Hrun as (b' & -> & Hrepr' & _). cbn [mbind res_bind].
  destruct (Refine.drain_trades_refines _ _ _ Hrepr') as (b2 & -> & (Q & fl & Hinv & -> & Hwf & _)). cbn [mbind res_bind].
  rewrite (Checks.for_each_resting_abs b2 Q fl Hinv). cbn [mbind res_bind]. unfold cut_trades. simpl. f_equal.
  destruct (TradeRing.fifo_pushes cap ts ltac:(lia)) as (-> & _). f_equal.
  unfold spec_rows. simpl. by rewrite fmap_app, <-!list_fmap_compose.
Qed.

Lemma run_reference_spec ops policy : Forall op_ok ops → zlen ops ≤ two31 →
  run_reference ops policy = Ok (spec_observed (Spec.empty policy) ops).
Proof.
  intros Hops Hlen. unfold run_reference, spec_observed.
  assert (Hrel : reference_rel 0 (RefBook.make policy) (Spec.empty policy) []).
  { split_and!; [apply RefBook.reference_make|done..]. }
  pose proof (run_implements (I := reference_implements) 0 _ _ [] ops Hrel ltac:(lia) Hops) as Hrun.
  destruct (spec_run _ ops) as [[S' reps] ts]. destruct Hrun as (b' & -> & (A & Hi & -> & Hwf & Ht) & _). cbn [mbind res_bind].
  rewrite Ht, (RefBook.reference_snapshot b' A Hi). do 2 f_equal. rewrite fmap_app. unfold spec_rows. simpl.
  rewrite <-!list_fmap_compose. f_equal; apply list_fmap_ext; intros i r Hr%list_elem_of_lookup_2; simpl;
    by rewrite (RefBook.ri_side _ _ Hi _ _ Hr).
Qed.

Lemma same_trade_refl t : same_trade t t = true.
Proof. unfold same_trade, side_eqb. rewrite !Z.eqb_refl. by rewrite bool_decide_true. Qed.

Lemma same_report_refl r : same_report r r = true.
Proof. unfold same_report. by rewrite !Z.eqb_refl, !eqb_reflx. Qed.

Lemma same_all_refl {A} (f : A → A → bool) l : (∀ x, f x x = true) → same_all f l l = true.
Proof. intros Hf. induction l as [|x l IH]; simpl; [done|]. by rewrite Hf, IH. Qed.

Lemma same_refl o : same o o = true.
Proof.
  unfold same. rewrite !same_all_refl by (apply same_trade_refl || apply same_report_refl).
  by rewrite bool_decide_true.
Qed.

(** No operation changes the policy. *)
Lemma spec_step_policy S op : Spec.policy (spec_step S op).1.1 = Spec.policy S.
Proof.
  unfold spec_step. destruct (op_kind op); simpl; [apply Spec.submit_policy..|done|apply Spec.modify_policy].
Qed.

Lemma spec_observed_trades pol ops : zlen (trades (spec_observed (Spec.empty pol) ops)) ≤ zlen ops.
Proof.
  unfold spec_observed. pose proof (spec_run_trades (Spec.empty pol) ops) as H.
  destruct (spec_run _ ops) as [[S' reps] ts]. simpl. change (zlen (Spec.ids (Spec.empty pol))) with 0 in H.
  pose proof (zlen_nonneg (Spec.ids S')). lia.
Qed.

Lemma cut_trades_whole cap o : zlen (trades o) ≤ cap → cut_trades cap o = o.
Proof. intros H. destruct o. unfold cut_trades, zlen in *. simpl in *. by rewrite take_ge by lia. Qed.

(** The two books agree on every sequence the ring can hold. *)
Lemma agree {build : Build} cfg ops : Refine.config_ok cfg → Forall op_ok ops → zlen ops ≤ two31 →
  zlen ops ≤ trade_capacity cfg → diverges ops cfg = Ok false.
Proof.
  intros Hcfg Hops Hlen Hcap. unfold diverges. rewrite run_engine_spec by done. cbn [mbind res_bind].
  rewrite run_reference_spec by done. cbn [mbind res_bind].
  destruct (Refine.make_refines cfg Hcfg) as (_ & _ & _ & ? & _).
  rewrite cut_trades_whole, same_refl; [done|]. pose proof (spec_observed_trades (self_trade cfg) ops). lia.
Qed.

End Diff.
