(* ===== verification/Reach.v ===== *)
(** * Reachable engine states

    The engine as a state machine: a book is constructed, then operations and
    drains alternate in any order. Every reachable state stands for an abstract
    book; the lemmas here say what a caller can observe of it. *)

From stdpp Require Import base decidable list sorting.
From S2P Require Import Prelude.
From S2P Require Import Types.
From S2P Require Import Ring.
From S2P Require Import SortedMap.
From S2P Require Import Spec.
From S2P Require Import Book.
From S2P Require Import Inv.
From S2P Require Import Checks.
From S2P Require Import Refine.
From S2P Require Import Diff.

Module Reach.

(** ** What a caller observes *)

(** The resting orders of one side, in the order they are visited. *)
Definition side_orders (s : Side) (os : list Order) : list Order := filter (λ o, o_side o = s) os.

Definition orders_at (s : Side) (p : Price) (os : list Order) : list Order :=
  filter (λ o, o_side o = s ∧ o_price o = p) os.

Definition volume (os : list Order) : Z := foldr (λ o z, o_qty o + z) 0 os.

(** The trades [new] that [b'] holds on top of those of [b]. *)
Definition printed {build : Build} (b b' : OrderBook.OrderBook) (new : list Trade) : Prop :=
  ∃ old b0 b1, OrderBook.drain_trades b = Ok (old, b0) ∧ OrderBook.drain_trades b' = Ok (old ++ new, b1).

(** The list of resting orders of an abstract book. *)
Definition orders_of (S : Spec.Book) : list Order :=
  (order_of Buy <$> Spec.bids S) ++ (order_of Sell <$> Spec.asks S).

Lemma side_orders_of s S : side_orders s (orders_of S) = order_of s <$> Spec.side s S.
Proof.
  assert (Hsame : ∀ l : list RestingOrder, filter (λ o, o_side o = s) (order_of s <$> l : list Order) = order_of s <$> l).
  { intros l. apply filter_whole. by intros o (r & -> & _)%list_elem_of_fmap. }
  assert (Hother : ∀ l : list RestingOrder, filter (λ o, o_side o = s) (order_of (opposite s) <$> l : list Order) = []).
  { intros l. apply filter_none. intros o (r & -> & _)%list_elem_of_fmap. by destruct s. }
  unfold side_orders, orders_of. rewrite filter_app. destruct s; simpl in *; rewrite Hsame, Hother; [by rewrite app_nil_r|done].
Qed.

Lemma volume_of_fmap s l : volume (order_of s <$> l) = Spec.volume l.
Proof. induction l as [|r l IH]; [done|]. simpl. by rewrite <-IH. Qed.

Lemma orders_at_of s p S : orders_at s p (orders_of S) = order_of s <$> Spec.at_price s S p.
Proof.
  assert (E : ∀ os, orders_at s p os = filter (λ o, o_price o = p) (side_orders s os)).
  { intros os. unfold orders_at, side_orders. induction os as [|o os IH]; [done|]. rewrite !filter_cons.
    destruct (decide (o_side o = s)), (decide (o_side o = s ∧ o_price o = p)); rewrite ?filter_cons;
      try destruct (decide (o_price o = p)); try tauto; by rewrite IH. }
  rewrite E, side_orders_of. unfold Spec.at_price. induction (Spec.side s S) as [|r l IH]; [done|].
  rewrite fmap_cons, !filter_cons. simpl. destruct (decide (r_price r = p)); by rewrite ?fmap_cons, IH.
Qed.

Lemma orders_of_ids S : o_id <$> orders_of S = Spec.ids S.
Proof. unfold orders_of, Spec.ids. rewrite !fmap_app, <-!list_fmap_compose. done. Qed.

Lemma orders_of_length S : zlen (orders_of S) = zlen (Spec.ids S).
Proof. rewrite <-orders_of_ids. unfold zlen. by rewrite length_fmap. Qed.

Lemma volume_orders_of S : volume (orders_of S) = Spec.volume (Spec.bids S) + Spec.volume (Spec.asks S).
Proof.
  unfold orders_of. rewrite <-(volume_of_fmap Buy (Spec.bids S)), <-(volume_of_fmap Sell (Spec.asks S)).
  induction (order_of Buy <$> Spec.bids S) as [|o l IH]; [done|]. unfold volume in *. simpl. lia.
Qed.

Lemma elem_of_side_orders s o S : o ∈ side_orders s (orders_of S) ↔ ∃ r, r ∈ Spec.side s S ∧ o = order_of s r.
Proof. rewrite side_orders_of, list_elem_of_fmap. naive_solver. Qed.

Lemma find_orders_of id S : Spec.find S id = head (filter (λ o, o_id o = id) (orders_of S)).
Proof.
  assert (E : ∀ s (l : list RestingOrder), filter (λ o, o_id o = id) (order_of s <$> l : list Order) =
    order_of s <$> filter (λ r, r_id r = id) l).
  { intros s l. induction l as [|r l IH]; [done|]. rewrite fmap_cons, !filter_cons. simpl.
    destruct (decide (r_id r = id)); by rewrite ?fmap_cons, IH. }
  unfold Spec.find, Spec.find_in, orders_of. rewrite filter_app, !E.
  destruct (filter (λ r, r_id r = id) (Spec.bids S)); simpl; [|done].
  by destruct (filter (λ r, r_id r = id) (Spec.asks S)).
Qed.

Lemma remove_orders_of id S : filter (λ o, o_id o ≠ id) (orders_of S) = orders_of (Spec.cancel S id).1.
Proof.
  unfold orders_of, Spec.cancel, Spec.remove_id. rewrite filter_app.
  assert (E : ∀ s (l : list RestingOrder), filter (λ o, o_id o ≠ id) (order_of s <$> l : list Order) =
    order_of s <$> filter (λ r, r_id r ≠ id) l).
  { intros s l. induction l as [|r l IH]; [done|]. rewrite fmap_cons, !filter_cons. simpl.
    destruct (decide (r_id r ≠ id)); by rewrite ?fmap_cons, IH. }
  by rewrite !E.
Qed.

Section reach.
Context {build : Build}.

(** [reachable cfg n b]: a book made with [cfg] can be in state [b] after [n]
    operations. *)
Inductive reachable (cfg : Config) : Z → OrderBook.OrderBook → Prop :=
  | reach_make b : OrderBook.make cfg = Ok b → reachable cfg 0 b
  | reach_step n b op b' rep : reachable cfg n b → n < two31 → Diff.op_ok op →
      Diff.step b op = Ok (b', rep) → reachable cfg (n + 1) b'
  | reach_drain n b ts b' : reachable cfg n b →
      OrderBook.drain_trades b = Ok (ts, b') → reachable cfg n b'.

Context (cfg : Config) (Hcfg : Refine.config_ok cfg).

Lemma reachable_repr n b : reachable cfg n b →
  ∃ S F, BookInv.repr b S F ∧ zlen (Spec.ids S) ≤ n ∧ Spec.policy S = self_trade cfg ∧
    TradeRing.bound F = Refine.ring_capacity cfg.
Proof.
  induction 1 as [b Hb|n b op b' rep Hr IH Hn Hop Hs|n b ts b' Hr IH Hd].
  - destruct (Refine.make_refines cfg Hcfg) as (b0 & Hb0 & Hrepr & _). rewrite Hb in Hb0. injection Hb0 as <-.
    by eexists _, _.
  - destruct IH as (S & F & Hrepr & Hlen & Hpol & Hbound).
    pose proof (Diff.spec_step_policy S op) as Hp.
    assert (Hstep : let '(S', rep, ts) := Diff.spec_step S op in
      ∃ b', Diff.step b op = Ok (b', rep) ∧ BookInv.repr b' S' (foldl TradeRing.fifo_push F ts) ∧ zlen (Spec.ids S') ≤ n + 1).
    { by apply (Diff.engine_step b S F n op). }
    destruct (Diff.spec_step S op) as [[S' rep'] ts]. destruct Hstep as (b1 & Hb1 & Hrepr1 & Hlen1).
    rewrite Hs in Hb1. injection Hb1 as <- <-. eexists _, _. split; [exact Hrepr1|].
    destruct (TradeRing.fifo_pushes_prefix F ts) as (k & _ & ->). simpl in Hp. by rewrite Hp.
  - destruct IH as (S & F & Hrepr & Hlen & Hpol & Hbound).
    destruct (Refine.drain_trades_refines _ _ _ Hrepr) as (b1 & Hb1 & Hrepr1). rewrite Hd in Hb1. injection Hb1 as _ <-.
    by eexists _, _.
Qed.

Lemma repr_resting b S F : BookInv.repr b S F → OrderBook.for_each_resting b = Ok (orders_of S).
Proof. intros (Q & fl & Hinv & -> & _). by apply (Checks.for_each_resting_abs b Q fl). Qed.

Lemma reachable_resting n b os : reachable cfg n b → OrderBook.for_each_resting b = Ok os →
  ∃ S F, BookInv.repr b S F ∧ Spec.wf S ∧ zlen (Spec.ids S) ≤ n ∧ Spec.policy S = self_trade cfg ∧ os = orders_of S.
Proof.
  intros (S & F & Hrepr & Hlen & Hpol & _)%reachable_repr Hos. rewrite (repr_resting _ _ _ Hrepr) in Hos.
  injection Hos as <-. exists S, F. pose proof (Refine.repr_wf _ _ _ Hrepr). done.
Qed.

(** A submission seen from outside: the abstract books on both sides of it, and
    what it printed. *)
Lemma submit_observed n b id owner s limit qty rest b' rep :
  reachable cfg n b → n < two31 → Spec.args_ok id owner limit qty → (rest = true → is_Some limit) →
  OrderBook.submit b id owner s limit qty rest = Ok (b', rep) →
  ∃ S F S' ts, BookInv.repr b S F ∧ Spec.wf S ∧ Spec.policy S = self_trade cfg ∧ zlen (Spec.ids S) ≤ n ∧
    Spec.submit S id owner s limit qty rest = (S', rep, ts) ∧
    BookInv.repr b' S' (foldl TradeRing.fifo_push F ts) ∧
    ∀ new, printed b b' new → ∃ k, new = take k ts.
Proof.
  intros (S & F & Hrepr & Hlen & Hpol & _)%reachable_repr Hn Hargs Hrest Hsub.
  pose proof (Diff.engine_submit b S F n id owner s limit qty rest Hrepr Hlen Hn Hargs Hrest) as Hs.
  destruct (Spec.submit S id owner s limit qty rest) as [[S' rep'] ts] eqn:E. destruct Hs as (b1 & Hb1 & Hrepr1 & _).
  rewrite Hsub in Hb1. injection Hb1 as <- <-. exists S, F, S', ts.
  split_and!; [done|by eapply Refine.repr_wf|done..|].
  intros new (old & b0 & b1 & Hd & Hd').
  destruct (Refine.drain_trades_refines _ _ _ Hrepr) as (b2 & Hb2 & _). rewrite Hd in Hb2. injection Hb2 as -> _.
  destruct (Refine.drain_trades_refines _ _ _ Hrepr1) as (b3 & Hb3 & _). rewrite Hd' in Hb3. injection Hb3 as Hb3 _.
  destruct (TradeRing.fifo_pushes_prefix F ts) as (k & Hk & _). rewrite Hk in Hb3. apply app_inv_head in Hb3. by exists k.
Qed.

Lemma repr_best b S F : BookInv.repr b S F →
  OrderBook.best_bid b = Spec.best Buy S ∧ OrderBook.best_ask b = Spec.best Sell S.
Proof.
  intros (Q & fl & Hinv & -> & _).
  exact (conj (Checks.best_price_abs b Q fl Hinv Buy) (Checks.best_price_abs b Q fl Hinv Sell)).
Qed.

End reach.

End Reach.
