(* ===== verification/Provision.v ===== *)
(** * A provisioned book does not grow

    What [Config::expected_orders] promises (include/lob/order_book.hpp): a book
    that stays within it neither grows its pool nor rehashes its index, and needs
    no more fallback levels than its arena has room for. The first half of the
    file says which calls leave the storage alone, read off the code call by
    call; only [insert] takes any. *)

From stdpp Require Import base decidable list.
From S2P Require Import Prelude.
From S2P Require Import Types.
From S2P Require Import Pool.
From S2P Require Import Index.
From S2P Require Import SortedMap.
From S2P Require Import Ladder.
From S2P Require Import Queue.
From S2P Require Import Spec.
From S2P Require Import Book.
From S2P Require Import Inv.
From S2P Require Import Checks.
From S2P Require Import Refine.
From S2P Require Import Diff.
From S2P Require Import Reach.

Module Provision.

Section engine.
Context {build : Build}.

(** ** The pool *)

Abbreviation pool := (SlotPool.SlotPool RestingOrder).

(** The pool's storage: the high-water mark, the slots, the growths. *)
Definition pool_frame (p p' : pool) : Prop :=
  SlotPool.used p' = SlotPool.used p ∧ zlen (SlotPool.slots p') = zlen (SlotPool.slots p) ∧
  SlotPool.grow_count p' = SlotPool.grow_count p.

(** Not even the free list moved. *)
Definition pool_kept (p p' : pool) : Prop := pool_frame p p' ∧ SlotPool.free_head p' = SlotPool.free_head p.

Lemma store_kept (p : pool) i s p' : SlotPool.store p i s = Ok p' → pool_kept p p'.
Proof.
  unfold SlotPool.store, vset. intros H. destruct (p.(SlotPool.slots).[i]); [|done]. injection H as <-.
  unfold pool_kept, pool_frame. simpl. by rewrite zlen_zset.
Qed.

Lemma modify_slot_kept (p : pool) i f p' : Queue.modify_slot p i f = Ok p' → pool_kept p p'.
Proof. unfold Queue.modify_slot. intros H. ok_inv. by eapply store_kept. Qed.

(** What is known of the calls made, then equality reasoning. *)
Ltac store_frames :=
  repeat match goal with
  | H : SlotPool.store _ _ _ = Ok _ |- _ => apply store_kept in H
  | H : Queue.modify_slot _ _ _ = Ok _ |- _ => apply modify_slot_kept in H
  end; unfold pool_kept, pool_frame in *.

Ltac pool_frames := store_frames; simpl in *; intuition congruence.

Lemma append_kept (p : pool) l i p' l' : Queue.append p l i = Ok (p', l') → pool_kept p p'.
Proof. unfold Queue.append. intros H. ok_inv; pool_frames. Qed.

Lemma release_frame (p : pool) i p' : SlotPool.release p i = Ok p' → pool_frame p p'.
Proof. unfold SlotPool.release. intros H. ok_inv; pool_frames. Qed.

Lemma detach_frame (p : pool) l i p' l' : Queue.detach p l i = Ok (p', l') → pool_frame p p'.
Proof.
  unfold Queue.detach. intros H. ok_inv;
  match goal with H : SlotPool.release _ _ = Ok _ |- _ => apply release_frame in H end; pool_frames.
Qed.

(** A fresh slot is taken only when no free one is left. *)
Lemma acquire_frame (p : pool) i p' : SlotPool.acquire p = Ok (i, p') → pool_frame p p' ∨
  (SlotPool.free_head p' = kNoSlot ∧ SlotPool.used p' = u64 (SlotPool.used p + 1) ∧
   (SlotPool.used p ≠ zlen (SlotPool.slots p) →
    zlen (SlotPool.slots p') = zlen (SlotPool.slots p) ∧ SlotPool.grow_count p' = SlotPool.grow_count p)).
Proof.
  unfold SlotPool.acquire. intros H. destruct (Z.eqb_spec (SlotPool.free_head p) kNoSlot) as [E|E]; cbn [negb] in H; ok_inv.
  - match goal with H : SlotPool.grow _ = Ok _ |- _ => unfold SlotPool.grow in H end. ok_inv. store_frames. right. simpl in *. split_and!; [intuition congruence..|]. intros. lia.
  - store_frames. right. simpl in *. split_and!; intuition congruence.
  - left. pool_frames.
Qed.

(** ** The index *)

Abbreviation index := (IdIndex.IdIndex Z).

Definition index_frame (t t' : index) : Prop :=
  zlen (IdIndex.table t') = zlen (IdIndex.table t) ∧ IdIndex.grow_count t' = IdIndex.grow_count t.

Lemma index_frame_trans t1 t2 t3 : index_frame t1 t2 → index_frame t2 t3 → index_frame t1 t3.
Proof. unfold index_frame. intuition congruence. Qed.

Lemma vset_length {A} (v w : list A) i x : vset v i x = Ok w → zlen w = zlen v.
Proof. unfold vset. destruct (v.[i]); [|done]. intros [= <-]. apply zlen_zset. Qed.

Lemma with_table_frame (t : index) v i e : vset (IdIndex.table t) i e = Ok v → index_frame t (IdIndex.with_table t v).
Proof. intros H%vset_length. by split. Qed.

Lemma place_frame (t : index) id v t' : IdIndex.place t id v = Ok t' → index_frame t t' ∧ IdIndex.count t' = IdIndex.count t.
Proof.
  unfold IdIndex.place. generalize (IdIndex.home t id) as i. induction (length (IdIndex.table t)) as [|fuel IH]; intros i H; [done|].
  cbn [IdIndex.place_loop] in H. ok_inv; [by eapply IH|]. split; [by eapply with_table_frame|done].
Qed.

Lemma close_gap_frame (t : index) hole t' : IdIndex.close_gap t hole = Ok t' → index_frame t t'.
Proof.
  assert (Hloop : ∀ fuel (t : index) hole j hole' t', IdIndex.close_gap_loop fuel t hole j = Ok (hole', t') → index_frame t t').
  { induction fuel as [|fuel IH]; intros u h j h' u' H; [done|]. cbn [IdIndex.close_gap_loop] in H.
    ok_inv; [by split|by eapply IH|]. eapply index_frame_trans; [by eapply with_table_frame|by eapply IH]. }
  unfold IdIndex.close_gap. intros H. ok_inv. eapply index_frame_trans; [by eapply Hloop|by eapply with_table_frame].
Qed.

Lemma take_frame (t : index) id o t' : IdIndex.take t id = Ok (o, t') → index_frame t t'.
Proof. unfold IdIndex.take. intros H. ok_inv; [|by split]. match goal with H : IdIndex.close_gap _ _ = Ok _ |- _ => by apply close_gap_frame in H end. Qed.

Lemma erase_frame (t : index) id o t' : IdIndex.erase t id = Ok (o, t') → index_frame t t'.
Proof. unfold IdIndex.erase. intros H. ok_inv. by eapply take_frame. Qed.

(** The index rehashes only when it would be more than half full. *)
Lemma insert_frame (t : index) id v t' : IdIndex.insert 0 t id v = Ok t' →
  u64 (IdIndex.count t' * 2) ≤ zlen (IdIndex.table t) →
  index_frame t t' ∧ IdIndex.count t' = u64 (IdIndex.count t + 1).
Proof.
  assert (Hall : ∀ old (u u' : index), IdIndex.place_all old u = Ok u' → IdIndex.count u' = IdIndex.count u).
  { induction old as [|e old IH]; intros u u' H; cbn [IdIndex.place_all] in H; ok_inv; [done| |by eapply IH].
    match goal with H : IdIndex.place _ _ _ = Ok _ |- _ => apply place_frame in H as [_ <-] end. by eapply IH. }
  unfold IdIndex.insert, IdIndex.grow. intros H. ok_inv; simpl; repeat match goal with
    | H : IdIndex.place _ _ _ = Ok _ |- _ => apply place_frame in H as [? Hc]
    | H : IdIndex.place_all _ _ = Ok _ |- _ => apply Hall in H end; simpl in *; [intros; exfalso|intros _; by rewrite Hc].
  rewrite Hc in *. match goal with E : IdIndex.count _ = IdIndex.count t |- _ => rewrite E in * end. lia.
Qed.

(** ** The book *)

Abbreviation Book := OrderBook.OrderBook.

(** The storage of [b'] is that of [b]. *)
Definition stays (b b' : Book) : Prop :=
  pool_frame (OrderBook.pool b) (OrderBook.pool b') ∧ index_frame (OrderBook.order_index b) (OrderBook.order_index b').

Lemma stays_refl b : stays b b.
Proof. by split; split. Qed.

Lemma stays_trans b1 b2 b3 : stays b1 b2 → stays b2 b3 → stays b1 b3.
Proof. unfold stays, pool_frame, index_frame. intuition congruence. Qed.

Lemma pool_set_ladder s L b : OrderBook.pool (OrderBook.set_ladder s L b) = OrderBook.pool b.
Proof. by destruct s. Qed.

Lemma index_set_ladder s L b : OrderBook.order_index (OrderBook.set_ladder s L b) = OrderBook.order_index b.
Proof. by destruct s. Qed.

Ltac book_frames := unfold stays; rewrite ?pool_set_ladder, ?index_set_ladder; simpl; rewrite ?pool_set_ladder, ?index_set_ladder.

Lemma unlink_stays s b r l i id b' : OrderBook.unlink s b r l i id = Ok b' → stays b b'.
Proof.
  unfold OrderBook.unlink. intros H. ok_inv. book_frames. split; [by eapply detach_frame|by eapply erase_frame].
Qed.

Lemma fill_stays s b r l p i o inc rep b' inc' rep' :
  OrderBook.fill s b r l p i o inc rep = Ok (b', inc', rep') → stays b b'.
Proof.
  unfold OrderBook.fill. intros H. ok_inv.
  - match goal with H : OrderBook.unlink _ _ _ _ _ _ = Ok _ |- _ => apply unlink_stays in H end.
    eapply stays_trans; [|done]. book_frames. store_frames. split; [tauto|by split].
  - book_frames. store_frames. split; [tauto|by split].
Qed.

Lemma match_level_stays fuel s b r p inc rep b' inc' rep' :
  OrderBook.match_level fuel s b r p inc rep = Ok (b', inc', rep') → stays b b'.
Proof.
  revert b inc rep. induction fuel as [|fuel IH]; intros b inc rep H; [done|]. cbn [OrderBook.match_level] in H.
  ok_inv; try apply stays_refl.
  - eapply stays_trans; [by eapply unlink_stays|by eapply IH].
  - eapply stays_trans; [by eapply fill_stays|by eapply IH].
Qed.

Lemma stays_set_ladder s L b b' : stays b b' → stays b (OrderBook.set_ladder s L b').
Proof. by book_frames. Qed.

Lemma match_stays s b inc limit rep b' inc' rep' :
  OrderBook.match_ s b inc limit rep = Ok (b', inc', rep') → stays b b'.
Proof.
  unfold OrderBook.match_. generalize (OrderBook.rounds b) as fuel. intros fuel. revert b inc rep.
  induction fuel as [|fuel IH]; intros b inc rep H; [done|]. cbn [OrderBook.match_loop] in H.
  ok_inv; try apply stays_refl.
  all: match goal with H : OrderBook.match_level _ _ _ _ _ _ _ = Ok _ |- _ => apply match_level_stays in H end.
  all: try by apply stays_set_ladder.
  all: eapply stays_trans; [apply stays_set_ladder; done|by eapply IH].
Qed.

Lemma remove_stays s b i b' : OrderBook.remove s b i = Ok b' → stays b b'.
Proof.
  unfold OrderBook.remove. intros H. ok_inv; book_frames; (split; [by eapply detach_frame|by split]).
Qed.

Lemma cancel_stays b id b' ok : OrderBook.cancel b id = Ok (b', ok) → stays b b'.
Proof.
  unfold OrderBook.cancel. intros H. ok_inv.
  - match goal with H : OrderBook.remove _ _ _ = Ok _ |- _ => apply remove_stays in H end.
    eapply stays_trans; [|done]. split; [by split|]. by eapply take_frame.
  - split; [by split|]. by eapply take_frame.
Qed.

(** ** Provisioned for [N] orders *)

Record provisioned (N : Z) (b : Book) : Prop := {
  pr_used : 0 ≤ SlotPool.used (OrderBook.pool b) ≤ N;
  pr_slots : zlen (SlotPool.slots (OrderBook.pool b)) = N;
  pr_pool : SlotPool.grow_count (OrderBook.pool b) = 0;
  pr_table : 2 * N ≤ zlen (IdIndex.table (OrderBook.order_index b));
  pr_index : IdIndex.grow_count (OrderBook.order_index b) = 0;
}.

Lemma provisioned_stays N b b' : provisioned N b → stays b b' → provisioned N b'.
Proof. intros [] [(Hu & Hs & Hg) (Ht & Hc)]. split; congruence || lia. Qed.

(** With no free slot left, every slot ever used holds an order. *)
Lemma used_when_stocked b Q fl : BookInv.inv b Q fl → SlotPool.free_head (OrderBook.pool b) = kNoSlot →
  SlotPool.used (OrderBook.pool b) = OrderBook.size b.
Proof.
  intros Hinv Hf. pose proof (BookInv.i_core _ _ _ Hinv) as Hc. pose proof (BookInv.c_pool _ _ _ _ Hc) as Hwf.
  pose proof (SlotPool.wf_chain _ _ Hwf) as Hch. rewrite Hf in Hch.
  destruct fl as [|x fl]; [|destruct Hch as (<- & Hx & _); done].
  rewrite (Checks.size_abs b Q [] Hinv), <-(Refine.live_ids b Q [] Hinv). pose proof (SlotPool.wf_live _ _ Hwf). unfold zlen in *. simpl in *. lia.
Qed.

Lemma insert_provisioned N s b o b' Q fl : provisioned N b → N ≤ 2 ^ 62 → OrderBook.insert s b o = Ok b' →
  BookInv.inv b' Q fl → OrderBook.size b' ≤ N → provisioned N b'.
Proof.
  intros [Hu Hs Hg Ht Hi] HN Hins Hinv Hsize. pose proof (used_when_stocked b' Q fl Hinv) as Hstock.
  assert (Hcount : 0 ≤ IdIndex.count (OrderBook.order_index b')).
  { rewrite (BookInv.core_count _ (BookInv.i_core _ _ _ Hinv)). apply zlen_nonneg. }
  unfold OrderBook.size, IdIndex.size in *. unfold OrderBook.insert in Hins.
  set (b0 := if negb _ then _ else _) in Hins.
  assert (Ep : OrderBook.pool b0 = OrderBook.pool b) by (unfold b0; destruct (negb _); [unfold OrderBook.place_windows; by rewrite !pool_set_ladder|done]).
  assert (Ei : OrderBook.order_index b0 = OrderBook.order_index b) by (unfold b0; destruct (negb _); [unfold OrderBook.place_windows; by rewrite !index_set_ladder|done]).
  clearbody b0. ok_inv. simpl in *. rewrite Ep, Ei in *.
  match goal with H : IdIndex.insert _ _ _ _ = Ok _ |- _ => apply insert_frame in H as [[Hti Hgi] _]; [|rewrite u64_small by lia; lia] end.
  match goal with H : Queue.append _ _ _ = Ok _ |- _ => apply append_kept in H end. store_frames.
  match goal with H : SlotPool.acquire _ = Ok _ |- _ => apply acquire_frame in H as [Ha|(Hf & Hua & Hroom)] end; unfold pool_frame in *.
  - split; simpl; intuition (congruence || lia).
  - rewrite u64_small in Hua by lia. assert (Hfull : SlotPool.used (OrderBook.pool b) ≠ zlen (SlotPool.slots (OrderBook.pool b))) by (intuition lia).
    specialize (Hroom Hfull). split; simpl; intuition (congruence || lia).
Qed.

Lemma submit_provisioned N b id owner s limit qty rest b' rep Q fl : provisioned N b → N ≤ 2 ^ 62 →
  OrderBook.submit b id owner s limit qty rest = Ok (b', rep) → BookInv.inv b' Q fl → OrderBook.size b' ≤ N → provisioned N b'.
Proof.
  intros Hb HN H Hinv Hsize. unfold OrderBook.submit in H. ok_inv; try done.
  all: match goal with H : OrderBook.match_ _ _ _ _ _ = Ok _ |- _ => apply match_stays in H as Hm end.
  all: pose proof (provisioned_stays _ _ _ Hb Hm) as Hm'; try done.
  all: by eapply insert_provisioned.
Qed.

Lemma step_provisioned N b op b' rep Q fl : provisioned N b → N ≤ 2 ^ 62 → Diff.step b op = Ok (b', rep) →
  BookInv.inv b' Q fl → OrderBook.size b' ≤ N → provisioned N b'.
Proof.
  intros Hb HN H Hinv Hsize. unfold Diff.step in H. destruct (Diff.op_kind op); simpl in H.
  - by eapply submit_provisioned.
  - by eapply submit_provisioned.
  - ok_inv. eapply provisioned_stays; [done|]. by eapply cancel_stays.
  - unfold OrderBook.modify in H. ok_inv; [|..].
    all: match goal with H : OrderBook.cancel _ _ = Ok _ |- _ => apply cancel_stays in H as Hc | _ => idtac end.
    + by eapply provisioned_stays.
    + eapply submit_provisioned; [by eapply provisioned_stays|done..].
    + done.
Qed.

(** ** Fallback levels *)

Lemma split_overflow_length (IsBid : bool) L m :
  zlen (PriceLadder.split_overflow IsBid L m).1 + zlen (PriceLadder.split_overflow IsBid L m).2 = zlen m.
Proof.
  induction m as [|[p l] m IH]; [done|]. cbn [PriceLadder.split_overflow].
  destruct (PriceLadder.beyond_best_edge _ _ _); [|done]. destruct (PriceLadder.split_overflow _ _ m). simpl in *. rewrite !zlen_cons. lia.
Qed.

(** Every level holds an order, so no side has more fallback levels than orders. *)
Lemma overflow_few b Q fl s : BookInv.inv b Q fl →
  zlen (PriceLadder.overflow (OrderBook.ladder s b)) ≤ zlen (BookInv.nodes (Q s)).
Proof.
  intros Hinv. pose proof (BookInv.i_side _ _ _ Hinv s) as Hs.
  assert (Hn : zlen (PriceLadder.levels (is_bid s) (OrderBook.ladder s b)) ≤ zlen (BookInv.nodes (Q s))).
  { unfold BookInv.side_repr in Hs. induction Hs as [|x [p q] ls Qs (_ & Hq & _) _ IH]; [done|]. rewrite BookInv.nodes_cons, zlen_app, zlen_cons.
    simpl in Hq. destruct q; [done|]. rewrite zlen_cons. pose proof (zlen_nonneg q). lia. }
  unfold PriceLadder.levels in Hn. rewrite !zlen_app in Hn.
  pose proof (split_overflow_length (is_bid s) (OrderBook.ladder s b) (PriceLadder.overflow (OrderBook.ladder s b))).
  pose proof (zlen_nonneg (PriceLadder.window_levels (is_bid s) (OrderBook.ladder s b))). lia.
Qed.

Lemma overflow_orders b Q fl : BookInv.inv b Q fl →
  zlen (PriceLadder.overflow (OrderBook.bids b)) + zlen (PriceLadder.overflow (OrderBook.asks b)) ≤ OrderBook.size b.
Proof.
  intros Hinv. pose proof (overflow_few b Q fl Buy Hinv). pose proof (overflow_few b Q fl Sell Hinv). simpl in *.
  rewrite (Checks.size_abs b Q fl Hinv). unfold Spec.ids, BookInv.abs. simpl. unfold BookInv.orders, zlen in *.
  rewrite length_fmap, length_app, !length_fmap. lia.
Qed.

(** ** The contract *)

(** The orders a book made with [cfg] is provisioned for. *)
Definition room (cfg : Config) : Z :=
  if 0 <? expected_orders cfg then expected_orders cfg else OrderBook.kDefaultPoolSlots.

(** [within cfg n b]: after [n] operations, never more than [room cfg] orders resting. *)
Inductive within (cfg : Config) : Z → Book → Prop :=
  | within_make b : OrderBook.make cfg = Ok b → within cfg 0 b
  | within_step n b op b' rep : within cfg n b → n < two31 → Diff.op_ok op →
      Diff.step b op = Ok (b', rep) → OrderBook.size b' ≤ room cfg → within cfg (n + 1) b'
  | within_drain n b ts b' : within cfg n b → OrderBook.drain_trades b = Ok (ts, b') → within cfg n b'.

Lemma within_reachable cfg n b : within cfg n b → Reach.reachable cfg n b.
Proof.
  induction 1; [by constructor|by eapply Reach.reach_step|by eapply Reach.reach_drain].
Qed.

Lemma make_provisioned cfg b : Refine.config_ok cfg → OrderBook.make cfg = Ok b → provisioned (room cfg) b.
Proof.
  intros (He & _) Hmake. unfold OrderBook.make in Hmake. fold (room cfg) in Hmake.
  assert (Hroom : 0 < room cfg ≤ 2 ^ 62) by (unfold room, OrderBook.kDefaultPoolSlots; destruct (Z.ltb_spec 0 (expected_orders cfg)); lia).
  destruct (IdIndex.index_make_spec 0 (room cfg)) as (t & Ht & Hwt & _ & _ & Hcap); [lia|]. rewrite Ht in Hmake.
  assert (Hg : IdIndex.grow_count t = 0).
  { unfold IdIndex.make in Ht. apply bind_ok in Ht as (c & _ & [= <-]). done. }
  ok_inv. simpl in *. split; simpl; try done.
  - split; [done|]. lia.
  - destruct (Z.eqb_spec (room cfg) 0); [lia|]. apply zlen_vmake. lia.
  - rewrite (IdIndex.sh_len _ (IdIndex.wf_shape _ Hwt)). lia.
Qed.

Lemma within_provisioned cfg n b : Refine.config_ok cfg → within cfg n b → provisioned (room cfg) b.
Proof.
  intros Hcfg Hw. assert (HN : room cfg ≤ 2 ^ 62).
  { destruct Hcfg as (He & _). unfold room, OrderBook.kDefaultPoolSlots. destruct (_ <? _); lia. }
  induction Hw as [b Hb|n b op b' rep Hw IH Hn Hop Hstep Hsize|n b ts b' Hw IH Hd]; [by apply make_provisioned| |].
  - assert (Hr : Reach.reachable cfg (n + 1) b') by (eapply Reach.reach_step; [by apply within_reachable|done..]).
    destruct (Reach.reachable_repr cfg Hcfg _ _ Hr) as (S & F & (Q & fl & Hinv & _) & _). by eapply step_provisioned.
  - eapply provisioned_stays; [done|]. unfold OrderBook.drain_trades in Hd. ok_inv. by split; split.
Qed.

(** A book that stays within the orders it was made for never grows: however
    many operations it takes, its pool and its id index are the ones of its
    construction, and its fallback levels on both sides together are no more than
    its resting orders, which is what the arena made for [expected_orders] has
    room for ([ArenaProps.provisioned_arena_never_grows]). *)
Theorem provisioned_book_never_grows cfg n b : Refine.config_ok cfg → within cfg n b →
  OrderBook.order_pool_growths b = 0 ∧ OrderBook.order_pool_capacity b = room cfg ∧ OrderBook.id_index_growths b = 0 ∧
  zlen (PriceLadder.overflow (OrderBook.bids b)) + zlen (PriceLadder.overflow (OrderBook.asks b)) ≤ OrderBook.size b.
Proof.
  intros Hcfg Hw. destruct (within_provisioned cfg n b Hcfg Hw) as [_ Hs Hp _ Hi].
  destruct (Reach.reachable_repr cfg Hcfg _ _ (within_reachable _ _ _ Hw)) as (S & F & (Q & fl & Hinv & _) & _).
  split_and!; [done..|by eapply overflow_orders].
Qed.

End engine.

(** ** A witness: room for one order, every level in the fallback map *)

Definition thrifty : Config := MkConfig CancelResting 8 true 1 0 None.

Lemma provisioned_book_never_grows_witness : let build := {| NDEBUG := false; kAsan := false |} in
  ∃ b, OrderBook.size b = 1 ∧ OrderBook.order_pool_growths b = 0 ∧ OrderBook.id_index_growths b = 0.
Proof.
  intros build. assert (∃ b, within thrifty 3 b ∧ OrderBook.size b = 1) as (b & Hw & Hs).
  { eexists. split.
    - eapply (within_step thrifty 2 _ (Diff.MkOp Diff.AddLimit 2 8 Buy 90 4)); [|lia|by repeat split|..].
      1: eapply (within_step thrifty 1 _ (Diff.MkOp Diff.Cancel 1 0 Buy 0 0)); [|lia|by repeat split|..].
      1: eapply (within_step thrifty 0 _ (Diff.MkOp Diff.AddLimit 1 7 Sell 100 5)); [|lia|by repeat split|..].
      1: eapply within_make; vm_compute; reflexivity.
      all: first [vm_compute; reflexivity|vm_compute; discriminate].
    - vm_compute. reflexivity. }
  assert (Hcfg : Refine.config_ok thrifty) by (repeat split; simpl; lia).
  destruct (provisioned_book_never_grows thrifty 3 b Hcfg Hw) as (H1 & _ & H2 & _).
  exists b. exact (conj Hs (conj H1 H2)).
Defined.

End Provision.
