(* ===== verification/Nodes.v ===== *)
(** * The book and the memory of its map nodes

    The fallback maps of Ladder.v by their contents, and here by their nodes: each
    level outside the window lives in a node of the map, allocated through the
    book's [ArenaAllocator] (node_arena.hpp) when the level opens and given back
    when it closes. This file runs the engine of Book.v on that memory: what each
    operation asks of the allocator, in the order of its calls, next to what it
    computes. How a node is laid out and linked is the standard library's business
    and a class. *)

From stdpp Require Import base decidable list gmap.
From S2P Require Import Prelude.
From S2P Require Import Memory.
From S2P Require Import Arena.
From S2P Require Import Types.
From S2P Require Import Index.
From S2P Require Import Pool.
From S2P Require Import SortedMap.
From S2P Require Import Ladder.
From S2P Require Import Queue.
From S2P Require Import Book.
From S2P Require Import Diff.
Import Memory.

Module Nodes.

(** [std::map], as far as its memory goes: the size of a node, which is within
    what the book provisions for; what inserting and erasing write (payload, links
    and colours), which lies in the map's own nodes; and the order in which the
    destructor frees them. The nodes of a map are their addresses by key. *)
Class MapNodes := {
  node_bytes : Z;
  scribble : gmap Z Z → gmap Z Z → list (Z * list Z);
  clear_order : gmap Z Z → list Z;
  node_bytes_ok : 0 < node_bytes ≤ NodeArena.kBytesPerOrder;
  scribble_inside nodes mem x bs : (x, bs) ∈ scribble nodes mem →
    ∃ k p, nodes !! k = Some p ∧ p ≤ x ∧ x + zlen bs ≤ p + node_bytes;
  clear_order_all nodes : clear_order nodes ≡ₚ (map_to_list nodes).*2;
}.

(** The book's arena, the heap it stands on, and the nodes of the two maps. *)
Record Store := mk {
  arena : option NodeArena.NodeArena;
  heap : Heap;
  bid_nodes : gmap Price Z;
  ask_nodes : gmap Price Z;
}.

Definition nodes (s : Side) (m : Store) : gmap Price Z :=
  match s with Buy => bid_nodes m | Sell => ask_nodes m end.

Definition with_nodes (s : Side) (ns : gmap Price Z) (m : Store) : Store :=
  match s with
  | Buy => mk (arena m) (heap m) ns (ask_nodes m)
  | Sell => mk (arena m) (heap m) (bid_nodes m) ns
  end.

Definition with_memory (a : option NodeArena.NodeArena) (h : Heap) (m : Store) : Store :=
  mk a h (bid_nodes m) (ask_nodes m).

(** The book of [OrderBook], with its memory. *)
Definition Book : Type := OrderBook.OrderBook * Store.

Section nodes.
Context {system : System} {build : Build} {map_nodes : MapNodes}.

(** ** The maps *)

Fixpoint write_all (h : Heap) (ws : list (Z * list Z)) : res Heap :=
  match ws with
  | [] => Ok h
  | (x, bs) :: ws => h ← write h x bs; write_all h ws
  end.

(** What a call of the map writes into its nodes. *)
Definition update (s : Side) (m : Store) : res Store :=
  h ← write_all (heap m) (scribble (nodes s m) (bytes (heap m)));
  Ok (with_memory (arena m) h m).

(** [overflow.try_emplace(price)]: a node, unless the price has one. *)
Definition try_emplace (s : Side) (m : Store) (price : Price) : res Store :=
  match nodes s m !! price with
  | Some _ => Ok m
  | None =>
      '(p, a, h) ← NodeArena.allocator_allocate node_bytes (arena m) (heap m) 1;
      update s (with_nodes s (<[price := p]> (nodes s m)) (with_memory a h m))
  end.

(** [overflow.erase(price)]. *)
Definition erase (s : Side) (m : Store) (price : Price) : res Store :=
  match nodes s m !! price with
  | None => Ok m
  | Some p =>
      m ← update s m;
      '(a, h) ← NodeArena.allocator_deallocate node_bytes (arena m) (heap m) p 1;
      Ok (with_nodes s (delete price (nodes s m)) (with_memory a h m))
  end.

Fixpoint free_all (a : option NodeArena.NodeArena) (h : Heap) (ps : list Z) :
    res (option NodeArena.NodeArena * Heap) :=
  match ps with
  | [] => Ok (a, h)
  | p :: ps =>
      '(a, h) ← NodeArena.allocator_deallocate node_bytes a h p 1;
      free_all a h ps
  end.

(** The map's destructor. *)
Definition clear (s : Side) (m : Store) : res Store :=
  '(a, h) ← free_all (arena m) (heap m) (clear_order (nodes s m));
  Ok (with_nodes s ∅ (with_memory a h m)).

(** ** The ladders *)

(** [PriceLadder::open]. *)
Definition open (s : Side) (L : PriceLadder.PriceLadder) (m : Store) (price : Price) :
    res (PriceLadder.LevelRef * PriceLadder.PriceLadder * Store) :=
  m ← (if PriceLadder.in_window L price then Ok m else try_emplace s m price);
  '(r, L) ← PriceLadder.open (is_bid s) L price;
  Ok (r, L, m).

(** [PriceLadder::closed]. *)
Definition closed (s : Side) (L : PriceLadder.PriceLadder) (m : Store) (price : Price) :
    res (PriceLadder.PriceLadder * Store) :=
  m ← (if PriceLadder.in_window L price then Ok m else erase s m price);
  L ← PriceLadder.closed (is_bid s) L price;
  Ok (L, m).

(** ** The engine

    The operations of Book.v that open or close levels; the others leave the
    nodes where they are. *)

(** The constructor. *)
Definition make (h : Heap) (cfg : Config) : res Book :=
  '(a, h) ← NodeArena.make_arena kAsan (pool_nodes cfg) (expected_orders cfg) h;
  b ← OrderBook.make cfg;
  Ok (b, mk a h ∅ ∅).

(** [match(opposite, incoming, limit, rep)]. *)
Fixpoint match_loop (fuel : nat) (s : Side) (b : OrderBook.OrderBook) (m : Store) (incoming : Order)
    (limit : option Price) (rep : ExecReport) : res (OrderBook.matching * Store) :=
  match fuel with
  | O => Err out_of_fuel
  | S fuel =>
      if negb (0 <? o_qty incoming) then Ok (b, incoming, rep, m)
      else
        match PriceLadder.best (is_bid s) (OrderBook.ladder s b) with
        | None => Ok (b, incoming, rep, m)
        | Some (r, level_price) =>
            if negb (crosses (o_side incoming) limit level_price) then Ok (b, incoming, rep, m)
            else
              '(b, incoming, rep) ←
                OrderBook.match_level (OrderBook.rounds b) s b r level_price incoming rep;
              level ← PriceLadder.deref (OrderBook.ladder s b) r;
              '(L, m) ← (if level_empty level then closed s (OrderBook.ladder s b) m level_price
                         else Ok (OrderBook.ladder s b, m));
              let b := OrderBook.set_ladder s L b in
              if stp_halted rep then Ok (b, incoming, rep, m)
              else match_loop fuel s b m incoming limit rep
        end
  end.

(** [insert(book, order)]. *)
Definition insert (s : Side) (bm : Book) (order : Order) : res Book :=
  let '(b, m) := bm in
  let b := if negb (PriceLadder.is_placed (OrderBook.ladder s b))
    then OrderBook.place_windows b (o_price order) else b in
  '(r, L, m) ← open s (OrderBook.ladder s b) m (o_price order);
  '(slot, p) ← SlotPool.acquire (OrderBook.pool b);
  if two31 <=? slot then Err length_error
  else
    p ← Queue.modify_slot p slot (λ n, Queue.with_value n (resting_of order));
    level ← PriceLadder.deref L r;
    '(p, level) ← Queue.append p level slot;
    L ← PriceLadder.assign (is_bid s) L r level;
    t ← IdIndex.insert 0 (OrderBook.order_index b) (o_id order)
          (OrderBook.index_value slot (o_side order));
    Ok (OrderBook.set_index t (OrderBook.set_pool p (OrderBook.set_ladder s L b)), m).

(** [remove(book, slot)]. *)
Definition remove (s : Side) (bm : Book) (slot : SlotIndex) : res Book :=
  let '(b, m) := bm in
  n ← SlotPool.at_ (OrderBook.pool b) slot;
  let price := r_price (SlotPool.value n) in
  o ← PriceLadder.find (OrderBook.ladder s b) price;
  match o with
  | None => Err (if NDEBUG then undefined_behaviour else assertion_failed)
  | Some r =>
      level ← PriceLadder.deref (OrderBook.ladder s b) r;
      '(p, level) ← Queue.detach (OrderBook.pool b) level slot;
      L ← PriceLadder.assign (is_bid s) (OrderBook.ladder s b) r level;
      '(L, m) ← (if level_empty level then closed s L m price else Ok (L, m));
      Ok (OrderBook.set_ladder s L (OrderBook.set_pool p b), m)
  end.

Definition submit (bm : Book) (id : OrderId) (owner : ParticipantId) (side : Side)
    (limit : option Price) (qty : Quantity) (rest_leftover : bool) : res (Book * ExecReport) :=
  let '(b, m) := bm in
  let rep := ExecReport0 in
  dup ← (if qty =? 0 then Ok true else IdIndex.contains (OrderBook.order_index b) id);
  if dup : bool then Ok (bm, rep_reject qty)
  else
    let incoming := MkOrder id owner (default 0 limit) qty side in
    '(b, incoming, rep, m) ←
      match_loop (OrderBook.rounds b) (opposite side) b m incoming limit rep;
    let rep := rep_with_remaining rep (o_qty incoming) in
    '(bm, rep) ← (if rest_leftover && (0 <? o_qty incoming) && negb (stp_halted rep)
      then bm ← insert side (b, m) incoming; Ok (bm, rep_rested rep)
      else Ok ((b, m), rep));
    _ ← OrderBook.check_invariants bm.1;
    Ok (bm, rep).

Definition add_limit (bm : Book) (id : OrderId) (owner : ParticipantId) (side : Side)
    (price : Price) (qty : Quantity) : res (Book * ExecReport) :=
  submit bm id owner side (Some price) qty true.

Definition add_market (bm : Book) (id : OrderId) (owner : ParticipantId) (side : Side)
    (qty : Quantity) : res (Book * ExecReport) :=
  submit bm id owner side None qty false.

Definition cancel (bm : Book) (id : OrderId) : res (Book * bool) :=
  let '(b, m) := bm in
  '(entry, t) ← IdIndex.take (OrderBook.order_index b) id;
  match entry with
  | None => Ok ((OrderBook.set_index t b, m), false)
  | Some entry =>
      bm ← remove (OrderBook.side_of entry) (OrderBook.set_index t b, m) (OrderBook.slot_of entry);
      _ ← OrderBook.check_invariants bm.1;
      Ok (bm, true)
  end.

Definition modify (bm : Book) (id : OrderId) (new_price : Price) (new_qty : Quantity) :
    res (Book * ExecReport) :=
  let '(b, m) := bm in
  entry ← IdIndex.find (OrderBook.order_index b) id;
  match entry with
  | None => Ok (bm, rep_reject new_qty)
  | Some entry =>
      let side := OrderBook.side_of entry in
      n ← SlotPool.at_ (OrderBook.pool b) (OrderBook.slot_of entry);
      let owner := r_owner (SlotPool.value n) in
      '(bm, _) ← cancel bm id;
      if new_qty =? 0 then Ok (bm, ExecReport0)
      else add_limit bm id owner side new_price new_qty
  end.

Definition drain_trades (bm : Book) : res (list Trade * Book) :=
  '(ts, b) ← OrderBook.drain_trades bm.1;
  Ok (ts, (b, bm.2)).

(** The destructor: the members in reverse order, so the maps give their nodes
    back before the arena goes. *)
Definition destroy (m : Store) : res Heap :=
  m ← clear Sell m;
  m ← clear Buy m;
  match arena m with
  | Some a => NodeArena.destroy a (heap m)
  | None => Ok (heap m)
  end.

#[export] Instance node_drives : Diff.Drives Book := {|
  Diff.add_limit := add_limit; Diff.add_market := add_market; Diff.cancel := cancel;
  Diff.modify := modify; Diff.settle bm := OrderBook.check_invariants bm.1 |}.

End nodes.

(** ** A concrete [std::map], for witnesses

    Nodes of 56 bytes, which is what a price, a level, a colour and three links
    take, and every call overwrites every node. *)

Definition tree_nodes : MapNodes.
Proof.
  refine {| node_bytes := 56; scribble := λ ns _, (λ p, (p, vmake 56 171)) <$> (map_to_list ns).*2;
    clear_order := λ ns, (map_to_list ns).*2 |}; [by vm_compute| |done].
  intros ns mem x bs (p & [= -> ->] & ([k q] & -> & Hin)%list_elem_of_fmap)%list_elem_of_fmap.
  apply elem_of_map_to_list in Hin. exists k, q. split; [done|]. simpl. rewrite zlen_vmake by lia. lia.
Defined.

End Nodes.
