(* ===== verification/NodesSteps.v ===== *)
(** * The engine on supplied memory

    [Supplies] is the interface between a book and its allocator: a node when there
    is room, back when it is returned. Against it, every operation of Nodes.v does
    what it does on the plain maps, keeps one node per fallback level and fails only
    where the allocator may throw. The node arena, an arena made for the book's
    orders, and the system itself are its instances. *)

From stdpp Require Import base decidable list gmap fin_sets.
From S2P Require Import Prelude.
From S2P Require Import Memory.
From S2P Require Import Arena.
From S2P Require Import ArenaProps.
From S2P Require Import Types.
From S2P Require Import Pool.
From S2P Require Import Index.
From S2P Require Import SortedMap.
From S2P Require Import Ladder.
From S2P Require Import Queue.
From S2P Require Import Spec.
From S2P Require Import Book.
From S2P Require Import Inv.
From S2P Require Import Checks.
From S2P Require Import Refine.
From S2P Require Import Diff.
From S2P Require Import Reach.
From S2P Require Import Provision.
From S2P Require Import Nodes.
Import Memory.
Import Nodes.

(** ** What the book needs of its allocator

    [J arena heap held]: the allocator in this state has handed out the blocks
    [held]. It serves a node when there is [room] next to those that are out, or
    throws [std::bad_alloc] if it [may_throw]. Whoever holds a node may write all
    over it. *)
Class Supplies {system : System} {build : Build} {map_nodes : MapNodes} (room : Z → Prop) (may_throw : Prop)
    (J : option NodeArena.NodeArena → Heap → gmap Z Z → Prop) : Prop := {
  supplies_allocate a h c : J a h c → room (Z.of_nat (size c)) →
    match NodeArena.allocator_allocate node_bytes a h 1 with
    | Ok (p, a', h') => c !! p = None ∧ J a' h' (<[p := node_bytes]> c)
    | Err e => e = bad_alloc ∧ may_throw
    end;
  supplies_deallocate a h c p : J a h c → c !! p = Some node_bytes →
    ∃ a' h', NodeArena.allocator_deallocate node_bytes a h p 1 = Ok (a', h') ∧ J a' h' (delete p c);
  supplies_write a h c p x bs : J a h c → c !! p = Some node_bytes → p ≤ x → x + zlen bs ≤ p + node_bytes →
    ∃ h', write h x bs = Ok h' ∧ J a h' c;
}.

Section supplied.
Context {system : System} {build : Build} {map_nodes : MapNodes}.
Context (room : Z → Prop) (may_throw : Prop) (J : option NodeArena.NodeArena → Heap → gmap Z Z → Prop).
Context {HJ : Supplies room may_throw J}.

(** ** The nodes of the two maps *)

(** The blocks [c] are the nodes, each one node's. *)
Record stored (m : Store) (c : gmap Z Z) : Prop := {
  st_blocks x n : c !! x = Some n ↔ n = node_bytes ∧ ∃ s k, nodes s m !! k = Some x;
  st_apart s k s' k' x : nodes s m !! k = Some x → nodes s' m !! k' = Some x → s = s' ∧ k = k';
}.

Definition sound (m : Store) : Prop := ∃ c, J (arena m) (heap m) c ∧ stored m c.

Definition count (m : Store) : Z := Z.of_nat (size (bid_nodes m) + size (ask_nodes m)).

Lemma nodes_with_nodes s s' ns m : nodes s (with_nodes s' ns m) = if decide (s = s') then ns else nodes s m.
Proof. by destruct s, s'. Qed.

Lemma nodes_with_memory s a h m : nodes s (with_memory a h m) = nodes s m.
Proof. by destruct s. Qed.

Lemma stored_memory m c a h : stored m c → stored (with_memory a h m) c.
Proof. intros [H1 H2]. split; [|done]. intros x n. rewrite H1. done. Qed.

(** A new node on the side [s]. *)
Lemma stored_insert s m c k p : stored m c → c !! p = None → nodes s m !! k = None →
  stored (with_nodes s (<[k := p]> (nodes s m)) m) (<[p := node_bytes]> c).
Proof.
  intros [Hb Ha] Hp Hk.
  assert (Hfresh : ∀ s k, nodes s m !! k ≠ Some p).
  { intros s' k' E. assert (c !! p = Some node_bytes) by (apply Hb; eauto). congruence. }
  split.
  - intros x n. rewrite lookup_insert_Some, Hb. split.
    + intros [[<- <-]|[Hne (-> & s' & k' & E)]]; (split; [done|]).
      * exists s, k. rewrite nodes_with_nodes, decide_True, lookup_insert_eq; done.
      * exists s', k'. rewrite nodes_with_nodes. destruct (decide (s' = s)) as [->|]; [|done]. rewrite lookup_insert_ne; [done|congruence].
    + intros (-> & s' & k' & E). rewrite nodes_with_nodes in E. destruct (decide (s' = s)) as [->|].
      * apply lookup_insert_Some in E as [[_ <-]|[_ E]]; [by left|]. right. split; [intros <-; by eapply Hfresh|eauto].
      * right. split; [intros <-; by eapply Hfresh|eauto].
  - intros s1 k1 s2 k2 x. rewrite !nodes_with_nodes.
    destruct (decide (s1 = s)) as [->|H1], (decide (s2 = s)) as [->|H2]; rewrite ?lookup_insert_Some; [..|by apply Ha].
    + intros [[? ?]|[? E1]] [[? ?]|[? E2]]; subst; [done|by destruct (Hfresh _ _ E2)|by destruct (Hfresh _ _ E1)|by eapply Ha].
    + intros [[? ?]|[? E1]] E2; subst; [by destruct (Hfresh _ _ E2)|by eapply Ha].
    + intros E1 [[? ?]|[? E2]]; subst; [by destruct (Hfresh _ _ E1)|by eapply Ha].
Qed.

(** And one less. *)
Lemma stored_delete s m c k p : stored m c → nodes s m !! k = Some p →
  stored (with_nodes s (delete k (nodes s m)) m) (delete p c).
Proof.
  intros [Hb Ha] Hk. assert (Hp : c !! p = Some node_bytes) by (apply Hb; eauto). split.
  - intros x n. rewrite lookup_delete_Some, Hb. split.
    + intros (Hne & -> & s' & k' & E). split; [done|]. exists s', k'. rewrite nodes_with_nodes.
      destruct (decide (s' = s)) as [->|]; [|done]. rewrite lookup_delete_ne; [done|]. congruence.
    + intros (-> & s' & k' & E). rewrite nodes_with_nodes in E.
      assert (Hx : nodes s' m !! k' = Some x ∧ ¬ (s' = s ∧ k' = k)).
      { destruct (decide (s' = s)) as [->|]; [apply lookup_delete_Some in E|]; naive_solver. }
      destruct Hx as [Hx Hne]. split; [|eauto]. intros <-. apply Hne. by apply (Ha s' k' s k p).
  - intros s1 k1 s2 k2 x. rewrite !nodes_with_nodes. intros E1 E2. apply (Ha s1 k1 s2 k2 x).
    + destruct (decide (s1 = s)) as [->|]; [by apply lookup_delete_Some in E1 as [_ ?]|done].
    + destruct (decide (s2 = s)) as [->|]; [by apply lookup_delete_Some in E2 as [_ ?]|done].
Qed.

(** The addresses of a map's nodes, and how many blocks the two maps hold. *)
Definition addresses (s : Side) (m : Store) : list Z := (map_to_list (nodes s m)).*2.

Lemma elem_of_addresses s m p : p ∈ addresses s m ↔ ∃ k, nodes s m !! k = Some p.
Proof.
  unfold addresses. rewrite list_elem_of_fmap. split.
  - intros ([k q] & -> & Hkq). exists k. by apply elem_of_map_to_list.
  - intros [k Hk]. exists (k, p). split; [done|]. by apply elem_of_map_to_list.
Qed.

Lemma addresses_nodup s m c : stored m c → NoDup (addresses s m).
Proof.
  intros Hst. apply NoDup_fmap_2_strong; [|apply NoDup_map_to_list].
  intros [k p] [k' p'] Hk%elem_of_map_to_list Hk'%elem_of_map_to_list E. simpl in E. subst p'.
  by destruct (st_apart _ _ Hst s k s k' p Hk Hk') as [_ ->].
Qed.

Lemma stored_size m c : stored m c → Z.of_nat (size c) = count m.
Proof.
  intros Hst. assert (Hnd : NoDup (addresses Buy m ++ addresses Sell m)).
  { apply NoDup_app. split_and!; [by eapply addresses_nodup| |by eapply addresses_nodup].
    intros p [k Hk]%elem_of_addresses [k' Hk']%elem_of_addresses. by destruct (st_apart _ _ Hst _ _ _ _ _ Hk Hk'). }
  assert (Hd : dom c = list_to_set (addresses Buy m ++ addresses Sell m)).
  { apply set_eq. intros x. rewrite elem_of_list_to_set, elem_of_app, !elem_of_addresses, elem_of_dom. split.
    - intros [n (_ & s & k & E)%(st_blocks _ _ Hst)]. destruct s; eauto.
    - intros [[k E]|[k E]]; exists node_bytes; apply (st_blocks _ _ Hst); eauto. }
  rewrite <-size_dom, Hd, size_list_to_set, length_app by done. unfold addresses, count. by rewrite !length_fmap, !length_map_to_list.
Qed.

(** ** The calls of a map *)

Lemma node_bytes_small : u64 (1 * node_bytes) = node_bytes.
Proof. pose proof node_bytes_ok. rewrite Z.mul_1_l. apply u64_small. change NodeArena.kBytesPerOrder with 64 in *. lia. Qed.

Lemma write_all_ok a h c ws : J a h c →
  (∀ x bs, (x, bs) ∈ ws → ∃ p, c !! p = Some node_bytes ∧ p ≤ x ∧ x + zlen bs ≤ p + node_bytes) →
  ∃ h', write_all h ws = Ok h' ∧ J a h' c.
Proof.
  revert h. induction ws as [|[x bs] ws IH]; intros h Hj Hin; [by exists h|]. cbn [write_all].
  destruct (Hin x bs) as (p & Hp & Hx & Hend); [left|].
  destruct (supplies_write a h c p x bs Hj Hp Hx Hend) as (h1 & -> & Hj1). cbn [mbind res_bind].
  apply IH; [done|]. intros y cs Hy. apply Hin. by right.
Qed.

(** What a map writes leaves every node where it is. *)
Lemma update_ok s m c : J (arena m) (heap m) c → stored m c → ∃ m', update s m = Ok m' ∧
  J (arena m') (heap m') c ∧ stored m' c ∧ ∀ s', nodes s' m' = nodes s' m.
Proof.
  intros Hj Hst. unfold update. destruct (write_all_ok (arena m) (heap m) c (scribble (nodes s m) (bytes (heap m))) Hj) as (h & -> & Hj').
  - intros x bs (k & p & Hk & ? & ?)%scribble_inside. exists p. split; [|done]. apply (st_blocks _ _ Hst). eauto.
  - cbn [mbind res_bind]. eexists. split; [done|]. split; [done|]. split; [by apply stored_memory|]. intros s'. by destruct s'.
Qed.

(** Inserting makes a node for a new key only, and needs room for that one only. *)
Lemma try_emplace_sound s m k : sound m → (k ∉ dom (nodes s m) → room (count m)) →
  match try_emplace s m k with
  | Ok m' => sound m' ∧ ∀ s', dom (nodes s' m') = if decide (s' = s) then {[k]} ∪ dom (nodes s' m) else dom (nodes s' m)
  | Err e => e = bad_alloc ∧ may_throw
  end.
Proof.
  intros (c & Hj & Hst) Hroom. unfold try_emplace. destruct (nodes s m !! k) as [p|] eqn:E.
  { split; [by exists c|]. intros s'. destruct (decide (s' = s)) as [->|]; [|done]. apply elem_of_dom_2 in E. set_solver. }
  apply not_elem_of_dom in E as Hk. specialize (Hroom Hk). rewrite <-(stored_size _ _ Hst) in Hroom.
  pose proof (supplies_allocate _ _ _ Hj Hroom) as Ha. destruct (NodeArena.allocator_allocate _ _ _ _) as [[[p a] h]|e]; cbn [mbind res_bind].
  - destruct Ha as [Hp Hj1].
    pose proof (stored_insert s (with_memory a h m) c k p (stored_memory _ _ a h Hst) Hp) as Hst1.
    rewrite nodes_with_memory in Hst1. specialize (Hst1 E).
    set (m1 := with_nodes s (<[k := p]> (nodes s m)) (with_memory a h m)) in *.
    destruct (update_ok s m1 (<[p := node_bytes]> c)) as (m' & -> & Hj' & Hst' & Hn); [by destruct s|done|].
    split; [by eexists|]. intros s'. rewrite Hn. unfold m1. rewrite nodes_with_nodes, nodes_with_memory.
    destruct (decide (s' = s)) as [->|]; [|done]. by rewrite dom_insert_L.
  - done.
Qed.

Lemma erase_sound s m k : sound m → ∃ m', erase s m k = Ok m' ∧ sound m' ∧
  ∀ s', dom (nodes s' m') = if decide (s' = s) then dom (nodes s' m) ∖ {[k]} else dom (nodes s' m).
Proof.
  intros (c & Hj & Hst). unfold erase. destruct (nodes s m !! k) as [p|] eqn:E.
  2:{ exists m. split; [done|]. split; [by exists c|]. intros s'. destruct (decide (s' = s)) as [->|]; [|done].
      apply not_elem_of_dom in E. set_solver. }
  destruct (update_ok s m c Hj Hst) as (m1 & -> & Hj1 & Hst1 & Hn). cbn [mbind res_bind].
  assert (E1 : nodes s m1 !! k = Some p) by (by rewrite Hn).
  assert (Hp : c !! p = Some node_bytes) by (apply (st_blocks _ _ Hst1); eauto).
  destruct (supplies_deallocate _ _ _ _ Hj1 Hp) as (a & h & -> & Hj2). cbn [mbind res_bind]. eexists. split; [done|].
  pose proof (stored_delete s (with_memory a h m1) c k p (stored_memory _ _ a h Hst1)) as Hst2.
  rewrite nodes_with_memory in Hst2. split; [exists (delete p c); split; [by destruct s|by apply Hst2]|].
  intros s'. rewrite nodes_with_nodes, nodes_with_memory, !Hn. destruct (decide (s' = s)) as [->|]; [|done]. by rewrite dom_delete_L.
Qed.

(** ** The ladders *)

(** The fallback levels of a ladder are the nodes of its side. *)
Definition linked (s : Side) (L : PriceLadder.PriceLadder) (m : Store) : Prop :=
  StdMap.sorted (is_bid s) (PriceLadder.overflow L) ∧ dom (nodes s m) = StdMap.keys (PriceLadder.overflow L).

Lemma linked_size s L m : linked s L m → Z.of_nat (size (nodes s m)) = zlen (PriceLadder.overflow L).
Proof. intros [Hs Hd]. by rewrite <-size_dom, Hd, (StdMap.size_keys (is_bid s)). Qed.

Lemma open_linked s L m price r L' : sound m → linked s L m → PriceLadder.open (is_bid s) L price = Ok (r, L') →
  (zlen (PriceLadder.overflow L') = zlen (PriceLadder.overflow L) + 1 → room (count m)) →
  match open s L m price with
  | Ok (r2, L2, m') => r2 = r ∧ L2 = L' ∧ sound m' ∧ linked s L' m' ∧ dom (nodes (opposite s) m') = dom (nodes (opposite s) m)
  | Err e => e = bad_alloc ∧ may_throw
  end.
Proof.
  intros Hm HL Hopen Hroom. unfold open. rewrite Hopen. destruct HL as [Hs Hd]. unfold PriceLadder.open in Hopen.
  destruct (PriceLadder.in_window L price) eqn:E; cbn [mbind res_bind].
  { split_and!; try done. ok_inv. by destruct (level_empty _). }
  injection Hopen as <- <-. simpl in Hroom.
  assert (Hz : ∀ X : list (Price * PriceLevel), StdMap.sorted (is_bid s) X → zlen X = Z.of_nat (size (StdMap.keys X))).
  { intros X HX. by rewrite (StdMap.size_keys (is_bid s)). }
  assert (Hnew : price ∉ dom (nodes s m) → room (count m)).
  { intros Hn. apply Hroom. rewrite Hd in Hn. rewrite !Hz by (done || by apply StdMap.sorted_try_emplace).
    rewrite StdMap.keys_try_emplace, size_union, size_singleton by (done || set_solver). lia. }
  pose proof (try_emplace_sound s m price Hm) as He.
  destruct (try_emplace s m price) as [m'|e]; cbn [mbind res_bind].
  - destruct He as [Hm' Hdom]; [by apply Hnew|]. split_and!; [done..| |].
    + unfold linked. simpl. split; [by apply StdMap.sorted_try_emplace|]. rewrite Hdom, decide_True, StdMap.keys_try_emplace by done. by rewrite Hd.
    + rewrite Hdom, decide_False; [done|]. by destruct s.
  - apply He. by apply Hnew.
Qed.

Lemma closed_linked s L m price L' : sound m → linked s L m → PriceLadder.closed (is_bid s) L price = Ok L' →
  ∃ m', closed s L m price = Ok (L', m') ∧ sound m' ∧ linked s L' m' ∧ dom (nodes (opposite s) m') = dom (nodes (opposite s) m).
Proof.
  intros Hm [Hs Hd] Hclosed. unfold closed. rewrite Hclosed. unfold PriceLadder.closed in Hclosed.
  destruct (PriceLadder.in_window L price) eqn:E; cbn [mbind res_bind negb] in *.
  { exists m. split_and!; try done; ok_inv; done. }
  injection Hclosed as <-. destruct (erase_sound s m price Hm) as (m' & -> & Hm' & Hdom). exists m'. split_and!; [done..| |].
  - unfold linked. simpl. split; [by apply StdMap.sorted_erase|]. rewrite Hdom, decide_True, (StdMap.keys_erase (is_bid s)) by done. by rewrite Hd.
  - rewrite Hdom, decide_False; [done|]. by destruct s.
Qed.

(** ** The engine *)

Abbreviation levels_of s b := (PriceLadder.overflow (OrderBook.ladder s b)).

(** The book and its memory go together. *)
Definition good (b : OrderBook.OrderBook) (m : Store) : Prop := sound m ∧ ∀ s, linked s (OrderBook.ladder s b) m.

(** The fallback levels of both sides, and room for each of them. *)
Definition fallback (b : OrderBook.OrderBook) : Z :=
  zlen (PriceLadder.overflow (OrderBook.bids b)) + zlen (PriceLadder.overflow (OrderBook.asks b)).

Definition roomy (b : OrderBook.OrderBook) : Prop := ∀ k, 0 ≤ k < fallback b → room k.

(** Most calls open and close no level. *)
Definition same_levels (s : Side) (L L' : PriceLadder.PriceLadder) : Prop :=
  StdMap.keys (PriceLadder.overflow L') = StdMap.keys (PriceLadder.overflow L) ∧
  (StdMap.sorted (is_bid s) (PriceLadder.overflow L) → StdMap.sorted (is_bid s) (PriceLadder.overflow L')).

Definition kept (b b' : OrderBook.OrderBook) : Prop := ∀ s, same_levels s (OrderBook.ladder s b) (OrderBook.ladder s b').

Lemma kept_refl b : kept b b.
Proof. by intros s. Qed.

Lemma kept_trans b1 b2 b3 : kept b1 b2 → kept b2 b3 → kept b1 b3.
Proof. intros H1 H2 s. destruct (H1 s), (H2 s). split; [congruence|auto]. Qed.

Lemma linked_same s L L' m : same_levels s L L' → linked s L m → linked s L' m.
Proof. intros [Hk Hs] [H1 H2]. split; [by apply Hs|congruence]. Qed.

Lemma good_kept b b' m : kept b b' → good b m → good b' m.
Proof. intros Hk [Hm Hl]. split; [done|]. intros s. by eapply linked_same. Qed.

Lemma assign_same s L r l L' : PriceLadder.assign (is_bid s) L r l = Ok L' → same_levels s L L'.
Proof.
  unfold PriceLadder.assign. intros H. destruct r as [i|p]; ok_inv; [done|]. split; simpl.
  - by eapply StdMap.keys_assign.
  - apply StdMap.sorted_put.
Qed.

Lemma ladder_after_set s s' L b : OrderBook.ladder s (OrderBook.set_ladder s' L b) = if decide (s = s') then L else OrderBook.ladder s b.
Proof. by destruct s, s'. Qed.

Lemma kept_set_ladder s L b : same_levels s (OrderBook.ladder s b) L → kept b (OrderBook.set_ladder s L b).
Proof. intros HL s'. rewrite ladder_after_set. by destruct (decide (s' = s)) as [->|]. Qed.

(** Pools, indices and trades are none of the ladders' business. *)
Lemma kept_ladders b b' : OrderBook.bids b' = OrderBook.bids b → OrderBook.asks b' = OrderBook.asks b → kept b b'.
Proof. intros H1 H2 s. unfold OrderBook.ladder. destruct s; rewrite ?H1, ?H2; done. Qed.

Lemma unlink_kept s b r l i id b' : OrderBook.unlink s b r l i id = Ok b' → kept b b'.
Proof.
  unfold OrderBook.unlink. intros H. ok_inv. match goal with H : PriceLadder.assign _ _ _ _ = Ok _ |- _ => apply assign_same in H end.
  eapply kept_trans; [|apply kept_set_ladder; by destruct s]. by apply kept_ladders.
Qed.

Lemma fill_kept s b r l p i o inc rep b' inc' rep' :
  OrderBook.fill s b r l p i o inc rep = Ok (b', inc', rep') → kept b b'.
Proof.
  unfold OrderBook.fill. intros H. ok_inv; match goal with H : PriceLadder.assign _ _ _ _ = Ok ?L |- _ => apply assign_same in H end.
  all: try match goal with H : OrderBook.unlink _ _ _ _ _ _ = Ok _ |- _ => apply unlink_kept in H; eapply kept_trans; [|exact H] end.
  all: eapply kept_trans; [apply kept_ladders|]; [| |eapply kept_trans; [apply kept_set_ladder|apply kept_ladders]]; try done.
  all: try by destruct s.
Qed.

Lemma match_level_kept fuel s b r p inc rep b' inc' rep' :
  OrderBook.match_level fuel s b r p inc rep = Ok (b', inc', rep') → kept b b'.
Proof.
  revert b inc rep. induction fuel as [|fuel IH]; intros b inc rep H; [done|]. cbn [OrderBook.match_level] in H.
  ok_inv; try apply kept_refl.
  - eapply kept_trans; [by eapply unlink_kept|by eapply IH].
  - eapply kept_trans; [by eapply fill_kept|by eapply IH].
Qed.

(** A ladder changed together with the nodes of its side. *)
Lemma good_set_ladder s L b m m' : good b m → sound m' → linked s L m' →
  dom (nodes (opposite s) m') = dom (nodes (opposite s) m) → good (OrderBook.set_ladder s L b) m'.
Proof.
  intros [_ Hl] Hm' HL Hd. split; [done|]. intros s'. rewrite ladder_after_set.
  destruct (decide (s' = s)) as [->|Hne]; [done|]. assert (s' = opposite s) as -> by (destruct s, s'; done).
  destruct (Hl (opposite s)) as [H1 H2]. split; [done|congruence].
Qed.

(** Matching only closes levels, which never fails. *)
Lemma match_loop_good fuel s b m inc limit rep b' inc' rep' : good b m →
  OrderBook.match_loop fuel s b inc limit rep = Ok (b', inc', rep') →
  ∃ m', match_loop fuel s b m inc limit rep = Ok (b', inc', rep', m') ∧ good b' m'.
Proof.
  revert b m inc rep. induction fuel as [|fuel IH]; intros b m inc rep Hg H; [done|].
  cbn [OrderBook.match_loop match_loop] in *. destruct (negb (0 <? o_qty inc)); [ok_inv; by exists m|].
  destruct (PriceLadder.best _ _) as [[r p]|]; [|ok_inv; by exists m].
  destruct (negb (crosses _ _ _)); [ok_inv; by exists m|].
  destruct (OrderBook.match_level _ _ _ _ _ _ _) as [[[b1 inc1] rep1]|] eqn:Em; [|done]. cbn [mbind res_bind] in *.
  apply match_level_kept in Em. apply (good_kept _ _ _ Em) in Hg.
  destruct (PriceLadder.deref _ _) as [l|]; [|done]. cbn [mbind res_bind] in *.
  assert (Hclose : ∀ L, (if level_empty l then PriceLadder.closed (is_bid s) (OrderBook.ladder s b1) p else Ok (OrderBook.ladder s b1)) = Ok L →
    ∃ m', (if level_empty l then closed s (OrderBook.ladder s b1) m p else Ok (OrderBook.ladder s b1, m)) = Ok (L, m') ∧ good (OrderBook.set_ladder s L b1) m').
  { intros L HL. pose proof Hg as [Hm Hl]. destruct (level_empty l).
    - destruct (closed_linked s _ m p L Hm (Hl s) HL) as (m' & Hc & Hm' & HL' & Hd). exists m'. split; [done|]. by apply (good_set_ladder s L b1 m m').
    - injection HL as <-. exists m. split; [done|]. by apply (good_set_ladder s _ b1 m). }
  apply bind_ok in H as (L & HL & H). destruct (Hclose L HL) as (m' & -> & Hg'). cbn [mbind res_bind] in *.
  destruct (stp_halted rep1); [ok_inv; by exists m'|]. by apply IH.
Qed.

(** What a call returns: what the engine computes, in a memory that goes with it,
    or [std::bad_alloc] where the allocator may throw it. *)
Definition outcome (r : res Book) (b' : OrderBook.OrderBook) : Prop :=
  match r with
  | Ok (b2, m') => b2 = b' ∧ good b' m'
  | Err e => e = bad_alloc ∧ may_throw
  end.

Definition outcome_with (r : res (Book * ExecReport)) (b' : OrderBook.OrderBook) (rep : ExecReport) : Prop :=
  match r with
  | Ok (b2, m', rep2) => b2 = b' ∧ rep2 = rep ∧ good b' m'
  | Err e => e = bad_alloc ∧ may_throw ∧ rested rep = true
  end.

Lemma count_levels b m : good b m → count m = fallback b.
Proof.
  intros [_ Hl]. pose proof (linked_size _ _ _ (Hl Buy)). pose proof (linked_size _ _ _ (Hl Sell)). unfold count, fallback. simpl in *. lia.
Qed.

Lemma same_levels_length s L L' : StdMap.sorted (is_bid s) (PriceLadder.overflow L) → same_levels s L L' →
  zlen (PriceLadder.overflow L') = zlen (PriceLadder.overflow L).
Proof.
  intros Hs [Hk Hs']. unfold zlen. rewrite <-(StdMap.size_keys (is_bid s) (PriceLadder.overflow L')) by auto.
  by rewrite Hk, (StdMap.size_keys (is_bid s)).
Qed.

Lemma place_windows_kept b price : kept b (OrderBook.place_windows b price).
Proof. intros s. by destruct s. Qed.

(** Resting opens a level, and that may fail. *)
Lemma insert_good s b m o b' : good b m → roomy b' → OrderBook.insert s b o = Ok b' → outcome (insert s (b, m) o) b'.
Proof.
  intros Hg Hroom H. unfold OrderBook.insert, insert in *.
  set (b0 := if negb _ then OrderBook.place_windows b (o_price o) else b) in *.
  assert (Hg0 : good b0 m).
  { eapply good_kept; [|done]. unfold b0. destruct (negb _); [apply place_windows_kept|apply kept_refl]. }
  clearbody b0. clear Hg. apply bind_ok in H as ([r L] & HL & H). pose proof Hg0 as [Hm Hl].
  apply bind_ok in H as ([slot p] & Hacq & H). destruct (two31 <=? slot) eqn:E31; [done|].
  apply bind_ok in H as (p1 & Hp1 & H). apply bind_ok in H as (l & Hlv & H). apply bind_ok in H as ([p2 l2] & Happ & H).
  apply bind_ok in H as (L2 & HL2 & H). apply bind_ok in H as (t & Ht & [= <-]).
  pose proof (assign_same _ _ _ _ _ HL2) as Hsame.
  assert (Hs : StdMap.sorted (is_bid s) (PriceLadder.overflow L)).
  { clear -HL Hl. destruct (Hl s) as [Hs _]. unfold PriceLadder.open in HL. destruct (PriceLadder.in_window _ _); ok_inv; [by destruct (level_empty _)|].
    by apply StdMap.sorted_try_emplace. }
  assert (Hopen : zlen (PriceLadder.overflow L) = zlen (levels_of s b0) + 1 → room (count m)).
  { intros Hlen. apply Hroom. rewrite (count_levels _ _ Hg0). pose proof (same_levels_length s L L2 Hs Hsame) as Hlen2. unfold fallback.
    pose proof (zlen_nonneg (levels_of Buy b0)). pose proof (zlen_nonneg (levels_of Sell b0)). destruct s; simpl in *; lia. }
  pose proof (open_linked s (OrderBook.ladder s b0) m (o_price o) r L Hm (Hl s) HL Hopen) as Ho.
  destruct (open s _ m _) as [[[r2 L'] m']|e]; cbn [mbind res_bind].
  - destruct Ho as (-> & -> & Hm' & HL' & Hd). rewrite Hacq. cbn [mbind res_bind]. rewrite E31, Hp1. cbn [mbind res_bind].
    rewrite Hlv. cbn [mbind res_bind]. rewrite Happ. cbn [mbind res_bind]. rewrite HL2. cbn [mbind res_bind]. rewrite Ht. cbn [mbind res_bind].
    split; [done|]. eapply good_kept; [by apply kept_ladders|]. apply (good_set_ladder s L2 b0 m m'); [done..| |done]. by eapply linked_same.
  - done.
Qed.

Lemma remove_good s b m slot b' : good b m → OrderBook.remove s b slot = Ok b' →
  ∃ m', remove s (b, m) slot = Ok (b', m') ∧ good b' m'.
Proof.
  intros Hg H. unfold OrderBook.remove, remove in *. apply bind_ok in H as (n & -> & H). cbn [mbind res_bind].
  apply bind_ok in H as ([r|] & -> & H); [|done]. cbn [mbind res_bind]. apply bind_ok in H as (l & -> & H). cbn [mbind res_bind].
  apply bind_ok in H as ([p l1] & -> & H). cbn [mbind res_bind]. apply bind_ok in H as (L & HL & H). rewrite HL. cbn [mbind res_bind].
  apply assign_same in HL. pose proof Hg as [Hm Hl]. pose proof (linked_same _ _ _ _ HL (Hl s)) as HL1.
  apply bind_ok in H as (L1 & HL2 & [= <-]). destruct (level_empty l1).
  - destruct (closed_linked s L m _ L1 Hm HL1 HL2) as (m' & -> & Hm' & HL' & Hd). cbn [mbind res_bind]. eexists. split; [done|].
    apply (good_set_ladder s L1 _ m m'); [|done..]. by eapply good_kept; [apply kept_ladders|].
  - injection HL2 as <-. cbn [mbind res_bind]. exists m. split; [done|].
    apply (good_set_ladder s L _ m m); [|done..]. by eapply good_kept; [apply kept_ladders|].
Qed.

Lemma submit_good b m id owner s limit qty rest b' rep : good b m → roomy b' →
  OrderBook.submit b id owner s limit qty rest = Ok (b', rep) →
  outcome_with (submit (b, m) id owner s limit qty rest) b' rep.
Proof.
  intros Hg Hroom H. unfold OrderBook.submit, submit in *. apply bind_ok in H as ([|] & -> & H); cbn [mbind res_bind].
  { by injection H as <- <-. }
  apply bind_ok in H as ([[b1 inc] rep1] & Hmatch & H).
  destruct (match_loop_good _ _ _ _ _ _ _ _ _ _ Hg Hmatch) as (m1 & -> & Hg1). cbn [mbind res_bind].
  apply bind_ok in H as ([b2 rep2] & Hrest & H). apply bind_ok in H as ([] & Hc & [= <- <-]).
  destruct (rest && (0 <? o_qty inc) && _).
  - apply bind_ok in Hrest as (b3 & Hins & [= -> <-]). pose proof (insert_good s b1 m1 inc b2 Hg1 Hroom Hins) as Ho.
    destruct (insert s (b1, m1) inc) as [[b3 m3]|e]; cbn [mbind res_bind]; [|by destruct Ho]. destruct Ho as [-> Hg3]. simpl. by rewrite Hc.
  - injection Hrest as -> <-. simpl. by rewrite Hc.
Qed.

Lemma cancel_good b m id b' ok : good b m → OrderBook.cancel b id = Ok (b', ok) →
  ∃ m', cancel (b, m) id = Ok (b', m', ok) ∧ good b' m'.
Proof.
  intros Hg H. unfold OrderBook.cancel, cancel in *. apply bind_ok in H as ([[e|] t] & -> & H); cbn [mbind res_bind].
  - apply bind_ok in H as (b1 & Hr & H). apply bind_ok in H as ([] & Hc & [= <- <-]).
    destruct (remove_good (OrderBook.side_of e) (OrderBook.set_index t b) m (OrderBook.slot_of e) b1) as (m1 & -> & Hg1); [by eapply good_kept; [apply kept_ladders|]|done|].
    cbn [mbind res_bind]. simpl. rewrite Hc. by exists m1.
  - injection H as <- <-. exists m. split; [done|]. by eapply good_kept; [apply kept_ladders|].
Qed.

Lemma modify_good b m id price qty b' rep : good b m → roomy b' → OrderBook.modify b id price qty = Ok (b', rep) →
  outcome_with (modify (b, m) id price qty) b' rep.
Proof.
  intros Hg Hroom H. unfold OrderBook.modify, modify in *. apply bind_ok in H as ([e|] & -> & H); cbn [mbind res_bind].
  2:{ by injection H as <- <-. }
  apply bind_ok in H as (n & -> & H). cbn [mbind res_bind]. apply bind_ok in H as ([b1 ok] & Hc & H).
  destruct (cancel_good _ _ _ _ _ Hg Hc) as (m1 & -> & Hg1). cbn [mbind res_bind].
  destruct (qty =? 0); [by injection H as <- <-|]. by apply submit_good.
Qed.

Lemma step_good b m op b' rep : good b m → roomy b' → Diff.step b op = Ok (b', rep) → outcome_with (Diff.step (b, m) op) b' rep.
Proof.
  intros Hg Hroom H. unfold Diff.step in *. destruct (Diff.op_kind op).
  - by eapply submit_good.
  - by eapply submit_good.
  - cbn [Diff.cancel node_drives Diff.engine_drives] in *. apply bind_ok in H as ([b1 ok] & Hc & [= <- <-]). destruct (cancel_good _ _ _ _ _ Hg Hc) as (m1 & -> & Hg1). done.
  - by eapply modify_good.
Qed.

(** ** The end of a book *)

Lemma free_all_ok a h c ps : J a h c → NoDup ps → (∀ p, p ∈ ps → c !! p = Some node_bytes) →
  ∃ a' h' c', free_all a h ps = Ok (a', h') ∧ J a' h' c' ∧ ∀ x, c' !! x = if decide (x ∈ ps) then None else c !! x.
Proof.
  revert a h c. induction ps as [|p ps IH]; intros a h c Hj Hnd Hin.
  { exists a, h, c. split; [done|]. split; [done|]. intros x. rewrite decide_False; [done|]. apply not_elem_of_nil. }
  apply NoDup_cons in Hnd as [Hp Hnd]. cbn [free_all].
  destruct (supplies_deallocate a h c p Hj) as (a1 & h1 & -> & Hj1); [apply Hin; left|]. cbn [mbind res_bind].
  destruct (IH a1 h1 (delete p c) Hj1 Hnd) as (a2 & h2 & c2 & -> & Hj2 & Hc2).
  { intros q Hq. rewrite lookup_delete_ne; [apply Hin; by right|]. by intros <-. }
  exists a2, h2, c2. split; [done|]. split; [done|]. intros x. rewrite Hc2. destruct (decide (x = p)) as [->|Hx].
  - rewrite lookup_delete_eq, (decide_True (P := p ∈ p :: ps)) by left. by destruct (decide _).
  - rewrite lookup_delete_ne by done. destruct (decide (x ∈ ps)); [rewrite decide_True by (by right)|rewrite decide_False]; [done..|].
    by intros [?|?]%elem_of_cons.
Qed.

(** A map's destructor frees its nodes and no other. *)
Lemma clear_ok s m : sound m → ∃ m', clear s m = Ok m' ∧ sound m' ∧
  ∀ s', nodes s' m' = if decide (s' = s) then ∅ else nodes s' m.
Proof.
  intros (c & Hj & Hst). unfold clear. set (ps := clear_order (nodes s m)).
  assert (Hps : ∀ p, p ∈ ps ↔ ∃ k, nodes s m !! k = Some p).
  { intros p. unfold ps. rewrite clear_order_all. apply elem_of_addresses. }
  assert (Hnd : NoDup ps) by (unfold ps; rewrite clear_order_all; by eapply addresses_nodup).
  destruct (free_all_ok _ _ _ ps Hj Hnd) as (a & h & c' & -> & Hj' & Hc').
  { intros p [k Hk]%Hps. apply (st_blocks _ _ Hst). eauto. }
  cbn [mbind res_bind]. eexists. split; [done|]. split; [|intros s'; by rewrite nodes_with_nodes, nodes_with_memory].
  exists c'. split; [by destruct s|]. split.
  - intros x n. rewrite Hc'. destruct (decide (x ∈ ps)) as [Hx|Hx].
    + split; [done|]. intros (_ & s' & k & E). rewrite nodes_with_nodes, nodes_with_memory in E.
      destruct (decide (s' = s)); [by rewrite lookup_empty in E|]. apply Hps in Hx as [k' Hk'].
      by destruct (st_apart _ _ Hst s' k s k' x E Hk').
    + rewrite (st_blocks _ _ Hst). split; intros (-> & s' & k & E); (split; [done|]); exists s', k.
      * rewrite nodes_with_nodes, nodes_with_memory, decide_False; [done|]. intros ->. apply Hx, Hps. by exists k.
      * rewrite nodes_with_nodes, nodes_with_memory in E. destruct (decide (s' = s)); [by rewrite lookup_empty in E|done].
  - intros s1 k1 s2 k2 x. rewrite !nodes_with_nodes, !nodes_with_memory.
    destruct (decide (s1 = s)); [by rewrite lookup_empty|]. destruct (decide (s2 = s)); [by rewrite lookup_empty|]. apply (st_apart _ _ Hst).
Qed.

End supplied.

(** ** The allocators of a book *)

Section allocators.
Context {system : System} {build : Build} {map_nodes : MapNodes}.

(** The system itself: the nodes are blocks of their own on the heap [B0]. *)
Record system_holds (B0 : gmap Z Z) (h : Heap) (c : gmap Z Z) : Prop := {
  sy_heap : heap_ok h;
  sy_blocks p n : blocks h !! p = Some n ↔ c !! p = Some n ∨ B0 !! p = Some n;
  sy_new p n : c !! p = Some n → B0 !! p = None;
}.

(** Either allocator, from the heap [B0] on. *)
Definition holds_nodes (B0 : gmap Z Z) (a : option NodeArena.NodeArena) (h : Heap) (c : gmap Z Z) : Prop :=
  match a with Some a => NodeArena.ok B0 a h c | None => system_holds B0 h c end.

Lemma system_allocate B0 h c : system_holds B0 h c →
  match operator_new h node_bytes with
  | Ok (p, h') => c !! p = None ∧ system_holds B0 h' (<[p := node_bytes]> c)
  | Err e => e = bad_alloc
  end.
Proof.
  intros [Hh Hb Hn]. assert (Hnb : 0 ≤ node_bytes) by (pose proof node_bytes_ok; lia). destruct (operator_new h node_bytes) as [[p h']|e] eqn:E; [|by eapply operator_new_fails].
  destruct (operator_new_ok h node_bytes p h' Hh Hnb E) as (Hh' & Hp & Hb' & _).
  assert (Hfree : c !! p = None ∧ B0 !! p = None).
  { split; apply eq_None_not_Some; intros [n Hx]; assert (blocks h !! p = Some n) by (apply Hb; auto); congruence. }
  destruct Hfree as [Hcp H0p]. split; [done|]. split; [done| |].
  - intros q n. rewrite Hb', !lookup_insert_Some, Hb. naive_solver congruence.
  - intros q n [[<- _]|[_ Hq]]%lookup_insert_Some; [done|by eapply Hn].
Qed.

Lemma system_deallocate B0 h c p : system_holds B0 h c → c !! p = Some node_bytes →
  ∃ h', operator_delete h p node_bytes = Ok h' ∧ system_holds B0 h' (delete p c).
Proof.
  intros [Hh Hb Hn] Hp. destruct (operator_delete_ok h p node_bytes Hh) as (h' & Hd & Hh' & Hb' & _); [apply Hb; by left|].
  exists h'. split; [done|]. split; [done| |].
  - intros q n. rewrite Hb', !lookup_delete_Some, Hb. split; [naive_solver|]. intros [[? ?]|Hq]; [by auto|].
    split; [|by right]. intros <-. rewrite (Hn _ _ Hp) in Hq. done.
  - intros q n [_ Hq]%lookup_delete_Some. by eapply Hn.
Qed.

Lemma system_write B0 h c p x bs : system_holds B0 h c → c !! p = Some node_bytes → p ≤ x → x + zlen bs ≤ p + node_bytes →
  ∃ h', write h x bs = Ok h' ∧ system_holds B0 h' c.
Proof.
  intros [Hh Hb Hn] Hp Hx Hend. rewrite write_ok; [|exists p, node_bytes; split; [apply Hb; by left|done]].
  eexists. split; [done|]. split; [|done|done]. by destruct Hh; split.
Qed.

(** Both may run out at any time. *)
#[export] Instance holds_supplies B0 : Supplies (λ _, True) True (holds_nodes B0).
Proof.
  assert (Hnb : 0 ≤ node_bytes) by (pose proof node_bytes_ok; lia). split.
  - intros [a|] h c Hj _; unfold NodeArena.allocator_allocate; rewrite node_bytes_small; simpl in Hj.
    + destruct Hj as (slabs & carved & free & Hi). pose proof (NodeArena.allocate_ok Hi node_bytes Hnb) as Ha.
      destruct (NodeArena.allocate a h node_bytes) as [[[p a'] h']|]; cbn [mbind res_bind]; done.
    + pose proof (system_allocate _ _ _ Hj) as Ha. destruct (operator_new h node_bytes) as [[p h']|]; cbn [mbind res_bind]; done.
  - intros [a|] h c p Hj Hp; unfold NodeArena.allocator_deallocate; rewrite node_bytes_small; simpl in Hj.
    + destruct Hj as (slabs & carved & free & Hi). destruct (NodeArena.deallocate_ok Hi p node_bytes Hp) as (a' & h' & -> & _ & Hok).
      by eexists _, _.
    + destruct (system_deallocate _ _ _ _ Hj Hp) as (h' & -> & Hs). by eexists _, _.
  - intros [a|] h c p x bs Hj Hp Hx Hend; simpl in Hj.
    + destruct Hj as (slabs & carved & free & Hi). destruct (NodeArena.write_client_ok Hi p node_bytes x bs Hp Hx Hend) as (h' & -> & _ & Hi').
      exists h'. split; [done|]. by eexists _, _, _.
    + by eapply system_write.
Qed.

(** An arena provisioned for [N] nodes does not. *)
Definition provisioned_nodes (h0 : Heap) (N : Z) (a0 : NodeArena.NodeArena) (h0' : Heap)
    (a : option NodeArena.NodeArena) (h : Heap) (c : gmap Z Z) : Prop :=
  ∃ a', a = Some a' ∧ provisioned h0 N node_bytes a0 h0' a' h c.

#[export] Instance provisioned_supplies h0 N a0 h0' : Supplies (λ k, k < N) False (provisioned_nodes h0 N a0 h0').
Proof.
  assert (Hnb : 0 ≤ node_bytes ≤ NodeArena.kMaxBlock).
  { pose proof node_bytes_ok. change NodeArena.kBytesPerOrder with 64 in *. unfold NodeArena.kMaxBlock. lia. }
  split.
  - intros a h c (a' & -> & Hp) Hlt. unfold NodeArena.allocator_allocate. rewrite node_bytes_small.
    destruct (provisioned_allocate h0 _ _ _ _ _ _ _ Hnb Hp Hlt) as (p & a1 & h1 & -> & ? & ?). cbn [mbind res_bind].
    split; [done|]. by exists a1.
  - intros a h c p (a' & -> & Hp) Hc. unfold NodeArena.allocator_deallocate. rewrite node_bytes_small.
    destruct (provisioned_deallocate h0 _ _ _ _ _ _ _ _ Hnb Hp Hc) as (a1 & h1 & -> & ?). cbn [mbind res_bind].
    eexists _, _. split; [done|]. by exists a1.
  - intros a h c p x bs (a' & -> & Hp) Hc Hx Hend.
    destruct (provisioned_write h0 _ _ _ _ _ _ _ _ _ _ Hp Hc Hx Hend) as (h1 & -> & ?). exists h1. split; [done|]. by exists a'.
Qed.

End allocators.

(** ** Operations that do not ask

    What returns on the exhausted system returns the same on any other. *)

Section unasked.
Context {system : System} {build : Build} {map_nodes : MapNodes}.

Lemma bind_unasked {A B} (m1 m2 : res A) (f1 f2 : A → res B) r : (∀ x, m1 = Ok x → m2 = Ok x) →
  (∀ x, f1 x = Ok r → f2 x = Ok r) → m1 ≫= f1 = Ok r → m2 ≫= f2 = Ok r.
Proof. intros Hm Hf (x & Hx & H)%bind_ok. rewrite (Hm x Hx). by apply Hf. Qed.

Lemma try_emplace_unasked s m k r : try_emplace (system := exhausted) s m k = Ok r → try_emplace s m k = Ok r.
Proof.
  unfold try_emplace. destruct (nodes s m !! k); [done|].
  apply bind_unasked; [|done]. intros x. apply NodeArena.allocator_allocate_unasked.
Qed.

Lemma open_unasked s L m price r : open (system := exhausted) s L m price = Ok r → open s L m price = Ok r.
Proof. apply bind_unasked; [|done]. intros x. destruct (PriceLadder.in_window _ _); [done|]. apply try_emplace_unasked. Qed.

Lemma insert_unasked s bm o r : insert (system := exhausted) s bm o = Ok r → insert s bm o = Ok r.
Proof. destruct bm as [b m]. apply bind_unasked; [|done]. intros x. apply open_unasked. Qed.

Lemma submit_unasked bm id owner s limit qty rest r :
  submit (system := exhausted) bm id owner s limit qty rest = Ok r → submit bm id owner s limit qty rest = Ok r.
Proof.
  destruct bm as [b m]. apply bind_unasked; [done|]. intros [|]; [done|]. apply bind_unasked; [done|].
  intros [[[b1 inc] rep] m1]. apply bind_unasked; [|done]. intros x. destruct (_ && _); [|done].
  apply bind_unasked; [|done]. intros y. apply insert_unasked.
Qed.

Lemma modify_unasked bm id price qty r : modify (system := exhausted) bm id price qty = Ok r → modify bm id price qty = Ok r.
Proof.
  destruct bm as [b m]. apply bind_unasked; [done|]. intros [e|]; [|done]. apply bind_unasked; [done|]. intros n.
  apply bind_unasked; [done|]. intros [bm ok]. destruct (qty =? 0); [done|]. apply submit_unasked.
Qed.

Lemma step_unasked bm op r : Diff.step (D := node_drives (system := exhausted)) bm op = Ok r → Diff.step bm op = Ok r.
Proof.
  unfold Diff.step. destruct (Diff.op_kind op); [apply submit_unasked|apply submit_unasked|done|apply modify_unasked].
Qed.

End unasked.
