(* ===== verification/NodesProps.v ===== *)
(** * A book takes its nodes from its arena

    The engine and the node arena together (Nodes.v): memory never shows in what a
    book does, every level outside the window has a node of its own, a book made for
    [Config::expected_orders] orders does not ask the system while matching, and its
    destructor gives everything back. *)

From stdpp Require Import base decidable list gmap fin_sets.
From S2P Require Import Prelude.
From S2P Require Import Memory.
From S2P Require Import Arena.
From S2P Require Import ArenaProps.
From S2P Require Import Types.
From S2P Require Import Index.
From S2P Require Import SortedMap.
From S2P Require Import Ladder.
From S2P Require Import Spec.
From S2P Require Import Book.
From S2P Require Import Inv.
From S2P Require Import Refine.
From S2P Require Import Diff.
From S2P Require Import Reach.
From S2P Require Import Provision.
From S2P Require Import Nodes.
From S2P Require Import NodesSteps.
Import Memory.
Import Nodes.

Section book.
Context {system : System} {build : Build} {map_nodes : MapNodes}.

(** ** Runs *)

(** [running cfg h0 n b m]: a book made with [cfg] on the heap [h0] can be in state
    [b], with the memory [m], after [n] operations. *)
Inductive running (cfg : Config) (h0 : Heap) : Z → OrderBook.OrderBook → Store → Prop :=
  | running_make b m : make h0 cfg = Ok (b, m) → running cfg h0 0 b m
  | running_step n b m op b' m' rep : running cfg h0 n b m → n < two31 → Diff.op_ok op →
      Diff.step (b, m) op = Ok (b', m', rep) → running cfg h0 (n + 1) b' m'
  | running_drain n b m ts b' m' : running cfg h0 n b m →
      drain_trades (b, m) = Ok (ts, (b', m')) → running cfg h0 n b' m'.

(** The same for a book that never holds more orders than it was made for. *)
Inductive running_within (cfg : Config) (h0 : Heap) : Z → OrderBook.OrderBook → Store → Prop :=
  | within_make b m : make h0 cfg = Ok (b, m) → running_within cfg h0 0 b m
  | within_step n b m op b' m' rep : running_within cfg h0 n b m → n < two31 → Diff.op_ok op →
      Diff.step (b, m) op = Ok (b', m', rep) → OrderBook.size b' ≤ expected_orders cfg → running_within cfg h0 (n + 1) b' m'
  | within_drain n b m ts b' m' : running_within cfg h0 n b m →
      drain_trades (b, m) = Ok (ts, (b', m')) → running_within cfg h0 n b' m'.

(** A configuration whose arena can be addressed. *)
Definition sized (cfg : Config) : Prop := Refine.config_ok cfg ∧ expected_orders cfg ≤ 2 ^ 56.

Section config.
Context (cfg : Config) (Hcfg : sized cfg) (h0 : Heap) (Hh0 : heap_ok h0).

(** From a reachable state the engine on plain maps returns. *)
Lemma step_returns n b op : Reach.reachable cfg n b → n < two31 → Diff.op_ok op →
  ∃ b' rep, Diff.step b op = Ok (b', rep).
Proof.
  intros (S & F & Hrepr & Hlen & _)%(Reach.reachable_repr cfg (proj1 Hcfg)) Hn Hop.
  pose proof (Diff.engine_step b S F n op Hrepr Hlen Hn Hop) as Hs.
  destruct (Diff.spec_step S op) as [[S' rep] ts]. destruct Hs as (b' & Hb' & _). by eexists _, _.
Qed.

Abbreviation supply := (holds_nodes (blocks h0)).

(** A book with nothing in its maps. *)
Lemma made_good J a h b : OrderBook.make cfg = Ok b → J a h ∅ → good J b (mk a h ∅ ∅).
Proof.
  intros Hb Hj. split.
  - exists ∅. split; [done|]. split; [|by intros [] ????].
    intros x n. rewrite lookup_empty. split; [done|]. by intros (_ & [] & k & E).
  - assert (He : ∀ s, PriceLadder.overflow (OrderBook.ladder s b) = []).
    { unfold OrderBook.make in Hb. ok_inv. destruct (price_base cfg); by intros []. }
    intros s. unfold linked. rewrite He. split; [constructor|]. by destruct s.
Qed.

Lemma make_good b m : make h0 cfg = Ok (b, m) → Reach.reachable cfg 0 b ∧ good supply b m.
Proof.
  unfold make. intros H. apply bind_ok in H as ([a h] & Ha & H). apply bind_ok in H as (b1 & Hb & [= -> <-]).
  split; [by constructor|]. apply made_good; [done|]. unfold NodeArena.make_arena in Ha.
  destruct (kAsan || _); ok_inv.
  - split; [done|naive_solver|done].
  - destruct Hcfg as [(He & _) Hmax]. eapply (make_ok h0); [done| |done].
    change NodeArena.kBytesPerOrder with 64. rewrite u64_small by lia. lia.
Qed.

Lemma drain_good J b m ts b' m' : good J b m → drain_trades (b, m) = Ok (ts, (b', m')) →
  OrderBook.drain_trades b = Ok (ts, b') ∧ good J b' m' ∧ m' = m.
Proof.
  intros Hg H. unfold drain_trades in H. apply bind_ok in H as ([ts1 b1] & Hd & [= -> -> <-]). split; [done|]. split; [|done].
  unfold OrderBook.drain_trades in Hd. ok_inv. by eapply good_kept; [apply kept_ladders|].
Qed.

Lemma running_good n b m : running cfg h0 n b m → Reach.reachable cfg n b ∧ good supply b m.
Proof.
  induction 1 as [b m Hm|n b m op b' m' rep _ [Hr Hg] Hn Hop Hs|n b m ts b' m' _ [Hr Hg] Hd].
  - by apply make_good.
  - destruct (step_returns n b op Hr Hn Hop) as (b1 & rep1 & Hb1).
    pose proof (step_good (λ _, True) True supply b m op b1 rep1 Hg (λ _ _, I) Hb1) as Ho. rewrite Hs in Ho.
    destruct Ho as (-> & -> & Hg'). split; [|done]. by eapply Reach.reach_step.
  - destruct (drain_good supply _ _ _ _ _ Hg Hd) as (Hd' & Hg' & _). split; [|done]. by eapply Reach.reach_drain.
Qed.

(** C19. Memory never shows: whatever the system answers and wherever the nodes lie,
    an operation on a running book returns what it returns on the plain maps, or
    throws [std::bad_alloc], which only an operation that would rest can do. *)
Theorem memory_never_shows n b m op : running cfg h0 n b m → n < two31 → Diff.op_ok op →
  ∃ b' rep, Diff.step b op = Ok (b', rep) ∧
    match Diff.step (b, m) op with
    | Ok (b2, m', rep2) => b2 = b' ∧ rep2 = rep
    | Err e => e = bad_alloc ∧ rested rep = true
    end.
Proof.
  intros [Hr Hg]%running_good Hn Hop. destruct (step_returns n b op Hr Hn Hop) as (b' & rep & Hb'). exists b', rep. split; [done|].
  pose proof (step_good (λ _, True) True supply b m op b' rep Hg (λ _ _, I) Hb') as Ho. unfold outcome_with in Ho.
  destruct (Diff.step (b, m) op) as [[[b2 m'] rep2]|e]; naive_solver.
Qed.

(** ** Where the nodes lie *)

(** What either allocator says of the blocks it has handed out. *)
Lemma held_placed a h c p n : holds_nodes (blocks h0) a h c → c !! p = Some n →
  (16 | p) ∧ 0 < p ∧ in_block h p n ∧
  (∀ q m, c !! q = Some m → p ≠ q → disjoint p n q m) ∧
  (∀ q m, blocks h0 !! q = Some m → disjoint p n q m).
Proof.
  destruct a as [a|]; [by apply ok_placed|]. intros [Hh Hb Hn] Hp.
  assert (Hbp : blocks h !! p = Some n) by (apply Hb; by left). destruct (ok_block _ Hh p n Hbp) as (? & _ & _ & ?).
  split_and!; [done..| | |].
  - exists p, n. split; [done|lia].
  - intros q m Hq Hne. apply (ok_disjoint _ Hh); [done| |done]. apply Hb. by left.
  - intros q m Hq. apply (ok_disjoint _ Hh); [done|apply Hb; by right|]. intros <-. rewrite (Hn _ _ Hp) in Hq. done.
Qed.

(** C28. Every level outside the window, and no other, has a node: aligned memory of
    its own inside a live block of the system, apart from the nodes of every other
    level of either side and from whatever else was on the heap. *)
Theorem levels_have_nodes n b m s price : running cfg h0 n b m →
  match StdMap.find (PriceLadder.overflow (OrderBook.ladder s b)) price with
  | None => nodes s m !! price = None
  | Some _ => ∃ p, nodes s m !! price = Some p ∧ (16 | p) ∧ 0 < p ∧ in_block (heap m) p node_bytes ∧
      (∀ s' price' q, nodes s' m !! price' = Some q → s = s' ∧ price = price' ∨ disjoint p node_bytes q node_bytes) ∧
      (∀ q k, blocks h0 !! q = Some k → disjoint p node_bytes q k)
  end.
Proof.
  intros [_ [(c & Hj & Hst) Hl]]%running_good. destruct (Hl s) as [_ Hd].
  destruct (StdMap.find _ price) as [l|] eqn:E.
  - assert (Hin : price ∈ dom (nodes s m)) by (rewrite Hd; apply StdMap.elem_of_keys; by exists l).
    apply elem_of_dom in Hin as [p Hp]. exists p. split; [done|].
    assert (Hc : ∀ s' k q, nodes s' m !! k = Some q → c !! q = Some node_bytes) by (intros; apply (st_blocks _ _ Hst); eauto).
    destruct (held_placed _ _ _ p node_bytes Hj (Hc _ _ _ Hp)) as (? & ? & ? & Hne & ?). split_and!; [done..| |done].
    intros s' price' q Hq. destruct (decide (p = q)) as [<-|Hpq]; [left|right; by eapply Hne, Hpq; eapply Hc].
    by apply (st_apart _ _ Hst s price s' price' p).
  - apply not_elem_of_dom. rewrite Hd, StdMap.elem_of_keys, E. by intros [? ?].
Qed.

(** ** The end of a book *)

(** C29. Nothing leaks: at any moment of a run the book can be destroyed, which
    gives back every node and then every slab, whatever the maps hold and whatever
    order they free it in; the heap's blocks are those there were before the book. *)
Theorem book_leaves_no_blocks n b m : running cfg h0 n b m → ∃ h', destroy m = Ok h' ∧ blocks h' = blocks h0.
Proof.
  intros [_ [Hm _]]%running_good. unfold destroy.
  destruct (clear_ok (λ _, True) True supply Sell m Hm) as (m1 & -> & Hm1 & Hn1). cbn [mbind res_bind].
  destruct (clear_ok (λ _, True) True supply Buy m1 Hm1) as (m2 & -> & Hm2 & Hn2). cbn [mbind res_bind].
  destruct Hm2 as (c & Hj & Hst). assert (c = ∅) as ->.
  { apply map_eq. intros x. rewrite lookup_empty. apply eq_None_not_Some. intros [k (_ & s & p & E)%(st_blocks _ _ Hst)].
    rewrite Hn2, Hn1 in E. by destruct s. }
  destruct (arena m2) as [a|]; simpl in Hj.
  - destruct (destroy_ok h0 a (heap m2) ∅ Hj) as (h' & Hd & Hb). exists h'. split; [done|].
    apply map_eq. intros p. apply option_eq. intros k. rewrite Hb, lookup_empty. naive_solver.
  - exists (heap m2). split; [done|]. apply map_eq. intros p. apply option_eq. intros k.
    rewrite (sy_blocks _ _ _ Hj), lookup_empty. naive_solver.
Qed.

(** ** A provisioned book *)

Section provisioned.
Context (Hasan : kAsan = false) (Hpool : pool_nodes cfg = true) (Hexp : 0 < expected_orders cfg).

Lemma room_expected : Provision.room cfg = expected_orders cfg.
Proof. unfold Provision.room. destruct (Z.ltb_spec 0 (expected_orders cfg)); [done|lia]. Qed.

(** Within its orders, a book has room for its fallback levels. *)
Lemma within_roomy n b : Provision.within cfg n b → roomy (λ k, k < expected_orders cfg) b.
Proof.
  intros Hw. assert (Hsize : OrderBook.size b ≤ expected_orders cfg).
  { rewrite <-room_expected. induction Hw as [b Hb|n b op b' rep _ _ _ _ _ Hs|n b ts b' _ IH Hd]; [|done|].
    - pose proof (proj1 (proj1 Hcfg)). unfold OrderBook.size. unfold OrderBook.make in Hb. fold (Provision.room cfg) in Hb.
      apply bind_ok in Hb as (t & Ht & Hb). ok_inv. simpl. unfold IdIndex.make in Ht. ok_inv. simpl. rewrite room_expected. lia.
    - unfold OrderBook.drain_trades in Hd. ok_inv. done. }
  destruct (Reach.reachable_repr cfg (proj1 Hcfg) _ _ (Provision.within_reachable _ _ _ Hw)) as (S & F & (Q & fl & Hinv & _) & _).
  pose proof (Provision.overflow_orders b Q fl Hinv). intros k Hk. unfold fallback in Hk. lia.
Qed.

Abbreviation own a0 h0' := (provisioned_nodes h0 (expected_orders cfg) a0 h0').

Lemma running_within_running n b m : running_within cfg h0 n b m → running cfg h0 n b m.
Proof. induction 1; [by constructor|by eapply running_step|by eapply running_drain]. Qed.

Lemma running_within_step n b m op b' m' rep : running_within cfg h0 n b m → n < two31 → Diff.op_ok op →
  Diff.step (b, m) op = Ok (b', m', rep) → Diff.step b op = Ok (b', rep).
Proof.
  intros [Hr Hg]%running_within_running%running_good Hn Hop Hs. destruct (step_returns n b op Hr Hn Hop) as (b1 & rep1 & Hb1).
  pose proof (step_good (λ _, True) True supply b m op b1 rep1 Hg (λ _ _, I) Hb1) as Ho. rewrite Hs in Ho. by destruct Ho as (-> & -> & _).
Qed.

(** The book's arena is the one it was made with. *)
Lemma own_blocks a0 h0' b m : good (own a0 h0') b m → blocks (heap m) = blocks h0'.
Proof. intros [(c & (a' & _ & Hp) & _) _]. by apply Hp. Qed.

Lemma running_within_good n b m : running_within cfg h0 n b m → ∃ a0 h0',
  Provision.within cfg n b ∧ good (own a0 h0') b m.
Proof.
  intros Hrun.
  induction Hrun as [b m Hm|n b m op b' m' rep Hrun (a0 & h0' & Hw & Hg) Hn Hop Hs Hsize|n b m ts b' m' _ (a0 & h0' & Hw & Hg) Hd].
  - unfold make in Hm. apply bind_ok in Hm as ([a h] & Ha & Hm). apply bind_ok in Hm as (b1 & Hb & [= -> <-]).
    rewrite Hasan, Hpool in Ha. assert (∃ a0, a = Some a0) as [a0 ->] by (unfold NodeArena.make_arena in Ha; simpl in Ha; ok_inv; eauto).
    exists a0, h. split; [by constructor|]. apply made_good; [done|]. exists a0. split; [done|].
    destruct Hcfg as [_ Hmax]. assert (Hnb : 0 ≤ node_bytes ≤ NodeArena.kBytesPerOrder) by (pose proof node_bytes_ok; lia).
    by apply arena_make_provisioned.
  - pose proof (running_within_step n b m op b' m' rep Hrun Hn Hop Hs) as Hb'.
    assert (Hw' : Provision.within cfg (n + 1) b') by (eapply Provision.within_step; try done; by rewrite room_expected).
    exists a0, h0'. split; [done|].
    pose proof (step_good _ False (own a0 h0') b m op b' rep Hg (within_roomy _ _ Hw') Hb') as Ho. rewrite Hs in Ho. apply Ho.
  - exists a0, h0'. destruct (drain_good _ _ _ _ _ _ Hg Hd) as (Hd' & Hg' & _). split; [|done]. by eapply Provision.within_drain.
Qed.

(** C18. A book made for [expected_orders] orders does not call the system while
    matching, as order_book.hpp promises: as long as no more orders rest, every
    operation returns, and returns the same on every system, one that refuses every
    request included; no block of the heap comes or goes, and neither the pool nor
    the index grows. *)
Theorem matching_spares_the_system n b m op b' rep : running_within cfg h0 n b m → n < two31 → Diff.op_ok op →
  Diff.step b op = Ok (b', rep) → OrderBook.size b' ≤ expected_orders cfg →
  ∃ m', (∀ other : System, Diff.step (D := node_drives (system := other)) (b, m) op = Ok (b', m', rep)) ∧
    blocks (heap m') = blocks (heap m) ∧
    OrderBook.order_pool_growths b' = 0 ∧ OrderBook.id_index_growths b' = 0.
Proof.
  intros (a0 & h0' & Hw & Hg)%running_within_good Hn Hop Hb' Hsize.
  assert (Hw' : Provision.within cfg (n + 1) b') by (eapply Provision.within_step; try done; by rewrite room_expected).
  pose proof (step_good (system := exhausted) _ False (own a0 h0') b m op b' rep Hg (within_roomy _ _ Hw') Hb') as Ho.
  unfold outcome_with in Ho. destruct (Diff.step (B := OrderBook.OrderBook * Store) (D := node_drives (system := exhausted)) (b, m) op) as [[[b2 m'] rep2]|e] eqn:E; [|by destruct Ho as (_ & [] & _)].
  destruct Ho as (-> & -> & Hg'). exists m'. split; [intros other; by apply step_unasked|].
  split; [by rewrite (own_blocks _ _ _ _ Hg), (own_blocks _ _ _ _ Hg')|].
  by destruct (Provision.provisioned_book_never_grows cfg (n + 1) b' (proj1 Hcfg) Hw') as (? & _ & ? & _).
Qed.

End provisioned.
End config.
End book.

(** ** Witnesses

    Two orders at most, every level outside the window, the system of Memory.v and
    the nodes of Nodes.v, which overwrite each other at every call. *)

#[local] Existing Instance stacked.
#[local] Existing Instance tree_nodes.
#[local] Instance debug : Build := {| NDEBUG := false; kAsan := false |}.

Definition pair_config : Config := MkConfig CancelResting 8 true 2 0 None.

Lemma pair_sized : sized pair_config.
Proof. split; [repeat split; simpl; lia|by vm_compute]. Qed.

(** A sell at 100 and a buy at 90 rest, each in a node. *)
Lemma pair_running : ∃ b m, running_within pair_config no_blocks 2 b m ∧ OrderBook.size b = 2 ∧
  nodes Sell m !! 100 = Some 32 ∧ nodes Buy m !! 90 = Some 96 ∧
  (∃ l, StdMap.find (PriceLadder.overflow (OrderBook.asks b)) 100 = Some l) ∧
  (∃ b' rep, Diff.step b (Diff.MkOp Diff.AddLimit 3 9 Buy 200 15) = Ok (b', rep) ∧ OrderBook.size b' = 2) ∧
  (∃ b' rep, Diff.step b (Diff.MkOp Diff.AddMarket 3 9 Buy 0 15) = Ok (b', rep) ∧ rested rep = false).
Proof.
  do 2 eexists. split; [|split_and!].
  - eapply (within_step _ _ 1 _ _ (Diff.MkOp Diff.AddLimit 2 8 Buy 90 4)); [|lia|by repeat split|..].
    1: eapply (within_step _ _ 0 _ _ (Diff.MkOp Diff.AddLimit 1 7 Sell 100 5)); [|lia|by repeat split|..].
    1: eapply within_make; vm_compute; reflexivity.
    all: first [vm_compute; reflexivity|vm_compute; discriminate].
  - vm_compute. reflexivity.
  - vm_compute. reflexivity.
  - vm_compute. reflexivity.
  - eexists. vm_compute. reflexivity.
  - do 2 eexists. split; vm_compute; reflexivity.
  - do 2 eexists. split; vm_compute; reflexivity.
Qed.

Lemma pair_taker_ok kind price : 0 ≤ price < two64 → 2 < two31 ∧ Diff.op_ok (Diff.MkOp kind 3 9 Buy price 15).
Proof. intros Hp. split; [lia|unfold Diff.op_ok; simpl; lia]. Qed.

Lemma memory_never_shows_witness : ∃ b m b' rep, Diff.step b (Diff.MkOp Diff.AddMarket 3 9 Buy 0 15) = Ok (b', rep) ∧
  ∃ m', Diff.step (b, m) (Diff.MkOp Diff.AddMarket 3 9 Buy 0 15) = Ok (b', m', rep).
Proof.
  destruct pair_running as (b & m & Hrun & _ & _ & _ & _ & _ & b' & rep & Hb' & Hrest).
  destruct (pair_taker_ok Diff.AddMarket 0) as [Hn Hop]; [lia|].
  destruct (memory_never_shows pair_config pair_sized no_blocks no_blocks_ok 2 b m _
    (running_within_running _ _ _ _ _ Hrun) Hn Hop) as (b1 & rep1 & Hb1 & Hstep).
  rewrite Hb' in Hb1. injection Hb1 as <- <-. exists b, m, b', rep. split; [exact Hb'|].
  destruct (Diff.step (B := OrderBook.OrderBook * Store) (b, m) _) as [[[b2 m'] rep2]|e].
  - destruct Hstep as [-> ->]. exists m'. reflexivity.
  - destruct Hstep as [_ H]. rewrite Hrest in H. discriminate H.
Defined.

Lemma levels_have_nodes_witness : ∃ b m, running pair_config no_blocks 2 b m ∧ nodes Sell m !! 100 = Some 32 ∧
  nodes Buy m !! 90 = Some 96 ∧ in_block (heap m) 32 56 ∧ disjoint 32 56 96 56.
Proof.
  destruct pair_running as (b & m & Hrun & _ & Hs & Hb & (l & Hl) & _). apply running_within_running in Hrun.
  exists b, m. pose proof (levels_have_nodes pair_config pair_sized no_blocks no_blocks_ok 2 b m Sell 100 Hrun) as Hn.
  change (OrderBook.ladder Sell b) with (OrderBook.asks b) in Hn. rewrite Hl in Hn. destruct Hn as (p & Hp & _ & _ & Hin & Hd & _).
  rewrite Hs in Hp. injection Hp as <-. split_and!; try assumption. by destruct (Hd Buy 90 96 Hb) as [[E _]|E].
Defined.

Lemma book_leaves_no_blocks_witness : ∃ b m h', OrderBook.size b = 2 ∧ nodes Sell m !! 100 = Some 32 ∧ destroy m = Ok h' ∧ blocks h' = ∅.
Proof.
  destruct pair_running as (b & m & Hrun & Hsize & Hs & _). apply running_within_running in Hrun.
  destruct (book_leaves_no_blocks pair_config pair_sized no_blocks no_blocks_ok 2 b m Hrun) as (h' & Hd & Hb).
  exists b, m, h'. exact (conj Hsize (conj Hs (conj Hd Hb))).
Defined.

Lemma matching_spares_the_system_witness : ∃ b m b' m' rep,
  Diff.step (D := node_drives (system := exhausted)) (b, m) (Diff.MkOp Diff.AddLimit 3 9 Buy 200 15) = Ok (b', m', rep) ∧
  OrderBook.size b' = 2 ∧ blocks (heap m') = blocks (heap m).
Proof.
  destruct pair_running as (b & m & Hrun & _ & _ & _ & _ & (b' & rep & Hb' & Hsize) & _).
  destruct (pair_taker_ok Diff.AddLimit 200) as [Hn Hop]; [lia|].
  destruct (matching_spares_the_system (build := debug) pair_config pair_sized no_blocks no_blocks_ok eq_refl eq_refl ltac:(by vm_compute) 2 b m _ b' rep Hrun Hn Hop Hb')
    as (m' & Hall & Hblocks & _).
  { rewrite Hsize. vm_compute. discriminate. }
  exists b, m, b', m', rep. exact (conj (Hall exhausted) (conj Hsize Hblocks)).
Defined.
