(* ===== verification/EngineProps.v ===== *)
(** * What the engine promises, from outside

    The properties of the order book in terms of what its callers observe in
    reachable states: the resting orders in visiting order, the reports, the
    trades drained. Each rests on the refinement (Refine.v) and on the theory of
    the abstract book (Spec.v). *)

From stdpp Require Import base decidable list sorting.
From S2P Require Import Prelude.
From S2P Require Import Types.
From S2P Require Import Ring.
From S2P Require Import Pool.
From S2P Require Import Index.
From S2P Require Import SortedMap.
From S2P Require Import Ladder.
From S2P Require Import Spec.
From S2P Require Import Book.
From S2P Require Import Inv.
From S2P Require Import Checks.
From S2P Require Import Refine.
From S2P Require Import Diff.
From S2P Require Import Reach.
Import Reach.

Section engine.
Context {build : Build} (cfg : Config) (Hcfg : Refine.config_ok cfg).

(** ** Every reachable state *)

(** C3. From a reachable state every operation of the interface returns: no
    assertion fails, no exception is thrown, no vector or slot is accessed out of
    bounds and no loop runs away; and the checks of a debug build pass. *)
Theorem step_total n b op : reachable cfg n b → n < two31 → Diff.op_ok op →
  ∃ b' rep, Diff.step b op = Ok (b', rep) ∧ OrderBook.check_invariants b' = Ok ().
Proof.
  intros (S & F & Hrepr & Hlen & _)%(reachable_repr cfg Hcfg) Hn Hop.
  pose proof (Diff.engine_step b S F n op Hrepr Hlen Hn Hop) as Hs.
  destruct (Diff.spec_step S op) as [[S' rep] ts]. destruct Hs as (b' & -> & (Q & fl & Hinv & -> & Hwf & _) & _).
  exists b', rep. split; [done|]. by apply (Checks.check_invariants_ok b' Q fl).
Qed.

(** C11. The book is never crossed or locked: the best bid is below the best ask. *)
Theorem never_crossed n b bid ask : reachable cfg n b →
  OrderBook.best_bid b = Some bid → OrderBook.best_ask b = Some ask → bid < ask.
Proof.
  intros (S & F & Hrepr & _)%(reachable_repr cfg Hcfg). destruct (repr_best b S F Hrepr) as [-> ->].
  pose proof (Refine.repr_wf _ _ _ Hrepr) as Hwf. unfold Spec.best. intros (x & Hx & ->)%fmap_Some (y & Hy & ->)%fmap_Some.
  apply head_Some_elem_of in Hx, Hy. by apply (Spec.wf_uncrossed _ Hwf).
Qed.

(** C16. What rests: bids before asks, bids from the highest price down, asks from
    the lowest up, every id once, every quantity positive and in range. *)
Theorem resting_well_formed n b : reachable cfg n b → ∃ os, OrderBook.for_each_resting b = Ok os ∧
  os = side_orders Buy os ++ side_orders Sell os ∧ NoDup (o_id <$> os) ∧
  StronglySorted (λ x y, o_price y ≤ o_price x) (side_orders Buy os) ∧
  StronglySorted (λ x y, o_price x ≤ o_price y) (side_orders Sell os) ∧
  ∀ o, o ∈ os → 0 < o_qty o < two32 ∧ 0 ≤ o_price o < two64.
Proof.
  intros (S & F & Hrepr & _)%(reachable_repr cfg Hcfg). pose proof (Refine.repr_wf _ _ _ Hrepr) as Hwf.
  exists (orders_of S). split; [by eapply repr_resting|]. rewrite !side_orders_of. split; [done|].
  rewrite orders_of_ids. split; [by apply Spec.wf_ids|].
  assert (Hsort : ∀ IsBid (f : RestingOrder → Order) l (R : Order → Order → Prop), Spec.priority IsBid l →
    (∀ x y, Spec.not_worse IsBid x y → R (f x) (f y)) → StronglySorted R (f <$> l)).
  { intros IsBid f l R Hl HR. induction Hl as [|x l Hl IH Hf]; rewrite ?fmap_cons; constructor; [done|].
    rewrite Forall_forall in Hf. apply Forall_forall. intros y (z & -> & Hz)%list_elem_of_fmap. by apply HR, Hf. }
  split_and!.
  - eapply Hsort; [apply Hwf|]. unfold Spec.not_worse, better. simpl. lia.
  - eapply Hsort; [apply Hwf|]. unfold Spec.not_worse, better. simpl. lia.
  - assert (Hok := Spec.wf_orders _ Hwf).
    intros o [(r & -> & Hr)%list_elem_of_fmap|(r & -> & Hr)%list_elem_of_fmap]%elem_of_app; simpl;
      (destruct (Hok r) as (_ & ? & ? & _); [apply elem_of_app; tauto|lia]).
Qed.

(** C15. Every query reports exactly the resting orders: the size, the best prices,
    each order by its id, the total quantity and the number of orders at each
    price. *)
Theorem queries_exact n b os : reachable cfg n b → OrderBook.for_each_resting b = Ok os →
  OrderBook.size b = zlen os ∧ OrderBook.empty b = bool_decide (os = []) ∧
  OrderBook.best_bid b = o_price <$> head (side_orders Buy os) ∧
  OrderBook.best_ask b = o_price <$> head (side_orders Sell os) ∧
  (∀ id, OrderBook.find b id = Ok (head (filter (λ o, o_id o = id) os))) ∧
  (∀ s p, 0 ≤ p < two64 → OrderBook.qty_at b s p = Ok (volume (orders_at s p os)) ∧
    OrderBook.order_count_at b s p = Ok (zlen (orders_at s p os))).
Proof.
  intros Hr Hos. destruct (reachable_resting cfg Hcfg _ _ _ Hr Hos) as (S & F & Hrepr & _ & _ & _ & ->).
  destruct (repr_best b S F Hrepr) as [-> ->]. destruct Hrepr as (Q & fl & Hinv & -> & Hwf & _).
  pose proof (Checks.size_abs b Q fl Hinv) as Hsize. rewrite <-orders_of_length in Hsize.
  rewrite !side_orders_of. split; [done|]. split.
  { unfold OrderBook.empty. fold (OrderBook.size b). rewrite Hsize.
    unfold zlen. destruct (orders_of _); [done|]. rewrite bool_decide_false by done. apply Z.eqb_neq. simpl. lia. }
  unfold Spec.best. split; [by destruct (Spec.side Buy _)|]. split; [by destruct (Spec.side Sell _)|].
  split.
  - intros id. by rewrite (Checks.find_abs b Q fl Hinv Hwf id), find_orders_of.
  - intros s p Hp. rewrite (Checks.qty_at_abs b Q fl Hinv Hwf s p Hp), (Checks.order_count_at_abs b Q fl Hinv s p Hp).
    rewrite orders_at_of, volume_of_fmap. unfold zlen. by rewrite length_fmap.
Qed.

(** ** One submission

    [submit] with a limit and [rest_leftover], as [add_limit] calls it, or with
    neither, as [add_market] does; [os] rests before and [os'] after it. *)

Section submission.
Context (n : Z) (b b' : OrderBook.OrderBook) (id : OrderId) (owner : ParticipantId) (s : Side)
  (limit : option Price) (qty : Quantity) (rest : bool) (rep : ExecReport)
  (os os' : list Order) (new : list Trade).
Context (Hr : reachable cfg n b) (Hn : n < two31) (Hargs : Spec.args_ok id owner limit qty)
  (Hrest : rest = true → is_Some limit)
  (Hsub : OrderBook.submit b id owner s limit qty rest = Ok (b', rep))
  (Hos : OrderBook.for_each_resting b = Ok os) (Hos' : OrderBook.for_each_resting b' = Ok os').

(** The abstract step behind the submission. *)
Lemma submission_spec : ∃ S S' ts, Spec.wf S ∧ Spec.side_ok (Spec.side (opposite s) S) ∧
  Spec.policy S = self_trade cfg ∧ 0 ≤ Spec.next_seq S < two64 ∧ Spec.wf S' ∧
  Spec.submit S id owner s limit qty rest = (S', rep, ts) ∧ os = orders_of S ∧ os' = orders_of S' ∧
  (∀ new, printed b b' new → ∃ k, new = take k ts).
Proof.
  destruct (submit_observed cfg Hcfg _ _ _ _ _ _ _ _ _ _ Hr Hn Hargs Hrest Hsub)
    as (S & F & S' & ts & Hrepr & Hwf & Hpol & Hlen & Hs & Hrepr' & Hnew).
  exists S, S', ts. pose proof (Refine.repr_wf _ _ _ Hrepr') as Hwf'.
  rewrite (repr_resting _ _ _ Hrepr) in Hos. rewrite (repr_resting _ _ _ Hrepr') in Hos'.
  injection Hos as <-. injection Hos' as <-.
  assert (Hseq : 0 ≤ Spec.next_seq S < two64) by (destruct Hrepr as (? & ? & [] & -> & _); done).
  assert (Hside : Spec.side_ok (Spec.side (opposite s) S)).
  { unfold Spec.side_ok. rewrite (Spec.ids_length s) in Hlen. pose proof (zlen_nonneg (Spec.side s S)). lia. }
  repeat (split; [done|]). apply Hnew.
Qed.

(** The walk over the opposite side that the submission made. *)
Definition walk (S : Spec.Book) : Spec.Matched :=
  Spec.match_queue (Spec.policy S) limit (MkOrder id owner (default 0 limit) qty s) ExecReport0
    (Spec.next_seq S) (Spec.side (opposite s) S).

(** A trade of the submission is a trade of that walk. *)
Lemma submission_trade t : printed b b' new → t ∈ new → ∃ S S' ts, Spec.wf S ∧ accepted rep = true ∧
  Spec.submit S id owner s limit qty rest = (S', rep, ts) ∧ os = orders_of S ∧ os' = orders_of S' ∧
  Spec.policy S = self_trade cfg ∧ t ∈ Spec.m_trades (walk S) ∧ Spec.orders_ok (Spec.side (opposite s) S).
Proof.
  intros Hnew Ht. destruct submission_spec as (S & S' & ts & Hwf & _ & Hpol & _ & Hwf' & E & -> & -> & Hk).
  destruct (Hk new Hnew) as (k & ->). assert (Hts : t ∈ ts) by (eapply elem_of_sublist; [exact Ht|apply sublist_take]).
  exists S, S', ts. destruct (Spec.wf_elim s S Hwf) as (_ & _ & _ & Hok & _).
  assert (Hok' : Spec.orders_ok (Spec.side (opposite s) S)) by (intros r Hr0; apply Hok, elem_of_app; by right).
  destruct (Spec.submit_cases _ _ _ _ _ _ _ _ _ _ E) as [(_ & _ & -> & _)|(? & ? & -> & _)]; [by apply elem_of_nil in Hts|].
  rewrite (Spec.submit_accepted _ _ _ _ _ _ _ _ _ _ E). done.
Qed.

(** C7. Every fill is fair: the taker is the incoming order, the maker an order
    that rested on the opposite side, the price the maker's own and within the
    taker's limit, the quantity positive and at most the maker's. *)
Theorem fills_fair t : printed b b' new → t ∈ new →
  t_taker_id t = id ∧ t_taker_side t = s ∧ crosses s limit (t_price t) = true ∧
  ∃ o, o ∈ side_orders (opposite s) os ∧ t_maker_id t = o_id o ∧ t_price t = o_price o ∧ 0 < t_qty t ≤ o_qty o.
Proof.
  intros Hnew Ht. destruct (submission_trade t Hnew Ht) as (S & S' & ts & _ & _ & _ & -> & _ & _ & Hm & Hok).
  apply Spec.match_queue_fair in Hm as (? & ? & ? & r & Hr0 & ? & ? & ?); [|done].
  split; [done|]. split; [done|]. split; [done|]. exists (order_of (opposite s) r). split; [|done].
  apply elem_of_side_orders. by exists r.
Qed.

(** C4. Price-time priority: when an order trades, every order that stood ahead
    of it, at a better price or earlier at the same price, has left the book. *)
Theorem price_time_priority t l1 o l2 x : printed b b' new → t ∈ new → t_maker_id t = o_id o →
  side_orders (opposite s) os = l1 ++ o :: l2 → x ∈ l1 → o_id x ∉ o_id <$> os'.
Proof.
  intros Hnew Ht Hmk Hsplit Hx. destruct (submission_trade t Hnew Ht) as (S & S' & ts & Hwf & Hacc & E & -> & -> & _ & Hm & Hok).
  rewrite side_orders_of in Hsplit. apply fmap_app_inv in Hsplit as (r1 & r2' & -> & Hrest' & Hr12).
  symmetry in Hrest'. apply fmap_cons_inv in Hrest' as (r & r2 & -> & -> & ->).
  apply list_elem_of_fmap in Hx as (y & -> & Hy). simpl in Hmk |- *. rewrite orders_of_ids.
  destruct (Spec.wf_elim s S Hwf) as (_ & _ & Hnd & _ & _). unfold walk in Hm.
  pose proof (Spec.submit_ids _ _ _ _ _ _ _ _ _ _ (r_id y) E Hacc) as Hids.
  apply (Spec.submit_accepted _ _ _ _ _ _ _ _ _ _ E) in Hacc as [_ Hid].
  rewrite Hr12 in Hm, Hok, Hnd, Hids. rewrite fmap_app in Hnd. apply NoDup_app in Hnd as (_ & Hd & Hnd).
  assert (Hyo : r_id y ∈ r_id <$> r1 ++ r :: r2) by (apply list_elem_of_fmap; exists y; split; [done|apply elem_of_app; by left]).
  pose proof (Spec.match_queue_priority _ _ _ _ _ r1 r r2 t y Hnd Hok Hm Hmk Hy) as Hgone.
  intros [Heq|[Hs|?]]%Hids; [|by apply (Hd _ Hs)|done].
  apply Hid. rewrite <-Heq, (Spec.ids_sides s), Hr12, fmap_app. apply elem_of_app. by right.
Qed.

(** C8. Self-trade prevention: unless the policy allows it or the taker is
    anonymous, no order of the taker's owner is a maker. *)
Theorem no_self_trade t o : printed b b' new → t ∈ new → self_trade cfg ≠ Allow → owner ≠ kAnonymous →
  o ∈ os → t_maker_id t = o_id o → o_owner o ≠ owner.
Proof.
  intros Hnew Ht Hpol How Ho Hmk. destruct (submission_trade t Hnew Ht) as (S & S' & ts & Hwf & _ & _ & -> & _ & Hp & Hm & _).
  apply Spec.match_queue_stp in Hm as (r & Hr0 & Hid & Hst).
  unfold Spec.self_trade, stp_possible, policy_eqb in Hst. rewrite Hp in Hst. simpl in Hst.
  rewrite bool_decide_false in Hst by done. destruct (Z.eqb_spec owner kAnonymous); [done|]. simpl in Hst.
  apply Z.eqb_neq in Hst. enough (o = order_of (opposite s) r) as -> by done.
  assert (Hr1 : order_of (opposite s) r ∈ orders_of S).
  { assert (order_of (opposite s) r ∈ side_orders (opposite s) (orders_of S)) as Hin by (apply elem_of_side_orders; by exists r).
    by apply list_elem_of_filter in Hin as [_ ?]. }
  assert (Hnd : NoDup (o_id <$> orders_of S)) by (rewrite orders_of_ids; apply Hwf).
  apply list_elem_of_lookup in Ho as [i Hi]. apply list_elem_of_lookup in Hr1 as [j Hj].
  assert (i = j) as ->; [|by simplify_eq].
  eapply NoDup_lookup; [exact Hnd|rewrite list_lookup_fmap, Hi; done|rewrite list_lookup_fmap, Hj; simpl; congruence].
Qed.

(** C5. The report adds up: filled and remaining make the quantity, the filled
    quantity is that of the trades (when the ring kept them all), and each fill
    takes its quantity off the maker's side: the volume of the book changes by
    what was filled, cancelled and rested. No counter wraps. *)
Theorem report_adds_up : accepted rep = true →
  filled rep + remaining rep = qty ∧ 0 ≤ filled rep ∧ 0 ≤ remaining rep ∧ 0 ≤ stp_cancelled rep ∧
  volume os' = volume os - filled rep - stp_cancelled rep + (if rested rep then remaining rep else 0) ∧
  (printed b b' new → zlen new = trade_count rep → filled rep = Spec.traded new).
Proof.
  intros Hacc. destruct submission_spec as (S & S' & ts & Hwf & Hso & _ & _ & _ & E & -> & -> & Hk).
  destruct (Spec.submit_counts _ _ _ _ _ _ _ _ _ _ Hwf Hso (proj1 (proj2 (proj2 Hargs))) E Hacc)
    as (E1 & Hrem & E2 & E3 & Hstp & Hvol).
  rewrite !volume_orders_of. split_and!; try done.
  - rewrite E2. apply Spec.traded_nonneg. intros t Ht.
    destruct (Spec.submit_cases _ _ _ _ _ _ _ _ _ _ E) as [(_ & _ & -> & _)|(_ & _ & -> & _)]; [by apply elem_of_nil in Ht|].
    destruct (Spec.wf_elim s S Hwf) as (_ & _ & _ & Hok & _).
    apply Spec.match_queue_fair in Ht as (_ & _ & _ & r & _ & _ & _ & ?); [lia|].
    intros r Hr0. apply Hok, elem_of_app. by right.
  - intros Hnew Hlen. destruct (Hk new Hnew) as (k & ->). rewrite E3 in Hlen. rewrite take_ge; [done|].
    unfold zlen in Hlen. rewrite length_take in Hlen. lia.
Qed.

(** The trades of one submission carry consecutive sequence numbers from the
    report's [first_seq] on. *)
Theorem trades_numbered : printed b b' new → new ≠ [] → Spec.numbered (first_seq rep) new.
Proof.
  intros Hnew Hne. destruct submission_spec as (S & S' & ts & Hwf & Hso & _ & Hseq & _ & E & -> & -> & Hk).
  destruct (Hk new Hnew) as (k & ->). apply Spec.numbered_take. clear Hk Hnew.
  destruct (Spec.submit_seq _ _ _ _ _ _ _ _ _ _ Hseq E) as [Hnum _]. destruct ts as [|t ts]; [by rewrite take_nil in Hne|].
  assert (first_seq rep = Spec.next_seq S) as ->; [|done].
  destruct (Spec.submit_cases _ _ _ _ _ _ _ _ _ _ E) as [(_ & _ & ? & _)|(_ & _ & Hm)]; [done|].
  pose proof (Spec.match_queue_first (Spec.policy S) limit (MkOrder id owner (default 0 limit) qty s) ExecReport0
    (Spec.next_seq S) (Spec.side (opposite s) S)) as Hf. unfold Spec.side_ok in Hso. simpl in Hf. specialize (Hf ltac:(lia) ltac:(lia)).
  destruct Hm as [Ht Hm]. rewrite <-Ht in Hf. simpl in Hf, Hnum. destruct Hnum as [Hnum _]. rewrite Hnum in Hf.
  destruct Hm as [(_ & _ & _ & -> & _)|(_ & -> & _)]; exact Hf.
Qed.

(** C6. When an order rests: exactly when it was accepted, asked to rest, has
    quantity left and was not halted. It then stands behind every order at its
    price or better and ahead of every worse one, with the remaining quantity;
    otherwise its side of the book is unchanged. *)
Theorem rests_in_priority :
  (rested rep = true ↔ accepted rep = true ∧ rest = true ∧ 0 < remaining rep ∧ stp_halted rep = false) ∧
  if rested rep then ∃ price l1 l2, limit = Some price ∧ side_orders s os = l1 ++ l2 ∧
    side_orders s os' = l1 ++ MkOrder id owner price (remaining rep) s :: l2 ∧
    (∀ x, x ∈ l1 → better (is_bid s) price (o_price x) = false) ∧
    (∀ x, x ∈ l2 → better (is_bid s) price (o_price x) = true)
  else side_orders s os' = side_orders s os.
Proof.
  destruct submission_spec as (S & S' & ts & Hwf & _ & _ & _ & _ & E & -> & -> & _).
  rewrite !side_orders_of. pose proof (Spec.submit_accepted _ _ _ _ _ _ _ _ _ _ E) as Hacc.
  destruct (Spec.submit_cases _ _ _ _ _ _ _ _ _ _ E) as [(-> & -> & _ & _)|(? & ? & Hm)]; [split; [|done]; split; [done|intros (? & _); done]|].
  pose proof (Spec.match_queue_taker (Spec.policy S) limit (MkOrder id owner (default 0 limit) qty s) ExecReport0
    (Spec.next_seq S) (Spec.side (opposite s) S)) as Ht.
  pose proof (Spec.match_queue_rested (Spec.policy S) limit (MkOrder id owner (default 0 limit) qty s) ExecReport0
    (Spec.next_seq S) (Spec.side (opposite s) S)) as Hrr.
  remember (Spec.match_queue _ _ _ _ _ _) as m eqn:Em. clear Em. cbv zeta in Hm. simpl in Ht, Hrr.
  assert (accepted rep = true) as Ha by tauto. rewrite Ha.
  destruct Hm as [_ [(Hre & Hpos & Hh & -> & ->)|(Hno & -> & ->)]]; cbn [rested rep_rested rep_with_remaining remaining stp_halted].
  - split; [done|]. destruct (Hrest Hre) as [price ->]. destruct Ht as (T1 & T2 & T3 & T4).
    destruct (Spec.enqueue_split (is_bid s) (Spec.side s S) (resting_of (Spec.m_taker m)) (Spec.wf_side s S Hwf))
      as (l1 & l2 & E1 & E2 & H1 & H2).
    assert (Hp : r_price (resting_of (Spec.m_taker m)) = price) by exact T3. rewrite Hp in H1, H2.
    exists price, (order_of s <$> l1), (order_of s <$> l2). rewrite Spec.side_set_side, E2, E1, !fmap_app, fmap_cons.
    split; [done|]. split; [done|]. split; [|split; intros x (r & -> & Hx)%list_elem_of_fmap; [by apply H1|by apply H2]].
    do 2 f_equal. unfold order_of, resting_of. simpl. by rewrite T1, T2, T3.
  - rewrite Hrr. split; [|unfold Spec.matched; by destruct s]. split; [done|]. intros (_ & ? & ? & ?).
    exfalso. destruct Hno as [?|[?|?]]; [congruence|lia|congruence].
Qed.

(** C9. A taker only eats the front of the opposite side: what is left is its
    tail, the first order perhaps reduced; and if the taker still has quantity
    and was not halted, nothing that is left crosses its limit. *)
Theorem eats_from_the_front : accepted rep = true →
  (side_orders (opposite s) os' `suffix_of` side_orders (opposite s) os ∨
   ∃ l o q l', side_orders (opposite s) os = l ++ o :: l' ∧
     side_orders (opposite s) os' = o_with_qty o q :: l' ∧ 0 < q < o_qty o) ∧
  (0 < remaining rep → stp_halted rep = false → ∀ o, o ∈ side_orders (opposite s) os' → crosses s limit (o_price o) = false).
Proof.
  intros Hacc. destruct submission_spec as (S & S' & ts & Hwf & _ & _ & _ & _ & E & -> & -> & _).
  rewrite !side_orders_of. destruct (Spec.wf_elim s S Hwf) as (_ & Hp & _ & Hok & _).
  assert (Hok' : Spec.orders_ok (Spec.side (opposite s) S)) by (intros r Hr0; apply Hok, elem_of_app; by right).
  destruct (Spec.submit_cases _ _ _ _ _ _ _ _ _ _ E) as [(_ & -> & _)|(_ & _ & Hm)]; [done|].
  pose proof (Spec.match_queue_leaves (Spec.policy S) limit (MkOrder id owner (default 0 limit) qty s) ExecReport0
    (Spec.next_seq S) _ Hok') as Hl.
  pose proof (Spec.match_queue_exhausted (Spec.policy S) limit (MkOrder id owner (default 0 limit) qty s) ExecReport0
    (Spec.next_seq S) _ Hp eq_refl) as Hex.
  remember (Spec.match_queue _ _ _ _ _ _) as m eqn:Em. clear Em. cbv zeta in Hm, Hex. simpl in Hex.
  assert (Spec.side (opposite s) S' = Spec.m_queue m ∧ remaining rep = o_qty (Spec.m_taker m) ∧ stp_halted rep = stp_halted (Spec.m_rep m))
    as (-> & -> & ->).
  { destruct Hm as [_ [(_ & _ & _ & -> & ->)|(_ & -> & ->)]]; unfold Spec.matched; by destruct s. }
  split.
  - destruct (Spec.leaves_suffix _ _ Hl) as [[k Hk]|(k & r & q & l' & -> & -> & ?)].
    + left. exists (order_of (opposite s) <$> k). by rewrite Hk, fmap_app.
    + right. exists (order_of (opposite s) <$> k), (order_of (opposite s) r), q, (order_of (opposite s) <$> l').
      by rewrite fmap_app, !fmap_cons.
  - intros Hpos Hh o (r & -> & Hr0)%list_elem_of_fmap. by apply Hex.
Qed.

(** C10. Under [CancelIncoming] a taker is halted exactly in front of an order of
    its own owner: that order keeps the front of the opposite side, the taker is
    left with quantity and does not rest. *)
Theorem halted_before_own_order : stp_halted rep = true → accepted rep = true →
  self_trade cfg = CancelIncoming ∧ owner ≠ kAnonymous ∧ 0 < remaining rep ∧ rested rep = false ∧
  ∃ o l, side_orders (opposite s) os' = o :: l ∧ o_owner o = owner ∧ crosses s limit (o_price o) = true.
Proof.
  intros Hh Hacc. destruct submission_spec as (S & S' & ts & Hwf & _ & Hpol & _ & _ & E & -> & -> & _).
  rewrite !side_orders_of. destruct (Spec.submit_cases _ _ _ _ _ _ _ _ _ _ E) as [(_ & -> & _)|(_ & _ & Hm)]; [done|].
  pose proof (Spec.match_queue_halted (Spec.policy S) limit (MkOrder id owner (default 0 limit) qty s) ExecReport0
    (Spec.next_seq S) (Spec.side (opposite s) S) eq_refl) as Hhalt.
  pose proof (Spec.match_queue_rested (Spec.policy S) limit (MkOrder id owner (default 0 limit) qty s) ExecReport0
    (Spec.next_seq S) (Spec.side (opposite s) S)) as Hrr.
  remember (Spec.match_queue _ _ _ _ _ _) as m eqn:Em. clear Em. cbv zeta in Hm, Hhalt. simpl in Hhalt.
  destruct Hm as [_ [(_ & _ & Hno & -> & ->)|(_ & -> & ->)]]; simpl in Hh; [congruence|].
  destruct (Hhalt Hh) as (Hpi & Hpos & r & l & Hq & Hc & How & Hna). rewrite <-Hpol. do 4 (split; [done|]).
  exists (order_of (opposite s) r), (order_of (opposite s) <$> l). unfold Spec.matched.
  rewrite <-fmap_cons, <-Hq. split; [by destruct s|done].
Qed.

End submission.

(** ** Rejections, market orders, cancels and modifies *)

(** C14. A submission is refused exactly when its quantity is zero or its id
    already rests, and then leaves the whole engine as it was. *)
Theorem reject_changes_nothing n b os id owner s limit qty rest b' rep :
  reachable cfg n b → n < two31 → Spec.args_ok id owner limit qty → (rest = true → is_Some limit) →
  OrderBook.for_each_resting b = Ok os → OrderBook.submit b id owner s limit qty rest = Ok (b', rep) →
  (accepted rep = false ↔ qty = 0 ∨ id ∈ o_id <$> os) ∧ (accepted rep = false → b' = b ∧ rep = rep_reject qty).
Proof.
  intros Hr Hn Hargs Hrest Hos Hsub.
  destruct (submit_observed cfg Hcfg _ _ _ _ _ _ _ _ _ _ Hr Hn Hargs Hrest Hsub)
    as (S & F & S' & ts & Hrepr & Hwf & _ & _ & E & _ & _).
  rewrite (repr_resting _ _ _ Hrepr) in Hos. injection Hos as <-. rewrite orders_of_ids.
  pose proof (Spec.submit_accepted _ _ _ _ _ _ _ _ _ _ E) as Hacc.
  assert (Hiff : accepted rep = false ↔ qty = 0 ∨ id ∈ Spec.ids S).
  { destruct (accepted rep); [|split; [intros _|done]].
    - split; [done|]. destruct Hacc as [Ha _]. specialize (Ha eq_refl). tauto.
    - destruct (decide (qty = 0)); [by left|]. destruct (decide (id ∈ Spec.ids S)); [by right|]. exfalso. enough (false = true) by done. by apply Hacc. }
  split; [done|]. intros Hrej%Hiff.
  assert (OrderBook.submit b id owner s limit qty rest = Ok (b, rep_reject qty)) as Hno; [|rewrite Hsub in Hno; by injection Hno as <- <-].
  unfold OrderBook.submit. destruct (Z.eqb_spec qty 0); [done|]. destruct Hrej as [|Hin]; [done|].
  destruct Hrepr as (Q & fl & Hinv & -> & _). rewrite (Checks.contains_abs b Q fl Hinv id). unfold Spec.live.
  by rewrite bool_decide_true.
Qed.

(** A market order never rests: whatever it does not fill is gone, and its
    own side of the book is untouched. *)
Theorem market_never_rests n b os id owner s qty b' rep :
  reachable cfg n b → n < two31 → Spec.args_ok id owner None qty → OrderBook.for_each_resting b = Ok os →
  OrderBook.add_market b id owner s qty = Ok (b', rep) →
  rested rep = false ∧ ∃ os', OrderBook.for_each_resting b' = Ok os' ∧ side_orders s os' = side_orders s os ∧
    (id ∉ o_id <$> os → id ∉ o_id <$> os').
Proof.
  intros Hr Hn Hargs Hos Hsub. assert (Hrest : false = true → is_Some (@None Price)) by done.
  destruct (submit_observed cfg Hcfg _ _ _ _ _ _ _ _ _ _ Hr Hn Hargs Hrest Hsub)
    as (S & F & S' & ts & Hrepr & Hwf & _ & _ & E & Hrepr' & _).
  rewrite (repr_resting _ _ _ Hrepr) in Hos. injection Hos as <-.
  rewrite (repr_resting _ _ _ Hrepr').
  pose proof (Spec.match_queue_rested (Spec.policy S) None (MkOrder id owner 0 qty s) ExecReport0
    (Spec.next_seq S) (Spec.side (opposite s) S)) as Hrr.
  destruct (Spec.submit_cases _ _ _ _ _ _ _ _ _ _ E) as [(-> & -> & _)|(_ & _ & Hm)]; [split; [done|]; by exists (orders_of S)|].
  simpl in Hm. remember (Spec.match_queue _ _ _ _ _ _) as m eqn:Em.
  destruct Hm as [_ [(? & _)|(_ & -> & ->)]]; [done|]. split; [done|]. exists (orders_of (Spec.matched S s m)). split; [done|].
  rewrite !side_orders_of, !orders_of_ids. split; [unfold Spec.matched; by destruct s|].
  rewrite !(Spec.ids_sides s), !fmap_app, !elem_of_app. intros Hid Hin. apply Hid.
  destruct (Spec.wf_elim s S Hwf) as (_ & _ & _ & Hok & _).
  assert (Hok' : Spec.orders_ok (Spec.side (opposite s) S)) by (intros r Hr0; apply Hok, elem_of_app; by right).
  pose proof (Spec.leaves_ids _ _ (Spec.match_queue_leaves (Spec.policy S) None (MkOrder id owner 0 qty s) ExecReport0
    (Spec.next_seq S) _ Hok')) as Hsub'. rewrite <-Em in Hsub'.
  destruct Hin as [Hin|Hin]; [left; unfold Spec.matched in Hin; by destruct s|].
  right. eapply elem_of_sublist; [|exact Hsub']. unfold Spec.matched in Hin. by destruct s.
Qed.

(** C12. A cancel takes exactly the order with that id out of the book, reports
    whether it was there, and prints nothing. *)
Theorem cancel_exact n b os id : reachable cfg n b → OrderBook.for_each_resting b = Ok os →
  ∃ b', OrderBook.cancel b id = Ok (b', bool_decide (id ∈ o_id <$> os)) ∧
    OrderBook.for_each_resting b' = Ok (filter (λ o, o_id o ≠ id) os) ∧ printed b b' [].
Proof.
  intros Hr Hos. destruct (reachable_resting cfg Hcfg _ _ _ Hr Hos) as (S & F & Hrepr & _ & _ & _ & ->).
  destruct (Refine.cancel_refines b S F id Hrepr) as (b' & -> & Hrepr'). exists b'.
  rewrite orders_of_ids, remove_orders_of, (repr_resting _ _ _ Hrepr'). split; [done|]. split; [done|].
  destruct (Refine.drain_trades_refines _ _ _ Hrepr) as (b1 & Hd1 & _). destruct (Refine.drain_trades_refines _ _ _ Hrepr') as (b2 & Hd2 & _).
  exists (TradeRing.items F), b1, b2. by rewrite app_nil_r.
Qed.

(** C13. A modify is a cancel followed by a new order of the same owner and side,
    so the order loses its time priority; of quantity zero it is the cancel
    alone, and of an id that does not rest it is refused. *)
Theorem modify_cancels_and_adds n b id price qty : reachable cfg n b → 0 ≤ price < two64 → 0 ≤ qty < two32 →
  ∃ o, OrderBook.find b id = Ok o ∧ match o with
  | None => OrderBook.modify b id price qty = Ok (b, rep_reject qty)
  | Some o => ∃ b', OrderBook.cancel b id = Ok (b', true) ∧
      OrderBook.modify b id price qty =
        if qty =? 0 then Ok (b', ExecReport0)
        else OrderBook.add_limit b' id (o_owner o) (o_side o) price qty
  end.
Proof.
  intros (S & F & Hrepr & _)%(reachable_repr cfg Hcfg) Hp Hq. pose proof Hrepr as (Q & fl & Hinv & -> & Hwf & _).
  exists (Spec.find (BookInv.abs b Q) id). split; [by apply (Checks.find_abs b Q fl)|]. unfold OrderBook.modify.
  rewrite IdIndex.index_find_spec by apply Hinv. simpl.
  destruct (Checks.index_cases b Q fl Hinv id) as [[-> Hid]|(s & i & r & -> & Hn & <- & Hi)].
  { by rewrite Spec.find_dead. }
  destruct (Checks.node_slot b Q fl Hinv s i r Hn) as (x & y & Hs).
  assert (Hr : r ∈ Spec.side s (BookInv.abs b Q)) by (rewrite Checks.abs_side; apply list_elem_of_fmap; by exists (i, r)).
  destruct (Refine.cancel_refines b _ F (r_id r) Hrepr) as (b1 & Hcan & _).
  rewrite (Spec.find_resting _ s r Hwf Hr). exists b1. rewrite (Spec.cancel_live _ s r Hwf Hr) in Hcan. split; [done|].
  rewrite BookInv.slot_of_value, BookInv.side_of_value, (SlotPool.at_ok _ _ _ Hs) by done.
  simpl SlotPool.value. simpl mbind. by rewrite Hcan.
Qed.

End engine.

(** ** A concrete run, for the witnesses *)

#[global] Instance debug_build : Build := {| NDEBUG := false; kAsan := false |}.

Definition demo_config (policy : SelfTradePolicy) : Config := MkConfig policy 8 true 2 4 None.

(** Three asks at two prices, a bid, and the orders that meet them. *)
Definition demo_ops : list Diff.Op :=
  [Diff.MkOp Diff.AddLimit 1 7 Sell 100 5; Diff.MkOp Diff.AddLimit 2 8 Sell 100 4;
   Diff.MkOp Diff.AddLimit 3 9 Sell 101 3; Diff.MkOp Diff.AddLimit 4 7 Buy 90 6].

(** The state after [ops]; the default is not used where the run succeeds. *)
Definition run_state (cfg : Config) (ops : list Diff.Op) : option OrderBook.OrderBook :=
  match (b ← OrderBook.make cfg; Diff.run b ops) with Ok (b, _) => Some b | Err _ => None end.

Lemma config_demo policy : Refine.config_ok (demo_config policy).
Proof. repeat split; simpl; lia. Qed.

Lemma run_reachable {build : Build} cfg n b ops b' reps : reachable cfg n b → n + zlen ops ≤ two31 →
  Forall Diff.op_ok ops → Diff.run b ops = Ok (b', reps) → reachable cfg (n + zlen ops) b'.
Proof.
  intros Hr Hn Hops. revert n b reps Hr Hn. induction Hops as [|op ops Hop Hops IH]; intros n b reps Hr Hn; cbn [Diff.run].
  { intros [= <- _]. change (zlen []) with 0. by rewrite Z.add_0_r. }
  rewrite zlen_cons in *. pose proof (zlen_nonneg ops).
  destruct (Diff.step b op) as [[b1 rep]|] eqn:Hs; [|done]. cbn [mbind res_bind].
  destruct (Diff.settle b1) as [[]|]; [|done]. cbn [mbind res_bind].
  destruct (Diff.run b1 ops) as [[b2 reps']|] eqn:Hrun; [|done]. intros [= <- _].
  replace (n + (zlen ops + 1)) with (n + 1 + zlen ops) by lia. eapply (IH _ b1); [|lia|done].
  apply (reach_step cfg n b op b1 rep); [done|lia|done..].
Qed.

Lemma run_state_reachable cfg ops b : run_state cfg ops = Some b → zlen ops ≤ two31 →
  Forall Diff.op_ok ops → reachable cfg (zlen ops) b.
Proof.
  unfold run_state. destruct (OrderBook.make cfg) as [b0|] eqn:Hm; [|done]. cbn [mbind res_bind].
  destruct (Diff.run b0 ops) as [[b1 reps]|] eqn:Hr; [|done]. intros [= ->] Hn Hops.
  replace (zlen ops) with (0 + zlen ops) by lia. eapply run_reachable; [by apply reach_make|lia|done..].
Qed.

(** A goal about the demo: evaluate the state and discharge the side conditions. *)
Definition demo_state (policy : SelfTradePolicy) : OrderBook.OrderBook :=
  match run_state (demo_config policy) demo_ops with
  | Some b => b
  | None => OrderBook.mk true (SlotPool.make 0) (PriceLadder.make 0) (PriceLadder.make 0)
      (IdIndex.mk [] 0 0 0 0) (TradeRing.mk [] 0 0 0 0) policy 0
  end.

Lemma demo_reachable policy : reachable (demo_config policy) 4 (demo_state policy).
Proof.
  assert (run_state (demo_config policy) demo_ops = Some (demo_state policy)) as Hr.
  { by destruct policy; vm_compute. }
  apply (run_state_reachable _ _ _ Hr); [done|].
  repeat (constructor; [by repeat split|]). constructor.
Qed.

Definition is_ok {A} (r : res A) : bool := match r with Ok _ => true | Err _ => false end.

(** A taker of the demo book: order 9 of [owner] buys [qty] up to [limit]. *)
Definition demo_take (policy : SelfTradePolicy) (owner : ParticipantId) (limit : option Price) (qty : Quantity)
    (rest : bool) : OrderBook.OrderBook * ExecReport :=
  match OrderBook.submit (demo_state policy) 9 owner Buy limit qty rest with
  | Ok x => x
  | Err _ => (demo_state policy, ExecReport0)
  end.

Definition demo_resting (b : OrderBook.OrderBook) : list Order :=
  match OrderBook.for_each_resting b with Ok os => os | Err _ => [] end.

Definition demo_trades (b : OrderBook.OrderBook) : list Trade :=
  match OrderBook.drain_trades b with Ok (ts, _) => ts | Err _ => [] end.

Lemma printed_intro b b' : demo_trades b = [] → is_ok (OrderBook.drain_trades b) = true →
  is_ok (OrderBook.drain_trades b') = true → printed b b' (demo_trades b').
Proof.
  unfold demo_trades, printed. destruct (OrderBook.drain_trades b) as [[ts b0]|]; [|done].
  destruct (OrderBook.drain_trades b') as [[ts' b1]|]; [|done]. intros -> _ _. by exists [], b0, b1.
Qed.

Lemma submit_intro policy owner limit qty rest :
  is_ok (OrderBook.submit (demo_state policy) 9 owner Buy limit qty rest) = true →
  OrderBook.submit (demo_state policy) 9 owner Buy limit qty rest =
    Ok ((demo_take policy owner limit qty rest).1, (demo_take policy owner limit qty rest).2).
Proof. unfold demo_take. by destruct (OrderBook.submit _ _ _ _ _ _ _) as [[? ?]|]. Qed.

Lemma resting_intro b : is_ok (OrderBook.for_each_resting b) = true → OrderBook.for_each_resting b = Ok (demo_resting b).
Proof. unfold demo_resting. by destruct (OrderBook.for_each_resting b). Qed.

(** The side conditions of a property at the demo. *)
Ltac demo := lazymatch goal with
  | |- reachable _ _ _ => apply demo_reachable
  | |- Refine.config_ok _ => apply config_demo
  | |- OrderBook.submit _ _ _ _ _ _ _ = Ok _ => apply submit_intro; vm_compute; reflexivity
  | |- OrderBook.for_each_resting _ = Ok _ => apply resting_intro; vm_compute; reflexivity
  | |- printed _ _ _ => apply printed_intro; vm_compute; reflexivity
  | |- Spec.args_ok _ _ _ _ => by repeat split
  | |- Diff.op_ok _ => by repeat split
  | |- is_Some _ => by eexists
  | |- _ = true → is_Some _ => intros _; by eexists
  | |- _ => vm_compute; reflexivity
  end.

(** ** Witnesses *)

Lemma step_total_witness : ∃ b' rep,
  Diff.step (demo_state Allow) (Diff.MkOp Diff.AddMarket 9 8 Buy 0 11) = Ok (b', rep) ∧
  OrderBook.check_invariants b' = Ok ().
Proof. apply (step_total (demo_config Allow) (config_demo _) 4); demo. Defined.

Lemma never_crossed_witness : OrderBook.best_bid (demo_state Allow) = Some 90 ∧ 90 < 100.
Proof. split; [demo|]. apply (never_crossed (demo_config Allow) (config_demo _) 4 (demo_state Allow)); demo. Defined.

Lemma resting_well_formed_witness : ∃ os, OrderBook.for_each_resting (demo_state Allow) = Ok os ∧ NoDup (o_id <$> os).
Proof.
  destruct (resting_well_formed (demo_config Allow) (config_demo _) 4 (demo_state Allow)) as (os & H & _ & H0 & _); [demo|].
  exact (ex_intro _ os (conj H H0)).
Defined.

Lemma queries_exact_witness : OrderBook.qty_at (demo_state Allow) Sell 100 = Ok 9.
Proof.
  destruct (queries_exact (demo_config Allow) (config_demo _) 4 (demo_state Allow) (demo_resting (demo_state Allow)))
    as (_ & _ & _ & _ & _ & H); [demo..|]. destruct (H Sell 100) as [H1 _]; [lia|]. rewrite H1. vm_compute. reflexivity.
Defined.

Lemma fills_fair_witness :
  ∃ o, o ∈ side_orders Sell (demo_resting (demo_state Allow)) ∧ o_id o = 3 ∧ o_price o = 101 ∧ 0 < 2 ≤ o_qty o.
Proof.
  set (new := demo_trades (demo_take Allow 5 (Some 101) 11 true).1).
  destruct (fills_fair (demo_config Allow) (config_demo _) 4 (demo_state Allow) (demo_take Allow 5 (Some 101) 11 true).1
    9 5 Buy (Some 101) 11 true (demo_take Allow 5 (Some 101) 11 true).2 (demo_resting (demo_state Allow))
    (demo_resting (demo_take Allow 5 (Some 101) 11 true).1) new) with (t := MkTrade 3 3 9 101 2 Buy)
    as (_ & _ & _ & o & Ho & H1 & H2 & H3); [demo..| |].
  - unfold new. vm_compute. do 2 right. left.
  - exact (ex_intro _ o (conj Ho (conj (eq_sym H1) (conj (eq_sym H2) H3)))).
Defined.

Lemma price_time_priority_witness : 2 ∉ o_id <$> demo_resting (demo_take Allow 5 (Some 101) 11 true).1.
Proof.
  apply (price_time_priority (demo_config Allow) (config_demo _) 4 (demo_state Allow) (demo_take Allow 5 (Some 101) 11 true).1
    9 5 Buy (Some 101) 11 true (demo_take Allow 5 (Some 101) 11 true).2 (demo_resting (demo_state Allow))
    (demo_resting (demo_take Allow 5 (Some 101) 11 true).1) (demo_trades (demo_take Allow 5 (Some 101) 11 true).1)
    ltac:(demo) ltac:(demo) ltac:(demo) ltac:(demo) ltac:(demo) ltac:(demo) ltac:(demo)
    (MkTrade 3 3 9 101 2 Buy) [MkOrder 1 7 100 5 Sell; MkOrder 2 8 100 4 Sell] (MkOrder 3 9 101 3 Sell) [] (MkOrder 2 8 100 4 Sell));
    [demo| |demo|demo|right; left].
  vm_compute. do 2 right. left.
Defined.

Lemma no_self_trade_witness : 7 ≠ 8.
Proof.
  apply (no_self_trade (demo_config CancelResting) (config_demo _) 4 (demo_state CancelResting) (demo_take CancelResting 8 (Some 101) 7 true).1
    9 8 Buy (Some 101) 7 true (demo_take CancelResting 8 (Some 101) 7 true).2 (demo_resting (demo_state CancelResting))
    (demo_resting (demo_take CancelResting 8 (Some 101) 7 true).1) (demo_trades (demo_take CancelResting 8 (Some 101) 7 true).1)
    ltac:(demo) ltac:(demo) ltac:(demo) ltac:(demo) ltac:(demo) ltac:(demo) ltac:(demo)
    (MkTrade 1 1 9 100 5 Buy) (MkOrder 1 7 100 5 Sell)); [demo| |done|done| |done]; vm_compute; [left|right; left].
Defined.

Lemma report_adds_up_witness : let '(b', rep) := demo_take CancelResting 8 (Some 101) 7 true in
  filled rep + remaining rep = 7 ∧
  volume (demo_resting b') = volume (demo_resting (demo_state CancelResting)) - filled rep - stp_cancelled rep + 0.
Proof.
  destruct (report_adds_up (demo_config CancelResting) (config_demo _) 4 (demo_state CancelResting) (demo_take CancelResting 8 (Some 101) 7 true).1
    9 8 Buy (Some 101) 7 true (demo_take CancelResting 8 (Some 101) 7 true).2 (demo_resting (demo_state CancelResting))
    (demo_resting (demo_take CancelResting 8 (Some 101) 7 true).1) (demo_trades (demo_take CancelResting 8 (Some 101) 7 true).1)
    ltac:(demo) ltac:(demo) ltac:(demo) ltac:(demo) ltac:(demo) ltac:(demo) ltac:(demo)) as (H1 & _ & _ & _ & H2 & _); [demo|].
  revert H1 H2. vm_compute. intros H1 H2. exact (conj H1 H2).
Defined.

Lemma trades_numbered_witness :
  Spec.numbered 1 (demo_trades (demo_take Allow 5 (Some 101) 11 true).1).
Proof.
  apply (trades_numbered (demo_config Allow) (config_demo _) 4 (demo_state Allow) (demo_take Allow 5 (Some 101) 11 true).1
    9 5 Buy (Some 101) 11 true (demo_take Allow 5 (Some 101) 11 true).2 (demo_resting (demo_state Allow))
    (demo_resting (demo_take Allow 5 (Some 101) 11 true).1) (demo_trades (demo_take Allow 5 (Some 101) 11 true).1));
    [demo..|]. vm_compute. discriminate.
Defined.

Lemma rests_in_priority_witness :
  ∃ price l1 l2, Some 100 = Some price ∧ side_orders Buy (demo_resting (demo_state Allow)) = l1 ++ l2 ∧
    side_orders Buy (demo_resting (demo_take Allow 5 (Some 100) 20 true).1) =
      l1 ++ MkOrder 9 5 price (remaining (demo_take Allow 5 (Some 100) 20 true).2) Buy :: l2.
Proof.
  destruct (rests_in_priority (demo_config Allow) (config_demo _) 4 (demo_state Allow) (demo_take Allow 5 (Some 100) 20 true).1
    9 5 Buy (Some 100) 20 true (demo_take Allow 5 (Some 100) 20 true).2 (demo_resting (demo_state Allow))
    (demo_resting (demo_take Allow 5 (Some 100) 20 true).1)) as [_ H]; [demo..|].
  replace (rested _) with true in H by (vm_compute; reflexivity).
  destruct H as (price & l1 & l2 & H1 & H2 & H3 & _).
  exact (ex_intro _ price (ex_intro _ l1 (ex_intro _ l2 (conj H1 (conj H2 H3))))).
Defined.

Lemma eats_from_the_front_witness :
  side_orders Sell (demo_resting (demo_take Allow 5 (Some 101) 11 true).1) `suffix_of` side_orders Sell (demo_resting (demo_state Allow)) ∨
  ∃ l o q l', side_orders Sell (demo_resting (demo_state Allow)) = l ++ o :: l' ∧
    side_orders Sell (demo_resting (demo_take Allow 5 (Some 101) 11 true).1) = o_with_qty o q :: l' ∧ 0 < q < o_qty o.
Proof.
  apply (eats_from_the_front (demo_config Allow) (config_demo _) 4 (demo_state Allow) (demo_take Allow 5 (Some 101) 11 true).1
    9 5 Buy (Some 101) 11 true (demo_take Allow 5 (Some 101) 11 true).2 (demo_resting (demo_state Allow))
    (demo_resting (demo_take Allow 5 (Some 101) 11 true).1)); demo.
Defined.

Lemma halted_before_own_order_witness :
  ∃ o l, side_orders Sell (demo_resting (demo_take CancelIncoming 8 (Some 101) 7 true).1) = o :: l ∧ o_owner o = 8.
Proof.
  destruct (halted_before_own_order (demo_config CancelIncoming) (config_demo _) 4 (demo_state CancelIncoming)
    (demo_take CancelIncoming 8 (Some 101) 7 true).1 9 8 Buy (Some 101) 7 true (demo_take CancelIncoming 8 (Some 101) 7 true).2
    (demo_resting (demo_state CancelIncoming)) (demo_resting (demo_take CancelIncoming 8 (Some 101) 7 true).1))
    as (_ & _ & _ & _ & o & l & H1 & H2 & _); [demo..|].
  exact (ex_intro _ o (ex_intro _ l (conj H1 H2))).
Defined.

Lemma reject_changes_nothing_witness :
  OrderBook.submit (demo_state Allow) 9 5 Buy (Some 101) 0 true = Ok (demo_state Allow, rep_reject 0).
Proof.
  destruct (reject_changes_nothing (demo_config Allow) (config_demo _) 4 (demo_state Allow) (demo_resting (demo_state Allow))
    9 5 Buy (Some 101) 0 true (demo_take Allow 5 (Some 101) 0 true).1 (demo_take Allow 5 (Some 101) 0 true).2) as [_ H]; [demo..|].
  destruct H as [<- <-]; [demo|]. demo.
Defined.

Lemma market_never_rests_witness : rested (demo_take Allow 5 None 20 false).2 = false.
Proof.
  apply (market_never_rests (demo_config Allow) (config_demo _) 4 (demo_state Allow) (demo_resting (demo_state Allow))
    9 5 Buy 20 (demo_take Allow 5 None 20 false).1); [demo..|].
  unfold OrderBook.add_market. demo.
Defined.

Lemma cancel_exact_witness : ∃ b', OrderBook.cancel (demo_state Allow) 2 = Ok (b', true) ∧
  OrderBook.for_each_resting b' = Ok [MkOrder 4 7 90 6 Buy; MkOrder 1 7 100 5 Sell; MkOrder 3 9 101 3 Sell].
Proof.
  destruct (cancel_exact (demo_config Allow) (config_demo _) 4 (demo_state Allow) (demo_resting (demo_state Allow)) 2)
    as (b' & H1 & H2 & _); [demo..|].
  refine (ex_intro _ b' (conj _ _)); [rewrite H1|rewrite H2]; vm_compute; reflexivity.
Defined.

Lemma modify_cancels_and_adds_witness : ∃ o, OrderBook.find (demo_state Allow) 2 = Ok o.
Proof.
  destruct (modify_cancels_and_adds (demo_config Allow) (config_demo _) 4 (demo_state Allow) 2 100 4) as (o & H & _);
    [demo|lia|lia|]. exact (ex_intro _ o H).
Defined.

(** A note on [levels_opened_outside_window]: it counts every order that goes to
    the fallback map, also one that joins a level already open there. *)
Definition outside_ops : list Diff.Op :=
  [Diff.MkOp Diff.AddLimit 1 7 Sell 100 5; Diff.MkOp Diff.AddLimit 2 8 Sell 100 4].

Lemma outside_opens_count_orders :
  (match run_state (MkConfig Allow 8 true 2 0 None) outside_ops with
   | Some b => Some (OrderBook.levels_opened_outside_window b, length (PriceLadder.overflow (OrderBook.asks b)))
   | None => None
   end) = Some (2, 1%nat).
Proof. vm_compute. reflexivity. Qed.
