(* ===== verification/DiffProps.v ===== *)
(** * What the differential harness establishes, proved

    The tests compare the engine with the reference book on random sequences;
    here both are shown equal to the abstract book on every sequence, so no
    sequence diverges. *)

From stdpp Require Import base decidable list.
From S2P Require Import Prelude.
From S2P Require Import Types.
From S2P Require Import Ring.
From S2P Require Import Spec.
From S2P Require Import Book.
From S2P Require Import Inv.
From S2P Require Import Refine.
From S2P Require Import RefBook.
From S2P Require Import Diff.
Import Diff.

(** ** Runs of the abstract book *)

Lemma spec_step_seq S op : 0 ≤ Spec.next_seq S < two64 → let '(S', _, ts) := spec_step S op in
  Spec.numbered (Spec.next_seq S) ts ∧ Spec.next_seq S' = u64 (Spec.next_seq S + zlen ts).
Proof.
  intros Hs. unfold spec_step.
  assert (Hsub : ∀ S id owner s limit qty rest, 0 ≤ Spec.next_seq S < two64 →
    let '(S', _, ts) := Spec.submit S id owner s limit qty rest in
    Spec.numbered (Spec.next_seq S) ts ∧ Spec.next_seq S' = u64 (Spec.next_seq S + zlen ts)).
  { intros S0 id owner s limit qty rest Hs0. destruct (Spec.submit _ _ _ _ _ _ _) as [[? ?] ?] eqn:E. by eapply Spec.submit_seq. }
  assert (Hnil : Spec.numbered (Spec.next_seq S) [] ∧ Spec.next_seq S = u64 (Spec.next_seq S + zlen (@nil Trade))).
  { split; [done|]. change (zlen []) with 0. by rewrite Z.add_0_r, u64_small. }
  destruct (op_kind op); [by apply Hsub..|done|].
  unfold Spec.modify. destruct (Spec.find S (op_id op)) as [o|]; [|done]. destruct (op_qty op =? 0); [done|].
  by apply (Hsub (Spec.cancel S (op_id op)).1).
Qed.

Lemma spec_run_seq S ops : 0 ≤ Spec.next_seq S < two64 → Spec.numbered (Spec.next_seq S) (spec_run S ops).2.
Proof.
  revert S. induction ops as [|op ops IH]; intros S Hs; cbn [spec_run]; [done|].
  pose proof (spec_step_seq S op Hs) as Hstep. destruct (spec_step S op) as [[S1 rep] ts]. destruct Hstep as [Hn Hn1].
  specialize (IH S1). destruct (spec_run S1 ops) as [[S2 reps] ts']. simpl in *.
  apply Spec.numbered_app; [done..|]. rewrite <-Hn1. apply IH. rewrite Hn1. apply u64_range.
Qed.

Lemma spec_run_reports S ops : length (spec_run S ops).1.2 = length ops.
Proof.
  revert S. induction ops as [|op ops IH]; intros S; cbn [spec_run]; [done|].
  destruct (spec_step S op) as [[S1 rep] ts]. specialize (IH S1). destruct (spec_run S1 ops) as [[S2 reps] ts']. simpl in *. by f_equal.
Qed.

(** ** The properties *)

(** C1. Functional correctness of the engine: any sequence of operations, on any
    configuration and in any build, returns the reports of the abstract book,
    leaves its orders resting in its order, and prints its trades, up to the
    capacity of the ring. *)
Theorem engine_run_refines {build : Build} cfg ops : Refine.config_ok cfg → Forall op_ok ops → zlen ops ≤ two31 →
  run_engine ops cfg =
    Ok (cut_trades (Refine.ring_capacity cfg) (spec_observed (Spec.empty (self_trade cfg)) ops)) ∧
  trade_capacity cfg ≤ Refine.ring_capacity cfg.
Proof.
  intros Hcfg Hops Hlen. split; [by apply run_engine_spec|].
  by destruct (Refine.make_refines cfg Hcfg) as (_ & _ & _ & ? & _).
Qed.

(** C2. The engine and the reference book agree: on no sequence that the ring can
    hold does the harness report a divergence. *)
Theorem engine_never_diverges {build : Build} cfg ops : Refine.config_ok cfg → Forall op_ok ops → zlen ops ≤ two31 →
  zlen ops ≤ trade_capacity cfg → diverges ops cfg = Ok false.
Proof. apply agree. Qed.

(** C23. The reference book is correct too: it runs every sequence exactly as the
    abstract book does. *)
Theorem reference_run_refines ops policy : Forall op_ok ops → zlen ops ≤ two31 →
  run_reference ops policy = Ok (spec_observed (Spec.empty policy) ops).
Proof. apply run_reference_spec. Qed.

(** C17. The price window, the pools and the build never show: two configurations
    that agree on the policy and the ring observe the same runs. *)
Theorem window_never_shows (build1 build2 : Build) cfg1 cfg2 ops : Refine.config_ok cfg1 → Refine.config_ok cfg2 →
  self_trade cfg1 = self_trade cfg2 → trade_capacity cfg1 = trade_capacity cfg2 →
  Forall op_ok ops → zlen ops ≤ two31 →
  run_engine (build := build1) ops cfg1 = run_engine (build := build2) ops cfg2.
Proof.
  intros H1 H2 Hs Ht Hops Hlen. rewrite !run_engine_spec by done. unfold Refine.ring_capacity. by rewrite Hs, Ht.
Qed.

(** A run prints at most one trade per operation, numbered 1, 2, 3 and so on
    without a gap, and returns one report per operation. *)
Theorem run_trades_numbered {build : Build} cfg ops o : Refine.config_ok cfg → Forall op_ok ops → zlen ops ≤ two31 →
  run_engine ops cfg = Ok o →
  Spec.numbered 1 (trades o) ∧ zlen (trades o) ≤ zlen ops ∧ length (reports o) = length ops.
Proof.
  intros Hcfg Hops Hlen. rewrite run_engine_spec by done. intros [= <-]. simpl.
  pose proof (spec_observed_trades (self_trade cfg) ops) as Ht. split_and!.
  - apply Spec.numbered_take. unfold spec_observed. pose proof (spec_run_seq (Spec.empty (self_trade cfg)) ops) as Hn.
    destruct (spec_run _ ops) as [[S' reps] ts]. by apply Hn.
  - unfold zlen in *. rewrite length_take. lia.
  - unfold spec_observed. pose proof (spec_run_reports (Spec.empty (self_trade cfg)) ops) as Hr.
    by destruct (spec_run _ ops) as [[S' reps] ts].
Qed.

(** ** Witnesses *)

(** A small sequence: a resting ask, a crossing bid that rests, a modify, a
    market order and a cancel. *)
Definition small_config (levels : Z) : Config := MkConfig CancelResting 8 true 2 levels None.

Definition small_ops : list Op :=
  [MkOp AddLimit 1 7 Sell 100 5; MkOp AddLimit 2 8 Buy 101 9; MkOp Modify 2 0 Buy 99 3;
   MkOp AddMarket 3 9 Sell 0 1; MkOp Cancel 2 0 Buy 0 0].

Lemma small_ops_ok : Forall op_ok small_ops.
Proof. repeat (constructor; [by repeat split|]). constructor. Qed.

Lemma small_config_ok levels : 0 ≤ levels < two64 → Refine.config_ok (small_config levels).
Proof. intros. repeat split; simpl; lia. Qed.

Definition release_build : Build := {| NDEBUG := true; kAsan := true |}.

Lemma engine_run_refines_witness :
  run_engine (build := release_build) small_ops (small_config 4) =
    Ok (cut_trades 8 (spec_observed (Spec.empty CancelResting) small_ops)).
Proof.
  destruct (engine_run_refines (build := release_build) (small_config 4) small_ops) as [H _];
    [by apply small_config_ok|apply small_ops_ok|done|]. exact H.
Defined.

Lemma engine_never_diverges_witness : diverges (build := release_build) small_ops (small_config 4) = Ok false.
Proof. apply (engine_never_diverges (small_config 4) small_ops); [by apply small_config_ok|apply small_ops_ok|done|done]. Defined.

Lemma reference_run_refines_witness :
  run_reference small_ops CancelResting = Ok (spec_observed (Spec.empty CancelResting) small_ops).
Proof. apply (reference_run_refines small_ops CancelResting); [apply small_ops_ok|done]. Defined.

Lemma window_never_shows_witness :
  run_engine (build := release_build) small_ops (small_config 0) = run_engine (build := release_build) small_ops (small_config 4).
Proof.
  apply (window_never_shows release_build release_build (small_config 0) (small_config 4) small_ops);
    [by apply small_config_ok|by apply small_config_ok|done|done|apply small_ops_ok|done].
Defined.

Lemma run_trades_numbered_witness : ∃ o, run_engine (build := release_build) small_ops (small_config 4) = Ok o ∧
  Spec.numbered 1 (trades o) ∧ zlen (trades o) ≤ 5.
Proof.
  assert (Hlen : zlen small_ops ≤ two31) by done. assert (Hl : 0 ≤ 4 < two64) by done.
  pose proof (λ o, run_trades_numbered (build := release_build) (small_config 4) small_ops o (small_config_ok 4 Hl) small_ops_ok Hlen) as H.
  destruct (run_engine (build := release_build) small_ops (small_config 4)) as [o|] eqn:E.
  - destruct (H o eq_refl) as (H1 & H2 & _). exact (ex_intro _ o (conj eq_refl (conj H1 H2))).
  - exfalso. revert E. vm_compute. discriminate.
Defined.
