(* ===== verification/ComponentProps.v ===== *)
(** * What the components promise

    Each data structure under the book, against its plain counterpart: the trade
    ring is a bounded queue, the id index a finite map, the ladder a sorted map of
    levels, the slot pool an allocator, a level's queue a list. Where the
    component has an interface of several calls, the property is about every
    sequence of them. *)

From stdpp Require Import base decidable list gmap fin_maps.
From S2P Require Import Prelude.
From S2P Require Import Types.
From S2P Require Import Ring.
From S2P Require Import Pool.
From S2P Require Import Index.
From S2P Require Import SortedMap.
From S2P Require Import Ladder.
From S2P Require Import Queue.
From S2P Require Import Spec.
From S2P Require Import Book.
From S2P Require Import Inv.
From S2P Require Import Refine.

(** Running a list of calls, collecting what they return. *)
Fixpoint calls {S C O} (step : S → C → res (S * O)) (s : S) (cs : list C) : res (S * list O) :=
  match cs with
  | [] => Ok (s, [])
  | c :: cs =>
      '(s, o) ← step s c;
      '(s, os) ← calls step s cs;
      Ok (s, o :: os)
  end.

(** A step that a total step on an abstract state simulates, does so on every
    sequence of calls whose preconditions hold. *)
Fixpoint spec_calls {A C O} (step : A → C → A * O) (a : A) (cs : list C) : A * list O :=
  match cs with
  | [] => (a, [])
  | c :: cs => let '(a, o) := step a c in let '(a, os) := spec_calls step a cs in (a, o :: os)
  end.

Fixpoint allowed {A C O} (step : A → C → A * O) (pre : A → C → Prop) (a : A) (cs : list C) : Prop :=
  match cs with
  | [] => True
  | c :: cs => pre a c ∧ allowed step pre (step a c).1 cs
  end.

Lemma calls_simulate {S A C O} (R : S → A → Prop) (step : S → C → res (S * O)) (astep : A → C → A * O)
    (pre : A → C → Prop) s a cs :
  (∀ s a c, R s a → pre a c → ∃ s', step s c = Ok (s', (astep a c).2) ∧ R s' (astep a c).1) →
  R s a → allowed astep pre a cs →
  ∃ s', calls step s cs = Ok (s', (spec_calls astep a cs).2) ∧ R s' (spec_calls astep a cs).1.
Proof.
  intros Hstep. revert s a. induction cs as [|c cs IH]; intros s a HR; simpl; [by exists s|].
  intros [Hpre Hall]. destruct (Hstep s a c HR Hpre) as (s1 & -> & HR1). cbn [mbind res_bind].
  destruct (astep a c) as [a1 o]. simpl in *. destruct (IH s1 a1 HR1 Hall) as (s2 & -> & HR2). cbn [mbind res_bind].
  exists s2. by destruct (spec_calls astep a1 cs).
Qed.

(** ** The trade ring *)

Inductive ring_call := Push (t : Trade) | Pop | Dropped.

(** What a call returns: whether it succeeded, the trade popped, the count. *)
Inductive ring_result := Pushed (ok : bool) | Popped (t : option Trade) | Count (n : Z).

Definition ring_step (r : TradeRing.TradeRing) (c : ring_call) : res (TradeRing.TradeRing * ring_result) :=
  match c with
  | Push t => '(ok, r) ← TradeRing.push r t; Ok (r, Pushed ok)
  | Pop => '(o, r) ← TradeRing.pop r; Ok (r, Popped o)
  | Dropped => Ok (r, Count (TradeRing.dropped r))
  end.

Definition fifo_step (q : TradeRing.Fifo) (c : ring_call) : TradeRing.Fifo * ring_result :=
  match c with
  | Push t => (TradeRing.fifo_push q t, Pushed (negb (zlen (TradeRing.items q) =? TradeRing.bound q)))
  | Pop => (TradeRing.MkFifo (tail (TradeRing.items q)) (TradeRing.bound q) (TradeRing.lost q), Popped (head (TradeRing.items q)))
  | Dropped => (q, Count (TradeRing.lost q))
  end.

(** C22. The trade ring is a bounded queue: for every sequence of pushes and pops
    it returns what a list of at most its capacity would, a push into a full
    ring is refused and counted, and the cursors may wrap. *)
Theorem ring_is_bounded_fifo cap cs : 0 ≤ cap ≤ two63 → ∃ r r',
  TradeRing.make cap = Ok r ∧ cap ≤ TradeRing.capacity r ∧
  calls ring_step r cs = Ok (r', (spec_calls fifo_step (TradeRing.MkFifo [] (TradeRing.capacity r) 0) cs).2).
Proof.
  intros Hcap. destruct (TradeRing.ring_make_wf cap Hcap) as (r & Hr & Hwf & Hc & Hd & Hle & _).
  assert (Habs : TradeRing.abs r = TradeRing.MkFifo [] (TradeRing.capacity r) 0) by (unfold TradeRing.abs; by rewrite Hc, Hd).
  destruct (calls_simulate (λ r q, TradeRing.wf r ∧ TradeRing.abs r = q) ring_step fifo_step (λ _ _, True)
    r (TradeRing.abs r) cs) as (r' & Hcalls & _).
  - clear. intros r q c [Hwf <-] _. pose proof (TradeRing.contents_spec r Hwf) as [Hlen _]. destruct c as [t| |]; simpl.
    + destruct (TradeRing.push_refines r t Hwf) as (r' & -> & ? & ?). exists r'. split; [|done]. simpl.
      by rewrite Hlen.
    + destruct (TradeRing.contents r) as [|t l] eqn:Hc.
      * rewrite TradeRing.pop_empty by done. exists r. split; [done|]. split; [done|]. simpl. unfold TradeRing.abs. by rewrite Hc.
      * destruct (TradeRing.pop_cons r t l Hwf Hc) as (r' & -> & ? & ?). by exists r'.
    + by exists r.
  - done.
  - clear. generalize (TradeRing.abs r). induction cs as [|c cs IH]; intros q; [done|]. split; [done|]. apply IH.
  - exists r, r'. by rewrite <-Habs.
Qed.

(** [round_up_pow2] returns the least power of two at or above its argument,
    for every argument that has one in 64 bits. *)
Theorem round_up_pow2_least n : n ≤ two63 → ∃ k, 0 ≤ k ≤ 63 ∧ TradeRing.round_up_pow2 n = Ok (2 ^ k) ∧
  n ≤ 2 ^ k ∧ ∀ j, 0 ≤ j → n ≤ 2 ^ j → 2 ^ k ≤ 2 ^ j.
Proof.
  intros Hn. destruct (TradeRing.round_up_pow2_spec n Hn) as (k & Hk & Hr & Hle & Hlow). exists k. split_and!; [lia|lia|done..|].
  intros j Hj Hnj. apply Z.pow_le_mono_r; [lia|]. destruct (Z.le_gt_cases k j); [done|].
  assert (2 ^ j ≤ 2 ^ (k - 1)) by (apply Z.pow_le_mono_r; lia). lia.
Qed.

(** Above 2^63 the loop of [round_up_pow2] never ends: however long it runs,
    its variable has wrapped to zero and stays below the argument. *)
Theorem round_up_pow2_diverges n (fuel : nat) : two63 < n → TradeRing.round_up_loop fuel 1 n = Err out_of_fuel.
Proof. intros Hn. by apply (TradeRing.round_up_loop_diverges fuel 0). Qed.

(** ** The ladder *)

Inductive ladder_call := SetLevel (p : Price) (l : PriceLevel) | ClearLevel (p : Price).

(** How the book uses a ladder: open a level and write it, or empty a level it
    finds and close it. *)
Definition ladder_step (IsBid : bool) (L : PriceLadder.PriceLadder) (c : ladder_call) :
    res (PriceLadder.PriceLadder * unit) :=
  match c with
  | SetLevel p l =>
      '(r, L) ← PriceLadder.open IsBid L p;
      L ← PriceLadder.assign IsBid L r l;
      Ok (L, ())
  | ClearLevel p =>
      o ← PriceLadder.find L p;
      match o with
      | None => Ok (L, ())
      | Some r =>
          L ← PriceLadder.assign IsBid L r empty_level;
          L ← PriceLadder.closed IsBid L p;
          Ok (L, ())
      end
  end.

Definition levels_step (IsBid : bool) (m : list (Price * PriceLevel)) (c : ladder_call) :
    list (Price * PriceLevel) * unit :=
  match c with
  | SetLevel p l => (StdMap.put IsBid m p l, ())
  | ClearLevel p => (StdMap.erase m p, ())
  end.

Definition ladder_pre (c : ladder_call) : Prop :=
  match c with
  | SetLevel p l => 0 ≤ p < two64 ∧ level_empty l = false
  | ClearLevel p => 0 ≤ p < two64
  end.

(** C20. The ladder is a map from prices to levels sorted best price first,
    wherever its window lies: after any sequence of calls its best level, its
    lookups and its iteration are those of the plain sorted map, and its own
    debug check passes. *)
Theorem ladder_is_sorted_map IsBid n base cs : 0 ≤ n < two64 → 0 ≤ base < two64 → Forall ladder_pre cs →
  let m := (spec_calls (levels_step IsBid) [] cs).1 in ∃ L os,
  calls (ladder_step IsBid) (PriceLadder.place (PriceLadder.make n) base) cs = Ok (L, os) ∧
  PriceLadder.for_each_level IsBid L = Ok m ∧ StdMap.sorted IsBid m ∧
  PriceLadder.best_price IsBid L = fst <$> head m ∧ PriceLadder.check IsBid L = Ok () ∧
  ∀ p, 0 ≤ p < two64 →
    (o ← PriceLadder.find L p;
     match o with None => Ok None | Some r => l ← PriceLadder.deref L r; Ok (Some l) end) = Ok (StdMap.find m p).
Proof.
  intros Hn Hb Hcs m. destruct (PriceLadder.ladder_make_wf IsBid n Hn) as [Hwf0 _].
  assert (Hw : PriceLadder.window (PriceLadder.make n) = vmake (zlen (PriceLadder.window (PriceLadder.make n))) empty_level)
    by (simpl; by rewrite zlen_vmake by lia).
  destruct (PriceLadder.ladder_place_spec IsBid _ base Hwf0 Hb Hw eq_refl) as (Hwf & Hlv & _ & _ & _).
  destruct (calls_simulate (λ L m, PriceLadder.wf IsBid L ∧ PriceLadder.levels IsBid L = m) (ladder_step IsBid)
    (levels_step IsBid) (λ _ c, ladder_pre c) (PriceLadder.place (PriceLadder.make n) base) [] cs) as (L & Hcalls & HwfL & HlvL).
  - clear. intros L m c [Hwf <-] Hc. pose proof (PriceLadder.wf_shape _ _ Hwf) as Hsh. destruct c as [p l|p]; simpl in *.
    + destruct Hc as [Hp Hl]. destruct (PriceLadder.ladder_open_spec IsBid L p Hwf Hp) as (L1 & -> & _ & Ha). cbn [mbind res_bind].
      destruct (Ha l Hl) as (L2 & -> & ? & _ & ?). by exists L2.
    + rewrite (PriceLadder.ladder_find_spec IsBid) by done. cbn [mbind res_bind].
      destruct (StdMap.find (PriceLadder.levels IsBid L) p) as [l0|] eqn:Hf.
      * rewrite PriceLadder.assign_upd; [|done..|by eapply PriceLadder.levels_present]. cbn [mbind res_bind].
        destruct (PriceLadder.closed_upd IsBid L p l0 Hwf Hc Hf) as (L' & -> & ? & _ & ?). by exists L'.
      * exists L. split; [done|]. split; [done|]. by rewrite StdMap.erase_absent.
  - done.
  - clear -Hcs. revert Hcs. generalize (@nil (Price * PriceLevel)). induction cs as [|c cs IH]; intros m Hcs; [done|].
    apply Forall_cons in Hcs as [? ?]. split; [done|]. by apply IH.
  - fold m in HlvL. exists L, (spec_calls (levels_step IsBid) [] cs).2. pose proof (PriceLadder.wf_shape _ _ HwfL) as Hsh.
    split; [done|]. rewrite PriceLadder.for_each_level_spec, HlvL by done. split; [done|].
    split; [rewrite <-HlvL; by apply PriceLadder.levels_sorted|].
    split; [unfold PriceLadder.best_price; rewrite PriceLadder.ladder_best_spec, HlvL by done; by destruct m as [|[? ?] ?]|].
    split; [by apply PriceLadder.ladder_check_spec|].
    intros p Hp. rewrite (PriceLadder.ladder_find_spec IsBid), HlvL by done. cbn [mbind res_bind].
    destruct (StdMap.find m p) as [l|] eqn:Hf; [|done].
    rewrite (PriceLadder.ladder_deref_spec IsBid _ Hsh p l) by (try done; by rewrite HlvL). done.
Qed.

(** ** The id index *)

Inductive index_call := Insert (id : OrderId) (v : Z) | Take (id : OrderId) | Erase (id : OrderId)
  | Find (id : OrderId) | Contains (id : OrderId) | Size.

Inductive index_result := Done | Value (v : option Z) | Flag (b : bool) | Number (n : Z).

Definition index_step (t : IdIndex.IdIndex Z) (c : index_call) : res (IdIndex.IdIndex Z * index_result) :=
  match c with
  | Insert id v => t ← IdIndex.insert 0 t id v; Ok (t, Done)
  | Take id => '(o, t) ← IdIndex.take t id; Ok (t, Value o)
  | Erase id => '(b, t) ← IdIndex.erase t id; Ok (t, Flag b)
  | Find id => o ← IdIndex.find t id; Ok (t, Value o)
  | Contains id => b ← IdIndex.contains t id; Ok (t, Flag b)
  | Size => Ok (t, Number (IdIndex.size t))
  end.

Definition map_step (m : gmap Z Z) (c : index_call) : gmap Z Z * index_result :=
  match c with
  | Insert id v => (<[id := v]> m, Done)
  | Take id => (delete id m, Value (m !! id))
  | Erase id => (delete id m, Flag (bool_decide (is_Some (m !! id))))
  | Find id => (m, Value (m !! id))
  | Contains id => (m, Flag (bool_decide (is_Some (m !! id))))
  | Size => (m, Number (Z.of_nat (size m)))
  end.

(** An id is inserted only while absent, and fewer than 2^32 are held. *)
Definition index_pre (m : gmap Z Z) (c : index_call) : Prop :=
  match c with Insert id _ => m !! id = None ∧ Z.of_nat (size m) < two32 | _ => True end.

Lemma index_size (t : IdIndex.IdIndex Z) : IdIndex.wf t → IdIndex.count t = Z.of_nat (size (IdIndex.contents t)).
Proof.
  intros Hwf. rewrite (IdIndex.wf_count _ Hwf). unfold zlen, IdIndex.contents. f_equal.
  pose proof (IdIndex.wf_ids _ Hwf) as Hnd. revert Hnd. generalize (IdIndex.pairs (IdIndex.table t)). intros l.
  induction l as [|[k x] l IH]; intros Hnd; [done|]. rewrite fmap_cons in Hnd. apply NoDup_cons in Hnd as [Hk Hnd]. simpl.
  rewrite map_size_insert_None, <-IH; [done..|]. by apply not_elem_of_list_to_map_1.
Qed.

(** C21. The id index is a finite map: for every sequence of calls it returns what
    the map would, through every collision, growth and backward shift, and its
    own consistency check holds at the end. *)
Theorem index_is_finite_map expected cs : expected ≤ 2 ^ 62 → allowed map_step index_pre ∅ cs → ∃ t t',
  IdIndex.make 0 expected = Ok t ∧ calls index_step t cs = Ok (t', (spec_calls map_step ∅ cs).2) ∧
  IdIndex.consistent t' = Ok true.
Proof.
  intros He Hpre. destruct (IdIndex.index_make_spec 0 expected He) as (t & Ht & Hwf & Hc & _).
  destruct (calls_simulate (λ t m, IdIndex.wf t ∧ IdIndex.contents t = m) index_step map_step index_pre t ∅ cs)
    as (t' & Hcalls & Hwf' & _); [|done|done|exists t, t'; split_and!; [done..|by apply IdIndex.index_consistent_wf]].
  clear. intros t m c [Hwf <-] Hpre. destruct c as [id v|id|id|id|id|]; simpl in *.
  - destruct Hpre as [Hn Hs]. rewrite <-index_size in Hs by done.
    destruct (IdIndex.insert_spec 0 t id v Hwf Hn Hs) as (t' & -> & ? & ? & _). by exists t'.
  - destruct (IdIndex.take_spec t id Hwf) as (t' & -> & ? & ? & _). by exists t'.
  - destruct (IdIndex.erase_spec t id Hwf) as (t' & -> & ? & ? & _). by exists t'.
  - rewrite IdIndex.index_find_spec by done. by exists t.
  - rewrite IdIndex.contains_spec by done. by exists t.
  - exists t. split; [|done]. unfold IdIndex.size. by rewrite index_size.
Qed.

(** The check [consistent] of the id index always answers, and answers yes
    exactly when every entry can be found from its home and the count is right. *)
Theorem index_consistent_exact (t : IdIndex.IdIndex Z) : IdIndex.shape t → ∃ b,
  IdIndex.consistent t = Ok b ∧
  (b = true ↔ IdIndex.reachable t (IdIndex.table t) ∧ IdIndex.count t = zlen (IdIndex.pairs (IdIndex.table t))).
Proof. apply IdIndex.index_consistent_spec. Qed.

(** ** The slot pool *)

Section slot_pool.
Context {build : Build}.
Abbreviation slot_pool := (SlotPool.SlotPool RestingOrder).

(** [acquire] hands out a slot that was not live, makes it live and unlinked,
    and neither moves nor changes any live slot, also when the pool grows. *)
Theorem acquire_is_fresh (p : slot_pool) fl : SlotPool.wf p fl → 0 < SlotPool.capacity p →
  (fl = [] → SlotPool.used p < kNoSlot) → ∃ i p' v,
  SlotPool.acquire p = Ok (i, p') ∧ SlotPool.wf p' (tail fl) ∧
  ¬ SlotPool.is_live p fl i ∧ i ≠ kNoSlot ∧ SlotPool.at_ p' i = Ok (SlotPool.MkSlot v kNoSlot kNoSlot) ∧
  (∀ j, SlotPool.is_live p' (tail fl) j ↔ j = i ∨ SlotPool.is_live p fl j) ∧
  (∀ j s, SlotPool.is_live p fl j → SlotPool.at_ p j = Ok s → SlotPool.at_ p' j = Ok s) ∧
  SlotPool.size p' = SlotPool.size p + 1.
Proof.
  intros Hwf Hcap Hroom. destruct (SlotPool.pool_acquire_spec p fl Hwf Hcap Hroom) as (p' & v & Ha & Hwf' & Hu & Hl & _ & Hs & Hfr).
  set (i := SlotPool.next_slot p fl) in *. pose proof (SlotPool.wf_used _ _ Hwf). pose proof (SlotPool.wf_index _ _ Hwf).
  assert (Hni : ¬ SlotPool.is_live p fl i).
  { unfold i, SlotPool.next_slot. intros [Hr Hnin]. destruct fl as [|x fl]; [lia|]. apply Hnin. left. }
  assert (Hiff : ∀ j, SlotPool.is_live p' (tail fl) j ↔ j = i ∨ SlotPool.is_live p fl j).
  { intros j. unfold SlotPool.is_live. rewrite Hu. unfold SlotPool.used_after, i, SlotPool.next_slot. pose proof (SlotPool.wf_nodup _ _ Hwf) as Hnd.
    destruct fl as [|x fl]; simpl.
    - pose proof (not_elem_of_nil j). split; [|intros [->|?]; split; [lia|done|lia|done]]. intros [? ?]. destruct (decide (j = SlotPool.used p)); [by left|right; split; [lia|done]].
    - apply NoDup_cons in Hnd as [Hx _]. pose proof (SlotPool.wf_range _ _ Hwf x ltac:(left)). rewrite elem_of_cons. split.
      + intros [? ?]. destruct (decide (j = x)); [by left|right; tauto].
      + intros [->|[? ?]]; tauto. }
  exists i, p', v. split_and!; try done; [|by apply SlotPool.at_ok|].
  - unfold i, SlotPool.next_slot. destruct fl as [|x fl]; [specialize (Hroom eq_refl); lia|].
    apply (SlotPool.wf_free_ne p (x :: fl)); [done|left].
  - intros j s Hj Hat. unfold SlotPool.at_, vget in *. destruct ((SlotPool.slots p).[j]) as [x|] eqn:Hx; [|done].
    injection Hat as ->. rewrite (Hfr j s); [done| |done]. intros ->. done.
Qed.

(** [release] frees exactly its slot, and the next [acquire] hands out that
    same slot. *)
Theorem release_then_acquire (p : slot_pool) fl i : SlotPool.wf p fl → SlotPool.is_live p fl i → 0 < SlotPool.capacity p →
  ∃ p1 p2, SlotPool.release p i = Ok p1 ∧ SlotPool.size p1 = SlotPool.size p - 1 ∧
  (∀ j, SlotPool.is_live p1 (i :: fl) j ↔ j ≠ i ∧ SlotPool.is_live p fl j) ∧
  (∀ j, j ≠ i → SlotPool.at_ p1 j = SlotPool.at_ p j) ∧
  SlotPool.acquire p1 = Ok (i, p2) ∧ SlotPool.wf p2 fl ∧ SlotPool.size p2 = SlotPool.size p.
Proof.
  intros Hwf Hi Hcap. destruct (SlotPool.pool_release_spec p fl i Hwf Hi) as (p1 & s & Hr & Hwf1 & Hu & Hl & Hs).
  assert (Hcap1 : 0 < zlen (SlotPool.slots p1)) by (rewrite Hs, zlen_zset; done).
  destruct (SlotPool.pool_acquire_spec p1 (i :: fl) Hwf1 Hcap1) as (p2 & v & Ha & Hwf2 & _ & Hl2 & _); [done|].
  exists p1, p2. unfold SlotPool.size. split_and!; try done; [| |simpl in *; lia].
  - intros j. unfold SlotPool.is_live. rewrite Hu, elem_of_cons. tauto.
  - intros j Hj. unfold SlotPool.at_, vget. rewrite Hs, zlookup_zset. destruct (decide _) as [[? _]|]; [congruence|done].
Qed.

(** The check [consistent] of the slot pool always answers, and answers yes
    exactly when the free list is a chain of distinct used slots that, with the
    live ones, accounts for every slot handed out. *)
Theorem pool_consistent_exact (p : slot_pool) : SlotPool.used p ≤ SlotPool.capacity p → 0 ≤ SlotPool.used p ≤ kNoSlot →
  0 ≤ SlotPool.live p < two32 → 0 ≤ SlotPool.free_head p →
  (∀ x s, SlotPool.at_ p x = Ok s → 0 ≤ SlotPool.next s) → ∃ b,
  SlotPool.consistent p = Ok b ∧ (b = true ↔ ∃ fl, SlotPool.wf p fl).
Proof.
  intros Hu Hu0 Hl Hf Hn0. unfold SlotPool.capacity in Hu.
  assert (Hn : ∀ x s, (SlotPool.slots p).[x] = Some s → 0 ≤ SlotPool.next s).
  { intros x s Hx. apply (Hn0 x). by apply SlotPool.at_ok. }
  destruct (SlotPool.consistent_loop_total (S (S (Z.to_nat (SlotPool.used p)))) p (SlotPool.free_head p) 0)
    as [b Hb]; [done|lia|lia|lia|done|done|].
  exists b. split; [done|]. split; [intros ->|].
  - destruct (SlotPool.consistent_loop_sound _ p _ 0 Hf Hn ltac:(lia) ltac:(lia) Hl Hb) as (fl & Hc & Hr & Hlen).
    exists fl. split; try done; [lia|lia|by eapply SlotPool.chain_nodup|lia].
  - intros [fl Hwf]. apply SlotPool.pool_consistent_wf in Hwf. unfold SlotPool.consistent in Hwf. congruence.
Qed.

End slot_pool.

(** ** A level's queue *)

Section level_queue.
Context {build : Build}.
Abbreviation slot_pool := (SlotPool.SlotPool RestingOrder).

(** [append] puts an order at the back of its level's queue: walking the level
    then visits the orders it had and the new one last, its total grows by the
    order's quantity, and no slot outside the queue changes. *)
Theorem append_at_the_back (p : slot_pool) price l q i s fuel : Queue.level_repr (SlotPool.slots p) price l q →
  SlotPool.at_ p i = Ok s → i ≠ kNoSlot → NoDup (i :: q.*1) → r_price (SlotPool.value s) = price →
  (S (length q) < fuel)%nat → ∃ p' l',
  Queue.append p l i = Ok (p', l') ∧
  Queue.walk fuel p (level_head l) = Ok q ∧ Queue.walk fuel p' (level_head l') = Ok (q ++ [(i, SlotPool.value s)]) ∧
  total_qty l' = u64 (total_qty l + r_qty (SlotPool.value s)) ∧ level_empty l' = false ∧
  (∀ j, j ∉ i :: q.*1 → SlotPool.at_ p' j = SlotPool.at_ p j).
Proof.
  intros Hl Hat Hi Hnd Hpr Hf. assert (Hs : (SlotPool.slots p).[i] = Some s).
  { unfold SlotPool.at_, vget in Hat. destruct ((SlotPool.slots p).[i]); [by injection Hat as ->|done]. }
  destruct (Queue.append_spec p price l q i s (SlotPool.value s) Hl Hs eq_refl Hi Hnd Hpr) as (p' & l' & Ha & Hl' & _ & Hfr).
  exists p', l'. split; [done|]. split.
  { eapply Queue.walk_dseg; [apply Hl|lia]. }
  split. { eapply Queue.walk_dseg; [apply Hl'|]. rewrite length_app. simpl. lia. }
  split.
  { rewrite (Queue.lr_total _ _ _ _ Hl'), (Queue.lr_total _ _ _ _ Hl), u64_add_l. f_equal.
    clear. unfold Queue.volume. induction q as [|n q IH]; simpl in *; lia. }
  split.
  { destruct (level_empty l') eqn:He; [|done]. apply (Queue.level_repr_empty_iff _ _ _ _ Hl') in He. by destruct q. }
  intros j Hj. unfold SlotPool.at_, vget. by rewrite Hfr.
Qed.

(** [detach] takes an order out of the middle of its level's queue and gives
    its slot back to the pool: walking the level visits the others in their
    order, and the freed slot is the next to be handed out. *)
Theorem detach_keeps_the_order (p : slot_pool) price l q1 i r q2 fl fuel :
  Queue.level_repr (SlotPool.slots p) price l (q1 ++ (i, r) :: q2) → NoDup (q1 ++ (i, r) :: q2).*1 →
  SlotPool.wf p fl → (∀ j, j ∈ fl → j ∉ (q1 ++ (i, r) :: q2).*1) → SlotPool.is_live p fl i →
  (length (q1 ++ q2) < fuel)%nat → ∃ p' l',
  Queue.detach p l i = Ok (p', l') ∧ Queue.walk fuel p' (level_head l') = Ok (q1 ++ q2) ∧
  (level_empty l' = true ↔ q1 ++ q2 = []) ∧ SlotPool.wf p' (i :: fl) ∧
  (∀ j, j ∉ (q1 ++ (i, r) :: q2).*1 → SlotPool.at_ p' j = SlotPool.at_ p j).
Proof.
  intros Hl Hnd Hwf Hfl Hi Hf.
  destruct (Queue.detach_spec p price l q1 i r q2 fl Hl Hnd Hwf Hfl Hi) as (p' & l' & Hd & Hl' & Hwf' & _ & _ & _ & Hfr).
  exists p', l'. split; [done|]. split; [by eapply Queue.walk_dseg; [apply Hl'|]|].
  split; [by eapply Queue.level_repr_empty_iff|]. split; [done|].
  intros j Hj. unfold SlotPool.at_, vget. by rewrite Hfr.
Qed.

(** ** Small computations of the book *)

(** An index entry packs a slot and a side into 32 bits without loss, for
    every slot the book lets an order have. *)
Theorem index_value_roundtrip slot side : 0 ≤ slot < two31 →
  0 ≤ OrderBook.index_value slot side < two32 ∧
  OrderBook.slot_of (OrderBook.index_value slot side) = slot ∧
  OrderBook.side_of (OrderBook.index_value slot side) = side.
Proof.
  intros Hs. split; [rewrite BookInv.index_value_eq by done; destruct side; lia|].
  split; [by apply BookInv.slot_of_value|by apply BookInv.side_of_value].
Qed.

(** The window the first order places holds its price, lies inside the range
    of prices, and keeps the whole of its width: it is moved in from either end
    of the range rather than cut. *)
Theorem centred_window_holds_price price levels : 0 ≤ price < two64 → 0 < levels < two64 →
  let base := OrderBook.centred_base price levels in
  0 ≤ base ∧ base ≤ price < base + levels ∧ base + levels ≤ two64 ∧
  (levels / 2 ≤ price → price - levels / 2 + levels ≤ two64 → base = price - levels / 2).
Proof.
  intros Hp Hl. unfold OrderBook.centred_base. destruct (Z.eqb_spec levels 0); [lia|].
  rewrite (u64_small (levels - 1)), (u64_small (kMaxPrice - (levels - 1))) by bounds. cbv zeta.
  assert (0 ≤ levels / 2 < levels) by (Z.div_mod_to_equations; lia).
  destruct (Z.leb_spec (levels / 2) price); [rewrite u64_small by lia|]; unfold kMaxPrice; split_and!; lia.
Qed.

End level_queue.

(** ** Witnesses *)

Lemma ring_is_bounded_fifo_witness : ∃ r r', TradeRing.make 1 = Ok r ∧
  calls ring_step r [Push (MkTrade 1 1 2 100 5 Buy); Push (MkTrade 2 1 2 100 5 Buy); Pop; Dropped] =
    Ok (r', [Pushed true; Pushed false; Popped (Some (MkTrade 1 1 2 100 5 Buy)); Count 1]).
Proof.
  destruct (ring_is_bounded_fifo 1 [Push (MkTrade 1 1 2 100 5 Buy); Push (MkTrade 2 1 2 100 5 Buy); Pop; Dropped])
    as (r & r' & H1 & _ & H2); [lia|]. exists r, r'. split; [done|]. rewrite H2.
  vm_compute in H1. injection H1 as <-. vm_compute. reflexivity.
Defined.

Lemma round_up_pow2_least_witness : ∃ k, TradeRing.round_up_pow2 5 = Ok (2 ^ k) ∧ 5 ≤ 2 ^ k.
Proof. destruct (round_up_pow2_least 5) as (k & _ & H1 & H2 & _); [lia|]. exact (ex_intro _ k (conj H1 H2)). Defined.

Lemma round_up_pow2_diverges_witness : TradeRing.round_up_loop 100 1 (two63 + 1) = Err out_of_fuel.
Proof. apply (round_up_pow2_diverges (two63 + 1) 100). lia. Defined.

(** Levels inside and on both sides of a window of two. *)
Definition demo_ladder_calls : list ladder_call :=
  [SetLevel 100 (MkPriceLevel 5 0 0); SetLevel 101 (MkPriceLevel 6 1 1); SetLevel 90 (MkPriceLevel 7 2 2);
   SetLevel 200 (MkPriceLevel 8 3 3); ClearLevel 101; ClearLevel 150].

Lemma ladder_is_sorted_map_witness : ∃ L os,
  calls (ladder_step true) (PriceLadder.place (PriceLadder.make 2) 100) demo_ladder_calls = Ok (L, os) ∧
  PriceLadder.for_each_level true L =
    Ok [(200, MkPriceLevel 8 3 3); (100, MkPriceLevel 5 0 0); (90, MkPriceLevel 7 2 2)].
Proof.
  destruct (ladder_is_sorted_map true 2 100 demo_ladder_calls) as (L & os & H1 & H2 & _); [lia|lia| |].
  { repeat (constructor; [by repeat split|]). constructor. }
  exists L, os. split; [exact H1|exact H2].
Defined.

Lemma index_is_finite_map_witness : ∃ t t', IdIndex.make 0 1 = Ok t ∧
  calls index_step t [Insert 5 10; Insert 21 20; Take 5; Find 21; Contains 5; Size] =
    Ok (t', [Done; Done; Value (Some 10); Value (Some 20); Flag false; Number 1]).
Proof.
  destruct (index_is_finite_map 1 [Insert 5 10; Insert 21 20; Take 5; Find 21; Contains 5; Size]) as (t & t' & H1 & H2 & _);
    [lia|by repeat split|]. exists t, t'. split; [exact H1|]. rewrite H2. vm_compute. reflexivity.
Defined.

Lemma index_consistent_exact_witness : ∃ b,
  IdIndex.consistent (IdIndex.mk (vmake 16 (IdIndex.MkEntry 0 0 false)) 15 4 0 0) = Ok b.
Proof.
  destruct (index_consistent_exact (IdIndex.mk (vmake 16 (IdIndex.MkEntry 0 0 false)) 15 4 0 0)) as (b & H & _).
  - by split.
  - exact (ex_intro _ b H).
Defined.

(** Two orders at one price in a pool of three slots. *)
Definition demo_build : Build := {| NDEBUG := false; kAsan := false |}.
Definition demo_first : RestingOrder := MkRestingOrder 1 100 5 7.
Definition demo_second : RestingOrder := MkRestingOrder 2 100 4 8.

Definition demo_pool : SlotPool.SlotPool RestingOrder :=
  SlotPool.mk [SlotPool.MkSlot demo_first kNoSlot 1; SlotPool.MkSlot demo_second 0 kNoSlot; SlotPool.fresh_slot] 2 2 kNoSlot 0.

Lemma demo_pool_wf : SlotPool.wf demo_pool [].
Proof.
  split; try done; [by apply NoDup_nil_2|]. intros i Hi. by apply elem_of_nil in Hi.
Qed.

Lemma demo_live i : 0 ≤ i < 2 → SlotPool.is_live demo_pool [] i.
Proof. intros. split; [done|]. apply not_elem_of_nil. Qed.

Lemma demo_level : Queue.level_repr (SlotPool.slots demo_pool) 100 (MkPriceLevel 9 0 1) [(0, demo_first); (1, demo_second)].
Proof.
  split; [|done|].
  - simpl. split_and!; [done|done|]. exists 1. split; [done|]. split_and!; [done|done|]. by exists kNoSlot.
  - intros n [->|[->|H%elem_of_nil]%elem_of_cons]%elem_of_cons; done.
Qed.

Lemma acquire_is_fresh_witness : ∃ i p', SlotPool.acquire demo_pool = Ok (i, p') ∧ ¬ SlotPool.is_live demo_pool [] i.
Proof.
  destruct (acquire_is_fresh demo_pool [] demo_pool_wf) as (i & p' & v & H1 & _ & H2 & _); [done|done|].
  exact (ex_intro _ i (ex_intro _ p' (conj H1 H2))).
Defined.

Lemma release_then_acquire_witness : ∃ p1 p2, SlotPool.release (build := demo_build) demo_pool 0 = Ok p1 ∧ SlotPool.acquire p1 = Ok (0, p2).
Proof.
  destruct (release_then_acquire (build := demo_build) demo_pool [] 0 demo_pool_wf) as (p1 & p2 & H1 & _ & _ & _ & H2 & _);
    [by apply demo_live|done|]. exact (ex_intro _ p1 (ex_intro _ p2 (conj H1 H2))).
Defined.

Lemma pool_consistent_exact_witness : ∃ b, SlotPool.consistent demo_pool = Ok b ∧ (b = true ↔ ∃ fl, SlotPool.wf demo_pool fl).
Proof.
  apply (pool_consistent_exact demo_pool); [done|done|done|done|].
  intros x s. unfold SlotPool.at_, vget. destruct ((SlotPool.slots demo_pool).[x]) as [y|] eqn:E; [|done]. intros [= <-].
  apply zlookup_Some in E as [_ E%list_elem_of_lookup_2].
  apply elem_of_cons in E as [->|[->|[->|E%elem_of_nil]%elem_of_cons]%elem_of_cons]; done.
Defined.

(** A third order, in a slot of its own and not yet queued. *)
Definition demo_pool3 : SlotPool.SlotPool RestingOrder :=
  SlotPool.mk [SlotPool.MkSlot demo_first kNoSlot 1; SlotPool.MkSlot demo_second 0 kNoSlot;
    SlotPool.MkSlot (MkRestingOrder 3 100 6 9) kNoSlot kNoSlot] 3 3 kNoSlot 0.

Lemma demo_level3 : Queue.level_repr (SlotPool.slots demo_pool3) 100 (MkPriceLevel 9 0 1) [(0, demo_first); (1, demo_second)].
Proof. eapply Queue.level_repr_frame, demo_level. intros j [->|[->|H%elem_of_nil]%elem_of_cons]%elem_of_cons; done. Qed.

Lemma append_at_the_back_witness : ∃ p' l',
  Queue.append demo_pool3 (MkPriceLevel 9 0 1) 2 = Ok (p', l') ∧ level_empty l' = false.
Proof.
  destruct (append_at_the_back demo_pool3 100 (MkPriceLevel 9 0 1) _ 2 (SlotPool.MkSlot (MkRestingOrder 3 100 6 9) kNoSlot kNoSlot) 4 demo_level3)
    as (p' & l' & H1 & _ & _ & _ & H2 & _); [done|done|by apply (bool_decide_unpack _)|done|simpl; lia|].
  exact (ex_intro _ p' (ex_intro _ l' (conj H1 H2))).
Defined.

Lemma detach_keeps_the_order_witness : ∃ p' l',
  Queue.detach (build := demo_build) demo_pool (MkPriceLevel 9 0 1) 0 = Ok (p', l') ∧
  Queue.walk 3 p' (level_head l') = Ok [(1, demo_second)].
Proof.
  destruct (detach_keeps_the_order (build := demo_build) demo_pool 100 (MkPriceLevel 9 0 1) [] 0 demo_first [(1, demo_second)] [] 3 demo_level)
    as (p' & l' & H1 & H2 & _); [by apply (bool_decide_unpack _)|apply demo_pool_wf|by intros j Hj%elem_of_nil|by apply demo_live|simpl; lia|].
  exact (ex_intro _ p' (ex_intro _ l' (conj H1 H2))).
Defined.

Lemma index_value_roundtrip_witness : OrderBook.slot_of (OrderBook.index_value 5 Sell) = 5.
Proof. apply (index_value_roundtrip 5 Sell). lia. Defined.

Lemma centred_window_holds_price_witness : 0 ≤ OrderBook.centred_base 3 1024.
Proof. apply (centred_window_holds_price 3 1024); lia. Defined.
