(* ===== verification/Shrink.v ===== *)
(** * Shrinking a failing sequence (shrink, tests/diff_harness.cpp)

    Greedy delta debugging: chunks of a failing sequence are dropped while the
    rest still fails. The predicate [fails] stands for [diverges(candidate, cfg)];
    the theorems hold for every predicate. *)

From stdpp Require Import base decidable list.
From S2P Require Import Prelude.
From S2P Require Import Types.
From S2P Require Import Diff.

Module Shrink.

Section shrink.
Context {A : Type} (fails : list A → bool).

(** The candidate without the [chunk] operations from [i] on. *)
Definition without (failing : list A) (i chunk : nat) : list A :=
  take i failing ++ drop (i + chunk) failing.

(** [!candidate.empty() && diverges(candidate, cfg)]. *)
Definition keep (candidate : list A) : bool :=
  match candidate with [] => false | _ => fails candidate end.

(** The loop over [i] for one chunk size: each round either drops a chunk or
    moves on. *)
Fixpoint try_chunks (fuel : nat) (failing : list A) (chunk i : nat) (progress : bool) : res (list A * bool) :=
  match fuel with
  | O => Err out_of_fuel
  | S fuel =>
      if (i + chunk <=? length failing)%nat then
        if keep (without failing i chunk) then try_chunks fuel (without failing i chunk) chunk i true
        else try_chunks fuel failing chunk (S i) progress
      else Ok (failing, progress)
  end.

(** The loop over chunk sizes: [chunk /= 2] down to 1. *)
Fixpoint try_sizes (fuel : nat) (failing : list A) (chunk : nat) (progress : bool) : res (list A * bool) :=
  match fuel with
  | O => Err out_of_fuel
  | S fuel =>
      if (1 <=? chunk)%nat then
        '(failing, progress) ← try_chunks (S (S (length failing))) failing chunk 0 progress;
        if (chunk =? 1)%nat then Ok (failing, progress)
        else try_sizes fuel failing (chunk / 2) progress
      else Ok (failing, progress)
  end.

(** [while (progress && failing.size() > 1)]. *)
Fixpoint shrink_loop (fuel : nat) (failing : list A) (progress : bool) : res (list A) :=
  match fuel with
  | O => Err out_of_fuel
  | S fuel =>
      if progress && (1 <? length failing)%nat then
        '(failing, progress) ← try_sizes (S (length failing)) failing (length failing / 2) false;
        shrink_loop fuel failing progress
      else Ok failing
  end.

Definition shrink (failing : list A) : res (list A) :=
  shrink_loop (S (S (length failing))) failing true.

(** ** One chunk *)

Lemma without_sublist l i chunk : without l i chunk `sublist_of` l.
Proof.
  unfold without. rewrite <-(take_drop i l) at 3. apply sublist_app; [done|].
  rewrite <-drop_drop. apply sublist_drop.
Qed.

Lemma without_length l i chunk : (i + chunk ≤ length l)%nat → length (without l i chunk) = (length l - chunk)%nat.
Proof. intros H. unfold without. rewrite length_app, length_take, length_drop. lia. Qed.

(** What a pass keeps: a nonempty failing subsequence, no longer than before,
    and strictly shorter if it reports progress. *)
Definition smaller (l l' : list A) : Prop := l' `sublist_of` l ∧ fails l' = true ∧ l' ≠ [].

Lemma smaller_refl l : fails l = true → l ≠ [] → smaller l l.
Proof. done. Qed.

Lemma smaller_trans l1 l2 l3 : smaller l1 l2 → smaller l2 l3 → smaller l1 l3.
Proof. intros (? & _) (? & ? & ?). split_and!; [by etrans|done..]. Qed.

Lemma keep_smaller l i chunk : keep (without l i chunk) = true → smaller l (without l i chunk).
Proof.
  unfold keep. intros Hk. split; [apply without_sublist|]. by destruct (without l i chunk).
Qed.

(** No chunk of this size can be dropped from position [i] on. *)
Definition stuck (l : list A) (chunk i : nat) : Prop :=
  ∀ j, (i ≤ j)%nat → (j + chunk ≤ length l)%nat → keep (without l j chunk) = false.

Lemma try_chunks_spec (fuel : nat) l chunk i progress : (1 ≤ chunk)%nat → (length l + 1 - i < fuel)%nat →
  ∃ l' p', try_chunks fuel l chunk i progress = Ok (l', p') ∧
  ((l' = l ∧ p' = progress ∧ stuck l chunk i) ∨ (p' = true ∧ smaller l l' ∧ (length l' < length l)%nat)).
Proof.
  intros Hc. revert l i progress. induction fuel as [|fuel IH]; intros l i progress Hf; [lia|]. simpl.
  destruct (Nat.leb_spec (i + chunk) (length l)) as [Hle|Hgt].
  - destruct (keep (without l i chunk)) eqn:Hk.
    + pose proof (without_length l i chunk Hle) as Hlen. pose proof (keep_smaller _ _ _ Hk) as Hs.
      destruct (IH (without l i chunk) i true) as (l' & p' & -> & Hcase); [lia|]. exists l', p'. split; [done|]. right.
      destruct Hcase as [(-> & -> & _)|(-> & Hs' & Hl')]; (split; [done|]); split; try done; try lia.
      by eapply smaller_trans.
    + destruct (IH l (S i) progress) as (l' & p' & -> & Hcase); [lia|]. exists l', p'. split; [done|].
      destruct Hcase as [(-> & -> & Hst)|?]; [left|by right]. split_and!; [done..|].
      intros j Hj Hjl. destruct (decide (j = i)) as [->|]; [done|]. apply Hst; lia.
  - exists l, progress. split; [done|]. left. split_and!; [done..|]. intros j ? ?. lia.
Qed.

Lemma try_sizes_spec (fuel : nat) l chunk progress : (1 ≤ chunk < fuel)%nat →
  ∃ l' p', try_sizes fuel l chunk progress = Ok (l', p') ∧
  ((l' = l ∧ p' = progress ∧ stuck l 1 0) ∨ (p' = true ∧ smaller l l' ∧ (length l' < length l)%nat)).
Proof.
  revert l chunk progress. induction fuel as [|fuel IH]; intros l chunk progress Hf; [lia|]. cbn [try_sizes].
  destruct (Nat.leb_spec 1 chunk); [|lia].
  destruct (try_chunks_spec (S (S (length l))) l chunk 0 progress) as (l1 & p1 & -> & H1); [lia|lia|]. cbn [mbind res_bind].
  destruct (Nat.eqb_spec chunk 1) as [->|Hne]; [exists l1, p1; done|].
  assert (1 ≤ chunk / 2 < chunk)%nat.
  { split; [apply Nat.div_le_lower_bound; lia|apply Nat.div_lt; lia]. }
  destruct (IH l1 (chunk / 2)%nat p1) as (l2 & p2 & -> & H2); [lia|]. exists l2, p2. split; [done|].
  destruct H1 as [(-> & -> & _)|(-> & Hs1 & Hl1)]; [done|]. right.
  destruct H2 as [(-> & -> & _)|(-> & Hs2 & Hl2)]; (split; [done|]); split; try done; [by eapply smaller_trans|lia].
Qed.

Lemma shrink_loop_spec (fuel : nat) l (progress : bool) : (length l + Nat.b2n progress < fuel)%nat →
  fails l = true → l ≠ [] → (progress = false → stuck l 1 0) →
  ∃ l', shrink_loop fuel l progress = Ok l' ∧ smaller l l' ∧ ((1 < length l')%nat → stuck l' 1 0).
Proof.
  revert l progress. induction fuel as [|fuel IH]; intros l progress Hf Hl Hne Hst; [lia|]. cbn [shrink_loop].
  destruct progress; cbn [andb Nat.b2n] in *.
  2:{ exists l. split; [done|]. split; [done|]. intros _. by apply Hst. }
  destruct (Nat.ltb_spec 1 (length l)) as [Hlen|Hlen].
  2:{ exists l. split_and!; [done..|lia]. }
  assert (1 ≤ length l / 2 < length l)%nat.
  { split; [apply Nat.div_le_lower_bound; lia|apply Nat.div_lt; lia]. }
  destruct (try_sizes_spec (S (length l)) l (length l / 2) false) as (l1 & p1 & -> & H1); [lia|]. cbn [mbind res_bind].
  destruct H1 as [(-> & -> & Hs)|(-> & Hs1 & Hl1)].
  - apply IH; [cbn [Nat.b2n]; lia|done..].
  - destruct Hs1 as (Hsub & Hf1 & Hn1). destruct (IH l1 true) as (l2 & -> & Hs2 & Hst2); [cbn [Nat.b2n]; lia|done..|].
    exists l2. split_and!; try done. by eapply smaller_trans.
Qed.

(** C37. Shrinking ends, and what it returns is a nonempty subsequence that still
    fails and is minimal: dropping any single operation of it makes it pass. *)
Theorem shrink_minimal failing : fails failing = true → failing ≠ [] → ∃ l,
  shrink failing = Ok l ∧ l `sublist_of` failing ∧ fails l = true ∧ l ≠ [] ∧
  ∀ a x b, l = a ++ x :: b → a ++ b ≠ [] → fails (a ++ b) = false.
Proof.
  intros Hf Hne. destruct (shrink_loop_spec (S (S (length failing))) failing true) as (l & Hl & (Hsub & Hfl & Hnl) & Hst);
    [cbn [Nat.b2n]; lia|done..|]. exists l. split_and!; [done..|]. intros a x b -> Hab.
  assert (Hw : without (a ++ x :: b) (length a) 1 = a ++ b).
  { unfold without. rewrite take_app_length, <-drop_drop, drop_app_length. done. }
  assert (Hlen : (1 < length (a ++ x :: b))%nat).
  { rewrite length_app. simpl. destruct a, b; simpl in *; [done|lia..]. }
  specialize (Hst Hlen (length a)). rewrite Hw in Hst. unfold keep in Hst.
  destruct (a ++ b) eqn:E; [done|]. apply Hst; [lia|]. rewrite length_app. simpl. lia.
Qed.

End shrink.

(** Sequences that fail when they hold both a 3 and a 7. *)
Definition demo_fails (l : list Z) : bool := bool_decide (3 ∈ l ∧ 7 ∈ l).

Lemma shrink_minimal_witness : ∃ l, shrink demo_fails [1; 3; 4; 7; 9] = Ok l ∧ demo_fails l = true.
Proof.
  destruct (shrink_minimal demo_fails [1; 3; 4; 7; 9]) as (l & H1 & _ & H2 & _); [vm_compute; reflexivity|discriminate|].
  exact (ex_intro _ l (conj H1 H2)).
Defined.

End Shrink.
