(* ===== verification/Rng.v ===== *)
(** * The pseudo-random generator (class Rng, tests/diff_harness.hpp and bench/flow.cpp)

    xorshift64*. Both files define the same class; [below] differs in the width
    of its argument only. *)

From stdpp Require Import base decidable list.
From S2P Require Import Prelude.

Module Rng.

Record Rng := mk { state : Z }.

Definition make (seed : Z) : Rng := mk (if seed =? 0 then 11400714819323198485 else seed).

(** The three assignments of [next], then its product. *)
Definition shift_right (x k : Z) : Z := Z.lxor x (Z.shiftr x k).
Definition shift_left (x k : Z) : Z := Z.lxor x (u64 (Z.shiftl x k)).

Definition advance (x : Z) : Z := shift_right (shift_left (shift_right x 12) 25) 27.

Definition next (r : Rng) : Z * Rng :=
  let x := advance (state r) in (u64 (x * 2685821657736338717), mk x).

(** [below(n)]: uniform in [0, n); no draw for [n = 0]. *)
Definition below (r : Rng) (n : Z) : Z * Rng :=
  if n =? 0 then (0, r) else let '(v, r) := next r in (v mod n, r).

Definition chance (r : Rng) (percent : Z) : bool * Rng :=
  let '(v, r) := below r 100 in (v <? percent, r).

Definition chance_per_mille (r : Rng) (per_mille : Z) : bool * Rng :=
  let '(v, r) := below r 1000 in (v <? per_mille, r).

(** [geometric]: consecutive successes, at most [cap]. *)
Fixpoint geometric_loop (fuel : nat) (r : Rng) (percent n : Z) : Z * Rng :=
  match fuel with
  | O => (n, r)
  | S fuel =>
      let '(hit, r) := chance r percent in
      if (hit : bool) then geometric_loop fuel r percent (u32 (n + 1)) else (n, r)
  end.

Definition geometric (r : Rng) (percent cap : Z) : Z * Rng := geometric_loop (Z.to_nat cap) r percent 0.

(** ** Ranges *)

Lemma below_range r n : 0 ≤ n → 0 ≤ (below r n).1 ∧ (0 < n → (below r n).1 < n) ∧ (n = 0 → (below r n).1 = 0).
Proof.
  intros Hn. unfold below. destruct (Z.eqb_spec n 0) as [->|Hne]; [simpl; lia|].
  destruct (next r) as [v r']. simpl. pose proof (Z.mod_pos_bound v n ltac:(lia)). lia.
Qed.

Lemma geometric_range r percent cap : 0 ≤ cap < two32 → 0 ≤ (geometric r percent cap).1 ≤ cap.
Proof.
  intros Hc. unfold geometric. enough (∀ (fuel : nat) r n, 0 ≤ n → n + Z.of_nat fuel ≤ cap →
    n ≤ (geometric_loop fuel r percent n).1 ≤ n + Z.of_nat fuel) as H.
  { specialize (H (Z.to_nat cap) r 0 ltac:(lia) ltac:(lia)). lia. }
  clear r. induction fuel as [|fuel IH]; intros r n Hn Hle; cbn [geometric_loop]; [simpl; lia|].
  destruct (chance r percent) as [hit r']. destruct hit; cbn [fst]; [|lia].
  rewrite u32_small by lia. specialize (IH r' (n + 1) ltac:(lia) ltac:(lia)). lia.
Qed.

(** ** The state never sticks at zero *)

Lemma lxor_range x y : 0 ≤ x < two64 → 0 ≤ y < two64 → 0 ≤ Z.lxor x y < two64.
Proof.
  intros Hx Hy. change two64 with (2 ^ 64) in *.
  assert (0 ≤ Z.lxor x y) by (apply Z.lxor_nonneg; lia). split; [done|].
  destruct (decide (Z.lxor x y = 0)) as [->|]; [done|]. apply Z.log2_lt_pow2; [lia|].
  pose proof (Z.log2_lxor x y ltac:(lia) ltac:(lia)).
  assert (∀ z, 0 ≤ z < 2 ^ 64 → Z.log2 z < 64) as Hlog.
  { intros z Hz. destruct (decide (z = 0)) as [->|]; [done|]. apply Z.log2_lt_pow2; lia. }
  pose proof (Hlog x Hx). pose proof (Hlog y Hy). lia.
Qed.

Lemma shift_right_ok x k : 0 < x < two64 → 0 < k → 0 < shift_right x k < two64.
Proof.
  intros Hx Hk. unfold shift_right.
  assert (Hs : 0 ≤ Z.shiftr x k < x).
  { rewrite Z.shiftr_div_pow2 by lia. assert (1 < 2 ^ k) by (apply Z.pow_gt_1; lia).
    split; [apply Z.div_pos; lia|apply Z.div_lt; lia]. }
  pose proof (lxor_range x (Z.shiftr x k)) as Hr. specialize (Hr ltac:(lia) ltac:(lia)).
  enough (Z.lxor x (Z.shiftr x k) ≠ 0) by lia. intros E%Z.lxor_eq. lia.
Qed.

Lemma shift_left_ok x k : 0 < x < two64 → 0 < k → 0 < shift_left x k < two64.
Proof.
  intros Hx Hk. unfold shift_left. pose proof (u64_range (Z.shiftl x k)) as Hu.
  pose proof (lxor_range x _ ltac:(lia) Hu) as Hr.
  enough (Z.lxor x (u64 (Z.shiftl x k)) ≠ 0) by lia. intros E%Z.lxor_eq.
  enough (x = 0) by lia. apply Z.bits_inj'. intros i Hi. rewrite Z.bits_0.
  (* every bit of [x] repeats the bit [k] places lower *)
  revert i Hi. refine (λ i Hi, Z_lt_induction (λ i, Z.testbit x i = false) _ i Hi).
  clear i Hi. intros i IH.
  destruct (Z.lt_ge_cases i 0); [by apply Z.testbit_neg_r|]. destruct (Z.lt_ge_cases i 64) as [Hlt|Hge].
  - rewrite E. unfold u64. change two64 with (2 ^ 64). rewrite Z.mod_pow2_bits_low by lia. rewrite Z.shiftl_spec by lia.
    destruct (Z.lt_ge_cases i k); [apply Z.testbit_neg_r; lia|apply IH; lia].
  - apply Z.bits_above_log2; [lia|]. assert (Z.log2 x < 64) by (apply Z.log2_lt_pow2; [lia|]; change (2 ^ 64) with two64; lia). lia.
Qed.

Lemma advance_ok x : 0 < x < two64 → 0 < advance x < two64.
Proof. intros Hx. unfold advance. apply shift_right_ok; [|lia]. apply shift_left_ok; [|lia]. by apply shift_right_ok; [|lia]. Qed.

End Rng.
