(* ===== verification/Fuzz.v ===== *)
(** * The sequence generator of the tests (class Generator, tests/diff_harness.hpp)

    Random operation sequences for the differential tests. Every operation it
    makes has its fields in range and it never indexes outside the list of
    issued ids, so the theorems about runs apply to every seed. *)

From stdpp Require Import base decidable list.
From S2P Require Import Prelude.
From S2P Require Import Types.
From S2P Require Import Refine.
From S2P Require Import Diff.
From S2P Require Import Rng.

Module Fuzz.

Record GenConfig := MkGenConfig {
  mid : Price;
  half_band : Price;
  max_qty : Quantity;
  owners : ParticipantId;
  anonymous_percent : Z;
  recent_window : Z;
  length_ : Z;
}.

(** [GenConfig{}]. *)
Definition default_gen : GenConfig := MkGenConfig 1000 3 6 3 25 6 40.

Record Generator := mk {
  rng : Rng.Rng;
  next_id : OrderId;
  issued : list OrderId;
}.

Definition make (seed : Z) : Generator := mk (Rng.make seed) 1 [].

Section generator.
Context (cfg : GenConfig).

(** A draw from the generator's stream. *)
Definition draw (g : Generator) (n : Z) : Z * Generator :=
  let '(v, r) := Rng.below (rng g) n in (v, mk r (next_id g) (issued g)).

Definition flip (g : Generator) (percent : Z) : bool * Generator :=
  let '(v, g) := draw g 100 in (v <? percent, g).

(** The index into [issued]: one of the newest [window], or any. *)
Definition pick_index (g : Generator) : Z * Generator :=
  let window := Z.min (recent_window cfg) (u32 (zlen (issued g))) in
  let '(recent, g) := flip g 75 in
  if (recent : bool)
  then let '(v, g) := draw g window in (u64 (zlen (issued g) - 1 - v), g)
  else draw g (u32 (zlen (issued g))).

Definition pick_known (g : Generator) : res (OrderId * Generator) :=
  if bool_decide (issued g = []) then Ok (1, g)
  else
    let '(idx, g) := pick_index g in
    id ← vget (issued g) idx;
    Ok (id, g).

Definition pick_price (g : Generator) : Price * Generator :=
  let span := u64 (half_band cfg * 2 + 1) in
  let '(v, g) := draw g (u32 span) in (u64 (u64 (mid cfg - half_band cfg) + v), g).

Definition pick_owner (g : Generator) : ParticipantId * Generator :=
  let '(anonymous, g) := flip g (anonymous_percent cfg) in
  if (anonymous : bool) then (kAnonymous, g)
  else let '(v, g) := draw g (owners cfg) in (u32 (1 + v), g).

Definition kind_of (roll : Z) : Diff.Kind :=
  if roll <? 55 then Diff.AddLimit
  else if roll <? 68 then Diff.AddMarket
  else if roll <? 86 then Diff.Cancel
  else Diff.Modify.

Definition make_op (g : Generator) : res (Diff.Op * Generator) :=
  let '(roll, g) := draw g 100 in
  let kind := kind_of roll in
  let '(owner, g) := pick_owner g in
  let '(buy, g) := flip g 50 in
  let side := if (buy : bool) then Buy else Sell in
  let '(price, g) := pick_price g in
  let '(q, g) := draw g (max_qty cfg) in
  let qty := u32 (1 + q) in
  '(id, g) ← match kind with
    | Diff.AddLimit | Diff.AddMarket =>
        let id := next_id g in
        let g := mk (rng g) (u64 (next_id g + 1)) (issued g ++ [id]) in
        let '(reuse, g) := flip g 4 in
        if (reuse : bool) then pick_known g else Ok (id, g)
    | Diff.Cancel | Diff.Modify =>
        '(id, g) ← pick_known g;
        let '(unknown, g) := flip g 5 in
        Ok (if (unknown : bool) then u64 (next_id g + 1000) else id, g)
    end;
  Ok (Diff.MkOp kind id owner side price qty, g).

(** [generate()]: [cfg.length] operations. *)
Fixpoint generate_loop (n : nat) (g : Generator) : res (list Diff.Op) :=
  match n with
  | O => Ok []
  | S n =>
      '(op, g) ← make_op g;
      ops ← generate_loop n g;
      Ok (op :: ops)
  end.

Definition generate (seed : Z) : res (list Diff.Op) := generate_loop (Z.to_nat (length_ cfg)) (make seed).

(** ** What the draws preserve *)

Record config_ok : Prop := {
  ok_mid : 0 ≤ mid cfg < two64;
  ok_band : 0 ≤ half_band cfg < two64;
  ok_qty : 0 ≤ max_qty cfg < two32;
  ok_owners : 0 ≤ owners cfg < two32;
  ok_window : 0 ≤ recent_window cfg < two32;
}.

(** The ids issued so far, and the next one, fit their type. *)
Definition gen_ok (g : Generator) : Prop :=
  0 ≤ next_id g < two64 ∧ (∀ id, id ∈ issued g → 0 ≤ id < two64) ∧ zlen (issued g) < two64.

Lemma draw_spec g n v g' : 0 ≤ n → draw g n = (v, g') →
  next_id g' = next_id g ∧ issued g' = issued g ∧ 0 ≤ v ∧ (0 < n → v < n) ∧ (n = 0 → v = 0).
Proof.
  intros Hn. unfold draw. pose proof (Rng.below_range (rng g) n Hn) as Hr.
  destruct (Rng.below (rng g) n) as [x r]. intros [= <- <-]. simpl in *. tauto.
Qed.

Lemma flip_spec g percent b g' : flip g percent = (b, g') → next_id g' = next_id g ∧ issued g' = issued g.
Proof.
  unfold flip. destruct (draw g 100) as [v g1] eqn:E. apply draw_spec in E as (? & ? & _); [|lia]. by intros [= _ <-].
Qed.

Context (Hcfg : config_ok).

Lemma pick_index_spec g : issued g ≠ [] → zlen (issued g) < two64 →
  let '(idx, g') := pick_index g in 0 ≤ idx < zlen (issued g) ∧ next_id g' = next_id g ∧ issued g' = issued g.
Proof.
  intros He Hlen. unfold pick_index.
  assert (Hpos : 0 < zlen (issued g)) by (destruct (issued g); [done|unfold zlen; simpl; lia]).
  pose proof (u32_range (zlen (issued g))) as Hu.
  assert (Hule : u32 (zlen (issued g)) ≤ zlen (issued g)) by (apply Z.mod_le; lia).
  pose proof (ok_window Hcfg) as Hw. set (window := Z.min _ _).
  destruct (flip g 75) as [recent g1] eqn:E1. apply flip_spec in E1 as [En1 Ei1]. rewrite !Ei1. destruct recent.
  - destruct (draw g1 window) as [v g2] eqn:E2. apply draw_spec in E2 as (? & Ei & ? & Hlt & Hz); [|lia]. rewrite Ei, Ei1.
    assert (0 ≤ v < zlen (issued g)) by (destruct (decide (window = 0)); [rewrite Hz by done; lia|specialize (Hlt ltac:(lia)); lia]).
    rewrite u64_small by lia. split; [lia|]. split; congruence.
  - destruct (draw g1 (u32 (zlen (issued g)))) as [v g2] eqn:E2. apply draw_spec in E2 as (? & Ei & ? & Hlt & Hz); [|lia].
    split; [|split; congruence].
    destruct (decide (u32 (zlen (issued g)) = 0)); [rewrite Hz by done; lia|specialize (Hlt ltac:(lia)); lia].
Qed.

Lemma pick_known_spec g : gen_ok g → ∃ id g', pick_known g = Ok (id, g') ∧ 0 ≤ id < two64 ∧
  next_id g' = next_id g ∧ issued g' = issued g.
Proof.
  intros (Hid & Hall & Hlen). unfold pick_known. destruct (decide (issued g = [])) as [He|He].
  { rewrite bool_decide_true by done. exists 1, g. done. }
  rewrite bool_decide_false by done. pose proof (pick_index_spec g He Hlen) as Hidx.
  destruct (pick_index g) as [idx g2]. destruct Hidx as (Hidx & En & Ei). rewrite Ei.
  destruct (zlookup_lt (issued g) idx Hidx) as [id Hget].
  rewrite (vget_ok _ _ _ Hget). simpl. exists id, g2. split; [done|]. split; [|done].
  apply Hall. by apply zlookup_Some in Hget as [_ ?%list_elem_of_lookup_2].
Qed.

Lemma pick_owner_spec g : let '(o, g') := pick_owner g in
  0 ≤ o < two32 ∧ next_id g' = next_id g ∧ issued g' = issued g.
Proof.
  unfold pick_owner. destruct (flip g _) as [a g1] eqn:E1. apply flip_spec in E1 as [En Ei]. destruct a; [done|].
  destruct (draw g1 _) as [v g2] eqn:E2. apply draw_spec in E2 as (? & ? & _); [|apply Hcfg].
  split; [apply u32_range|]. split; congruence.
Qed.

Lemma pick_price_spec g : let '(p, g') := pick_price g in
  0 ≤ p < two64 ∧ next_id g' = next_id g ∧ issued g' = issued g.
Proof.
  unfold pick_price. destruct (draw g _) as [v g1] eqn:E. apply draw_spec in E as (? & ? & _); [|apply u32_range].
  split; [apply u64_range|done].
Qed.

Lemma gen_ok_eq g g' : next_id g' = next_id g → issued g' = issued g → gen_ok g → gen_ok g'.
Proof. unfold gen_ok. by intros -> ->. Qed.

(** One operation: made, in range, at most one id more issued. *)
Lemma make_op_spec g : gen_ok g → zlen (issued g) + 1 < two64 → ∃ op g', make_op g = Ok (op, g') ∧
  Diff.op_ok op ∧ gen_ok g' ∧ zlen (issued g') ≤ zlen (issued g) + 1.
Proof.
  intros Hg Hlen. unfold make_op.
  destruct (draw g 100) as [roll g1] eqn:E1. apply draw_spec in E1 as (N1 & I1 & _); [|lia].
  pose proof (pick_owner_spec g1) as Ho. destruct (pick_owner g1) as [owner g2]. destruct Ho as (Ho & N2 & I2).
  destruct (flip g2 50) as [buy g3] eqn:E3. apply flip_spec in E3 as (N3 & I3).
  pose proof (pick_price_spec g3) as Hp. destruct (pick_price g3) as [price g4]. destruct Hp as (Hp & N4 & I4).
  destruct (draw g4 _) as [q g5] eqn:E5. apply draw_spec in E5 as (N5 & I5 & _); [|apply Hcfg].
  assert (Hg5 : gen_ok g5) by (eapply gen_ok_eq; [| |exact Hg]; congruence).
  assert (Hi5 : issued g5 = issued g) by congruence. clear N1 N2 N3 N4 N5 I1 I2 I3 I4 I5 Hg.
  match goal with |- context [mbind _ ?m] => assert (∃ id g', m = Ok (id, g') ∧ 0 ≤ id < two64 ∧ gen_ok g' ∧
    zlen (issued g') ≤ zlen (issued g) + 1) as (id & g' & -> & Hid & Hg' & Hlen') end.
  - assert (Hadd : ∃ id g', (let g := mk (rng g5) (u64 (next_id g5 + 1)) (issued g5 ++ [next_id g5]) in
        let '(reuse, g) := flip g 4 in if reuse then pick_known g else Ok (next_id g5, g)) = Ok (id, g') ∧
      0 ≤ id < two64 ∧ gen_ok g' ∧ zlen (issued g') ≤ zlen (issued g) + 1).
    { cbv zeta. set (ga := mk _ _ _).
      assert (Hga : gen_ok ga).
      { destruct Hg5 as (? & Hall & ?). split; [apply u64_range|]. simpl. split.
        - intros i [?|Hi]%elem_of_app; [by apply Hall|]. apply list_elem_of_singleton in Hi as ->. done.
        - rewrite zlen_app, Hi5. unfold zlen at 2. simpl. lia. }
      assert (Hla : zlen (issued ga) ≤ zlen (issued g) + 1).
      { simpl. rewrite zlen_app, Hi5. unfold zlen at 2. simpl. lia. }
      destruct (flip ga 4) as [reuse gb] eqn:Eb. apply flip_spec in Eb as [Nb Ib].
      assert (Hgb : gen_ok gb) by (eapply gen_ok_eq; [..|exact Hga]; done).
      destruct reuse.
      - destruct (pick_known_spec gb Hgb) as (id & g' & -> & ? & Hn & Hi). exists id, g'. split; [done|]. split; [done|].
        split; [by eapply gen_ok_eq|]. rewrite Hi, Ib. lia.
      - exists (next_id g5), gb. rewrite Ib. split; [done|]. split; [exact (proj1 Hg5)|done]. }
    assert (Hold : ∃ id g', ('(id, g) ← pick_known g5; let '(unknown, g) := flip g 5 in
        Ok (if unknown then u64 (next_id g + 1000) else id, g)) = Ok (id, g') ∧
      0 ≤ id < two64 ∧ gen_ok g' ∧ zlen (issued g') ≤ zlen (issued g) + 1).
    { destruct (pick_known_spec g5 Hg5) as (id & ga & -> & Hid & Na & Ia). cbn [mbind res_bind].
      destruct (flip ga 5) as [unknown gb] eqn:Eb. apply flip_spec in Eb as [Nb Ib].
      eexists _, gb. split; [done|]. split; [destruct unknown; [apply u64_range|done]|].
      split; [eapply gen_ok_eq; [..|exact Hg5]; congruence|]. rewrite Ib, Ia, Hi5. lia. }
    destruct (kind_of roll); [exact Hadd..|exact Hold|exact Hold].
  - cbn [mbind res_bind]. eexists _, g'. split; [done|]. split; [|done].
    unfold Diff.op_ok. simpl. pose proof (u32_range (1 + q)). lia.
Qed.

Lemma generate_loop_spec n g : gen_ok g → zlen (issued g) + Z.of_nat n < two64 → ∃ ops,
  generate_loop n g = Ok ops ∧ length ops = n ∧ Forall Diff.op_ok ops.
Proof.
  revert g. induction n as [|n IH]; intros g Hg Hlen; [by exists []|]. cbn [generate_loop].
  destruct (make_op_spec g Hg) as (op & g' & -> & Hop & Hg' & Hl); [lia|]. cbn [mbind res_bind].
  destruct (IH g' Hg') as (ops & -> & Hn & Hops); [lia|]. exists (op :: ops). simpl. split_and!; [done|lia|by constructor].
Qed.

End generator.
(** The generator always produces the asked number of operations, each with
    its fields in range: no draw indexes outside the ids issued so far. *)
Theorem generate_well_formed cfg seed : config_ok cfg → 0 ≤ length_ cfg < two63 → ∃ ops,
  generate cfg seed = Ok ops ∧ zlen ops = length_ cfg ∧ Forall Diff.op_ok ops.
Proof.
  intros Hcfg Hlen. assert (Hg : gen_ok (make seed)) by (split_and!; [done|done|by intros ? ?%elem_of_nil|done]).
  destruct (generate_loop_spec cfg Hcfg (Z.to_nat (length_ cfg)) (make seed) Hg) as (ops & Ho & Hn & Hops).
  { change (zlen (issued (make seed))) with 0. lia. }
  exists ops. split_and!; [done| |done]. unfold zlen. lia.
Qed.

(** The randomised differential test passes for every seed and every engine
    configuration whose ring holds the sequence. *)
Theorem fuzzing_never_diverges {build : Build} cfg seed engine : config_ok cfg → 0 ≤ length_ cfg ≤ two31 →
  Refine.config_ok engine → length_ cfg ≤ trade_capacity engine → ∃ ops,
  generate cfg seed = Ok ops ∧ Diff.diverges ops engine = Ok false.
Proof.
  intros Hcfg Hlen Heng Hcap.
  assert (Hg : gen_ok (make seed)) by (split_and!; [done|done|by intros ? ?%elem_of_nil|done]).
  destruct (generate_loop_spec cfg Hcfg (Z.to_nat (length_ cfg)) (make seed) Hg) as (ops & Ho & Hn & Hops).
  { change (zlen (issued (make seed))) with 0. lia. }
  assert (Hz : zlen ops = length_ cfg) by (unfold zlen; lia).
  exists ops. split; [done|]. apply Diff.agree; [done|done|lia|lia].
Qed.

(** The generator never gets stuck: from a seed of any value its state is never
    zero, the fixed point of xorshift. *)
Theorem rng_never_sticks seed (n : nat) : 0 ≤ seed < two64 →
  0 < Rng.state (Nat.iter n (λ r, (Rng.next r).2) (Rng.make seed)) < two64.
Proof.
  intros Hs. induction n as [|n IH]; cbn [Nat.iter nat_rect]; [|by apply Rng.advance_ok].
  unfold Rng.make. simpl. destruct (Z.eqb_spec seed 0); lia.
Qed.

Lemma default_gen_ok : config_ok default_gen.
Proof. by split. Qed.

Lemma generate_well_formed_witness : ∃ ops, generate default_gen 7 = Ok ops ∧ zlen ops = 40.
Proof.
  destruct (generate_well_formed default_gen 7 default_gen_ok) as (ops & H1 & H2 & _); [done|].
  exact (ex_intro _ ops (conj H1 H2)).
Defined.

Lemma fuzzing_never_diverges_witness : ∃ ops, generate default_gen 7 = Ok ops ∧
  Diff.diverges (build := {| NDEBUG := false; kAsan := false |}) ops (Diff.engine_config CancelIncoming) = Ok false.
Proof.
  apply (fuzzing_never_diverges (build := {| NDEBUG := false; kAsan := false |}) default_gen 7 (Diff.engine_config CancelIncoming) default_gen_ok);
    [done|by repeat split|done].
Defined.

Lemma rng_never_sticks_witness : 0 < Rng.state (Nat.iter 3 (λ r, (Rng.next r).2) (Rng.make 0)) < two64.
Proof. apply (rng_never_sticks 0 3). lia. Defined.

End Fuzz.
