(* ===== verification/Text.v ===== *)
(** * Numbers as text (the strings of bench/bench_main.cpp)

    Printing counts with separators, and reading numbers from the command line:
    [std::to_string], [std::strtoull] and [std::atoi] in base ten as the standard
    defines them, and [grouped]. A string is a list of character codes. *)

From Stdlib Require Import Ascii String.
From stdpp Require Import base decidable list.
From S2P Require Import Prelude.

Module Text.

Definition Str : Type := list Z.

Definition codes (s : string) : Str := (λ a, Z.of_N (N_of_ascii a)) <$> list_ascii_of_string s.

(** ** Printing *)

(** 20 digits at most. *)
Fixpoint digits (fuel : nat) (n : Z) : Str :=
  match fuel with
  | O => []
  | S fuel => (if n / 10 =? 0 then [] else digits fuel (n / 10)) ++ [48 + n mod 10]
  end.

Definition to_string (n : Z) : Str := digits 20 n.

(** A comma after the [i]-th character, then three further left. *)
Fixpoint grouped_loop (fuel : nat) (s : Str) (i : Z) : res Str :=
  match fuel with
  | O => Err out_of_fuel
  | S fuel => if 0 <? i then grouped_loop fuel (take (Z.to_nat i) s ++ [44] ++ drop (Z.to_nat i) s) (i - 3) else Ok s
  end.

Definition grouped (n : Z) : res Str :=
  let s := to_string n in grouped_loop (S (length s)) s (zlen s - 3).

(** ** Reading *)

Definition is_space (c : Z) : bool := (c =? 32) || ((9 <=? c) && (c <=? 13)).
Definition is_digit (c : Z) : bool := (48 <=? c) && (c <=? 57).

Fixpoint skip_space (s : Str) : Str :=
  match s with c :: t => if is_space c then skip_space t else s | [] => [] end.

Fixpoint leading_digits (s : Str) : Str :=
  match s with c :: t => if is_digit c then c :: leading_digits t else [] | [] => [] end.

Definition value (s : Str) : Z := foldl (λ v c, v * 10 + (c - 48)) 0 s.

(** The sign, and the digits after it. *)
Definition number (s : Str) : bool * Z :=
  match skip_space s with
  | [] => (false, 0)
  | c :: t =>
      if c =? 43 then (false, value (leading_digits t))
      else if c =? 45 then (true, value (leading_digits t))
      else (false, value (leading_digits (c :: t)))
  end.

(** [std::strtoull(s, nullptr, 10)]: ULLONG_MAX when out of range. *)
Definition strtoull (s : Str) : Z :=
  let '(minus, v) := number s in
  if two64 <=? v then two64 - 1 else if minus then u64 (- v) else v.

(** [std::atoi(s)]: undefined out of the range of [int]. *)
Definition atoi (s : Str) : res Z :=
  let '(minus, v) := number s in
  let v := if minus then - v else v in
  if (- two31 <=? v) && (v <? two31) then Ok v else Err undefined_behaviour.

(** Reading a [long] from a stream: the nearest one when out of range, 0 when
    there is no number. *)
Definition read_long (s : Str) : Z :=
  let '(minus, v) := number s in Z.max (- two63) (Z.min (two63 - 1) (if minus then - v else v)).

(** ** Strings and streams *)

(** [s.find(c)], with [None] for [npos]. *)
Fixpoint find (c : Z) (s : Str) : option Z :=
  match s with
  | [] => None
  | x :: s => if x =? c then Some 0 else Z.succ <$> find c s
  end.

(** [s.substr(pos, n)], and to the end. *)
Definition substr (s : Str) (pos n : Z) : res Str :=
  if pos <=? zlen s then Ok (take (Z.to_nat (Z.min n (zlen s))) (drop (Z.to_nat pos) s)) else Err out_of_range.

Definition substr_from (s : Str) (pos : Z) : res Str := substr s pos (zlen s).

(** [s.rfind(prefix, 0) == 0]. *)
Definition starts_with (prefix s : Str) : bool := bool_decide (take (length prefix) s = prefix).

(** The characters up to the first that [stop] holds of, and the rest from it. *)
Fixpoint span (stop : Z → bool) (s : Str) : Str * Str :=
  match s with
  | [] => ([], [])
  | c :: t => if stop c then ([], s) else let '(w, r) := span stop t in (c :: w, r)
  end.

(** [std::getline]: fails at the end of the stream. *)
Definition getline (s : Str) : option (Str * Str) :=
  match s with
  | [] => None
  | _ => let '(line, r) := span (λ c, c =? 10) s in Some (line, drop 1 r)
  end.

(** [in >> word]; an empty one is a failure. *)
Definition word (s : Str) : Str * Str := span is_space (skip_space s).

(** [in.ignore(n, '\n')]. *)
Fixpoint ignore (n : nat) (s : Str) : Str :=
  match n, s with
  | S n, c :: s => if c =? 10 then s else ignore n s
  | _, _ => s
  end.

(** ** Lemmas *)

Lemma span_app stop s w r : span stop s = (w, r) → s = w ++ r ∧ Forall (λ c, stop c = false) w.
Proof.
  revert w r. induction s as [|c s IH]; intros w r; cbn [span]; [by intros [= <- <-]|].
  destruct (stop c) eqn:E; [by intros [= <- <-]|]. destruct (span stop s) as [w' r']. intros [= <- <-].
  destruct (IH _ _ eq_refl) as [-> Hw]. split; [done|by constructor].
Qed.

Lemma skip_space_length s : (length (skip_space s) ≤ length s)%nat.
Proof. induction s as [|c s IH]; cbn [skip_space]; [done|]. destruct (is_space c); simpl; lia. Qed.

Lemma ignore_length n s : (length (ignore n s) ≤ length s)%nat.
Proof. revert n. induction s as [|c s IH]; intros [|n]; cbn [ignore]; try done. destruct (_ =? _); simpl; [lia|]. specialize (IH n). lia. Qed.

Lemma getline_shorter s line r : getline s = Some (line, r) → (length r < length s)%nat.
Proof.
  unfold getline. destruct s as [|c s]; [done|]. destruct (span _ _) as [w r'] eqn:E. intros [= <- <-].
  apply span_app in E as [E Hw]. rewrite length_drop, E, length_app. destruct w; simpl in *; [|lia]. subst r'. simpl. lia.
Qed.

Lemma word_shorter s w r : word s = (w, r) → w ≠ [] → (length r < length s)%nat.
Proof.
  unfold word. intros E Hw. apply span_app in E as [E _]. pose proof (skip_space_length s). rewrite E, length_app in H.
  destruct w; [done|]. simpl in H. lia.
Qed.

Lemma find_app c s t : c ∉ s → find c (s ++ c :: t) = Some (zlen s).
Proof.
  induction s as [|x s IH]; simpl; [by rewrite Z.eqb_refl|]. rewrite not_elem_of_cons. intros [Hx Hs].
  destruct (Z.eqb_spec x c); [by subst|]. rewrite IH by done. simpl. f_equal. unfold zlen. simpl. lia.
Qed.

Lemma find_range c s i : find c s = Some i → 0 ≤ i < zlen s.
Proof.
  revert i. induction s as [|x s IH]; intros i; simpl; [done|]. rewrite zlen_cons. pose proof (zlen_nonneg s).
  destruct (x =? c); [intros [= <-]; lia|]. destruct (find c s) as [j|]; [|done]. intros [= <-]. specialize (IH j eq_refl). lia.
Qed.

Lemma digits_spec (fuel : nat) n : 0 ≤ n < 10 ^ Z.of_nat fuel → (0 < fuel)%nat →
  digits fuel n ≠ [] ∧ Forall (λ c, 48 ≤ c ≤ 57) (digits fuel n) ∧ value (digits fuel n) = n.
Proof.
  revert n. induction fuel as [|fuel IH]; intros n Hn Hf; [lia|]. cbn [digits].
  rewrite Nat2Z.inj_succ, Z.pow_succ_r in Hn by lia. split; [by destruct (if _ =? 0 then _ else _)|].
  unfold value in *. rewrite Forall_app, foldl_app, Forall_singleton. cbn [foldl]. pose proof (Z.mod_pos_bound n 10).
  destruct (Z.eqb_spec (n / 10) 0) as [E|E].
  - split; [split; [constructor|]|simpl]; Z.div_mod_to_equations; lia.
  - assert (Hq : 0 ≤ n / 10 < 10 ^ Z.of_nat fuel) by (Z.div_mod_to_equations; lia).
    assert (Hf' : (0 < fuel)%nat) by (destruct fuel; [simpl in Hq; lia|lia]).
    destruct (IH _ Hq Hf') as (_ & Hd & ->). split; [split; [done|]|]; Z.div_mod_to_equations; lia.
Qed.

Lemma grouped_loop_spec (fuel : nat) pre tail : pre ≠ [] → (length pre < fuel)%nat → ∃ g gs,
  grouped_loop fuel (pre ++ tail) (zlen pre - 3) = Ok (g ++ concat (cons 44 <$> gs) ++ tail) ∧
  pre = g ++ concat gs ∧ (1 ≤ length g ≤ 3)%nat ∧ Forall (λ x, length x = 3%nat) gs.
Proof.
  revert pre tail. induction fuel as [|fuel IH]; intros pre tail Hne Hf; [lia|]. cbn [grouped_loop].
  destruct (Z.ltb_spec 0 (zlen pre - 3)) as [Hi|Hi].
  - set (i := Z.to_nat (zlen pre - 3)). assert (Hil : (i + 3 = length pre)%nat) by (unfold i, zlen in *; lia).
    rewrite take_app_le, drop_app_le by lia.
    assert (Hlen : length (take i pre) = i) by (rewrite length_take; lia).
    destruct (IH (take i pre) ([44] ++ drop i pre ++ tail)) as (g & gs & E & Hpre & Hg & Hgs); [|lia|].
    { intros E0. rewrite E0 in Hlen. simpl in Hlen. unfold i, zlen in *. lia. }
    replace (zlen (take i pre) - 3) with (zlen pre - 3 - 3) in E by (unfold zlen, i in *; lia).
    exists g, (gs ++ [drop i pre]). rewrite E, fmap_app, concat_app, concat_app. simpl. rewrite !app_nil_r, <-!app_assoc.
    split; [done|]. split; [by rewrite app_assoc, <-Hpre, take_drop|]. split; [done|].
    apply Forall_app_2; [done|]. constructor; [rewrite length_drop; lia|constructor].
  - exists pre, []. simpl. rewrite app_nil_r. split_and!; [done|done| |unfold zlen in *; lia|constructor].
    destruct pre; [done|]. simpl. lia.
Qed.

Lemma without_commas g gs : Forall (λ c, 48 ≤ c ≤ 57) (g ++ concat gs) →
  filter (λ c, c ≠ 44) (g ++ concat (cons 44 <$> gs)) = g ++ concat gs.
Proof.
  assert (Hkeep : ∀ x, Forall (λ c, 48 ≤ c ≤ 57) x → filter (λ c, c ≠ 44) x = x).
  { intros x Hx. apply filter_whole. rewrite Forall_forall in Hx. intros c Hc. specialize (Hx c Hc). lia. }
  rewrite Forall_app. intros [Hg Hgs]. rewrite filter_app, (Hkeep g) by done. f_equal.
  induction gs as [|x gs IH]; [done|]. rewrite fmap_cons. cbn [concat app] in *. apply Forall_app in Hgs as [Hx Hgs].
  rewrite filter_cons_False by (intros H; by apply H). rewrite filter_app, (Hkeep x), IH by done. done.
Qed.

(** A number printed is a number read. *)
Lemma leading_digits_all s : Forall (λ c, 48 ≤ c ≤ 57) s → leading_digits s = s.
Proof.
  induction 1 as [|c s Hc _ IH]; [done|]. cbn [leading_digits]. unfold is_digit.
  destruct (Z.leb_spec 48 c), (Z.leb_spec c 57); [|lia..]. cbn [andb]. by rewrite IH.
Qed.

Lemma number_digits s : s ≠ [] → Forall (λ c, 48 ≤ c ≤ 57) s → number s = (false, value s).
Proof.
  intros Hne Hs. unfold number. assert (E : skip_space s = s).
  { destruct Hs as [|c s Hc Hs]; [done|]. cbn [skip_space]. unfold is_space.
    destruct (Z.eqb_spec c 32), (Z.leb_spec 9 c), (Z.leb_spec c 13); simpl; (lia || done). }
  rewrite E. rewrite <-(leading_digits_all s Hs) at 2. destruct Hs as [|c s Hc Hs]; [done|].
  by destruct (Z.eqb_spec c 43), (Z.eqb_spec c 45); [lia..|].
Qed.

Lemma number_to_string n : 0 ≤ n < two64 → number (to_string n) = (false, n).
Proof.
  intros Hn. destruct (digits_spec 20 n) as (Hne & Hd & Hv); [simpl; lia|lia|]. unfold to_string.
  rewrite number_digits by done. by rewrite Hv.
Qed.

Lemma strtoull_to_string n : 0 ≤ n < two64 → strtoull (to_string n) = n.
Proof. intros Hn. unfold strtoull. rewrite number_to_string by done. by destruct (Z.leb_spec two64 n); [lia|]. Qed.

Lemma atoi_to_string n : 0 ≤ n < two31 → atoi (to_string n) = Ok n.
Proof.
  intros Hn. unfold atoi. rewrite number_to_string by lia.
  by destruct (Z.leb_spec (- two31) n), (Z.ltb_spec n two31); [|lia..].
Qed.

(** A count printed with separators reads back as itself: the digits come in
    groups of three from the right, with a comma before each group but the first,
    which is never empty. *)
Theorem grouped_reads_back n : 0 ≤ n < two64 → ∃ g gs, grouped n = Ok (g ++ concat (cons 44 <$> gs)) ∧
  (1 ≤ length g ≤ 3)%nat ∧ Forall (λ x, length x = 3%nat) gs ∧ value (filter (λ c, c ≠ 44) (g ++ concat (cons 44 <$> gs))) = n.
Proof.
  intros Hn. destruct (digits_spec 20 n) as (Hne & Hd & Hv); [simpl; lia|lia|].
  destruct (grouped_loop_spec (S (length (to_string n))) (to_string n) [] Hne ltac:(lia)) as (g & gs & E & Hs & Hg & Hgs).
  rewrite !app_nil_r in E. exists g, gs. split_and!; [exact E|apply Hg..|done|].
  unfold to_string in Hs. rewrite without_commas, <-Hs; by rewrite <-?Hs.
Qed.

(** 1234567 prints as [1,234,567]. *)
Lemma grouped_reads_back_witness : grouped 1234567 = Ok [49; 44; 50; 51; 52; 44; 53; 54; 55] ∧
  value (filter (λ c, c ≠ 44) [49; 44; 50; 51; 52; 44; 53; 54; 55]) = 1234567.
Proof.
  destruct (grouped_reads_back 1234567 ltac:(lia)) as (g & gs & E & _ & _ & Hv).
  assert (Hs : grouped 1234567 = Ok [49; 44; 50; 51; 52; 44; 53; 54; 55]) by (vm_compute; reflexivity).
  rewrite Hs in E. injection E as E. rewrite <-E in Hv. exact (conj Hs Hv).
Defined.

End Text.
