(* ===== verification/Flow.v ===== *)
(** * The benchmark's order flow (bench/flow.hpp, bench/flow.cpp)

    A generator that drives its own copy of the engine to know what is live, so
    that cancels and modifies name resting orders, passive orders never cross and
    marketable ones are sized against the depth. *)

From Stdlib Require Import String.
From stdpp Require Import base decidable list.
From S2P Require Import Prelude.
From S2P Require Import Text.
From S2P Require Import Types.
From S2P Require Import Ring.
From S2P Require Import Ladder.
From S2P Require Import Spec.
From S2P Require Import Book.
From S2P Require Import Inv.
From S2P Require Import Checks.
From S2P Require Import Refine.
From S2P Require Import Diff.
From S2P Require Import Reach.
From S2P Require Import Rng.

Module Flow.

Inductive Kind := Add | Cancel | Modify | Marketable.

Record Op := MkOp {
  op_id : OrderId;
  op_price : Price;
  op_qty : Quantity;
  op_owner : ParticipantId;
  op_kind : Kind;
  op_side : Side;
  op_market : bool;
}.

Record Config := MkConfig {
  seed : Z;
  ops : Z;
  warmup_ops : Z;
  add_percent : Z;
  cancel_percent : Z;
  modify_percent : Z;
  marketable_percent : Z;
  target_depth : Z;
  start_mid : Price;
  mid_step_per_mille : Z;
  near_touch_percent : Z;
  near_decay_percent : Z;
  tail_ticks : Price;
  recent_percent : Z;
  recent_decay_percent : Z;
  lot : Quantity;
  size_decay_percent : Z;
  owners : ParticipantId;
  self_trade : SelfTradePolicy;
}.

(** [Config{}]. *)
Definition default_config : Config :=
  MkConfig 1 2000000 300000 50 40 5 5 5000 100000 10 80 50 100 80 90 100 50 50 CancelResting.

Definition kTradeCapacity : Z := 4096.

(** ** Hashes (FNV-1a) *)

Definition kHashSeed : Z := 14695981039346656037.

Definition fold_byte (h v i : Z) : Z :=
  u64 (Z.lxor h (Z.land (Z.shiftr v (8 * i)) 255) * 1099511628211).

Definition fold (h v : Z) : Z := foldl (λ h i, fold_byte h v i) h (seqZ 0 8).

Definition kind_name (k : Kind) : Text.Str :=
  Text.codes match k with Add => "add" | Cancel => "cancel" | Modify => "modify" | Marketable => "marketable" end.

Definition kind_code (k : Kind) : Z := match k with Add => 0 | Cancel => 1 | Modify => 2 | Marketable => 3 end.

Definition hash_op (h : Z) (op : Op) : Z :=
  let h := fold h (op_id op) in
  let h := fold h (op_price op) in
  let h := fold h (op_qty op) in
  let h := fold h (op_owner op) in
  let h := fold h (kind_code (op_kind op)) in
  let h := fold h (Diff.side_code (op_side op)) in
  fold h (if op_market op then 1 else 0).

Definition hash_trade (h : Z) (t : Trade) : Z :=
  let h := fold h (t_seq t) in
  let h := fold h (t_maker_id t) in
  let h := fold h (t_taker_id t) in
  let h := fold h (t_price t) in
  let h := fold h (t_qty t) in
  fold h (Diff.side_code (t_taker_side t)).

(** ** The generator's state *)

Record Stats := MkStats {
  count : list Z;           (* per kind *)
  market_orders : Z;
  trades : Z;
  depth_min : Z;
  depth_max : Z;
  spread_p50 : Price;
  spread_p99 : Price;
  flow_hash : Z;
  trade_hash : Z;
}.

Record Flow := MkFlow {
  f_ops : list Op;
  f_build : Z;
  f_warmup : Z;
  f_stats : Stats;
}.

Record Gen := mk {
  rng : Rng.Rng;
  book : OrderBook.OrderBook;
  live : list OrderId;
  mid : Price;
  next_id : OrderId;
  timing : bool;
  hash : Z;
  spread_hist : list Z;
  out : list Op;
  counts : list Z;
  markets : Z;
  fills : Z;
  steps : Z;
}.

Definition set_rng (r : Rng.Rng) (g : Gen) : Gen :=
  mk r (book g) (live g) (mid g) (next_id g) (timing g) (hash g) (spread_hist g) (out g) (counts g) (markets g) (fills g) (steps g).
Definition set_live (l : list OrderId) (g : Gen) : Gen :=
  mk (rng g) (book g) l (mid g) (next_id g) (timing g) (hash g) (spread_hist g) (out g) (counts g) (markets g) (fills g) (steps g).
Definition set_mid (m : Price) (g : Gen) : Gen :=
  mk (rng g) (book g) (live g) m (next_id g) (timing g) (hash g) (spread_hist g) (out g) (counts g) (markets g) (fills g) (steps g).
Definition set_next_id (i : OrderId) (g : Gen) : Gen :=
  mk (rng g) (book g) (live g) (mid g) i (timing g) (hash g) (spread_hist g) (out g) (counts g) (markets g) (fills g) (steps g).
Definition set_timing (b : bool) (g : Gen) : Gen :=
  mk (rng g) (book g) (live g) (mid g) (next_id g) b (hash g) (spread_hist g) (out g) (counts g) (markets g) (fills g) (steps g).
Definition set_hist (h : list Z) (g : Gen) : Gen :=
  mk (rng g) (book g) (live g) (mid g) (next_id g) (timing g) (hash g) h (out g) (counts g) (markets g) (fills g) (steps g).
Definition set_steps (n : Z) (g : Gen) : Gen :=
  mk (rng g) (book g) (live g) (mid g) (next_id g) (timing g) (hash g) (spread_hist g) (out g) (counts g) (markets g) (fills g) n.

Section flow.
Context {build : Build} (cfg : Config).

(** [apply]: the single engine call an op maps to. *)
Definition apply (b : OrderBook.OrderBook) (op : Op) : res (OrderBook.OrderBook * ExecReport) :=
  match op_kind op with
  | Add => OrderBook.add_limit b (op_id op) (op_owner op) (op_side op) (op_price op) (op_qty op)
  | Cancel => '(b, ok) ← OrderBook.cancel b (op_id op); Ok (b, Diff.cancel_report ok)
  | Modify => OrderBook.modify b (op_id op) (op_price op) (op_qty op)
  | Marketable =>
      if op_market op then OrderBook.add_market b (op_id op) (op_owner op) (op_side op) (op_qty op)
      else OrderBook.add_limit b (op_id op) (op_owner op) (op_side op) (op_price op) (op_qty op)
  end.

(** ** Draws *)

Definition draw (g : Gen) (n : Z) : Z * Gen := let '(v, r) := Rng.below (rng g) n in (v, set_rng r g).
Definition chance (g : Gen) (percent : Z) : bool * Gen := let '(v, r) := Rng.chance (rng g) percent in (v, set_rng r g).
Definition chance_per_mille (g : Gen) (n : Z) : bool * Gen :=
  let '(v, r) := Rng.chance_per_mille (rng g) n in (v, set_rng r g).
Definition geometric (g : Gen) (percent cap : Z) : Z * Gen :=
  let '(v, r) := Rng.geometric (rng g) percent cap in (v, set_rng r g).

Definition random_side (g : Gen) : Side * Gen :=
  let '(buy, g) := chance g 50 in (if (buy : bool) then Buy else Sell, g).

Definition random_owner (g : Gen) : ParticipantId * Gen :=
  let '(v, g) := draw g (owners cfg) in (u32 (1 + v), g).

Definition random_qty (g : Gen) : Quantity * Gen :=
  let '(n, g) := geometric g (size_decay_percent cfg) 19 in (u32 (lot cfg * (1 + n)), g).

Definition walk_mid (g : Gen) : Gen :=
  let '(up, g) := chance g 50 in
  if (up : bool) then set_mid (u64 (mid g + 1)) g
  else if u64 (tail_ticks cfg + 1) <? mid g then set_mid (u64 (mid g - 1)) g
  else g.

Definition random_offset (g : Gen) : Price * Gen :=
  let '(near, g) := chance g (near_touch_percent cfg) in
  if (near : bool) then geometric g (near_decay_percent cfg) (u32 (tail_ticks cfg))
  else draw g (u64 (tail_ticks cfg + 1)).

(** [passive_price(side)]: near the mid, and never across the far touch. *)
Definition passive_price (g : Gen) (side : Side) : Price * Gen :=
  let '(off, g) := random_offset g in
  match side with
  | Buy =>
      let p := u64 (mid g - off) in
      (match OrderBook.best_ask (book g) with
       | Some ask => if ask <=? p then u64 (ask - 1) else p
       | None => p
       end, g)
  | Sell =>
      let p := u64 (mid g + 1 + off) in
      (match OrderBook.best_bid (book g) with
       | Some bid => if p <=? bid then u64 (bid + 1) else p
       | None => p
       end, g)
  end.

(** ** Live ids *)

(** [ids.erase(ids.begin() + idx)]. *)
Definition erase_at (v : list OrderId) (idx : Z) : list OrderId :=
  firstn (Z.to_nat idx) v ++ skipn (S (Z.to_nat idx)) v.

(** The position [take] draws: near the end of the list, or anywhere. *)
Definition live_index (g : Gen) : Z * Gen :=
  let n := zlen (live g) in
  let '(recent, g) := chance g (recent_percent cfg) in
  if (recent : bool)
  then let '(v, g) := geometric g (recent_decay_percent cfg) (Z.min (n - 1) (two32 - 1)) in (u64 (n - 1 - v), g)
  else draw g n.

(** [LivePool::take]: each round takes one id off the list. *)
Fixpoint take_live (fuel : nat) (g : Gen) : res (option OrderId * Gen) :=
  match fuel with
  | O => Err out_of_fuel
  | S fuel =>
      match live g with
      | [] => Ok (None, g)
      | _ :: _ =>
          let '(idx, g) := live_index g in
          id ← vget (live g) idx;
          let g := set_live (erase_at (live g) idx) g in
          o ← OrderBook.find (book g) id;
          match o with
          | Some _ => Ok (Some id, g)
          | None => take_live fuel g
          end
      end
  end.

Definition take (g : Gen) : res (option OrderId * Gen) := take_live (S (length (live g))) g.

(** [LivePool::sweep]. *)
Fixpoint sweep_ids (b : OrderBook.OrderBook) (ids : list OrderId) : res (list OrderId) :=
  match ids with
  | [] => Ok []
  | id :: ids =>
      o ← OrderBook.find b id;
      rest ← sweep_ids b ids;
      Ok (match o with Some _ => id :: rest | None => rest end)
  end.

Definition sweep (g : Gen) : res Gen := ids ← sweep_ids (book g) (live g); Ok (set_live ids g).

(** ** Emitting *)

(** [++out.stats.count[kind]]. *)
Definition bump (v : list Z) (i : Z) : list Z := match v.[i] with Some n => v.[i := u64 (n + 1)] | None => v end.

Definition emit (g : Gen) (op : Op) : res Gen :=
  '(b, _) ← apply (book g) op;
  '(ts, b) ← OrderBook.drain_trades b;
  let h := foldl hash_trade (hash g) ts in
  let g := mk (rng g) b (live g) (mid g) (next_id g) (timing g) h (spread_hist g) (out g ++ [op]) (counts g) (markets g) (fills g) (steps g) in
  Ok (if timing g then
        mk (rng g) (book g) (live g) (mid g) (next_id g) (timing g) (hash g) (spread_hist g) (out g)
          (bump (counts g) (kind_code (op_kind op)))
          (match op_kind op with Marketable => u64 (markets g + (if op_market op then 1 else 0)) | _ => markets g end)
          (u64 (fills g + zlen ts)) (steps g)
      else g).

Definition add (g : Gen) (side : Side) : res Gen :=
  let id := next_id g in
  let g := set_next_id (u64 (next_id g + 1)) g in
  let '(price, g) := passive_price g side in
  let '(qty, g) := random_qty g in
  let '(owner, g) := random_owner g in
  g ← emit g (MkOp id price qty owner Add side false);
  Ok (set_live (live g ++ [id]) g).

Definition add_random (g : Gen) : res Gen := let '(side, g) := random_side g in add g side.

Definition cancel (g : Gen) : res Gen :=
  '(id, g) ← take g;
  match id with
  | None => add_random g
  | Some id => emit g (MkOp id 0 0 0 Cancel Buy false)
  end.

Definition modify (g : Gen) : res Gen :=
  '(id, g) ← take g;
  match id with
  | None => add_random g
  | Some id =>
      o ← OrderBook.find (book g) id;
      match o with
      | None => Err undefined_behaviour         (* [book.find( *id)->side] *)
      | Some o =>
          let side := o_side o in
          let '(price, g) := passive_price g side in
          let '(qty, g) := random_qty g in
          g ← emit g (MkOp id price qty 0 Modify side false);
          Ok (set_live (live g ++ [id]) g)
      end
  end.

(** [while (takes < 64 && chance) ++takes]. *)
Fixpoint draw_takes (fuel : nat) (g : Gen) (pull takes : Z) : Z * Gen :=
  match fuel with
  | O => (takes, g)
  | S fuel =>
      let '(hit, g) := chance_per_mille g pull in
      if (hit : bool) then draw_takes fuel g pull (takes + 1) else (takes, g)
  end.

(** [for (i = 0; i < takes; ++i) qty += random_qty()]. *)
Fixpoint sum_qty (n : nat) (g : Gen) (qty : Quantity) : Quantity * Gen :=
  match n with
  | O => (qty, g)
  | S n => let '(q, g) := random_qty g in sum_qty n g (u32 (qty + q))
  end.

(** A market order, or a limit up to two ticks through the touch. *)
Definition aim (g : Gen) (side : Side) : bool * Price * Gen :=
  match (match side with Buy => OrderBook.best_ask (book g) | Sell => OrderBook.best_bid (book g) end) with
  | None => (true, 0, g)
  | Some touch =>
      let '(market, g) := chance g 50 in
      if (market : bool) then (true, 0, g)
      else
        let '(through, g) := draw g 3 in
        (false, match side with Buy => u64 (touch + through) | Sell => u64 (touch - through) end, g)
  end.

Definition marketable (g : Gen) : res Gen :=
  let '(side, g) := random_side g in
  let depth := OrderBook.size (book g) in
  let pull := if depth =? 0 then 0 else u32 (1000 - Z.min 1000 (u64 (500 * target_depth cfg) / depth)) in
  let '(takes, g) := draw_takes 63 g (Z.min pull 950) 1 in
  let '(qty, g) := sum_qty (Z.to_nat takes) g 0 in
  let '(market, price, g) := aim g side in
  let id := next_id g in
  let g := set_next_id (u64 (next_id g + 1)) g in
  let '(owner, g) := random_owner g in
  g ← emit g (MkOp id price qty owner Marketable side market);
  if (market : bool) then Ok g
  else
    o ← OrderBook.find (book g) id;
    Ok (match o with Some _ => set_live (live g ++ [id]) g | None => g end).

(** [step()]: one operation of the mixed flow. *)
Definition step (g : Gen) : res Gen :=
  let '(move, g) := chance_per_mille g (mid_step_per_mille cfg) in
  let g := if (move : bool) then walk_mid g else g in
  let '(roll, g) := draw g 100 in
  g ← (if roll <? add_percent cfg then add_random g
       else if roll <? u32 (add_percent cfg + cancel_percent cfg) then cancel g
       else if roll <? u32 (u32 (add_percent cfg + cancel_percent cfg) + modify_percent cfg) then modify g
       else marketable g);
  let g := set_steps (u64 (steps g + 1)) g in
  if Z.land (steps g) 65535 =? 0 then sweep g else Ok g.

(** ** Spread samples *)

Definition sample_spread (g : Gen) : res Gen :=
  match OrderBook.best_bid (book g), OrderBook.best_ask (book g) with
  | Some bid, Some ask =>
      let i := Z.min (u64 (ask - bid)) (zlen (spread_hist g) - 1) in
      n ← vget (spread_hist g) i;
      v ← vset (spread_hist g) i (u64 (n + 1));
      Ok (set_hist v g)
  | _, _ => Ok g
  end.

Fixpoint percentile_loop (hist : list Z) (s seen rank : Z) : option Z :=
  match hist with
  | [] => None
  | n :: hist => let seen := u64 (seen + n) in if rank <=? seen then Some s else percentile_loop hist (s + 1) seen rank
  end.

Definition spread_percentile (hist : list Z) (percent : Z) : Price :=
  let total := foldl (λ t n, u64 (t + n)) 0 hist in
  if total =? 0 then 0
  else
    let rank := u64 (u64 (total * percent) + 99) / 100 in
    default (zlen hist - 1) (percentile_loop hist 0 0 rank).

(** ** The run *)

(** The constructor, with its two checks. *)
Definition make : res Gen :=
  b ← OrderBook.make (Types.MkConfig (self_trade cfg) kTradeCapacity true 0 1024 None);
  if negb (u32 (u32 (u32 (add_percent cfg + cancel_percent cfg) + modify_percent cfg) + marketable_percent cfg) =? 100)
  then Err invalid_argument
  else if start_mid cfg <=? u64 (tail_ticks cfg + 1) then Err invalid_argument
  else Ok (mk (Rng.make (seed cfg)) b [] (start_mid cfg) 1 false kHashSeed (replicate 65 0) [] [0; 0; 0; 0] 0 0 0).

Fixpoint repeat (n : nat) (f : Gen → res Gen) (g : Gen) : res Gen :=
  match n with O => Ok g | S n => g ← f g; repeat n f g end.

(** The timed loop, with the depths it has seen. *)
Fixpoint timed (n : nat) (g : Gen) (lo hi : Z) : res (Gen * Z * Z) :=
  match n with
  | O => Ok (g, lo, hi)
  | S n =>
      g ← step g;
      let depth := OrderBook.size (book g) in
      g ← sample_spread g;
      timed n g (Z.min lo depth) (Z.max hi depth)
  end.

Definition run : res Flow :=
  g ← make;
  g ← repeat (Z.to_nat (target_depth cfg)) add_random g;
  let build := zlen (out g) in
  g ← repeat (Z.to_nat (warmup_ops cfg)) step g;
  let warmup := zlen (out g) - build in
  let g := set_timing true g in
  '(g, lo, hi) ← timed (Z.to_nat (ops cfg)) g (OrderBook.size (book g)) 0;
  Ok (MkFlow (out g) build warmup
    (MkStats (counts g) (markets g) (fills g) lo hi
      (spread_percentile (spread_hist g) 50) (spread_percentile (spread_hist g) 99)
      (foldl hash_op kHashSeed (out g)) (hash g))).

(** [generate(cfg)]. *)
Definition generate : res Flow := run.

End flow.

End Flow.
