(* ===== verification/Replay.v ===== *)
(** * Replaying a flow on a book

    A flow's operations are applied one at a time and the ring is drained after
    each, by the generator (bench/flow.cpp) and by the benchmark (bench_main.cpp)
    alike. [replay] is what that does to the abstract book, the hash of the trades
    and the count of lost ones; any engine that starts empty follows it. *)

From stdpp Require Import base decidable list.
From S2P Require Import Prelude.
From S2P Require Import Types.
From S2P Require Import Ring.
From S2P Require Import Spec.
From S2P Require Import Book.
From S2P Require Import Inv.
From S2P Require Import Refine.
From S2P Require Import Diff.
From S2P Require Import Flow.

Module Replay.
Import Flow.

(** The operation as the harness of Diff.v drives it. *)
Definition diff_op (op : Op) : Diff.Op :=
  Diff.MkOp (match op_kind op with
      | Add => Diff.AddLimit | Cancel => Diff.Cancel | Modify => Diff.Modify
      | Marketable => if op_market op then Diff.AddMarket else Diff.AddLimit
    end) (op_id op) (op_owner op) (op_side op) (op_price op) (op_qty op).

Definition op_ok (op : Op) : Prop :=
  0 ≤ op_id op < two64 ∧ 0 ≤ op_owner op < two32 ∧ 0 ≤ op_price op < two64 ∧ 0 ≤ op_qty op < two32.

Record Trace := MkTrace { tr_book : Spec.Book; tr_hash : Z; tr_lost : Z }.

Definition start (pol : SelfTradePolicy) : Trace := MkTrace (Spec.empty pol) kHashSeed 0.

Definition apply_op (T : Trace) (op : Op) : Trace :=
  let '(S', _, ts) := Diff.spec_step (tr_book T) (diff_op op) in
  let F := foldl TradeRing.fifo_push (TradeRing.MkFifo [] kTradeCapacity (tr_lost T)) ts in
  MkTrace S' (foldl hash_trade (tr_hash T) (TradeRing.items F)) (TradeRing.lost F).

Definition replay (T : Trace) (os : list Op) : Trace := foldl apply_op T os.

(** The trades of one operation that come out of the ring, and of a sequence. *)
Definition printed (T : Trace) (op : Op) : list Trade :=
  let '(_, _, ts) := Diff.spec_step (tr_book T) (diff_op op) in
  TradeRing.items (foldl TradeRing.fifo_push (TradeRing.MkFifo [] kTradeCapacity (tr_lost T)) ts).

Fixpoint replay_trades (T : Trace) (os : list Op) : list Trade :=
  match os with
  | [] => []
  | op :: os => printed T op ++ replay_trades (apply_op T op) os
  end.

Lemma replay_app T os os' : replay T (os ++ os') = replay (replay T os) os'.
Proof. apply foldl_app. Qed.

Lemma replay_trades_snoc T os op : replay_trades T (os ++ [op]) = replay_trades T os ++ printed (replay T os) op.
Proof. revert T. induction os as [|o os IH]; intros T; simpl; [by rewrite app_nil_r|]. by rewrite IH, app_assoc. Qed.

Lemma replay_hash T os : tr_hash (replay T os) = foldl hash_trade (tr_hash T) (replay_trades T os).
Proof.
  revert T. induction os as [|op os IH]; intros T; [done|]. cbn [replay_trades]. rewrite foldl_app. unfold replay. simpl. fold (replay (apply_op T op) os).
  rewrite IH. f_equal. unfold apply_op, printed. by destruct (Diff.spec_step _ _) as [[? ?] ?].
Qed.

Lemma printed_few T op : zlen (printed T op) ≤ kTradeCapacity.
Proof.
  unfold printed. destruct (Diff.spec_step _ _) as [[? ?] ts].
  by apply (TradeRing.fifo_pushes_bound (TradeRing.MkFifo [] kTradeCapacity (tr_lost T))).
Qed.

Lemma replay_trades_few T os : zlen (replay_trades T os) ≤ kTradeCapacity * zlen os.
Proof.
  revert T. induction os as [|op os IH]; intros T; simpl; [done|]. rewrite zlen_app, zlen_cons.
  pose proof (printed_few T op). specialize (IH (apply_op T op)). lia.
Qed.

Section engine.
Context {build : Build}.

Lemma apply_step b op : apply b op = Diff.step b (diff_op op).
Proof. unfold apply, Diff.step, diff_op. simpl. destruct (op_kind op); [done..|]. by destruct (op_market op). Qed.

(** The book [b] and the hash [h] after the operations [os], drained. *)
Definition stands (pol : SelfTradePolicy) (b : OrderBook.OrderBook) (h : Z) (os : list Op) : Prop :=
  let T := replay (start pol) os in
  BookInv.repr b (tr_book T) (TradeRing.MkFifo [] kTradeCapacity (tr_lost T)) ∧
  zlen (Spec.ids (tr_book T)) ≤ zlen os ∧ h = tr_hash T.

Lemma stands_make cfg : Refine.config_ok cfg → trade_capacity cfg = kTradeCapacity → ∃ b,
  OrderBook.make cfg = Ok b ∧ stands (Types.self_trade cfg) b kHashSeed [].
Proof.
  intros Hcfg Hcap. destruct (Refine.make_refines cfg Hcfg) as (b & Hb & Hrepr & _). exists b. split; [done|].
  unfold Refine.ring_capacity in Hrepr. rewrite Hcap in Hrepr. by split_and!.
Qed.

Lemma stands_apply pol b h os op : stands pol b h os → zlen os < two31 → op_ok op → ∃ b1 rep ts b2,
  apply b op = Ok (b1, rep) ∧ OrderBook.drain_trades b1 = Ok (ts, b2) ∧
  stands pol b2 (foldl hash_trade h ts) (os ++ [op]) ∧ ts = printed (replay (start pol) os) op.
Proof.
  intros (Hrepr & Hlen & ->) Hn (Hid & How & Hp & Hq). unfold stands, replay. rewrite foldl_app. simpl. fold (replay (start pol) os).
  set (T := replay (start pol) os) in *. unfold apply_op, printed. rewrite apply_step.
  assert (Hop : Diff.op_ok (diff_op op)) by by exact (conj Hid (conj How (conj Hp Hq))).
  pose proof (Diff.engine_step b _ _ _ (diff_op op) Hrepr Hlen Hn Hop) as Hs.
  destruct (Diff.spec_step (tr_book T) (diff_op op)) as [[S' rep] ts]. destruct Hs as (b1 & -> & Hrepr' & Hlen').
  destruct (Refine.drain_trades_refines _ _ _ Hrepr') as (b2 & Hdr & Hrepr2). exists b1, rep. eexists _, b2.
  split; [done|]. split; [exact Hdr|].
  destruct (TradeRing.fifo_pushes_prefix (TradeRing.MkFifo [] kTradeCapacity (tr_lost T)) ts) as (k & _ & Hbound).
  rewrite Hbound in Hrepr2. split_and!; [exact Hrepr2| |done|done]. rewrite zlen_app. change (zlen [op]) with 1. exact Hlen'.
Qed.

Lemma stands_dropped pol b h os : stands pol b h os → TradeRing.dropped (OrderBook.trade_out b) = tr_lost (replay (start pol) os).
Proof. intros ((Q & fl & _ & _ & _ & HF) & _). apply (f_equal TradeRing.lost) in HF. by symmetry. Qed.

End engine.

(** ** Quantities in lots

    When every order is a multiple of the lot, so is everything that rests and
    every fill: an operation prints no more trades than it has lots. *)

Section lots.
Context (l : Z).

Definition in_lots (q : list RestingOrder) : Prop := ∀ r, r ∈ q → (l | r_qty r).

Lemma match_queue_lots pol limit taker rep seq opp : Spec.orders_ok opp → in_lots opp →
  (l | o_qty taker) → 0 ≤ o_qty taker → let m := Spec.match_queue pol limit taker rep seq opp in
  in_lots (Spec.m_queue m) ∧ (l | o_qty (Spec.m_taker m)) ∧
  l * zlen (Spec.m_trades m) ≤ o_qty taker - o_qty (Spec.m_taker m).
Proof.
  revert taker rep seq. induction opp as [|r opp IH]; intros taker rep seq Hok Hlots Hd Hq; simpl.
  { split_and!; [done..|]. change (zlen []) with 0. lia. }
  apply Spec.orders_ok_cons in Hok as [(_ & _ & Hr & _) Hok].
  assert (Hlots' : in_lots opp) by (intros x Hx; apply Hlots; by right).
  assert (Hrl : (l | r_qty r)) by (apply Hlots; left).
  destruct (negb _ || negb _) eqn:Estop; [simpl; split_and!; [done..|change (zlen []) with 0; lia]|].
  apply orb_false_iff in Estop as [Hpos _]. apply negb_false_iff, Z.ltb_lt in Hpos.
  destruct (Spec.self_trade _ _ _).
  { destruct (policy_eqb _ _); [simpl; split_and!; [done..|change (zlen []) with 0; lia]|by apply IH]. }
  set (q := Z.min (o_qty taker) (r_qty r)). assert (Hql : (l | q)) by (unfold q; destruct (Z.min_spec (o_qty taker) (r_qty r)) as [[_ ->]|[_ ->]]; done).
  assert (Hqb : l ≤ q) by (apply Z.divide_pos_le; [unfold q; lia|done]).
  destruct (Z.eqb_spec (r_qty r) q) as [E|E].
  - destruct (IH (o_with_qty taker (o_qty taker - q)) (rep_fill rep seq q) (u64 (seq + 1)) Hok Hlots') as (H1 & H2 & H3);
      [simpl; by apply Z.divide_sub_r|simpl; unfold q; lia|]. simpl in *. split_and!; [done..|]. rewrite zlen_cons. lia.
  - simpl. split_and!; [|by apply Z.divide_sub_r|change (zlen [_]) with 1; lia].
    intros x [->|Hx]%elem_of_cons; [simpl; by apply Z.divide_sub_r|by apply Hlots'].
Qed.

Definition book_lots (S' : Spec.Book) : Prop := ∀ s, in_lots (Spec.side s S').

Lemma submit_lots b id owner s limit qty rest : Spec.wf b → book_lots b → (l | qty) → 0 ≤ qty →
  let '(b', _, ts) := Spec.submit b id owner s limit qty rest in book_lots b' ∧ l * zlen ts ≤ qty.
Proof.
  intros Hwf Hb Hd Hq. unfold Spec.submit. destruct (_ || _); [split; [done|change (zlen []) with 0; lia]|]. cbv zeta.
  destruct (Spec.wf_elim s b Hwf) as (_ & _ & _ & Hok & _).
  assert (Hoko : Spec.orders_ok (Spec.side (opposite s) b)) by (intros r Hr; apply Hok, elem_of_app; by right).
  pose proof (match_queue_lots (Spec.policy b) limit (MkOrder id owner (default 0 limit) qty s) ExecReport0 (Spec.next_seq b)
    (Spec.side (opposite s) b) Hoko (Hb _) Hd Hq) as (H1 & H2 & H3).
  pose proof (Spec.match_queue_left (Spec.policy b) limit (MkOrder id owner (default 0 limit) qty s) ExecReport0 (Spec.next_seq b)
    (Spec.side (opposite s) b) Hoko Hq) as H4.
  set (m := Spec.match_queue _ _ _ _ _ _) in *. simpl in H3, H4.
  assert (Hm : book_lots (Spec.set_seq (Spec.m_seq m) (Spec.set_side (opposite s) (Spec.m_queue m) b))).
  { intros s'. specialize (Hb s'). destruct s, s'; simpl in *; done. }
  destruct (_ && _ && _); (split; [|lia]); [|done]. intros s'. specialize (Hm s').
  destruct (decide (s' = s)) as [->|Hne]; [|by destruct s, s'].
  rewrite Spec.side_set_side. intros r. rewrite Spec.enqueue_perm. intros [->|Hr]%elem_of_cons; [done|].
  specialize (Hb s). apply Hb. by destruct s.
Qed.

Lemma cancel_lots b id : book_lots b → book_lots (Spec.cancel b id).1.
Proof. intros Hb [] r; simpl; intros [_ Hr]%list_elem_of_filter; [by apply (Hb Buy)|by apply (Hb Sell)]. Qed.

Lemma spec_step_lots S' op : Spec.wf S' → book_lots S' → (l | op_qty op) → 0 ≤ op_qty op →
  let '(S1, _, ts) := Diff.spec_step S' (diff_op op) in book_lots S1 ∧ l * zlen ts ≤ op_qty op.
Proof.
  intros Hwf Hb Hd Hq. unfold Diff.spec_step, diff_op. simpl. destruct (op_kind op); simpl.
  - by apply submit_lots.
  - split; [by apply cancel_lots|change (zlen []) with 0; lia].
  - unfold Spec.modify. destruct (Spec.find _ _) as [o|]; [|split; [done|change (zlen []) with 0; lia]].
    pose proof (cancel_lots S' (op_id op) Hb). destruct (_ =? 0); [split; [done|change (zlen []) with 0; lia]|].
    apply submit_lots; [by apply Spec.cancel_wf|done..].
  - destruct (op_market op); by apply submit_lots.
Qed.

End lots.

(** Up to 64 draws of up to 20 lots each. *)
Definition kMaxLots : Z := 1280.

Definition lot_op (l : Z) (op : Op) : Prop := (l | op_qty op) ∧ op_qty op ≤ l * kMaxLots.

Section losses.
Context {build : Build}.

(** Every sequence of operations can be replayed. *)
Lemma replay_stands pol os : zlen os ≤ two31 → Forall op_ok os → ∃ b h, stands pol b h os.
Proof.
  induction os as [|op os IH] using rev_ind.
  { intros _ _. destruct (stands_make (Types.MkConfig pol kTradeCapacity true 0 1024 None)) as (b & _ & Hb); [by repeat split|done|by exists b, kHashSeed]. }
  rewrite zlen_app. change (zlen [op]) with 1. rewrite Forall_app, Forall_singleton. intros Hn [Hos Hop].
  destruct IH as (b & h & Hb); [lia|done|]. destruct (stands_apply pol b h os op Hb) as (_ & _ & ts & b2 & _ & _ & Hb2 & _); [lia|done|].
  by exists b2, (foldl hash_trade h ts).
Qed.

(** No operation fills the ring, so a replay loses no trade. *)
Lemma replay_no_loss l pol os : 0 < l → zlen os ≤ two31 → Forall op_ok os → Forall (lot_op l) os →
  book_lots l (tr_book (replay (start pol) os)) ∧ tr_lost (replay (start pol) os) = 0.
Proof.
  intros Hl. induction os as [|op os IH] using rev_ind; [intros _ _ _; split; [|done]; intros [] r Hr; by apply elem_of_nil in Hr|].
  rewrite zlen_app. change (zlen [op]) with 1. rewrite !Forall_app, !Forall_singleton. intros Hn [Hos Hop] [Hlots [Hd Hmax]].
  destruct (replay_stands pol os) as (b & h & Hst); [lia|done|]. destruct Hst as (Hrepr & _ & _). pose proof (Refine.repr_wf _ _ _ Hrepr) as Hwf.
  destruct IH as [Hb H0]; [lia|done|done|]. unfold replay in *. rewrite foldl_app. simpl.
  set (T := foldl apply_op (start pol) os) in *. unfold apply_op.
  assert (Hq : 0 ≤ op_qty op) by apply Hop.
  pose proof (spec_step_lots l (tr_book T) op Hwf Hb Hd Hq) as Hs.
  destruct (Diff.spec_step _ _) as [[S' rep] ts]. destruct Hs as [Hb' Hts]. split; [exact Hb'|]. simpl. rewrite H0.
  apply TradeRing.fifo_pushes_fit. unfold kTradeCapacity, kMaxLots in *. nia.
Qed.

End losses.

End Replay.
