(* ===== verification/FlowSteps.v ===== *)
(** * The steps of the flow generator

    The invariant of the generator of Flow.v: its book stands where a replay of
    the emitted operations stands, its tallies count them, and every step returns
    and keeps it. *)

From stdpp Require Import base decidable list.
From S2P Require Import Prelude.
From S2P Require Import Types.
From S2P Require Import Ring.
From S2P Require Import Ladder.
From S2P Require Import SortedMap.
From S2P Require Import Spec.
From S2P Require Import Book.
From S2P Require Import Inv.
From S2P Require Import Checks.
From S2P Require Import Refine.
From S2P Require Import Diff.
From S2P Require Import Reach.
From S2P Require Import EngineProps.
From S2P Require Import Rng.
From S2P Require Import Flow.
From S2P Require Import Replay.
Import Flow.
Import Replay.
Import Reach.

(** ** What the statistics count *)

Definition kind_count (c : Z) (os : list Op) : Z := zlen (filter (λ op, kind_code (op_kind op) = c) os).

Definition market_count (os : list Op) : Z := zlen (filter (λ op, kind_code (op_kind op) = 3 ∧ op_market op = true) os).

(** The generator's tallies are those of the operations from the [b]-th on. *)
Definition tallied (pol : SelfTradePolicy) (b : nat) (g : Gen) : Prop :=
  counts g = (λ c, kind_count c (drop b (out g))) <$> [0; 1; 2; 3] ∧
  markets g = market_count (drop b (out g)) ∧
  fills g = zlen (replay_trades (replay (start pol) (firstn b (out g))) (drop b (out g))).

Lemma kind_count_snoc c os op : kind_count c (os ++ [op]) = kind_count c os + (if decide (kind_code (op_kind op) = c) then 1 else 0).
Proof. unfold kind_count. rewrite filter_app, zlen_app, filter_cons. by destruct (decide _). Qed.

Lemma kind_count_range c os : 0 ≤ kind_count c os ≤ zlen os.
Proof. unfold kind_count, zlen. pose proof (length_filter (λ op, kind_code (op_kind op) = c) os). lia. Qed.

Lemma market_count_snoc os op : market_count (os ++ [op]) =
  market_count os + match op_kind op with Marketable => if op_market op then 1 else 0 | _ => 0 end.
Proof.
  unfold market_count. rewrite filter_app, zlen_app, filter_cons. f_equal.
  destruct (op_kind op), (op_market op), (decide _) as [[? ?]|Hn]; simpl in *; try done. by destruct Hn.
Qed.

Lemma market_count_range os : 0 ≤ market_count os ≤ zlen os.
Proof. unfold market_count, zlen. pose proof (length_filter (λ op, kind_code (op_kind op) = 3 ∧ op_market op = true) os). lia. Qed.

(** [++count[kind]]. *)
Lemma bump_four a b c d k : bump [a; b; c; d] (kind_code k) =
  match k with
  | Add => [u64 (a + 1); b; c; d] | Cancel => [a; u64 (b + 1); c; d]
  | Modify => [a; b; u64 (c + 1); d] | Marketable => [a; b; c; u64 (d + 1)]
  end.
Proof. by destruct k. Qed.

Lemma bump_counts os op : zlen os < two31 →
  bump ((λ c, kind_count c os) <$> [0; 1; 2; 3]) (kind_code (op_kind op)) = (λ c, kind_count c (os ++ [op])) <$> [0; 1; 2; 3].
Proof.
  intros Hlen. cbn [fmap list_fmap]. rewrite bump_four, !kind_count_snoc.
  pose proof (kind_count_range 0 os). pose proof (kind_count_range 1 os). pose proof (kind_count_range 2 os). pose proof (kind_count_range 3 os).
  destruct (op_kind op); simpl; rewrite ?Z.add_0_r, u64_small by lia; done.
Qed.

(** ** The steps *)

Section flow.
Context {build : Build} (cfg : Config).

(** The histogram of spreads, which no step touches, and the operation since
    which the flow is timed, if it is; and operations already emitted. *)
Context (H : list Z) (since : option nat) (before : list Op).

(** The draws of a marketable order are so many lots at most. *)
Definition lots_fit : Prop := 0 < lot cfg ∧ lot cfg * kMaxLots < two32.

(** ** The generator's invariant *)

(** After [n] operations. *)
Record gen_ok (n : Z) (g : Gen) : Prop := {
  g_book : stands (self_trade cfg) (book g) (hash g) (out g);
  g_ops : Forall op_ok (out g);
  g_lots : lots_fit → Forall (lot_op (lot cfg)) (out g);
  g_next : 0 ≤ next_id g < two64;
  g_live : ∀ id, id ∈ live g → 0 ≤ id < two64;
  g_few : zlen (live g) ≤ n;
  g_hist : spread_hist g = H;
  g_timing : timing g = bool_decide (is_Some since);
  g_stats : match since with
    | Some b => (b ≤ length (out g))%nat ∧ tallied (self_trade cfg) b g
    | None => counts g = [0; 0; 0; 0] ∧ markets g = 0 ∧ fills g = 0
    end;
  g_before : before `prefix_of` out g;
  g_out : zlen (out g) = n;
}.

(** Only the random stream moved. *)
Definition drawn (g g' : Gen) : Prop := ∃ r, g' = set_rng r g.

Lemma drawn_refl g : drawn g g.
Proof. exists (rng g). by destruct g. Qed.

Lemma drawn_trans g1 g2 g3 : drawn g1 g2 → drawn g2 g3 → drawn g1 g3.
Proof. intros [r ->] [r' ->]. by exists r'. Qed.

#[local] Hint Resolve drawn_refl drawn_trans : lob.

Lemma drawn_ok n g g' : drawn g g' → gen_ok n g → gen_ok n g'.
Proof. intros [r ->] []. by split. Qed.

Lemma draw_drawn g n : drawn g (draw g n).2.
Proof. unfold draw. destruct (Rng.below _ _) as [v r]. by exists r. Qed.

Lemma chance_drawn g n : drawn g (chance g n).2.
Proof. unfold chance. destruct (Rng.chance _ _) as [v r]. by exists r. Qed.

Lemma chance_per_mille_drawn g n : drawn g (chance_per_mille g n).2.
Proof. unfold chance_per_mille. destruct (Rng.chance_per_mille _ _) as [v r]. by exists r. Qed.

Lemma geometric_drawn g p n : drawn g (geometric g p n).2.
Proof. unfold geometric. destruct (Rng.geometric _ _ _) as [v r]. by exists r. Qed.

Lemma random_side_drawn g : drawn g (random_side g).2.
Proof. unfold random_side. pose proof (chance_drawn g 50). by destruct (chance g 50). Qed.

Lemma random_owner_spec g : drawn g (random_owner cfg g).2 ∧ 0 ≤ (random_owner cfg g).1 < two32.
Proof.
  unfold random_owner. pose proof (draw_drawn g (owners cfg)). destruct (draw g _) as [v g'].
  split; simpl; auto with lob.
Qed.

(** [k] lots at most. *)
Definition some_lots (k : Z) (q : Quantity) : Prop := lots_fit → ∃ j, 0 ≤ j ≤ k ∧ q = lot cfg * j.

Lemma some_lots_op k op : some_lots k (op_qty op) → k ≤ kMaxLots → lots_fit → lot_op (lot cfg) op.
Proof.
  intros Hs Hk Hfit. destruct (Hs Hfit) as (j & Hj & E). destruct Hfit. split; rewrite E; [exists j; lia|nia].
Qed.

Lemma random_qty_spec g : drawn g (random_qty cfg g).2 ∧ 0 ≤ (random_qty cfg g).1 < two32 ∧
  some_lots 20 (random_qty cfg g).1.
Proof.
  unfold random_qty. pose proof (geometric_drawn g (size_decay_percent cfg) 19) as Hd.
  pose proof (Rng.geometric_range (Flow.rng g) (size_decay_percent cfg) 19 ltac:(lia)) as Hr.
  unfold geometric in *. destruct (Rng.geometric _ _ _) as [v r]. simpl in *.
  split; [done|]. split; [apply u32_range|]. intros [Hl Hfit]. unfold kMaxLots in *. exists (1 + v). split; [lia|].
  apply u32_small. nia.
Qed.

Lemma sum_qty_spec (n : nat) k g q : 0 ≤ q < two32 → some_lots k q → 0 ≤ k → k + 20 * Z.of_nat n ≤ kMaxLots →
  drawn g (sum_qty cfg n g q).2 ∧ 0 ≤ (sum_qty cfg n g q).1 < two32 ∧ some_lots kMaxLots (sum_qty cfg n g q).1.
Proof.
  revert k g q. induction n as [|n IH]; intros k g q Hq Hs Hk Hn; cbn [sum_qty].
  { split; [apply drawn_refl|]. split; [done|]. intros Hfit. destruct (Hs Hfit) as (j & ? & ?). exists j. split; [simpl in *; lia|done]. }
  pose proof (random_qty_spec g) as (Hd & Hx & Hsx). destruct (random_qty cfg g) as [x g1]. simpl in Hd, Hx, Hsx.
  destruct (IH (k + 20) g1 (u32 (q + x)) (u32_range _)) as (Hd' & ? & ?); [|lia|lia|split; [by eapply drawn_trans|done]].
  intros Hfit. destruct (Hs Hfit) as (j & ? & ->). destruct (Hsx Hfit) as (j' & ? & ->). exists (j + j'). split; [lia|].
  destruct Hfit. unfold kMaxLots in *. rewrite u32_small by nia. lia.
Qed.

Lemma draw_takes_spec n g pull takes : drawn g (draw_takes n g pull takes).2 ∧
  takes ≤ (draw_takes n g pull takes).1 ≤ takes + Z.of_nat n.
Proof.
  revert g takes. induction n as [|n IH]; intros g takes; cbn [draw_takes]; [split; [apply drawn_refl|simpl; lia]|].
  pose proof (chance_per_mille_drawn g pull) as Hd. destruct (chance_per_mille g pull) as [[|] g1]; [|split; [done|simpl; lia]].
  destruct (IH g1 (takes + 1)) as [? ?]. split; [by eapply drawn_trans|lia].
Qed.

Lemma random_offset_drawn g : drawn g (random_offset cfg g).2.
Proof.
  unfold random_offset. pose proof (chance_drawn g (near_touch_percent cfg)) as Hd. destruct (chance g _) as [[|] g1].
  - eapply drawn_trans; [exact Hd|]. apply geometric_drawn.
  - eapply drawn_trans; [exact Hd|]. apply draw_drawn.
Qed.

Lemma passive_price_spec g side : drawn g (passive_price cfg g side).2 ∧ 0 ≤ (passive_price cfg g side).1 < two64.
Proof.
  unfold passive_price. pose proof (random_offset_drawn g) as Hd. destruct (random_offset cfg g) as [off g1].
  destruct side; (split; [done|]); simpl.
  - destruct (OrderBook.best_ask (book g1)) as [a|]; [destruct (_ <=? _)|]; apply u64_range.
  - destruct (OrderBook.best_bid (book g1)) as [a|]; [destruct (_ <=? _)|]; apply u64_range.
Qed.

(** ** Emitting one operation *)

Lemma tally_emit b g op ts : tallied (self_trade cfg) b g → (b ≤ length (out g))%nat → zlen (out g) < two31 →
  ts = Replay.printed (replay (start (self_trade cfg)) (out g)) op → ∀ r bk l m i t h sh st,
  tallied (self_trade cfg) b (mk r bk l m i t h sh (out g ++ [op]) (bump (counts g) (kind_code (op_kind op)))
    (match op_kind op with Marketable => u64 (markets g + (if op_market op then 1 else 0)) | _ => markets g end)
    (u64 (fills g + zlen ts)) st).
Proof.
  intros (Hc & Hm & Hf) Hb Hlen -> *. unfold tallied. simpl. rewrite drop_app_le, take_app_le by done.
  assert (Hd : zlen (drop b (out g)) < two31) by (unfold zlen in *; rewrite length_drop; lia).
  split_and!.
  - rewrite Hc. by apply bump_counts.
  - rewrite market_count_snoc, Hm. pose proof (market_count_range (drop b (out g))).
    destruct (op_kind op); [lia..|]. apply u64_small. destruct (op_market op); lia.
  - rewrite replay_trades_snoc, zlen_app. rewrite <-replay_app, take_drop.
    rewrite Hf. pose proof (printed_few (replay (start (self_trade cfg)) (out g)) op).
    pose proof (replay_trades_few (replay (start (self_trade cfg)) (firstn b (out g))) (drop b (out g))).
    unfold kTradeCapacity in *. apply u64_small. split; [|lia]. apply Z.add_nonneg_nonneg; apply zlen_nonneg.
Qed.

Lemma emit_spec n g op : gen_ok n g → n < two31 → op_ok op → (lots_fit → lot_op (lot cfg) op) → ∃ g', emit g op = Ok g' ∧
  (∀ l, (∀ id, id ∈ l → 0 ≤ id < two64) → zlen l ≤ n + 1 → gen_ok (n + 1) (set_live l g')) ∧
  live g' = live g.
Proof.
  intros [Hst Hops Hlots Hnext Hlive Hfew Hhist Htim Hstats Hbefore Hout] Hn Hop Hlot. unfold emit.
  destruct (stands_apply _ _ _ _ op Hst) as (b1 & rep & ts & b2 & -> & Hdr & Hst' & Hts); [lia|done|]. cbn [mbind res_bind].
  rewrite Hdr. cbn [mbind res_bind]. eexists. split; [done|]. split.
  - intros l Hl Hfewl. split; simpl; try done; try (destruct (timing g); simpl; done).
    + destruct (timing g); simpl; by rewrite Forall_app, Forall_singleton.
    + destruct (timing g); simpl; intros Hfit; rewrite Forall_app, Forall_singleton; (split; [by apply Hlots|by apply Hlot]).
    + rewrite Htim. destruct since as [b|]; simpl; [|done]. destruct Hstats as [Hb Ht].
      split; [rewrite length_app; simpl; lia|]. apply (tally_emit b g op ts); [done|done|lia|done].
    + destruct (timing g); simpl; by apply prefix_app_r.
    + destruct (timing g); simpl; rewrite zlen_app; change (zlen [op]) with 1; lia.
  - by destruct (timing g).
Qed.

Lemma set_live_live g : set_live (live g) g = g.
Proof. by destruct g. Qed.

Lemma set_next_ok n g i : gen_ok n g → 0 ≤ i < two64 → gen_ok n (set_next_id i g).
Proof. intros [] ?. by split. Qed.

Lemma add_spec n g side : gen_ok n g → n < two31 → ∃ g', add cfg g side = Ok g' ∧ gen_ok (n + 1) g'.
Proof.
  intros Hg Hn. unfold add. pose proof (g_next _ _ Hg) as Hnext.
  pose proof (set_next_ok n g (u64 (next_id g + 1)) Hg (u64_range _)) as Hg1. set (g1 := set_next_id _ g) in *.
  pose proof (passive_price_spec g1 side) as [Hd2 Hp]. destruct (passive_price cfg g1 side) as [price g2].
  pose proof (random_qty_spec g2) as (Hd3 & Hq & Hlq). destruct (random_qty cfg g2) as [qty g3].
  pose proof (random_owner_spec g3) as [Hd4 Ho]. destruct (random_owner cfg g3) as [owner g4]. simpl in *.
  assert (Hg4 : gen_ok n g4) by (eapply drawn_ok; [|exact Hg1]; eauto with lob).
  destruct (emit_spec n g4 (MkOp (next_id g) price qty owner Add side false) Hg4 Hn) as (g5 & -> & Hok & Hl); [done|by apply (some_lots_op 20)|].
  cbn [mbind res_bind]. eexists. split; [done|]. apply Hok.
  - intros id [Hin|Hin]%elem_of_app; [rewrite Hl in Hin; by apply (g_live _ _ Hg4)|].
    by apply list_elem_of_singleton in Hin as ->.
  - rewrite zlen_app, Hl. pose proof (g_few _ _ Hg4). change (zlen [next_id g]) with 1. lia.
Qed.

Lemma add_random_spec n g : gen_ok n g → n < two31 → ∃ g', add_random cfg g = Ok g' ∧ gen_ok (n + 1) g'.
Proof.
  intros Hg Hn. unfold add_random. pose proof (random_side_drawn g) as Hd. destruct (random_side g) as [side g1].
  apply add_spec; [by eapply drawn_ok|done].
Qed.
(** ** Taking a live id *)

Lemma find_total n g id : gen_ok n g → ∃ o, OrderBook.find (book g) id = Ok o.
Proof.
  intros Hg. destruct (g_book _ _ Hg) as ((Q & fl & Hinv & HS & Hwf & _) & _). rewrite HS in Hwf. eexists. by apply (Checks.find_abs (book g) Q fl).
Qed.

Lemma erase_at_spec v idx : 0 ≤ idx < zlen v → length (erase_at v idx) = pred (length v) ∧ ∀ id, id ∈ erase_at v idx → id ∈ v.
Proof.
  intros Hi. unfold erase_at, zlen in *. split.
  - rewrite length_app, length_take, length_drop. lia.
  - intros id [Hin|Hin]%elem_of_app; eapply elem_of_sublist; [exact Hin|apply sublist_take|exact Hin|apply sublist_drop].
Qed.

Lemma set_live_ok n g l : gen_ok n g → (∀ id, id ∈ l → id ∈ live g) → zlen l ≤ zlen (live g) → gen_ok n (set_live l g).
Proof. intros [] Hl Hlen. split; simpl; try done; [intros id Hin; by eauto|lia]. Qed.

(** The position drawn is one of the list's. *)
Lemma live_index_spec n g : gen_ok n g → n ≤ two31 → live g ≠ [] →
  let '(idx, g') := live_index cfg g in 0 ≤ idx < zlen (live g) ∧ drawn g g'.
Proof.
  intros Hg Hn Hne. unfold live_index. assert (Hpos : 0 < zlen (live g)) by (destruct (live g); [done|unfold zlen; simpl; lia]).
  pose proof (g_few _ _ Hg). pose proof (chance_drawn g (recent_percent cfg)) as [r1 Hd]. destruct (chance g _) as [recent g1]. simpl in Hd. subst g1.
  destruct recent.
  - set (g1 := set_rng r1 g). change (live g1) with (live g).
    pose proof (geometric_drawn g1 (recent_decay_percent cfg) (Z.min (zlen (live g) - 1) (two32 - 1))) as Hd2.
    pose proof (Rng.geometric_range (Flow.rng g1) (recent_decay_percent cfg) (Z.min (zlen (live g) - 1) (two32 - 1)) ltac:(lia)) as Hr.
    unfold geometric in *. destruct (Rng.geometric _ _ _) as [v r]. simpl in *. rewrite u64_small by lia.
    split; [lia|]. by eexists.
  - set (g1 := set_rng r1 g). change (live g1) with (live g). pose proof (Rng.below_range (Flow.rng g1) (zlen (live g)) ltac:(lia)) as (H1 & H2 & _).
    unfold draw. destruct (Rng.below _ _) as [v r]. simpl in *. split; [specialize (H2 Hpos); lia|]. by eexists.
Qed.

Lemma take_live_spec n (fuel : nat) g : gen_ok n g → n ≤ two31 → (length (live g) < fuel)%nat → ∃ o g',
  take_live cfg fuel g = Ok (o, g') ∧ gen_ok n g' ∧ zlen (live g') + (match o with Some _ => 1 | None => 0 end) ≤ zlen (live g) ∧
  match o with Some id => 0 ≤ id < two64 ∧ ∃ x, OrderBook.find (book g') id = Ok (Some x) | None => True end.
Proof.
  revert g. induction fuel as [|fuel IH]; intros g Hg Hn Hf; [lia|]. cbn [take_live].
  destruct (live g) as [|i l] eqn:Hl; [exists None, g; rewrite Hl; by split_and!|]. rewrite <-Hl in *.
  assert (Hne : live g ≠ []) by (by rewrite Hl). pose proof (live_index_spec n g Hg Hn Hne) as Hidx.
  destruct (live_index cfg g) as [idx g2]. destruct Hidx as [Hi [r2 ->]].
  cbv zeta. change (live (set_rng r2 g)) with (live g). destruct (zlookup_lt _ _ Hi) as [id Hid].
  rewrite (vget_ok _ _ _ Hid). cbn [mbind res_bind]. destruct (erase_at_spec _ _ Hi) as [Hlen Hsub].
  set (g3 := set_live _ _). assert (Hg3 : gen_ok n g3).
  { apply set_live_ok; [by eapply drawn_ok; [eexists|]|exact Hsub|]. unfold zlen. simpl. lia. }
  assert (Hpos : (0 < length (live g))%nat) by (rewrite Hl; simpl; lia).
  assert (Hidr : 0 ≤ id < two64) by (apply (g_live _ _ Hg); by apply zlookup_Some in Hid as [_ ?%list_elem_of_lookup_2]).
  destruct (find_total n g3 id Hg3) as [o Ho]. rewrite Ho. cbn [mbind res_bind]. destruct o as [x|].
  - exists (Some id), g3. split; [done|]. split; [done|]. split; [unfold zlen in *; simpl; lia|]. split; [done|by exists x].
  - destruct (IH g3 Hg3 Hn) as (o & g' & -> & Hg' & Hl' & Ho'); [simpl; lia|]. exists o, g'. split; [done|]. split; [done|].
    split; [|done]. unfold zlen in *. simpl in Hl'. lia.
Qed.

Lemma live_take_spec n g : gen_ok n g → n ≤ two31 → ∃ o g', take cfg g = Ok (o, g') ∧ gen_ok n g' ∧
  zlen (live g') + (match o with Some _ => 1 | None => 0 end) ≤ zlen (live g) ∧
  match o with Some id => 0 ≤ id < two64 ∧ ∃ x, OrderBook.find (book g') id = Ok (Some x) | None => True end.
Proof. intros. apply take_live_spec; [done..|lia]. Qed.

(** ** The operations *)

Lemma cancel_spec n g : gen_ok n g → n < two31 → ∃ g', cancel cfg g = Ok g' ∧ gen_ok (n + 1) g'.
Proof.
  intros Hg Hn. unfold cancel. destruct (live_take_spec n g Hg ltac:(lia)) as ([id|] & g1 & -> & Hg1 & _ & Ho); cbn [mbind res_bind].
  - destruct Ho as [Hid _]. destruct (emit_spec n g1 (MkOp id 0 0 0 Cancel Buy false) Hg1 Hn) as (g2 & -> & Hok & Hl); [done|apply (some_lots_op 0); [|done]; intros _; by exists 0; rewrite Z.mul_0_r|].
    exists g2. split; [done|]. rewrite <-(set_live_live g2). apply Hok; rewrite Hl; [apply Hg1|]. pose proof (g_few _ _ Hg1). lia.
  - by apply add_random_spec.
Qed.

Lemma modify_spec n g : gen_ok n g → n < two31 → ∃ g', modify cfg g = Ok g' ∧ gen_ok (n + 1) g'.
Proof.
  intros Hg Hn. unfold modify. destruct (live_take_spec n g Hg ltac:(lia)) as ([id|] & g1 & -> & Hg1 & Hfew & Ho); cbn [mbind res_bind].
  2:{ by apply add_random_spec. }
  destruct Ho as [Hid [x Hx]]. rewrite Hx. cbn [mbind res_bind]. cbv zeta.
  pose proof (passive_price_spec g1 (o_side x)) as [Hd2 Hp]. destruct (passive_price cfg g1 _) as [price g2].
  pose proof (random_qty_spec g2) as (Hd3 & Hq & Hlq). destruct (random_qty cfg g2) as [qty g3]. simpl in *.
  assert (Hd : drawn g1 g3) by eauto with lob. pose proof (drawn_ok _ _ _ Hd Hg1) as Hg3.
  destruct (emit_spec n g3 (MkOp id price qty 0 Modify (o_side x) false) Hg3 Hn) as (g4 & -> & Hok & Hl); [done|by apply (some_lots_op 20)|].
  cbn [mbind res_bind]. eexists. split; [done|]. apply Hok.
  - intros i [Hin|Hin]%elem_of_app; [rewrite Hl in Hin; by apply (g_live _ _ Hg3)|]. by apply list_elem_of_singleton in Hin as ->.
  - rewrite zlen_app, Hl. pose proof (g_few _ _ Hg3). change (zlen [id]) with 1. lia.
Qed.

Lemma aim_spec g side : let '(_, price, g') := aim g side in drawn g g' ∧ 0 ≤ price < two64.
Proof.
  unfold aim. destruct (match side with Buy => _ | Sell => _ end) as [touch|]; [|split; [apply drawn_refl|done]].
  pose proof (chance_drawn g 50) as Hd. destruct (chance g 50) as [[|] g1]; [done|].
  pose proof (draw_drawn g1 3) as Hd1. destruct (draw g1 3) as [v g2].
  split; [by eapply drawn_trans|]. destruct side; apply u64_range.
Qed.

Lemma marketable_spec n g : gen_ok n g → n < two31 → ∃ g', marketable cfg g = Ok g' ∧ gen_ok (n + 1) g'.
Proof.
  intros Hg Hn. unfold marketable. pose proof (random_side_drawn g) as Hd1. destruct (random_side g) as [side g1]. cbv zeta.
  set (pull := if OrderBook.size (book g1) =? 0 then _ else _). pose proof (draw_takes_spec 63 g1 (Z.min pull 950) 1) as [Hd2 Htakes].
  destruct (draw_takes _ _ _ _) as [takes g2].
  simpl in Hd2, Htakes.
  assert (H0 : some_lots 0 0) by (intros _; by exists 0; rewrite Z.mul_0_r).
  assert (Hmax : 0 + 20 * Z.of_nat (Z.to_nat takes) ≤ kMaxLots) by (unfold kMaxLots; lia).
  pose proof (sum_qty_spec (Z.to_nat takes) 0 g2 0 ltac:(lia) H0 ltac:(lia) Hmax) as (Hd3 & Hq & Hlq). destruct (sum_qty _ _ _ _) as [qty g3]. simpl in *.
  pose proof (aim_spec g3 side) as Haim. destruct (aim g3 side) as [[market price] g4]. destruct Haim as [Hd4 Hp].
  pose proof (g_next _ _ Hg) as Hnext.
  assert (Hd : drawn g g4) by eauto with lob. pose proof (drawn_ok _ _ _ Hd Hg) as Hg4.
  assert (Hn4 : next_id g4 = next_id g) by (by destruct Hd as [r ->]). rewrite Hn4.
  pose proof (set_next_ok n g4 (u64 (next_id g + 1)) Hg4 (u64_range _)) as Hg5. set (g5 := set_next_id _ g4) in *.
  pose proof (random_owner_spec g5) as [Hd6 Ho]. destruct (random_owner cfg g5) as [owner g6]. simpl in *.
  pose proof (drawn_ok _ _ _ Hd6 Hg5) as Hg6.
  destruct (emit_spec n g6 (MkOp (next_id g) price qty owner Marketable side market) Hg6 Hn) as (g7 & -> & Hok & Hl); [done|by apply (some_lots_op kMaxLots)|].
  cbn [mbind res_bind].
  assert (Hg7 : gen_ok (n + 1) g7).
  { rewrite <-(set_live_live g7). apply Hok; rewrite Hl; [apply Hg6|]. pose proof (g_few _ _ Hg6). lia. }
  destruct market; [by exists g7|]. destruct (find_total (n + 1) g7 (next_id g) Hg7) as [o ->]. cbn [mbind res_bind].
  destruct o; [|by exists g7]. eexists. split; [done|]. apply Hok.
  - intros i [Hin|Hin]%elem_of_app; [rewrite Hl in Hin; by apply (g_live _ _ Hg6)|]. by apply list_elem_of_singleton in Hin as ->.
  - rewrite zlen_app, Hl. pose proof (g_few _ _ Hg6). change (zlen [next_id g]) with 1. lia.
Qed.

Lemma sweep_spec n g : gen_ok n g → ∃ g', sweep g = Ok g' ∧ gen_ok n g'.
Proof.
  intros Hg. unfold sweep.
  assert (∃ l, sweep_ids (book g) (live g) = Ok l ∧ l `sublist_of` live g) as (l & -> & Hl).
  { generalize (live g) as ids. induction ids as [|id ids IH]; [by exists []|]. cbn [sweep_ids].
    destruct (find_total n g id Hg) as [o ->]. destruct IH as (l & -> & ?). cbn [mbind res_bind].
    eexists. split; [done|]. destruct o; by constructor. }
  cbn [mbind res_bind]. eexists. split; [done|]. apply set_live_ok; [done|intros id Hin; by eapply elem_of_sublist|].
  apply sublist_length in Hl. unfold zlen. lia.
Qed.

Lemma set_steps_ok n g k : gen_ok n g → gen_ok n (set_steps k g).
Proof. intros []. by split. Qed.

Lemma set_mid_ok n g k : gen_ok n g → gen_ok n (set_mid k g).
Proof. intros []. by split. Qed.

Lemma walk_mid_ok n g : gen_ok n g → gen_ok n (walk_mid cfg g).
Proof.
  intros Hg. unfold walk_mid. pose proof (chance_drawn g 50) as Hd. destruct (chance g 50) as [[|] g1];
    pose proof (drawn_ok _ _ _ Hd Hg); [by apply set_mid_ok|]. simpl. destruct (_ <? _); [by apply set_mid_ok|done].
Qed.

Lemma step_spec n g : gen_ok n g → n < two31 → ∃ g', step cfg g = Ok g' ∧ gen_ok (n + 1) g'.
Proof.
  intros Hg Hn. unfold step. pose proof (chance_per_mille_drawn g (mid_step_per_mille cfg)) as Hd.
  destruct (chance_per_mille g _) as [move g1]. pose proof (drawn_ok _ _ _ Hd Hg) as Hg1. cbv zeta.
  assert (Hg2 : gen_ok n (if move then walk_mid cfg g1 else g1)) by (destruct move; [by apply walk_mid_ok|done]).
  revert Hg2. generalize (if move then walk_mid cfg g1 else g1). intros g2 Hg2.
  pose proof (draw_drawn g2 100) as Hd3. destruct (draw g2 100) as [roll g3]. pose proof (drawn_ok _ _ _ Hd3 Hg2) as Hg3.
  simpl in Hg3. match goal with |- context [mbind _ ?m] => assert (∃ g', m = Ok g' ∧ gen_ok (n + 1) g') as (g4 & -> & Hg4) end.
  { destruct (_ <? _); [by apply add_random_spec|]. destruct (_ <? _); [by apply cancel_spec|].
    destruct (_ <? _); [by apply modify_spec|by apply marketable_spec]. }
  cbn [mbind res_bind]. pose proof (set_steps_ok _ _ (u64 (steps g4 + 1)) Hg4) as Hg5.
  destruct (_ =? 0); [by apply sweep_spec|]. by eexists.
Qed.

End flow.
