(* ===== verification/FlowProps.v ===== *)
(** * The order flow never fails and passive orders never trade

    The generator of Flow.v returns for every configuration its constructor
    accepts, and keeps the promises its header makes. *)

From stdpp Require Import base decidable list.
From S2P Require Import Prelude.
From S2P Require Import Types.
From S2P Require Import Ring.
From S2P Require Import Ladder.
From S2P Require Import SortedMap.
From S2P Require Import Spec.
From S2P Require Import Book.
From S2P Require Import Inv.
From S2P Require Import Checks.
From S2P Require Import Refine.
From S2P Require Import Diff.
From S2P Require Import Reach.
From S2P Require Import EngineProps.
From S2P Require Import Rng.
From S2P Require Import Flow.
From S2P Require Import Replay.
From S2P Require Import FlowSteps.
Import Flow.
Import Replay.
Import Reach.

Section flow.
Context {build : Build} (cfg : Config).

Abbreviation ok := (gen_ok cfg).
Abbreviation begin := (start (self_trade cfg)).

Lemma ok_before H since before n g : ok H since before n g → ok H since (out g) n g.
Proof. intros []. by split. Qed.

Lemma ok_prefix H since before before' n g : ok H since before' n g → before `prefix_of` before' → ok H since before n g.
Proof. intros [] ?. split; try done. by etrans. Qed.

(** ** Samples of the book *)

(** The abstract book after the first [j] operations, its depth and its spread. *)
Definition book_at (os : list Op) (j : nat) : Spec.Book := tr_book (replay begin (firstn j os)).

Definition depth_at (os : list Op) (j : nat) : Z := zlen (Spec.ids (book_at os j)).

Definition spread (S : Spec.Book) : option Z :=
  match Spec.best Buy S, Spec.best Sell S with Some bid, Some ask => Some (ask - bid) | _, _ => None end.

(** Spreads above 64 ticks count as 64. *)
Definition sample_at (os : list Op) (j : nat) : option Z := Z.min 64 <$> spread (book_at os j).

Definition histogram (xs : list Z) : list Z := (λ i, zlen (filter (λ x, x = i) xs)) <$> seqZ 0 65.

Lemma histogram_length xs : zlen (histogram xs) = 65.
Proof. done. Qed.

Lemma histogram_lookup xs i : 0 ≤ i < 65 → (histogram xs).[i] = Some (zlen (filter (λ x, x = i) xs)).
Proof.
  intros Hi. apply zlookup_Some. rewrite histogram_length. split; [done|].
  unfold histogram. rewrite list_lookup_fmap, lookup_seqZ_lt by lia. simpl. by rewrite Z2Nat.id by lia.
Qed.

Lemma histogram_snoc xs i : 0 ≤ i < 65 → zlen xs < two31 →
  (histogram xs).[i := u64 (zlen (filter (λ x, x = i) xs) + 1)] = histogram (xs ++ [i]).
Proof.
  intros Hi Hlen. pose proof (zlen_filter_le (λ x, x = i) xs). pose proof (zlen_nonneg (filter (λ x, x = i) xs)).
  rewrite u64_small by lia. apply list_eq. intros j. rewrite <-!zlookup_of_nat, zlookup_zset, histogram_length.
  destruct (decide (j < 65)%nat) as [Hj|Hj].
  - rewrite !histogram_lookup, filter_app, zlen_app, filter_cons by lia.
    destruct (decide (i = Z.of_nat j)) as [->|Hne]; [by rewrite !decide_True by (split; lia || done)|].
    rewrite !decide_False by tauto. simpl. by rewrite filter_nil, Z.add_0_r.
  - rewrite decide_False by lia. rewrite !zlookup_None; [done|rewrite histogram_length; lia..].
Qed.

(** ** The percentiles of a histogram *)

Lemma sum_histogram xs : zlen xs ≤ two31 → (∀ x, x ∈ xs → 0 ≤ x < 65) → foldl (λ t n, u64 (t + n)) 0 (histogram xs) = zlen xs.
Proof.
  intros Hlen Hxs. assert (H : ∀ (k : nat) s, 0 ≤ s →
    foldl (λ t n, u64 (t + n)) (below s xs) ((λ i, zlen (filter (λ x, x = i) xs)) <$> seqZ s (Z.of_nat k)) = below (s + Z.of_nat k) xs).
  { induction k as [|k IH]; intros s Hs; [by rewrite Z.add_0_r|]. rewrite seqZ_cons by lia. cbn [fmap list_fmap foldl].
    rewrite <-below_step, u64_small by (pose proof (below_bounds (s + 1) xs); lia).
    replace (Z.pred (Z.of_nat (S k))) with (Z.of_nat k) by lia. replace (Z.succ s) with (s + 1) by lia.
    change (list_fmap ?f ?l) with (f <$> l). rewrite IH by lia. f_equal. lia. }
  specialize (H 65%nat 0). rewrite below_none in H by (intros y Hy; apply Hxs in Hy; lia). unfold histogram.
  change (Z.of_nat 65) with 65 in H. rewrite H by lia. apply below_all. intros y Hy. apply Hxs in Hy. lia.
Qed.

Lemma percentile_loop_spec xs (k : nat) s rank : zlen xs ≤ two31 → 0 ≤ s → below s xs < rank ≤ below (s + Z.of_nat k) xs → ∃ p,
  percentile_loop ((λ i, zlen (filter (λ x, x = i) xs)) <$> seqZ s (Z.of_nat k)) s (below s xs) rank = Some p ∧
  below p xs < rank ≤ at_most p xs.
Proof.
  intros Hlen. revert s. induction k as [|k IH]; intros s Hs Hr; [rewrite Z.add_0_r in Hr; lia|].
  rewrite seqZ_cons by lia. cbn [fmap list_fmap percentile_loop]. cbv zeta.
  rewrite <-below_step, u64_small by (pose proof (below_bounds (s + 1) xs); lia).
  replace (Z.pred (Z.of_nat (S k))) with (Z.of_nat k) by lia. replace (Z.succ s) with (s + 1) by lia.
  destruct (Z.leb_spec rank (below (s + 1) xs)); [exists s; rewrite at_most_below; split; [done|lia]|].
  apply IH; [lia|]. split; [lia|]. replace (s + 1 + Z.of_nat k) with (s + Z.of_nat (S k)) by lia. apply Hr.
Qed.

(** The code's percentiles are nearest-rank percentiles of the samples. *)
Lemma spread_percentile_spec xs pct : zlen xs ≤ two31 → (∀ x, x ∈ xs → 0 ≤ x < 65) → 0 < pct ≤ 100 →
  if decide (xs = []) then spread_percentile (histogram xs) pct = 0
  else nearest pct 100 xs (spread_percentile (histogram xs) pct).
Proof.
  intros Hlen Hxs Hp. unfold spread_percentile. rewrite sum_histogram by done. case_decide as Hne; [by subst xs|].
  assert (Hpos : 0 < zlen xs) by (destruct xs; [done|]; rewrite zlen_cons; pose proof (zlen_nonneg xs); lia).
  destruct (Z.eqb_spec (zlen xs) 0); [lia|]. rewrite (u64_small (zlen xs * pct)), u64_small by nia. cbv zeta.
  set (rank := (zlen xs * pct + 99) / 100). assert (Hrank : 100 * (rank - 1) < zlen xs * pct ≤ 100 * rank) by (unfold rank; Z.div_mod_to_equations; lia).
  assert (H0 : below 0 xs = 0) by (apply below_none; intros y Hy; apply Hxs in Hy; lia).
  destruct (percentile_loop_spec xs 65 0 rank) as (p & Hloop & Hb); [done|lia| |].
  { rewrite H0, below_all by (intros y Hy; apply Hxs in Hy; lia). nia. }
  rewrite H0 in Hloop. change (Z.of_nat 65) with 65 in Hloop. unfold histogram at 2. rewrite Hloop. simpl.
  split; [|nia]. rewrite at_most_below, below_step in Hb.
  destruct (filter (λ x, x = p) xs) as [|y l] eqn:E; [change (zlen []) with 0 in Hb; lia|].
  assert (Hy : y ∈ filter (λ x, x = p) xs) by (rewrite E; left). by apply list_elem_of_filter in Hy as [-> ?].
Qed.

(** ** The loops *)

Lemma book_at_prefix os os' : os `prefix_of` os' → book_at os' (length os) = tr_book (replay begin os).
Proof. intros [l ->]. unfold book_at. by rewrite firstn_app, firstn_all, Nat.sub_diag, app_nil_r. Qed.

Lemma spread_range S x : Spec.wf S → Z.min 64 <$> spread S = Some x → 0 ≤ x < 65.
Proof.
  unfold spread, Spec.best, Spec.side. intros Hwf. destruct (Spec.bids S) as [|b bs] eqn:Eb, (Spec.asks S) as [|a l] eqn:Ea; simpl; try done.
  intros [= <-]. pose proof (Spec.wf_uncrossed _ Hwf b a) as Hx. rewrite Eb, Ea in Hx. specialize (Hx ltac:(left) ltac:(left)). lia.
Qed.

Lemma spread_observed S fl b : BookInv.repr b S fl →
  spread S = match OrderBook.best_bid b, OrderBook.best_ask b with Some bid, Some ask => Some (u64 (ask - bid)) | _, _ => None end.
Proof.
  intros Hrepr. pose proof (Refine.repr_wf _ _ _ Hrepr) as Hwf. destruct (repr_best _ _ _ Hrepr) as [-> ->].
  unfold spread, Spec.best, Spec.side. destruct (Spec.bids S) as [|x xs] eqn:Eb, (Spec.asks S) as [|y ys] eqn:Ea; simpl; try done.
  pose proof (Spec.wf_uncrossed _ Hwf x y) as Hx. rewrite Eb, Ea in Hx. specialize (Hx ltac:(left) ltac:(left)).
  assert (Hin : ∀ r, r = x ∨ r = y → 0 ≤ r_price r < two64).
  { intros r Hr. apply (Spec.wf_orders _ Hwf). rewrite Eb, Ea. apply elem_of_app. destruct Hr as [->| ->]; [left|right]; left. }
  pose proof (Hin x ltac:(by left)). pose proof (Hin y ltac:(by right)). by rewrite u64_small by lia.
Qed.

Lemma sample_spread_spec xs since before n g : ok (histogram xs) since before n g → zlen xs < two31 → ∃ g',
  sample_spread g = Ok g' ∧ out g' = out g ∧ book g' = book g ∧
  ok (histogram (xs ++ option_list (sample_at (out g) (length (out g))))) since before n g'.
Proof.
  intros Hg Hxs. destruct (g_book _ _ _ _ _ _ Hg) as (Hrepr & _ & _). pose proof (Refine.repr_wf _ _ _ Hrepr) as Hwf.
  unfold sample_at. rewrite (book_at_prefix (out g) (out g)) by done. pose proof (spread_observed _ _ _ Hrepr) as E.
  pose proof (λ x, spread_range _ x Hwf) as Hrange. rewrite E in *. unfold sample_spread.
  destruct (OrderBook.best_bid _) as [bid|]; [|exists g; by rewrite app_nil_r].
  destruct (OrderBook.best_ask _) as [ask|]; [|exists g; by rewrite app_nil_r]. cbv zeta. simpl in *.
  specialize (Hrange _ eq_refl). rewrite (g_hist _ _ _ _ _ _ Hg), histogram_length, Z.min_comm. change (65 - 1) with 64.
  set (i := Z.min 64 _) in *. rewrite (vget_ok _ _ _ (histogram_lookup xs i Hrange)). cbn [mbind res_bind].
  rewrite vset_in_range, histogram_snoc by (rewrite ?histogram_length; lia). cbn [mbind res_bind].
  eexists. split; [done|]. split; [done|]. split; [done|]. destruct Hg. by split.
Qed.

Lemma repeat_spec H since before (k : nat) f n g :
  (∀ n g, ok H since before n g → n < two31 → ∃ g', f g = Ok g' ∧ ok H since before (n + 1) g') →
  ok H since before n g → n + Z.of_nat k ≤ two31 → ∃ g', repeat k f g = Ok g' ∧ ok H since before (n + Z.of_nat k) g'.
Proof.
  intros Hf. revert n g. induction k as [|k IH]; intros n g Hg Hn; cbn [repeat].
  { exists g. by rewrite Z.add_0_r. }
  destruct (Hf n g Hg) as (g1 & -> & Hg1); [lia|]. cbn [mbind res_bind].
  destruct (IH (n + 1) g1 Hg1) as (g2 & -> & Hg2); [lia|]. exists g2. split; [done|].
  by replace (n + Z.of_nat (S k)) with (n + 1 + Z.of_nat k) by lia.
Qed.

(** The timed loop samples depth and spread after each of its operations. *)
Lemma timed_spec (k : nat) b before n g xs lo hi : ok (histogram xs) (Some b) before n g → n + Z.of_nat k ≤ two31 → zlen xs ≤ n →
  ∃ g' lo' hi', timed cfg k g lo hi = Ok (g', lo', hi') ∧ let js := seq (S (length (out g))) k in
    ok (histogram (xs ++ omap (sample_at (out g')) js)) (Some b) (out g) (n + Z.of_nat k) g' ∧
    lo' = foldl Z.min lo (depth_at (out g') <$> js) ∧ hi' = foldl Z.max hi (depth_at (out g') <$> js).
Proof.
  revert before n g xs lo hi. induction k as [|k IH]; intros before n g xs lo hi Hg Hn Hxs; cbn [timed].
  { exists g, lo, hi. simpl. rewrite Z.add_0_r, app_nil_r. split_and!; [done|by eapply ok_before|done|done]. }
  destruct (step_spec cfg _ _ (out g) n g (ok_before _ _ _ _ _ Hg)) as (g1 & -> & Hg1); [lia|]. cbn [mbind res_bind]. cbv zeta.
  assert (Hl1 : length (out g1) = S (length (out g))).
  { pose proof (g_out _ _ _ _ _ _ Hg1) as E1. pose proof (g_out _ _ _ _ _ _ Hg) as E. unfold zlen in *. lia. }
  destruct (g_book _ _ _ _ _ _ Hg1) as (Hrepr & _ & _).
  destruct (sample_spread_spec xs (Some b) (out g) (n + 1) g1 Hg1) as (g2 & -> & Eo & Eb & Hg2); [lia|]. cbn [mbind res_bind].
  assert (Hfew : zlen (xs ++ option_list (sample_at (out g1) (length (out g1)))) ≤ n + 1).
  { rewrite zlen_app. destruct (sample_at _ _); simpl; [change (zlen [_]) with 1|rewrite zlen_nil]; lia. }
  destruct (IH (out g) (n + 1) g2 _ (Z.min lo (OrderBook.size (book g1))) (Z.max hi (OrderBook.size (book g1))) Hg2 ltac:(lia) Hfew)
    as (g3 & lo' & hi' & -> & Hg3 & -> & ->). exists g3. eexists _, _. split; [done|]. rewrite Eo in *. rewrite Hl1 in *.
  pose proof (g_before _ _ _ _ _ _ Hg3) as Hpre. pose proof (book_at_prefix _ _ Hpre) as Ebk.
  assert (Ed : depth_at (out g3) (S (length (out g))) = OrderBook.size (book g1)).
  { unfold depth_at. rewrite <-Hl1, Ebk. destruct Hrepr as (Q & fl & Hinv & -> & Hwf & _). symmetry. by apply Checks.size_abs with fl. }
  assert (Es : sample_at (out g3) (S (length (out g))) = sample_at (out g1) (length (out g1))).
  { unfold sample_at. by rewrite <-Hl1, Ebk, (book_at_prefix (out g1) (out g1)). }
  cbn [seq fmap list_fmap foldl omap list_omap]. rewrite Ed, Es, Hl1.
  replace (n + Z.of_nat (S k)) with (n + 1 + Z.of_nat k) by lia. split; [|done].
  eapply ok_prefix; [|exact (g_before _ _ _ _ _ _ Hg1)].
  rewrite <-app_assoc in Hg3. destruct (sample_at (out g1) _); exact Hg3.
Qed.

Definition accepted_config : bool :=
  (u32 (u32 (u32 (add_percent cfg + cancel_percent cfg) + modify_percent cfg) + marketable_percent cfg) =? 100) &&
  (u64 (tail_ticks cfg + 1) <? start_mid cfg).

Lemma make_spec : if accepted_config then ∃ g, make cfg = Ok g ∧ ok (histogram []) None [] 0 g else make cfg = Err invalid_argument.
Proof.
  unfold make, accepted_config.
  destruct (stands_make (Types.MkConfig (self_trade cfg) kTradeCapacity true 0 1024 None)) as (b & -> & Hst);
    [by repeat split|done|]. cbn [mbind res_bind].
  destruct (_ =? 100); cbn [negb andb]; [|done].
  rewrite Z.leb_antisym. destruct (_ <? start_mid cfg); cbn [negb]; [|done].
  eexists. split; [done|]. split; simpl; try done. by intros ? ?%elem_of_nil.
Qed.

(** ** A whole run *)

(** The statistics are those of the operations from the [b]-th on. *)
Record stats_exact (os : list Op) (b : nat) (st : Stats) : Prop := {
  s_count : count st = (λ c, kind_count c (drop b os)) <$> [0; 1; 2; 3];
  s_markets : market_orders st = market_count (drop b os);
  s_trades : trades st = zlen (replay_trades (replay begin (firstn b os)) (drop b os));
  s_depth_min : depth_min st = foldl Z.min (depth_at os b) (depth_at os <$> seq (S b) (length os - b));
  s_depth_max : depth_max st = foldl Z.max 0 (depth_at os <$> seq (S b) (length os - b));
  s_spread : let xs := omap (sample_at os) (seq (S b) (length os - b)) in
    if decide (xs = []) then spread_p50 st = 0 ∧ spread_p99 st = 0
    else nearest 50 100 xs (spread_p50 st) ∧ nearest 99 100 xs (spread_p99 st);
  s_flow_hash : flow_hash st = foldl hash_op kHashSeed os;
  s_trade_hash : trade_hash st = foldl hash_trade kHashSeed (replay_trades begin os);
}.

Lemma omap_few {A B} (f : A → option B) (l : list A) : (length (omap f l) ≤ length l)%nat.
Proof. induction l as [|x l IH]; [done|]. cbn [omap list_omap length]. change (list_omap ?f ?l) with (omap f l). destruct (f x); simpl; lia. Qed.

(** Every sample is a spread between 0 and 64. *)
Lemma samples_range H since before n g (js : list nat) : ok H since before n g → n ≤ two31 →
  ∀ x, x ∈ omap (sample_at (out g)) js → 0 ≤ x < 65.
Proof.
  intros Hg Hn x (j & _ & Hx)%list_elem_of_omap. refine (spread_range _ x _ Hx). unfold book_at.
  destruct (replay_stands (self_trade cfg) (firstn j (out g))) as (b & h & Hb & _ & _).
  - pose proof (g_out _ _ _ _ _ _ Hg). unfold zlen in *. rewrite length_firstn. lia.
  - apply Forall_take, Hg.
  - by apply (Refine.repr_wf _ _ _ Hb).
Qed.

(** What a run leaves: operations in range, the asked lengths, exact statistics. *)
Lemma generate_spec : 0 ≤ target_depth cfg → 0 ≤ warmup_ops cfg → 0 ≤ ops cfg →
  target_depth cfg + warmup_ops cfg + ops cfg ≤ two31 →
  if accepted_config then ∃ f, generate cfg = Ok f ∧
    zlen (f_ops f) = target_depth cfg + warmup_ops cfg + ops cfg ∧
    f_build f = target_depth cfg ∧ f_warmup f = warmup_ops cfg ∧
    Forall op_ok (f_ops f) ∧ (lots_fit cfg → Forall (lot_op (lot cfg)) (f_ops f)) ∧
    trade_hash (f_stats f) = tr_hash (replay begin (f_ops f)) ∧
    stats_exact (f_ops f) (Z.to_nat (target_depth cfg + warmup_ops cfg)) (f_stats f)
  else generate cfg = Err invalid_argument.
Proof.
  intros Hd Hw Ho Hsum. unfold generate, run. pose proof make_spec as Hm.
  destruct accepted_config; [|by rewrite Hm]. destruct Hm as (g0 & -> & Hg0). cbn [mbind res_bind].
  destruct (repeat_spec _ _ _ (Z.to_nat (target_depth cfg)) (add_random cfg) 0 g0 (add_random_spec cfg _ _ _) Hg0) as (g1 & -> & Hg1); [lia|].
  cbn [mbind res_bind]. rewrite Z.add_0_l, Z2Nat.id in Hg1 by done. pose proof (g_out _ _ _ _ _ _ Hg1) as Ho1.
  destruct (repeat_spec _ _ _ (Z.to_nat (warmup_ops cfg)) (step cfg) (target_depth cfg) g1 (step_spec cfg _ _ _) Hg1) as (g2 & -> & Hg2); [lia|].
  cbn [mbind res_bind]. rewrite Z2Nat.id in Hg2 by done. pose proof (g_out _ _ _ _ _ _ Hg2) as Ho2. cbv zeta.
  set (b := Z.to_nat (target_depth cfg + warmup_ops cfg)).
  assert (Hb : b = length (out g2)) by (unfold b, zlen in *; lia).
  assert (Hg3 : ok (histogram []) (Some b) [] (target_depth cfg + warmup_ops cfg) (set_timing true g2)).
  { destruct Hg2 as [? ? ? ? ? ? ? ? (Hc & Hmk & Hf) ? ?]. split; simpl; try done. split; [lia|]. unfold tallied. simpl.
    rewrite Hb, drop_all. by split_and!. }
  destruct (timed_spec (Z.to_nat (ops cfg)) b [] _ _ [] (OrderBook.size (book (set_timing true g2))) 0 Hg3)
    as (g4 & lo & hi & -> & Hg4 & -> & ->); [lia|change (zlen []) with 0; lia|]. cbn [mbind res_bind].
  simpl in Hg4. rewrite <-Hb, Z2Nat.id in Hg4 by done. pose proof (g_out _ _ _ _ _ _ Hg4) as Ho4. eexists. split; [done|]. cbn [f_ops f_build f_warmup f_stats trade_hash].
  split; [done|]. split; [done|]. split; [lia|]. split; [apply Hg4|]. split; [apply Hg4|].
  destruct (g_book _ _ _ _ _ _ Hg4) as (_ & _ & Hhash). split; [done|].
  assert (Hlen : (length (out g4) - b)%nat = Z.to_nat (ops cfg)) by (unfold zlen in *; lia).
  destruct (g_stats _ _ _ _ _ _ Hg4) as [_ (Hc & Hmk & Hf)].
  pose proof (g_before _ _ _ _ _ _ Hg4) as Hpre. simpl in Hpre. destruct (g_book _ _ _ _ _ _ Hg2) as ((Q & fl & Hinv & HS & Hwf & _) & _).
  split; cbn [count market_orders trades depth_min depth_max spread_p50 spread_p99 flow_hash trade_hash]; cbn [set_timing out]; rewrite <-?Hb, ?Hlen; try done.
  - f_equal. unfold depth_at. rewrite Hb, (book_at_prefix _ _ Hpre), HS. by apply Checks.size_abs with fl.
  - rewrite (g_hist _ _ _ _ _ _ Hg4). cbv zeta. set (xs := omap _ _).
    assert (Hxs : zlen xs ≤ two31) by (pose proof (omap_few (sample_at (out g4)) (seq (S b) (Z.to_nat (ops cfg)))); rewrite length_seq in *; unfold xs, zlen; lia).
    pose proof (samples_range _ _ _ _ _ (seq (S b) (Z.to_nat (ops cfg))) Hg4 ltac:(lia)) as Hr. fold xs in Hr.
    pose proof (spread_percentile_spec xs 50 Hxs Hr ltac:(lia)) as H50. pose proof (spread_percentile_spec xs 99 Hxs Hr ltac:(lia)) as H99.
    case_decide; exact (conj H50 H99).
  - rewrite Hhash. apply replay_hash.
Qed.

(** C38. The flow generator never fails: a configuration whose mix sums to 100 and
    whose mid lies above its tail yields a flow of exactly the asked lengths, and
    any other is refused with [std::invalid_argument]. Cancels and modifies always
    find the order they name, so no empty optional is ever read. *)
Theorem flow_generates : 0 ≤ target_depth cfg → 0 ≤ warmup_ops cfg → 0 ≤ ops cfg →
  target_depth cfg + warmup_ops cfg + ops cfg ≤ two31 →
  if accepted_config then ∃ f, generate cfg = Ok f ∧
    zlen (f_ops f) = target_depth cfg + warmup_ops cfg + ops cfg ∧
    f_build f = target_depth cfg ∧ f_warmup f = warmup_ops cfg
  else generate cfg = Err invalid_argument.
Proof.
  intros Hd Hw Ho Hsum. pose proof (generate_spec Hd Hw Ho Hsum) as H. destruct accepted_config; [|done].
  destruct H as (f & ? & ? & ? & ? & _). by exists f.
Qed.

(** C39. What the generator reports of a flow is exact: the operations of each kind
    among the timed ones, its market orders and trades, the smallest and largest
    depth, and the nearest-rank percentiles of the spread (above 64 ticks counted
    as 64), all as a replay of the operations on the abstract book shows them; its
    hashes are those of the operations and of every trade. *)
Theorem flow_stats_exact f : 0 ≤ target_depth cfg → 0 ≤ warmup_ops cfg → 0 ≤ ops cfg →
  target_depth cfg + warmup_ops cfg + ops cfg ≤ two31 → generate cfg = Ok f →
  stats_exact (f_ops f) (Z.to_nat (f_build f + f_warmup f)) (f_stats f).
Proof.
  intros Hd Hw Ho Hsum Hf. pose proof (generate_spec Hd Hw Ho Hsum) as H. rewrite Hf in H.
  destruct accepted_config; [|done]. destruct H as (f' & [= <-] & _ & -> & -> & _ & _ & _ & Hst). exact Hst.
Qed.

(** C40. A passive order never trades: on any reachable book whose far touch is not
    at the very end of the price range, the price [passive_price] draws meets no
    order, so the add leaves the far side alone and rests whole. *)
Theorem passive_add_never_trades ecfg n g side id owner qty b' rep : Refine.config_ok ecfg →
  reachable ecfg n (book g) → n < two31 →
  OrderBook.best_ask (book g) ≠ Some 0 → OrderBook.best_bid (book g) ≠ Some kMaxPrice →
  Spec.args_ok id owner None qty → OrderBook.find (book g) id = Ok None → qty ≠ 0 →
  OrderBook.add_limit (book g) id owner side (passive_price cfg g side).1 qty = Ok (b', rep) →
  trade_count rep = 0 ∧ filled rep = 0 ∧ remaining rep = qty ∧ rested rep = true ∧ stp_cancelled rep = 0.
Proof.
  intros Hcfg Hr Hn Hask Hbid (Hid & How & Hq & _) Hfind Hq0 Hadd.
  pose proof (passive_price_spec cfg g side) as [_ Hprice]. set (p := (passive_price cfg g side).1) in *.
  assert (Hargs : Spec.args_ok id owner (Some p) qty) by done.
  destruct (submit_observed ecfg Hcfg _ _ _ _ _ _ _ _ _ _ Hr Hn Hargs ltac:(by eexists) Hadd)
    as (S & F & S' & ts & Hrepr & Hwf & _ & _ & E & _ & _).
  destruct (repr_best _ _ _ Hrepr) as [Eb Ea]. rewrite Ea in Hask. rewrite Eb in Hbid.
  assert (Hstop : ∀ r, head (Spec.side (opposite side) S) = Some r → crosses side (Some p) (r_price r) = false).
  { intros r Hh. assert (Hrp : 0 ≤ r_price r < two64).
    { apply (Spec.wf_orders _ Hwf). apply elem_of_app. apply head_Some_elem_of in Hh. destruct side; simpl in Hh; tauto. }
    unfold p, passive_price, crosses. pose proof (random_offset_drawn cfg g) as [r0 Hd]. destruct (random_offset cfg g) as [off g1].
    simpl in Hd. subst g1. change (book (set_rng r0 g)) with (book g). destruct side; simpl.
    - rewrite Ea. unfold Spec.best in *. simpl in Hh, Hask |- *. rewrite Hh in *. simpl in *.
      assert (r_price r ≠ 0) by congruence.
      destruct (Z.leb_spec (r_price r) (u64 (mid g - off))); [rewrite u64_small by lia|]; apply Z.leb_gt; lia.
    - rewrite Eb. unfold Spec.best in *. simpl in Hh, Hbid |- *. rewrite Hh in *. simpl in *.
      assert (r_price r ≠ kMaxPrice) by congruence. unfold kMaxPrice in *.
      destruct (Z.leb_spec (u64 (mid g + 1 + off)) (r_price r)); [rewrite u64_small by lia|]; apply Z.leb_gt; lia. }
  assert (Hnew : id ∉ Spec.ids S).
  { destruct Hrepr as (Q & fl & Hinv & -> & _). rewrite (Checks.find_abs _ Q fl Hinv Hwf id) in Hfind. injection Hfind as Hfind.
    intros Hin. unfold Spec.ids in Hin. rewrite fmap_app in Hin.
    assert (∃ s r, r ∈ Spec.side s (BookInv.abs (book g) Q) ∧ r_id r = id) as (s & r & Hr0 & <-).
    { apply elem_of_app in Hin as [(r & -> & ?)%list_elem_of_fmap|(r & -> & ?)%list_elem_of_fmap]; [exists Buy|exists Sell]; by exists r. }
    rewrite (Spec.find_resting _ s r Hwf Hr0) in Hfind. done. }
  destruct (Spec.submit_cases _ _ _ _ _ _ _ _ _ _ E) as [(_ & _ & _ & [?|?])|(_ & _ & Hm)]; [done..|].
  rewrite Spec.match_queue_stop in Hm by (right; exact Hstop). simpl in Hm.
  destruct Hm as [_ [(_ & _ & _ & -> & _)|([?|[?|?]] & _)]]; [done|done|lia|done].
Qed.

End flow.

(** ** Witnesses *)

Definition small_flow : Config :=
  MkConfig 7 6 3 50 40 5 5 4 1000 10 80 50 100 80 90 100 50 3 CancelResting.

Lemma flow_generates_witness : ∃ f, generate small_flow = Ok f ∧ zlen (f_ops f) = 13.
Proof.
  pose proof (flow_generates small_flow ltac:(done) ltac:(done) ltac:(done) ltac:(done)) as H.
  replace (accepted_config small_flow) with true in H by (vm_compute; reflexivity).
  destruct H as (f & H1 & H2 & _). exact (ex_intro _ f (conj H1 H2)).
Defined.

Lemma flow_stats_exact_witness : ∃ f, generate small_flow = Ok f ∧ stats_exact small_flow (f_ops f) 7 (f_stats f).
Proof.
  pose proof (generate_spec small_flow ltac:(done) ltac:(done) ltac:(done) ltac:(done)) as H.
  replace (accepted_config small_flow) with true in H by (vm_compute; reflexivity).
  destruct H as (f & Hf & _ & Hb & Hw & _). exists f. split; [exact Hf|].
  pose proof (flow_stats_exact small_flow f ltac:(done) ltac:(done) ltac:(done) ltac:(done) Hf) as Hst.
  rewrite Hb, Hw in Hst. exact Hst.
Defined.

(** A generator whose book is the demo of EngineProps.v. *)
Definition demo_gen : Gen :=
  mk (Rng.make 7) (demo_state Allow) [] 98 10 false kHashSeed (replicate 65 0) [] [0; 0; 0; 0] 0 0 0.

Definition demo_passive : OrderBook.OrderBook * ExecReport :=
  match OrderBook.add_limit (demo_state Allow) 10 5 Buy (passive_price small_flow demo_gen Buy).1 200 with
  | Ok x => x
  | Err _ => (demo_state Allow, ExecReport0)
  end.

Lemma passive_add_never_trades_witness : trade_count demo_passive.2 = 0 ∧ rested demo_passive.2 = true.
Proof.
  assert (Hadd : OrderBook.add_limit (book demo_gen) 10 5 Buy (passive_price small_flow demo_gen Buy).1 200 =
    Ok (demo_passive.1, demo_passive.2)) by (vm_compute; reflexivity).
  assert (Hask : OrderBook.best_ask (book demo_gen) ≠ Some 0) by (vm_compute; discriminate).
  assert (Hbid : OrderBook.best_bid (book demo_gen) ≠ Some kMaxPrice) by (vm_compute; discriminate).
  assert (Hfind : OrderBook.find (book demo_gen) 10 = Ok None) by (vm_compute; reflexivity).
  destruct (passive_add_never_trades small_flow (demo_config Allow) 4 demo_gen Buy 10 5 200 demo_passive.1 demo_passive.2
    (config_demo _) (demo_reachable _) ltac:(lia) Hask Hbid ltac:(by repeat split) Hfind ltac:(lia) Hadd) as (H1 & _ & _ & H2 & _).
  exact (conj H1 H2).
Defined.

(** Nothing bounds the depth of a flow: over 30 operations, with a target of two
    orders, it reaches nine. *)
Definition shallow_flow : Config :=
  MkConfig 1 30 0 50 40 5 5 2 100000 10 80 50 100 80 90 100 50 50 CancelResting.

Lemma depth_overshoots : ∃ f, generate shallow_flow = Ok f ∧ target_depth shallow_flow = 2 ∧ depth_max (f_stats f) = 9.
Proof. eexists. split; [vm_compute; reflexivity|]. split; reflexivity. Qed.
