(* ===== verification/Double.v ===== *)
(** * Double-precision numbers (the doubles of bench/bench_main.cpp)

    Every [double] of the program is computed from unsigned counts, so none is
    negative. A finite one is held as a multiple of 2^-1074, the smallest; every
    operation is the exact result rounded to the nearest double, ties to even, as
    IEEE 754 has it. Conversion back truncates, and is undefined out of range. *)

From stdpp Require Import base decidable list.
From S2P Require Import Prelude.

Module Double.

Definition scale : Z := 2 ^ 1074.

(** [Fin n] is n / 2^1074. *)
Inductive double :=
  | Fin (n : Z)
  | Inf
  | NaN.

(** The integer nearest to n / d, the even one of two. *)
Definition nearest_even (n d : Z) : Z :=
  let q := n / d in
  let r := n mod d in
  if 2 * r <? d then q else if d <? 2 * r then q + 1 else if Z.even q then q else q + 1.

(** The distance between doubles around a value that is [q] units, rounded down:
    53 significant bits. *)
Definition ulp (q : Z) : Z := 2 ^ Z.max 0 (Z.log2 q - 52).

(** n / d rounded to a double. *)
Definition round (n d : Z) : double :=
  let u := ulp (n * scale / d) in
  let r := nearest_even (n * scale) (d * u) * u in
  if r <? 2 ^ 1024 * scale then Fin r else Inf.

(** [static_cast<double>(n)]. *)
Definition of_Z (n : Z) : double := round n 1.

Definition half_scale : Z := 2 ^ 1073.

(** 0.5. *)
Definition half : double := Fin half_scale.

Definition add (x y : double) : double :=
  match x, y with
  | Fin a, Fin b => round (a + b) scale
  | NaN, _ | _, NaN => NaN
  | _, _ => Inf
  end.

Definition mul (x y : double) : double :=
  match x, y with
  | Fin a, Fin b => round (a * b) (scale * scale)
  | NaN, _ | _, NaN => NaN
  | Fin a, Inf | Inf, Fin a => if a =? 0 then NaN else Inf
  | Inf, Inf => Inf
  end.

Definition div (x y : double) : double :=
  match x, y with
  | Fin a, Fin b => if b =? 0 then (if a =? 0 then NaN else Inf) else round a b
  | Fin _, Inf => Fin 0
  | Inf, Fin _ => Inf
  | _, _ => NaN
  end.

(** [static_cast<std::uint64_t>(x)]. *)
Definition to_u64 (x : double) : res Z :=
  match x with
  | Fin a => if a / scale <? two64 then Ok (a / scale) else Err undefined_behaviour
  | _ => Err undefined_behaviour
  end.

(** ** Rounding to an integer *)

Lemma scale_pos : 0 < scale.
Proof. by apply pow2_pos. Qed.

Lemma nearest_even_error n d : 0 < d → 2 * Z.abs (nearest_even n d * d - n) ≤ d.
Proof.
  intros Hd. unfold nearest_even. pose proof (Z.div_mod n d ltac:(lia)). pose proof (Z.mod_pos_bound n d Hd).
  destruct (Z.ltb_spec (2 * (n mod d)) d), (Z.ltb_spec d (2 * (n mod d))); try destruct (Z.even _); nia.
Qed.

Lemma nearest_even_exact q d : 0 < d → nearest_even (q * d) d = q.
Proof. intros Hd. pose proof (nearest_even_error (q * d) d Hd). nia. Qed.

Lemma nearest_even_scale n d k : 0 < d → 0 < k → nearest_even (n * k) (d * k) = nearest_even n d.
Proof.
  intros Hd Hk. unfold nearest_even. rewrite Z.div_mul_cancel_r, Z.mul_mod_distr_r by lia.
  destruct (Z.ltb_spec (2 * (n mod d)) d), (Z.ltb_spec (2 * (n mod d * k)) (d * k)); [done|nia..|].
  destruct (Z.ltb_spec d (2 * (n mod d))), (Z.ltb_spec (d * k) (2 * (n mod d * k))); (done || nia).
Qed.

Lemma nearest_even_mono_same n m d : 0 < d → n ≤ m → nearest_even n d ≤ nearest_even m d.
Proof.
  intros Hd Hnm. pose proof (nearest_even_error n d Hd). pose proof (nearest_even_error m d Hd).
  destruct (Z.le_gt_cases (nearest_even n d) (nearest_even m d)) as [|Hlt]; [done|].
  assert (n = m) as -> by nia. lia.
Qed.

Lemma nearest_even_mono n d m e : 0 < d → 0 < e → n * e ≤ m * d → nearest_even n d ≤ nearest_even m e.
Proof.
  intros Hd He Hle. rewrite <-(nearest_even_scale n d e), <-(nearest_even_scale m e d), (Z.mul_comm e d) by done.
  apply nearest_even_mono_same; nia.
Qed.

Lemma nearest_even_nonneg n d : 0 < d → 0 ≤ n → 0 ≤ nearest_even n d.
Proof. intros Hd Hn. rewrite <-(nearest_even_exact 0 d) by done. apply nearest_even_mono_same; lia. Qed.

(** ** Rounding to a double *)

Lemma ulp_pos q : 0 < ulp q.
Proof. apply pow2_pos. lia. Qed.

Lemma ulp_mono p q : p ≤ q → ulp p ≤ ulp q.
Proof. intros H. apply Z.pow_le_mono_r; [lia|]. pose proof (Z.log2_le_mono p q H). lia. Qed.

(** A value has at most 53 bits above its ulp, and 53 of them if it is normal. *)
Lemma ulp_upper q : 0 ≤ q → q < 2 ^ 53 * ulp q.
Proof.
  intros Hq. unfold ulp. destruct (decide (q = 0)) as [->|Hne]; [done|].
  destruct (Z.log2_spec q) as [_ H]; [lia|]. rewrite <-Z.pow_add_r by lia.
  eapply Z.lt_le_trans; [exact H|]. apply Z.pow_le_mono_r; lia.
Qed.

Lemma ulp_lower q : 2 ^ 52 ≤ q → 2 ^ 52 * ulp q ≤ q.
Proof.
  intros Hq. assert (0 < 2 ^ 52) by done. assert (52 ≤ Z.log2 q) by (apply Z.log2_le_pow2; lia).
  unfold ulp. rewrite Z.max_r, <-Z.pow_add_r by lia. replace (52 + (Z.log2 q - 52)) with (Z.log2 q) by lia.
  by apply Z.log2_spec; lia.
Qed.

Lemma ulp_subnormal q : q < 2 ^ 53 → ulp q = 1.
Proof.
  intros Hq. unfold ulp. destruct (Z.le_gt_cases q 0); [by rewrite Z.log2_nonpos|].
  assert (Z.log2 q < 53) by (apply Z.log2_lt_pow2; lia). by rewrite Z.max_l by lia.
Qed.

(** The units of a rounded value, before the check for overflow. *)
Definition units (n d : Z) : Z :=
  let u := ulp (n * scale / d) in nearest_even (n * scale) (d * u) * u.

Lemma round_units n d : units n d < 2 ^ 1024 * scale → round n d = Fin (units n d).
Proof. unfold round, units. cbv zeta. intros H. by destruct (Z.ltb_spec (nearest_even (n * scale) (d * ulp (n * scale / d)) * ulp (n * scale / d)) (2 ^ 1024 * scale)); [|lia]. Qed.

Lemma units_error n d : 0 < d → 2 * Z.abs (units n d * d - n * scale) ≤ d * ulp (n * scale / d).
Proof.
  intros Hd. unfold units. pose proof (ulp_pos (n * scale / d)). set (u := ulp _) in *.
  replace (nearest_even (n * scale) (d * u) * u * d) with (nearest_even (n * scale) (d * u) * (d * u)) by lia.
  apply nearest_even_error. nia.
Qed.

(** The relative error of a normal result is at most 2^-53. *)
Lemma units_relative n d : 0 < d → 2 ^ 52 * d ≤ n * scale → 2 ^ 53 * Z.abs (units n d * d - n * scale) ≤ n * scale.
Proof.
  intros Hd Hn. pose proof (units_error n d Hd). assert (2 ^ 52 ≤ n * scale / d) by (apply Z.div_le_lower_bound; lia).
  pose proof (ulp_lower (n * scale / d) ltac:(done)). pose proof (Z.mul_div_le (n * scale) d Hd).
  set (u := ulp (n * scale / d)) in *. change (2 ^ 53) with (2 ^ 52 * 2). change (2 ^ 52) with 4503599627370496 in *. nia.
Qed.

Lemma units_nonneg n d : 0 < d → 0 ≤ n → 0 ≤ units n d.
Proof.
  intros Hd Hn. unfold units. pose proof (ulp_pos (n * scale / d)). pose proof scale_pos.
  apply Z.mul_nonneg_nonneg; [apply nearest_even_nonneg; nia|lia].
Qed.

(** The units of a value have at most 53 bits above its ulp, rounded or not. *)
Lemma units_upper n d : 0 < d → 0 ≤ n → units n d ≤ 2 ^ 53 * ulp (n * scale / d).
Proof.
  intros Hd Hn. unfold units. pose proof scale_pos. assert (Hq : 0 ≤ n * scale / d) by (apply Z.div_pos; nia).
  pose proof (ulp_upper _ Hq). pose proof (ulp_pos (n * scale / d)). set (u := ulp _) in *.
  apply Z.mul_le_mono_nonneg_r; [lia|]. rewrite <-(nearest_even_exact (2 ^ 53) (d * u)) by nia.
  apply nearest_even_mono_same; [nia|]. pose proof (Z.mul_succ_div_gt (n * scale) d Hd). nia.
Qed.

Lemma units_lower n d : 0 < d → 2 ^ 52 * d ≤ n * scale → 2 ^ 52 * ulp (n * scale / d) ≤ units n d.
Proof.
  intros Hd Hn. unfold units. assert (Hq : 2 ^ 52 ≤ n * scale / d) by (apply Z.div_le_lower_bound; lia).
  pose proof (ulp_lower _ Hq). pose proof (ulp_pos (n * scale / d)). set (u := ulp _) in *.
  apply Z.mul_le_mono_nonneg_r; [lia|]. rewrite <-(nearest_even_exact (2 ^ 52) (d * u)) by nia.
  apply nearest_even_mono_same; [nia|]. pose proof (Z.mul_div_le (n * scale) d Hd). nia.
Qed.

Lemma units_mono n d m e : 0 < d → 0 < e → 0 ≤ n → 0 ≤ m → n * e ≤ m * d → units n d ≤ units m e.
Proof.
  intros Hd He Hn Hm Hle. pose proof scale_pos. set (p := n * scale / d). set (q := m * scale / e).
  assert (Hpq : p ≤ q).
  { unfold p, q. rewrite <-(Z.div_mul_cancel_r (n * scale) d e), <-(Z.div_mul_cancel_r (m * scale) e d), (Z.mul_comm e d) by lia.
    apply Z.div_le_mono; nia. }
  destruct (decide (ulp p = ulp q)) as [Eu|Hne].
  - unfold units. fold p q. rewrite Eu. pose proof (ulp_pos q). apply Z.mul_le_mono_nonneg_r; [lia|].
    apply nearest_even_mono; [nia..|].
    replace (n * scale * (e * ulp q)) with (n * e * (scale * ulp q)) by ring.
    replace (m * scale * (d * ulp q)) with (m * d * (scale * ulp q)) by ring. apply Z.mul_le_mono_nonneg_r; [nia|done].
  - assert (Hlt : 2 * ulp p ≤ ulp q).
    { pose proof (ulp_mono p q Hpq). unfold ulp in *. set (a := Z.max 0 (Z.log2 p - 52)) in *. set (b := Z.max 0 (Z.log2 q - 52)) in *.
      assert (a < b). { destruct (Z.le_gt_cases b a); [|done]. exfalso. apply Hne. apply Z.le_antisymm; [done|]. apply Z.pow_le_mono_r; lia. }
      change 2 with (2 ^ 1) at 1. rewrite <-Z.pow_add_r by lia. apply Z.pow_le_mono_r; lia. }
    assert (Hnorm : 2 ^ 52 ≤ q).
    { destruct (Z.le_gt_cases (2 ^ 52) q); [done|]. rewrite (ulp_subnormal q) in Hlt by lia. pose proof (ulp_pos p). lia. }
    etrans; [by apply units_upper|]. fold p. etrans; [|apply units_lower; [done|]].
    + fold q. change (2 ^ 53) with (2 ^ 52 * 2). nia.
    + pose proof (Z.mul_div_le (m * scale) e He). fold q in H0. nia.
Qed.

(** A value that needs no rounding is not rounded. *)
Lemma nearest_even_pow2 k e x d : 0 < d → 0 ≤ x ≤ e → nearest_even (k * 2 ^ e * d) (d * 2 ^ x) * 2 ^ x = k * 2 ^ e.
Proof.
  intros Hd Hx. pose proof (pow2_pos x ltac:(lia)). pose proof (pow2_pos (e - x) ltac:(lia)).
  replace e with (e - x + x) by lia. rewrite Z.pow_add_r by lia.
  replace (k * (2 ^ (e - x) * 2 ^ x) * d) with (k * 2 ^ (e - x) * (d * 2 ^ x)) by ring.
  rewrite nearest_even_exact by nia. ring.
Qed.

Lemma units_exact n d k e : 0 < d → 0 ≤ k ≤ 2 ^ 53 → 0 ≤ e → n * scale = k * 2 ^ e * d → units n d = k * 2 ^ e.
Proof.
  intros Hd Hk He E. unfold units. rewrite E, Z.div_mul by lia. destruct (decide (k = 0)) as [->|Hk0].
  { rewrite !Z.mul_0_l. rewrite (ulp_subnormal 0) by lia. rewrite !Z.mul_1_r. by apply (nearest_even_exact 0). }
  destruct (decide (k = 2 ^ 53)) as [->|Hne].
  - replace (2 ^ 53 * 2 ^ e) with (2 ^ 52 * 2 ^ (e + 1)) by (rewrite Z.pow_add_r by lia; ring).
    unfold ulp. rewrite Z.log2_mul_pow2, Z.log2_pow2 by lia. by apply nearest_even_pow2; lia.
  - unfold ulp. rewrite Z.log2_mul_pow2 by lia. assert (Z.log2 k < 53) by (apply Z.log2_lt_pow2; lia).
    pose proof (Z.log2_nonneg k). by apply nearest_even_pow2; lia.
Qed.

(** Nothing near the largest double comes up. *)
Definition huge : Z := 2 ^ 1000.

Lemma round_fin n d : 0 < d → 0 ≤ n ≤ d * huge → round n d = Fin (units n d).
Proof.
  unfold huge. intros Hd Hn. apply round_units. pose proof (units_error n d Hd) as He. pose proof scale_pos.
  assert (Hq : 0 ≤ n * scale / d) by (apply Z.div_pos; nia). pose proof (Z.mul_div_le (n * scale) d Hd).
  assert (Hu : ulp (n * scale / d) ≤ 1 + n * scale / d).
  { destruct (Z.le_gt_cases (2 ^ 52) (n * scale / d)) as [Hl|Hl]; [|rewrite ulp_subnormal by lia; lia].
    pose proof (ulp_lower _ Hl). pose proof (ulp_pos (n * scale / d)). lia. }
  assert (Hm : n * scale ≤ d * (2 ^ 1000 * scale)) by (clear -Hn H; nia).
  assert (Hb : 2 * (units n d) ≤ 3 * (2 ^ 1000 * scale) + 1) by nia.
  change (2 ^ 1024) with (2 ^ 1000 * 2 ^ 24). pose proof (pow2_pos 1000 ltac:(lia)). change (2 ^ 24) with 16777216. nia.
Qed.

Lemma units_relative_or_zero n d : 0 < d → n = 0 ∨ 2 ^ 52 * d ≤ n * scale → 2 ^ 53 * Z.abs (units n d * d - n * scale) ≤ n * scale.
Proof. intros Hd [->|Hn]; [|by apply units_relative]. by rewrite (units_exact 0 d 0 0) by lia. Qed.

Lemma of_Z_fin n : 0 ≤ n ≤ huge → of_Z n = Fin (units n 1).
Proof. intros Hn. apply round_fin; lia. Qed.

Lemma of_Z_exact n : 0 ≤ n ≤ 2 ^ 53 → of_Z n = Fin (n * scale).
Proof.
  intros Hn. rewrite of_Z_fin.
  - f_equal. apply units_exact with (e := 1074); unfold scale; lia.
  - split; [lia|]. etrans; [apply Hn|]. by apply Z.pow_le_mono_r.
Qed.

Lemma two_halves : 2 * half_scale = scale.
Proof. done. Qed.

Lemma scale_large : two64 * two64 * two64 ≤ scale.
Proof. done. Qed.

Lemma huge_large : two64 * two64 * two64 ≤ huge.
Proof. done. Qed.

End Double.
