(* ===== verification/Printf.v ===== *)
(** * Formatted output (the calls of printf and fprintf in bench/bench_main.cpp)

    [std::printf] as the C standard defines it for the conversions the program
    uses, so that the model carries the format strings of the source as they are
    written there. A conversion that does not fit its argument is undefined. *)

From Stdlib Require Import Ascii String.
From stdpp Require Import base decidable list.
From S2P Require Import Prelude.
From S2P Require Import Text.
From S2P Require Import Double.
Import Text.

Module Printf.

(** A string literal of the source: [\n] is a newline. *)
Fixpoint unescape (s : Str) : Str :=
  match s with
  | [] => []
  | c :: t => match t with
              | d :: t' => if (c =? 92) && (d =? 110) then 10 :: unescape t' else c :: unescape t
              | [] => [c]
              end
  end.

Definition literal (s : string) : Str := unescape (codes s).

(** ** Arguments and formats *)

Inductive Arg :=
  | AStr (s : Str)
  | AInt (n : Z)
  | ALong (n : Z)
  | ASize (n : Z)
  | AUll (n : Z)
  | ADouble (x : Double.double).

Inductive Length := LNone | LLong | LLongLong | LSize.

#[global] Instance Length_eq_dec : EqDecision Length.
Proof. solve_decision. Defined.

Record Spec := MkSpec {
  left_justified : bool;
  zero_padded : bool;
  width : Z;
  precision : option Z;
  modifier : Length;
  conversion : Z;
}.

Inductive Piece :=
  | Lit (c : Z)
  | Conv (s : Spec).

Fixpoint flags (s : Str) (minus zero : bool) : bool * bool * Str :=
  match s with
  | c :: t => if c =? 45 then flags t true zero else if c =? 48 then flags t minus true else (minus, zero, s)
  | [] => (minus, zero, [])
  end.

Definition number_at (s : Str) : Z * Str :=
  let d := leading_digits s in (value d, drop (length d) s).

Definition precision_at (s : Str) : option Z * Str :=
  match s with
  | c :: t => if c =? 46 then let '(n, t) := number_at t in (Some n, t) else (None, s)
  | [] => (None, [])
  end.

Definition modifier_at (s : Str) : Length * Str :=
  match s with
  | c :: t =>
      if c =? 122 then (LSize, t)
      else if c =? 108 then
        match t with d :: t' => if d =? 108 then (LLongLong, t') else (LLong, t) | [] => (LLong, t) end
      else (LNone, s)
  | [] => (LNone, [])
  end.

(** What follows a per cent sign. *)
Definition spec_at (s : Str) : option (Spec * Str) :=
  let '(minus, zero, s) := flags s false false in
  let '(width, s) := number_at s in
  let '(prec, s) := precision_at s in
  let '(len, s) := modifier_at s in
  match s with
  | c :: s => Some (MkSpec minus zero width prec len c, s)
  | [] => None
  end.

Fixpoint parse (fuel : nat) (s : Str) : option (list Piece) :=
  match fuel with
  | O => None
  | S fuel =>
      match s with
      | [] => Some []
      | c :: t =>
          if c =? 37 then
            match t with
            | d :: t' =>
                if d =? 37 then cons (Lit 37) <$> parse fuel t'
                else '(sp, t) ← spec_at t; cons (Conv sp) <$> parse fuel t
            | [] => None
            end
          else cons (Lit c) <$> parse fuel t
      end
  end.

(** ** Conversions *)

Definition pad_left (c n : Z) (s : Str) : Str := vmake (n - zlen s) c ++ s.
Definition pad_right (c n : Z) (s : Str) : Str := s ++ vmake (n - zlen s) c.

Definition signed (n : Z) : Str := if n <? 0 then 45 :: to_string (- n) else to_string n.

Definition hex_digit (d : Z) : Z := if d <? 10 then 48 + d else 87 + d.

(** 16 digits at most. *)
Fixpoint hex (fuel : nat) (n : Z) : Str :=
  match fuel with
  | O => []
  | S fuel => (if n / 16 =? 0 then [] else hex fuel (n / 16)) ++ [hex_digit (n mod 16)]
  end.

(** [%.kf]: the exact value to [k] places, ties to even; 309 digits before the
    point at most. The invalid operations of x86 give a NaN with its sign set. *)
Definition fixed (k : Z) (x : Double.double) : Str :=
  match x with
  | Double.Fin n =>
      let m := Double.nearest_even (n * 10 ^ k) Double.scale in
      digits 310 (m / 10 ^ k) ++ (if k =? 0 then [] else 46 :: pad_left 48 k (digits (Z.to_nat k) (m mod 10 ^ k)))
  | Double.Inf => codes "inf"
  | Double.NaN => codes "-nan"
  end.

(** Zeros go after the sign, and never before what is not a number. *)
Definition padded (sp : Spec) (number : bool) (s : Str) : Str :=
  if left_justified sp then pad_right 32 (width sp) s
  else if zero_padded sp && number then
    match s with
    | c :: t => if c =? 45 then 45 :: pad_left 48 (width sp - 1) t else pad_left 48 (width sp) s
    | [] => pad_left 48 (width sp) s
    end
  else pad_left 32 (width sp) s.

Definition convert (sp : Spec) (a : Arg) : res Str :=
  let conv c l := (conversion sp =? c) && bool_decide (modifier sp = l) in
  match a with
  | AStr s => if conv 115 LNone then
      Ok (padded sp false (match precision sp with Some k => take (Z.to_nat k) s | None => s end)) else Err undefined_behaviour
  | AInt n => if conv 100 LNone then Ok (padded sp true (signed n)) else Err undefined_behaviour
  | ALong n => if conv 100 LLong then Ok (padded sp true (signed n)) else Err undefined_behaviour
  | ASize n => if conv 117 LSize then Ok (padded sp true (to_string n)) else Err undefined_behaviour
  | AUll n =>
      if conv 117 LLongLong then Ok (padded sp true (to_string n))
      else if conv 120 LLongLong then Ok (padded sp true (hex 16 n)) else Err undefined_behaviour
  | ADouble x => if conv 102 LNone then
      Ok (padded sp (match x with Double.Fin _ => true | _ => false end) (fixed (default 6 (precision sp)) x))
      else Err undefined_behaviour
  end.

Fixpoint print (ps : list Piece) (args : list Arg) : res Str :=
  match ps with
  | [] => Ok []
  | Lit c :: ps => cons c <$> print ps args
  | Conv sp :: ps =>
      match args with
      | a :: args => s ← convert sp a; app s <$> print ps args
      | [] => Err undefined_behaviour
      end
  end.

(** [printf(format, args...)] writes this. *)
Definition printf (format : string) (args : list Arg) : res Str :=
  let s := literal format in
  match parse (S (length s)) s with
  | Some ps => print ps args
  | None => Err undefined_behaviour
  end.

(** ** Formats that fit their arguments *)

Inductive Ty := TStr | TInt | TLong | TSize | TUll | TDouble.

Definition ty (a : Arg) : Ty :=
  match a with
  | AStr _ => TStr | AInt _ => TInt | ALong _ => TLong | ASize _ => TSize | AUll _ => TUll | ADouble _ => TDouble
  end.

Definition fits (sp : Spec) (t : Ty) : bool :=
  let conv c l := (conversion sp =? c) && bool_decide (modifier sp = l) in
  match t with
  | TStr => conv 115 LNone
  | TInt => conv 100 LNone
  | TLong => conv 100 LLong
  | TSize => conv 117 LSize
  | TUll => conv 117 LLongLong || conv 120 LLongLong
  | TDouble => conv 102 LNone
  end.

Fixpoint accepts (ps : list Piece) (ts : list Ty) : bool :=
  match ps, ts with
  | [], _ => true
  | Lit _ :: ps, _ => accepts ps ts
  | Conv sp :: ps, t :: ts => fits sp t && accepts ps ts
  | Conv _ :: _, [] => false
  end.

Definition well_typed (format : string) (ts : list Ty) : bool :=
  let s := literal format in
  match parse (S (length s)) s with Some ps => accepts ps ts | None => false end.

Lemma convert_ok sp a : fits sp (ty a) = true → ∃ s, convert sp a = Ok s.
Proof.
  unfold fits, convert. destruct a; cbn [ty]; intros H; rewrite ?H; eauto.
  apply orb_true_iff in H as [-> | ->]; [eauto|]. destruct (_ && _); eauto.
Qed.

Lemma print_ok ps args : accepts ps (ty <$> args) = true → ∃ s, print ps args = Ok s.
Proof.
  revert args. induction ps as [|[c|sp] ps IH]; intros args; [by exists []|..]; cbn [accepts print].
  - intros H. destruct (IH args H) as [s ->]. by eexists.
  - destruct args as [|a args]; [done|]. rewrite fmap_cons. intros [H1 H2]%andb_true_iff.
    destruct (convert_ok sp a H1) as [s ->]. destruct (IH args H2) as [r ->]. by eexists.
Qed.

(** A format that fits its arguments prints, whatever their values. *)
Lemma printf_ok format args : well_typed format (ty <$> args) = true → ∃ s, printf format args = Ok s.
Proof. unfold well_typed, printf. cbv zeta. destruct (parse _ _); [apply print_ok|done]. Qed.

End Printf.
