(* ===== verification/DiffTest.v ===== *)
(** * The standalone differential fuzzer (tests/difftest_main.cpp)

    Its [main], over the generator of Fuzz.v, the comparison of Diff.v and the
    shrinker of Shrink.v, and [format] of tests/diff_harness.cpp, which prints a
    sequence as C++. Whatever its arguments, as long as the engine's ring can hold
    a sequence, the fuzzer finds nothing. *)

From Stdlib Require Import Ascii String.
From stdpp Require Import base decidable list.
From S2P Require Import Prelude.
From S2P Require Import Types.
From S2P Require Import Spec.
From S2P Require Import Refine.
From S2P Require Import Diff.
From S2P Require Import Shrink.
From S2P Require Import Rng.
From S2P Require Import Fuzz.
From S2P Require Import Text.
From S2P Require Import Printf.
Import Text.
Import Printf.

#[local] Open Scope Z_scope.

Module Difftest.

(** ** format *)

Definition policy_name (policy : SelfTradePolicy) : Str :=
  match policy with
  | Allow => codes "Allow"
  | CancelIncoming => codes "CancelIncoming"
  | CancelResting => codes "CancelResting"
  end.

Definition format_op (op : Diff.Op) : Str :=
  let side := match Diff.op_side op with Buy => codes "Side::Buy" | Sell => codes "Side::Sell" end in
  let number x := to_string x in
  let comma := codes ", " in
  let close := literal ");\n" in
  match Diff.op_kind op with
  | Diff.AddLimit => codes "book.add_limit(" ++ number (Diff.op_id op) ++ comma ++ number (Diff.op_owner op) ++ comma ++
      side ++ comma ++ number (Diff.op_price op) ++ comma ++ number (Diff.op_qty op) ++ close
  | Diff.AddMarket => codes "book.add_market(" ++ number (Diff.op_id op) ++ comma ++ number (Diff.op_owner op) ++ comma ++
      side ++ comma ++ number (Diff.op_qty op) ++ close
  | Diff.Cancel => codes "book.cancel(" ++ number (Diff.op_id op) ++ close
  | Diff.Modify => codes "book.modify(" ++ number (Diff.op_id op) ++ comma ++ number (Diff.op_price op) ++ comma ++
      number (Diff.op_qty op) ++ close
  end.

Definition format (ops : list Diff.Op) (cfg : Config) : Str :=
  let pol := policy_name (self_trade cfg) in
  literal "\n// SelfTradePolicy::" ++ pol ++ codes ", " ++ to_string (zlen ops) ++ literal " ops\n" ++
  codes "lob::Config cfg{lob::SelfTradePolicy::" ++ pol ++ literal ", 4096};\n" ++
  (if negb (price_levels cfg =? price_levels default_config)
   then codes "cfg.price_levels = " ++ to_string (price_levels cfg) ++ literal ";\n" else []) ++
  (match price_base cfg with Some base => codes "cfg.price_base = " ++ to_string base ++ literal "u;\n" | None => [] end) ++
  literal "lob::OrderBook book(cfg);\n" ++ concat (format_op <$> ops).

(** ** main *)

Definition policies : list SelfTradePolicy := [CancelResting; Allow; CancelIncoming].

(** The price windows: how many levels, and from where. *)
Definition windows : list (Z * option Price) :=
  [(price_levels default_config, None); (3, Some 999); (1, None); (4, None); (0, None)].

(** The engine's configuration for a seed. *)
Definition engine_for (seed : Z) : res Config :=
  policy ← vget policies (seed mod 3);
  w ← vget windows (seed / 3 mod zlen windows);
  let engine := Diff.engine_config policy in
  Ok (MkConfig (self_trade engine) (trade_capacity engine) (pool_nodes engine)
    (if negb (seed / 15 mod 2 =? 0) then 1 else expected_orders engine) w.1 w.2).

(** [std::strtoull(argv[i], nullptr, 10)], or the default without that argument. *)
Definition number_argument (argv : list Str) (i : nat) (otherwise : Z) : Z :=
  match argv !! i with Some s => strtoull s | None => otherwise end.

Section main.
Context {build : Build}.

(** The loop over the sequences: the exit status when it returns early, and what is
    printed. The shrinker's candidates are shorter than the sequence it is given, and
    their runs return. *)
Fixpoint sequences (n : nat) (i count first_seed : Z) (cfg : Fuzz.GenConfig) : res (option Z * Str) :=
  match n with
  | O => Ok (None, [])
  | S n =>
      let seed := u64 (first_seed + i) in
      engine ← engine_for seed;
      ops ← Fuzz.generate cfg seed;
      diverged ← Diff.diverges ops engine;
      if diverged : bool then
        minimal ← Shrink.shrink (λ candidate, match Diff.diverges candidate engine with Ok d => d | Err _ => false end) ops;
        line ← printf "\nDIVERGENCE at seed %llu: shrunk %zu ops -> %zu\n%s\n"
          [AUll seed; ASize (zlen ops); ASize (zlen minimal); AStr (format minimal engine)];
        Ok (Some 1, line)
      else
        line ← (if u64 (i + 1) mod 25000 =? 0 then printf "  %zu/%zu clean\n" [ASize (u64 (i + 1)); ASize count] else Ok []);
        '(status, text) ← sequences n (u64 (i + 1)) count first_seed cfg;
        Ok (status, line ++ text)
  end.

(** [main(argc, argv)] without the program's name: the exit status and what is
    written to stdout. *)
Definition main (argv : list Str) : res (Z * Str) :=
  let count := number_argument argv 0 100000 in
  let first_seed := number_argument argv 1 1 in
  let length := number_argument argv 2 40 in
  let d := Fuzz.default_gen in
  let cfg := Fuzz.MkGenConfig (Fuzz.mid d) (Fuzz.half_band d) (Fuzz.max_qty d) (Fuzz.owners d)
    (Fuzz.anonymous_percent d) (Fuzz.recent_window d) length in
  header ← printf "running %zu sequences x %zu ops, seeds %llu..%llu\n"
    [ASize count; ASize length; AUll first_seed; AUll (u64 (u64 (first_seed + count) - 1))];
  '(status, text) ← sequences (Z.to_nat count) 0 count first_seed cfg;
  match status with
  | Some status => Ok (status, header ++ text)
  | None =>
      last ← printf "all %zu sequences agree\n" [ASize count];
      Ok (0, header ++ text ++ last)
  end.

(** ** The fuzzer finds nothing *)

Lemma engine_for_ok seed : 0 ≤ seed → ∃ engine, engine_for seed = Ok engine ∧ Refine.config_ok engine ∧ trade_capacity engine = 65536.
Proof.
  intros Hs. unfold engine_for.
  assert (H3 : 0 ≤ seed mod 3 < 3) by (apply Z.mod_pos_bound; lia).
  destruct (zlookup_lt policies (seed mod 3)) as [p Hp]; [done|]. rewrite (vget_ok _ _ _ Hp). cbn [mbind res_bind].
  assert (H5 : 0 ≤ seed / 3 mod 5 < 5) by (apply Z.mod_pos_bound; lia). change (zlen windows) with 5.
  destruct (zlookup_lt windows (seed / 3 mod 5)) as [[levels base] Hw]; [done|]. rewrite (vget_ok _ _ _ Hw). cbn [mbind res_bind].
  eexists. split; [done|]. split; [|done].
  assert (Hwin : 0 ≤ levels < two64 ∧ 0 ≤ default 0 base < two64).
  { apply zlookup_Some in Hw as [_ Hw%list_elem_of_lookup_2]. unfold windows in Hw. rewrite !elem_of_cons in Hw.
    destruct Hw as [E|[E|[E|[E|[E|E]]]]]; [injection E as -> ->; simpl; lia..|by apply elem_of_nil in E]. }
  unfold Refine.config_ok. simpl. destruct (negb _); lia.
Qed.

Lemma sequences_agree cfg n i count first_seed : Fuzz.config_ok cfg → 0 ≤ Fuzz.length_ cfg ≤ 65536 →
  ∃ text, sequences n i count first_seed cfg = Ok (None, text).
Proof.
  intros Hcfg Hlen. revert i. induction n as [|n IH]; intros i; cbn [sequences]; [by eexists|].
  destruct (engine_for_ok (u64 (first_seed + i))) as (engine & -> & Heng & Hcap); [apply u64_range|]. cbn [mbind res_bind].
  destruct (Fuzz.fuzzing_never_diverges cfg (u64 (first_seed + i)) engine Hcfg) as (ops & -> & Hd); [lia|done|lia|].
  cbn [mbind res_bind]. rewrite Hd. cbn [mbind res_bind]. destruct (IH (u64 (i + 1))) as [text ->].
  destruct (_ =? _); [|by eexists].
  destruct (printf_ok "  %zu/%zu clean\n" [ASize (u64 (i + 1)); ASize count] eq_refl) as [line ->]. by eexists.
Qed.

(** C32. The fuzzer finds nothing: for every number of sequences, every first seed
    and every length the engine's ring can hold, whatever the windows, the policies
    and the size of the pool it rotates through, its [main] returns 0 and its last
    line says that all sequences agree. *)
Theorem fuzzer_finds_nothing argv : 0 ≤ number_argument argv 2 40 ≤ 65536 →
  ∃ text last, printf "all %zu sequences agree\n" [ASize (number_argument argv 0 100000)] = Ok last ∧
    main argv = Ok (0, text ++ last).
Proof.
  intros Hlen. unfold main. cbv zeta.
  match goal with |- context [printf "running %zu sequences x %zu ops, seeds %llu..%llu\n" ?a] =>
    destruct (printf_ok "running %zu sequences x %zu ops, seeds %llu..%llu\n" a eq_refl) as [header ->] end.
  cbn [mbind res_bind].
  match goal with |- context [sequences ?n ?i ?c ?f ?g] => destruct (sequences_agree g n i c f) as [text ->] end; [by split|done|].
  cbn [mbind res_bind]. destruct (printf_ok "all %zu sequences agree\n" [ASize (number_argument argv 0 100000)] eq_refl) as [last ->].
  exists (header ++ text), last. split; [done|]. cbn [mbind res_bind]. by rewrite app_assoc.
Qed.

(** ** Where it would be wrong *)

(** A sequence with more trades than the ring can hold is reported as a divergence,
    although the engine's book is right: only its ring is full. *)
Lemma full_ring_diverges cfg ops : Refine.config_ok cfg → Forall Diff.op_ok ops → zlen ops ≤ two31 →
  Refine.ring_capacity cfg < zlen (Diff.trades (Diff.spec_observed (Spec.empty (self_trade cfg)) ops)) →
  Diff.diverges ops cfg = Ok true.
Proof.
  intros Hcfg Hops Hlen Hfull. unfold Diff.diverges. rewrite Diff.run_engine_spec by done. cbn [mbind res_bind].
  rewrite Diff.run_reference_spec by done. cbn [mbind res_bind]. unfold Diff.same.
  assert (Hshort : ∀ (xs ys : list Trade), zlen xs < zlen ys → Diff.same_all Diff.same_trade xs ys = false).
  { intros xs. induction xs as [|x xs IH]; intros [|y ys]; rewrite ?zlen_cons; intros H; [done..| |].
    - pose proof (zlen_nonneg xs). change (zlen []) with 0 in H. lia.
    - cbn [Diff.same_all]. rewrite IH by lia. by rewrite andb_false_r. }
  destruct (Refine.make_refines cfg Hcfg) as (_ & _ & _ & _ & Hpos).
  rewrite Hshort; [done|]. revert Hfull. generalize (Diff.spec_observed (Spec.empty (self_trade cfg)) ops) as o. intros o Hfull.
  unfold Diff.cut_trades, zlen in *. cbn [Diff.trades]. rewrite length_take. lia.
Qed.

End main.

Lemma fuzzer_finds_nothing_witness : let build := {| NDEBUG := false; kAsan := false |} in
  number_argument [codes "2"; codes "7"; codes "12"] 2 40 = 12 ∧ ∃ text, main [codes "2"; codes "7"; codes "12"] = Ok (0, text).
Proof.
  intros build. destruct (fuzzer_finds_nothing [codes "2"; codes "7"; codes "12"]) as (text & last & _ & H); [vm_compute; split; discriminate|].
  split; [vm_compute; reflexivity|]. exists (text ++ last). exact H.
Defined.

(** [format] drops what else was configured: the pool's size, the ring's and where
    the nodes come from. What it prints for the fuzzer's configurations is a book
    with another pool and another ring. *)
Lemma format_drops_the_pool ops policy cap nodes n levels base :
  format ops (MkConfig policy cap nodes n levels base) = format ops (MkConfig policy 4096 true 0 levels base).
Proof. done. Qed.

End Difftest.
