(* ===== verification/Machine.v ===== *)
(** * What the benchmark asks of the machine (bench/bench_main.cpp, machine setup)

    The affinity of the thread, the files of /proc and /sys, the page-fault and
    switch counters, and the heap grown ahead of the run. What the system answers
    is a class; an answer that can change is indexed by the moment it is given,
    counted in readings of the clock. *)

From Stdlib Require Import Ascii String.
From stdpp Require Import base decidable list gmap.
From S2P Require Import Prelude.
From S2P Require Import Memory.
From S2P Require Import Text.
Import Text.

Module Machine.

Abbreviation two62 := 4611686018427387904 (only parsing).

(** The resource counts of a thread, of [getrusage]. *)
Record Rusage := MkRusage { ru_minflt : Z; ru_majflt : Z; ru_nvcsw : Z; ru_nivcsw : Z }.

(** [fopen_w] is the message of [perror] when a file cannot be opened for
    writing. Counts only grow, and no thread has 2^62 faults or switches. *)
Class Os := {
  sched_getaffinity : option (Z → bool);
  pthread_setaffinity : Z → bool;
  sched_getcpu : nat → Z;
  read_file : nat → Str → option Str;
  getrusage : nat → Rusage;
  page_size : Z;
  fopen_w : Str → option Str;
  getrusage_ok i : let r := getrusage i in
    0 ≤ ru_minflt r < two62 ∧ 0 ≤ ru_majflt r < two62 ∧ 0 ≤ ru_nvcsw r < two62 ∧ 0 ≤ ru_nivcsw r < two62;
  page_size_ok : 0 < page_size < two31;
}.

Section os.
Context {os : Os}.

(** ** The CPU *)

(** [CPU_SETSIZE]. *)
Definition kCpuSetSize : nat := 1024.

Fixpoint last_cpu (n : nat) (set : Z → bool) : Z :=
  match n with
  | O => -1
  | S n => if set (Z.of_nat n) then Z.of_nat n else last_cpu n set
  end.

Definition default_cpu : Z :=
  match sched_getaffinity with Some set => last_cpu kCpuSetSize set | None => -1 end.

Definition pin_to (cpu : Z) : bool := pthread_setaffinity cpu.

Definition current_cpu (i : nat) : Z := sched_getcpu i.

(** ** Files *)

(** A stream on a file that cannot be opened has nothing to read. *)
Definition ifstream (i : nat) (path : Str) : Str := default [] (read_file i path).

Definition read_line (i : nat) (path : Str) : Str :=
  match getline (ifstream i path) with Some (line, _) => line | None => [] end.

Definition frequency_report (i : nat) (cpu : Z) : list Str :=
  let gov := read_line i (codes "/sys/devices/system/cpu/cpu" ++ to_string (if cpu <? 0 then 0 else cpu) ++
                          codes "/cpufreq/scaling_governor") in
  if bool_decide (gov = []) then [codes "no cpufreq interface (VM or container) -- set the governor on the host"]
  else
    let b := read_line i (codes "/sys/devices/system/cpu/cpufreq/boost") in
    let nt := read_line i (codes "/sys/devices/system/cpu/intel_pstate/no_turbo") in
    let '(boost_on, tail) :=
      if negb (bool_decide (b = [])) then
        let on := bool_decide (b = codes "1") in (on, if on then codes ", boost on" else codes ", boost off")
      else if negb (bool_decide (nt = [])) then
        let on := bool_decide (nt = codes "0") in (on, if on then codes ", turbo on" else codes ", turbo off")
      else (false, []) in
    [codes "governor " ++ gov ++ tail] ++
    (if negb (bool_decide (gov = codes "performance")) then
       [codes "WARNING: clocks will vary -- sudo cpupower frequency-set -g performance"] else []) ++
    (if boost_on then [codes "WARNING: boost clocks depend on temperature -- disable boost for A/B runs"] else []).

(** The bracketed word in the kernel's setting. *)
Definition thp_mode (i : nat) : res Str :=
  let line := read_line i (codes "/sys/kernel/mm/transparent_hugepage/enabled") in
  match find 91 line, find 93 line with
  | Some open, Some close => substr line (open + 1) (u64 (close - open - 1))
  | _, _ => Ok (codes "unavailable")
  end.

Fixpoint anon_huge_loop (fuel : nat) (s : Str) : res Z :=
  match fuel with
  | O => Err out_of_fuel
  | S fuel =>
      let '(key, s) := word s in
      if bool_decide (key = []) then Ok 0
      else if bool_decide (key = codes "AnonHugePages:") then Ok (read_long s)
      else anon_huge_loop fuel (ignore 4096 s)
  end.

Definition anon_huge_kib (i : nat) : res Z :=
  let s := ifstream i (codes "/proc/self/smaps_rollup") in anon_huge_loop (S (length s)) s.

Fixpoint cpu_model_loop (fuel : nat) (s : Str) : res Str :=
  match fuel with
  | O => Err out_of_fuel
  | S fuel =>
      match getline s with
      | None => Ok (codes "unknown cpu")
      | Some (line, s) =>
          match (if starts_with (codes "model name") line then find 58 line else None) with
          | Some colon => substr_from line (colon + 2)
          | None => cpu_model_loop fuel s
          end
      end
  end.

Definition cpu_model (i : nat) : res Str :=
  let s := ifstream i (codes "/proc/cpuinfo") in cpu_model_loop (S (length s)) s.

(** ** Counters *)

Record Usage := MkUsage { faults : Z; switches : Z }.

(** Arithmetic on [long]: an overflow is undefined. *)
Definition long_of (x : Z) : res Z :=
  if (- two63 <=? x) && (x <? two63) then Ok x else Err undefined_behaviour.

Definition usage_now (i : nat) : res Usage :=
  let r := getrusage i in
  f ← long_of (ru_minflt r + ru_majflt r);
  s ← long_of (ru_nvcsw r + ru_nivcsw r);
  Ok (MkUsage f s).

Definition usage_minus (a b : Usage) : res Usage :=
  f ← long_of (faults a - faults b);
  s ← long_of (switches a - switches b);
  Ok (MkUsage f s).

(** ** The heap, grown ahead *)

Definition kChunk : Z := 16777216.

Section heap.
Context {system : Memory.System}.

(** [std::malloc(n)]: [None] is the null pointer. *)
Definition malloc (h : Memory.Heap) (n : Z) : option (Z * Memory.Heap) :=
  match Memory.operator_new h n with Ok r => Some r | Err _ => None end.

(** [std::free(p)], of a live block. *)
Definition free (h : Memory.Heap) (p : Z) : res Memory.Heap :=
  match Memory.blocks h !! p with Some n => Memory.operator_delete h p n | None => Err undefined_behaviour end.

(** One byte of every page of the block at [p], from [off] on. *)
Fixpoint touch_pages (fuel : nat) (h : Memory.Heap) (p off : Z) : res Memory.Heap :=
  match fuel with
  | O => Err out_of_fuel
  | S fuel =>
      if off <? kChunk then h ← Memory.write h (p + off) [1]; touch_pages fuel h p (u64 (off + page_size))
      else Ok h
  end.

Fixpoint grow_heap (fuel : nat) (h : Memory.Heap) (mib done : Z) (blocks : list Z) : res (list Z * Memory.Heap) :=
  match fuel with
  | O => Err out_of_fuel
  | S fuel' =>
      if done <? u64 (Z.shiftl mib 20) then
        match malloc h kChunk with
        | None => Ok (blocks, h)
        | Some (p, h) => h ← touch_pages fuel h p 0; grow_heap fuel' h mib (u64 (done + kChunk)) (blocks ++ [p])
        end
      else Ok (blocks, h)
  end.

Fixpoint free_all (h : Memory.Heap) (ps : list Z) : res Memory.Heap :=
  match ps with
  | [] => Ok h
  | p :: ps => h ← free h p; free_all h ps
  end.

(** [prefault_heap(mib)]; [mallopt] changes no block. Newest first. *)
Definition prefault_heap (fuel : nat) (h : Memory.Heap) (mib : Z) : res (Z * Memory.Heap) :=
  '(blocks, h) ← grow_heap fuel h mib 0 [];
  h ← free_all h (reverse blocks);
  Ok (u64 (zlen blocks * Z.shiftr kChunk 20), h).

(** *** Lemmas *)

(** [h'] is [h] with a one in the first byte of every page of the chunk at [p]
    from [off] on. *)
Record touched_from (off : Z) (h : Memory.Heap) (p : Z) (h' : Memory.Heap) : Prop := {
  t_blocks : Memory.blocks h' = Memory.blocks h;
  t_pages k : 0 ≤ k → off + k * page_size < kChunk → Memory.bytes h' !! (p + off + k * page_size) = Some 1;
  t_rest b : (∀ k, 0 ≤ k → off + k * page_size < kChunk → b ≠ p + off + k * page_size) →
    Memory.bytes h' !! b = Memory.bytes h !! b;
}.

Lemma touch_pages_spec h p off : Memory.blocks h !! p = Some kChunk → 0 ≤ off < two32 → ∃ h',
  (∀ fuel, (Z.to_nat (kChunk - off) < fuel)%nat → touch_pages fuel h p off = Ok h') ∧ touched_from off h p h'.
Proof.
  intros Hp. pose proof page_size_ok as Hpage. remember (Z.to_nat (kChunk - off)) as k eqn:Ek. revert h off Hp Ek.
  induction k as [k IH] using lt_wf_ind. intros h off Hp -> Hoff. destruct (Z.ltb_spec off kChunk) as [Hlt|Hge].
  - assert (Hin : Memory.in_block h (p + off) 1) by (exists p, kChunk; split; [done|lia]).
    set (h1 := Memory.mk (Memory.blocks h) (Memory.write_bytes (Memory.bytes h) (p + off) [1])).
    assert (Ew : Memory.write h (p + off) [1] = Ok h1) by by apply Memory.write_ok.
    unfold kChunk in Hlt. assert (Eo : u64 (off + page_size) = off + page_size) by (apply u64_small; lia).
    destruct (IH (Z.to_nat (kChunk - (off + page_size))) ltac:(unfold kChunk; lia) h1 (off + page_size) Hp eq_refl) as (h' & Ht & [Hb Hpg Hr]); [lia|].
    exists h'. split; [|split; [done| |]].
    + intros [|fuel] Hf; [lia|]. cbn [touch_pages]. rewrite (proj2 (Z.ltb_lt off kChunk)) by done.
      rewrite Ew. cbn [mbind res_bind]. rewrite Eo. apply Ht. unfold kChunk in *. lia.
    + intros j Hj Hlast. destruct (decide (j = 0)) as [->|Hj0].
      * rewrite Hr by (intros k' Hk' _; pose proof (Z.mul_nonneg_nonneg k' page_size); lia).
        rewrite Z.mul_0_l, Z.add_0_r. simpl. apply lookup_insert_eq.
      * replace (p + off + j * page_size) with (p + (off + page_size) + (j - 1) * page_size) by lia. apply Hpg; lia.
    + intros b Hb'. rewrite Hr.
      * simpl. rewrite lookup_insert_ne; [done|]. intros <-. apply (Hb' 0); unfold kChunk; lia.
      * intros j Hj Hlast ->. apply (Hb' (j + 1)); lia.
  - exists h. split; [|split; [done| |done]].
    + intros [|fuel] Hf; [lia|]. cbn [touch_pages]. by rewrite (proj2 (Z.ltb_ge off kChunk)).
    + intros j Hj Hlast. nia.
Qed.

Lemma touched_frame h p h' q m : touched_from 0 h p h' → Memory.disjoint q m p kChunk → Memory.agree (Memory.bytes h) (Memory.bytes h') q m.
Proof.
  intros [_ _ Hr] Hd b Hb. pose proof page_size_ok. apply Hr. unfold Memory.disjoint in Hd. intros k Hk Hlast ->.
  pose proof (Z.mul_nonneg_nonneg k page_size). lia.
Qed.

(** From the heap [h0] the system granted the chunks at [ps] one after the other,
    and every page of each was touched: the heap is then [h]. *)
Inductive granted (h0 : Memory.Heap) : list Z → Memory.Heap → Prop :=
  | granted_none : granted h0 [] h0
  | granted_chunk ps h p h1 h2 : granted h0 ps h → malloc h kChunk = Some (p, h1) → touched_from 0 h1 p h2 →
      granted h0 (ps ++ [p]) h2.

(** The heap [h] is [h0] and the chunks at [ps]. *)
Record grown (h0 : Memory.Heap) (ps : list Z) (h : Memory.Heap) : Prop := {
  g_ok : Memory.heap_ok h;
  g_nodup : NoDup ps;
  g_new p : p ∈ ps → Memory.blocks h0 !! p = None;
  g_blocks q : Memory.blocks h !! q = if decide (q ∈ ps) then Some kChunk else Memory.blocks h0 !! q;
  g_bytes q m : Memory.blocks h0 !! q = Some m → Memory.agree (Memory.bytes h0) (Memory.bytes h) q m;
}.

Lemma malloc_grown h0 ps h p h' : grown h0 ps h → malloc h kChunk = Some (p, h') →
  grown h0 (ps ++ [p]) h' ∧ Memory.blocks h' !! p = Some kChunk ∧ ∀ q m, Memory.blocks h0 !! q = Some m → Memory.disjoint q m p kChunk.
Proof.
  intros [Hok Hnd Hnew Hb Ha]. unfold malloc. destruct (Memory.operator_new h kChunk) as [r|] eqn:E; [|done]. intros [= ->].
  destruct (Memory.operator_new_ok h kChunk p h' Hok ltac:(done) E) as (Hok' & Hnone & Hb' & Hby & _ & _ & _ & Hdis).
  assert (Hp : (p ∉ ps) ∧ Memory.blocks h0 !! p = None).
  { rewrite Hb in Hnone. by destruct (decide (p ∈ ps)). }
  assert (Hold : ∀ q m, Memory.blocks h0 !! q = Some m → Memory.blocks h !! q = Some m).
  { intros q m Hq. rewrite Hb. destruct (decide (q ∈ ps)) as [Hin|]; [|done]. by rewrite Hnew in Hq. }
  split; [split|split]; [done|..].
  - apply NoDup_app. split_and!; [done| |by apply NoDup_singleton]. intros q Hq ->%list_elem_of_singleton. by apply Hp.
  - intros q [Hq| ->%list_elem_of_singleton]%elem_of_app; [by apply Hnew|apply Hp].
  - intros q. rewrite Hb'. destruct (decide (p = q)) as [<-|Hne].
    + rewrite lookup_insert_eq, decide_True; [done|]. apply elem_of_app. right. by apply list_elem_of_singleton.
    + rewrite lookup_insert_ne, Hb by done. destruct (decide (q ∈ ps)) as [Hin|Hin].
      * rewrite decide_True; [done|]. apply elem_of_app. by left.
      * rewrite decide_False; [done|]. intros [?| ->%list_elem_of_singleton]%elem_of_app; done.
  - rewrite Hby. done.
  - rewrite Hb'. by rewrite lookup_insert_eq.
  - intros q m Hq. specialize (Hdis q m (Hold q m Hq)). unfold Memory.disjoint in *. lia.
Qed.

Lemma granted_grown h0 ps h : Memory.heap_ok h0 → granted h0 ps h → grown h0 ps h.
Proof.
  intros Hh0. induction 1 as [|ps h p h1 h2 _ Hg E Ht].
  { split; [done|constructor|by intros p ?%not_elem_of_nil| |done]. intros q. by rewrite decide_False by apply not_elem_of_nil. }
  destruct (malloc_grown h0 ps h p h1 Hg E) as ([[H1 H2] Hnd Hnew Hb Ha] & _ & Hdis). pose proof (t_blocks _ _ _ _ Ht) as Hb2.
  split; [split; rewrite Hb2; done|done|done| |].
  - intros q. by rewrite Hb2.
  - intros q m Hq. eapply Memory.agree_trans; [by apply Ha|]. eapply touched_frame; [done|by apply Hdis].
Qed.

Lemma grow_heap_spec h0 mib (n : nat) h ps pos : let limit := u64 (Z.shiftl mib 20) in limit ≤ two64 - kChunk → Memory.heap_ok h0 →
  granted h0 ps h → pos = zlen ps * kChunk → pos < limit + kChunk → limit ≤ pos + Z.of_nat n * kChunk → ∃ ps' h',
  (∀ fuel, (Z.to_nat kChunk + n < fuel)%nat → grow_heap fuel h mib pos ps = Ok (ps', h')) ∧
  granted h0 ps' h' ∧ zlen ps' * kChunk < limit + kChunk ∧ (zlen ps' * kChunk < limit → malloc h' kChunk = None).
Proof.
  intros limit Hlim Hh0. revert h ps pos. induction n as [|n IH]; intros h ps pos Hg Epos Hpos Hn.
  { exists ps, h. split_and!; [|done|lia|lia]. intros [|fuel] Hf; [lia|]. cbn [grow_heap]. fold limit.
    by rewrite (proj2 (Z.ltb_ge pos limit)) by lia. }
  destruct (Z.ltb_spec pos limit) as [Hlt|Hge]; cycle 1.
  { exists ps, h. split_and!; [|done|lia|lia]. intros [|fuel] Hf; [lia|]. cbn [grow_heap]. fold limit.
    by rewrite (proj2 (Z.ltb_ge pos limit)) by lia. }
  destruct (malloc h kChunk) as [[p h1]|] eqn:E; cycle 1.
  { exists ps, h. split_and!; [|done|lia|done]. intros [|fuel] Hf; [lia|]. cbn [grow_heap]. fold limit.
    by rewrite (proj2 (Z.ltb_lt pos limit)), E. }
  destruct (malloc_grown h0 ps h p h1 (granted_grown _ _ _ Hh0 Hg) E) as (_ & Hp & _).
  destruct (touch_pages_spec h1 p 0 Hp) as (h2 & Ht & Ht2); [lia|].
  assert (Eu : u64 (pos + kChunk) = pos + kChunk).
  { apply u64_small. subst pos. pose proof (zlen_nonneg ps). unfold kChunk in *. lia. }
  destruct (IH h2 (ps ++ [p]) (pos + kChunk) (granted_chunk _ _ _ _ _ _ Hg E Ht2)) as (ps' & h' & Hgrow & Hg' & Hrest);
    [rewrite ?zlen_app; change (zlen [p]) with 1; lia..|].
  exists ps', h'. split_and!; [|done|apply Hrest..].
  intros [|fuel] Hf; [lia|]. cbn [grow_heap]. fold limit. rewrite (proj2 (Z.ltb_lt pos limit)), E by done.
  rewrite Ht by (rewrite Z.sub_0_r; lia). cbn [mbind res_bind]. rewrite Eu. apply Hgrow. lia.
Qed.

Lemma free_all_spec h ps : Memory.heap_ok h → NoDup ps → (∀ p, p ∈ ps → is_Some (Memory.blocks h !! p)) → ∃ h',
  free_all h ps = Ok h' ∧ Memory.heap_ok h' ∧ Memory.bytes h' = Memory.bytes h ∧
  ∀ q, Memory.blocks h' !! q = if decide (q ∈ ps) then None else Memory.blocks h !! q.
Proof.
  revert h. induction ps as [|p ps IH]; intros h Hok Hnd Hin; cbn [free_all].
  { exists h. split_and!; [done..|]. intros q. by rewrite decide_False by apply not_elem_of_nil. }
  apply NoDup_cons in Hnd as [Hp Hnd]. destruct (Hin p) as [n En]; [left|]. unfold free. rewrite En.
  destruct (Memory.operator_delete_ok h p n Hok En) as (h1 & -> & Hok1 & Hb1 & Hby1). cbn [mbind res_bind].
  destruct (IH h1 Hok1 Hnd) as (h' & E & Hok' & Hby' & Hb').
  { intros q Hq. rewrite Hb1, lookup_delete_ne by (by intros ->). apply Hin. by right. }
  exists h'. split_and!; [exact E|done|congruence|]. intros q. rewrite Hb', Hb1.
  destruct (decide (q = p)) as [->|Hne].
  - rewrite (decide_True (P := p ∈ p :: ps)) by left. rewrite decide_False by done. apply lookup_delete_eq.
  - rewrite lookup_delete_ne by done. destruct (decide (q ∈ ps)) as [Hq|Hq].
    + rewrite decide_True; [done|]. by right.
    + rewrite decide_False; [done|]. by intros [?|?]%elem_of_cons.
Qed.

Lemma prefault_heap_spec h mib : Memory.heap_ok h → 0 ≤ mib ≤ 17592186044400 → ∃ N h' ps h1,
  (∀ fuel, (N ≤ fuel)%nat → prefault_heap fuel h mib = Ok (16 * zlen ps, h')) ∧ granted h ps h1 ∧
  16 * zlen ps < mib + 16 ∧ (16 * zlen ps < mib → malloc h1 kChunk = None) ∧
  Memory.blocks h' = Memory.blocks h ∧ Memory.bytes h' = Memory.bytes h1.
Proof.
  intros Hok Hmib. assert (El : u64 (Z.shiftl mib 20) = mib * 1048576).
  { rewrite Z.shiftl_mul_pow2 by lia. change (2 ^ 20) with 1048576. apply u64_small. lia. }
  destruct (grow_heap_spec h mib (Z.to_nat mib) h [] 0) as (ps & h1 & Hgrow & Hgr & Hup & Hlow);
    [rewrite El; unfold kChunk; lia|done|constructor|done|rewrite El; unfold kChunk; lia..|].
  pose proof (granted_grown _ _ _ Hok Hgr) as [Hok1 Hnd Hnew Hb _]. pose proof (zlen_nonneg ps).
  destruct (free_all_spec h1 (reverse ps) Hok1) as (h2 & E & _ & Hby & Hb2).
  { by rewrite reverse_Permutation. }
  { intros p Hp. exists kChunk. rewrite !elem_of_reverse in Hp. by rewrite Hb, decide_True. }
  rewrite El in *. unfold kChunk in Hup, Hlow. exists (Z.to_nat kChunk + Z.to_nat mib + 1)%nat, h2, ps, h1.
  split_and!; [intros fuel Hf|done|lia|intros Hn; apply Hlow; lia| |done].
  - unfold prefault_heap. rewrite Hgrow by lia. cbn [mbind res_bind]. rewrite E. cbn [mbind res_bind].
    change (Z.shiftr kChunk 20) with 16. by rewrite u64_small, Z.mul_comm by lia.
  - apply map_eq. intros q. rewrite Hb2, Hb. destruct (decide (q ∈ ps)) as [Hq|Hq].
    + rewrite decide_True by by apply elem_of_reverse. symmetry. by apply Hnew.
    + by rewrite decide_False by by rewrite elem_of_reverse.
Qed.

(** C33. Growing the heap ahead ends. The system granted it chunks of 16 MiB, one
    after the other from the heap it began with, and every page of each was
    touched; it stops at the amount asked for, rounded up to a chunk, or at the
    first chunk the system refuses, and reports exactly what was granted. Every
    chunk is given back: the live blocks are those of before, and their bytes too. *)
Theorem prefault_gives_back h mib : Memory.heap_ok h → 0 ≤ mib ≤ 17592186044400 → ∃ N h' ps h1,
  (∀ fuel, (N ≤ fuel)%nat → prefault_heap fuel h mib = Ok (16 * zlen ps, h')) ∧ granted h ps h1 ∧
  16 * zlen ps < mib + 16 ∧ (16 * zlen ps < mib → malloc h1 kChunk = None) ∧
  Memory.blocks h' = Memory.blocks h ∧ Memory.bytes h' = Memory.bytes h1 ∧
  ∀ q m, Memory.blocks h !! q = Some m → Memory.agree (Memory.bytes h) (Memory.bytes h') q m.
Proof.
  intros Hok Hmib. destruct (prefault_heap_spec h mib Hok Hmib) as (N & h' & ps & h1 & Hp & Hg & Hup & Hlow & Hb & Hby).
  exists N, h', ps, h1. split_and!; [done..|]. intros q m Hq. rewrite Hby. by apply (g_bytes _ _ _ (granted_grown _ _ _ Hok Hg)).
Qed.

End heap.

(** ** What the readings give *)

Lemma anon_huge_loop_ok fuel s : (length s < fuel)%nat → ∃ n, anon_huge_loop fuel s = Ok n.
Proof.
  revert s. induction fuel as [|fuel IH]; intros s Hf; [lia|]. cbn [anon_huge_loop].
  destruct (word s) as [key r] eqn:E. case_bool_decide as Hk; [by eexists|]. case_bool_decide; [by eexists|].
  apply IH. pose proof (word_shorter s key r E Hk). pose proof (ignore_length 4096 r). lia.
Qed.

Lemma anon_huge_kib_ok i : ∃ n, anon_huge_kib i = Ok n.
Proof. apply anon_huge_loop_ok. lia. Qed.

Lemma thp_mode_ok i : ∃ s, thp_mode i = Ok s.
Proof.
  unfold thp_mode. set (line := read_line i _). destruct (find 91 line) as [o|] eqn:E; [|by eexists].
  destruct (find 93 line) as [c|]; [|by eexists]. apply find_range in E. unfold substr.
  destruct (Z.leb_spec (o + 1) (zlen line)); [by eexists|lia].
Qed.

(** The only failure: a line that ends at its colon. *)
Lemma cpu_model_loop_ok fuel s : (length s < fuel)%nat →
  match cpu_model_loop fuel s with
  | Ok _ => True
  | Err e => e = out_of_range ∧ ∃ line, starts_with (codes "model name") line = true ∧ find 58 line = Some (zlen line - 1)
  end.
Proof.
  revert s. induction fuel as [|fuel IH]; intros s Hf; [lia|]. cbn [cpu_model_loop].
  destruct (getline s) as [[line r]|] eqn:E; [|done]. apply getline_shorter in E.
  destruct (starts_with _ line) eqn:Es; [|apply IH; lia]. destruct (find 58 line) as [c|] eqn:Ec; [|apply IH; lia].
  pose proof (find_range _ _ _ Ec). unfold substr_from, substr. destruct (Z.leb_spec (c + 2) (zlen line)); [done|].
  split; [done|]. exists line. split; [done|]. rewrite Ec. f_equal. lia.
Qed.

(** A line with nothing after its colon ends the program by [std::out_of_range]. *)
Lemma cpu_model_may_throw : cpu_model_loop 100 (codes "model name:") = Err out_of_range.
Proof. reflexivity. Qed.

Lemma usage_ok i j : ∃ u v w, usage_now i = Ok u ∧ usage_now j = Ok v ∧ usage_minus v u = Ok w.
Proof.
  pose proof (getrusage_ok i) as Hi. pose proof (getrusage_ok j) as Hj. cbv zeta in *. unfold usage_now, usage_minus, long_of.
  repeat (match goal with |- context [if ?b then _ else _] => replace b with true by (symmetry; apply andb_true_iff; lia) end;
    cbn [mbind res_bind]).
  do 3 eexists. split_and!; [done..|]. cbn [faults switches].
  repeat (match goal with |- context [if ?b then _ else _] => replace b with true by (symmetry; apply andb_true_iff; lia) end;
    cbn [mbind res_bind]). done.
Qed.

End os.

(** ** A machine with eight CPUs that refuses nothing and tells nothing *)

Definition eight_cpus : Os.
Proof.
  refine {| sched_getaffinity := Some (λ c, c <? 8); pthread_setaffinity := λ _, true; sched_getcpu := λ _, 7;
    read_file := λ _ _, None; getrusage := λ _, MkRusage 0 0 0 0; page_size := 4096; fopen_w := λ _, None |}.
  - intros i. simpl. lia.
  - lia.
Defined.

Lemma prefault_gives_back_witness : ∃ N n h', ∀ fuel, (N ≤ fuel)%nat →
  prefault_heap (os := eight_cpus) (system := Memory.stacked) fuel Memory.no_blocks 64 = Ok (n, h') ∧ Memory.blocks h' = ∅.
Proof.
  destruct (prefault_gives_back (os := eight_cpus) (system := Memory.stacked) Memory.no_blocks 64 Memory.no_blocks_ok
    ltac:(split; discriminate)) as (N & h' & ps & h1 & H & _ & _ & _ & Hb & _).
  exists N, (16 * zlen ps), h'. intros fuel Hf. exact (conj (H fuel Hf) Hb).
Defined.

End Machine.
