(* ===== verification/CommandLine.v ===== *)
(** * The command line of the benchmark (the loop over [argv] of bench/bench_main.cpp)

    Options set the flow's configuration and the driver's, the last one winning;
    anything else ends the program with the usage text. *)

From Stdlib Require Import Ascii String.
From stdpp Require Import base decidable list.
From S2P Require Import Prelude.
From S2P Require Import Types.
From S2P Require Import Flow.
From S2P Require Import Text.
Import Text.

Module CommandLine.

(** The variables the options set. *)
Record Args := MkArgs {
  cfg : Flow.Config;
  runs : Z;
  prefault_mib : Z;
  cpu : Z;
  system_alloc : bool;
  price_levels : Z;
  dump_path : option Str;
}.

Definition default_args (default_cpu : Z) : Args := MkArgs Flow.default_config 5 64 default_cpu false 4096 None.

Definition set_flow (c : Flow.Config) (a : Args) : Args :=
  MkArgs c (runs a) (prefault_mib a) (cpu a) (system_alloc a) (price_levels a) (dump_path a).

(** The four fields of the flow's configuration that have an option. *)
Definition with_flow (seed ops warmup depth : Z) (c : Flow.Config) : Flow.Config :=
  Flow.MkConfig seed ops warmup (Flow.add_percent c) (Flow.cancel_percent c) (Flow.modify_percent c)
    (Flow.marketable_percent c) depth (Flow.start_mid c) (Flow.mid_step_per_mille c) (Flow.near_touch_percent c)
    (Flow.near_decay_percent c) (Flow.tail_ticks c) (Flow.recent_percent c) (Flow.recent_decay_percent c)
    (Flow.lot c) (Flow.size_decay_percent c) (Flow.owners c) (Flow.self_trade c).

Definition set_ops (n : Z) (a : Args) : Args :=
  let c := cfg a in set_flow (with_flow (Flow.seed c) n (Flow.warmup_ops c) (Flow.target_depth c) c) a.
Definition set_warmup (n : Z) (a : Args) : Args :=
  let c := cfg a in set_flow (with_flow (Flow.seed c) (Flow.ops c) n (Flow.target_depth c) c) a.
Definition set_seed (n : Z) (a : Args) : Args :=
  let c := cfg a in set_flow (with_flow n (Flow.ops c) (Flow.warmup_ops c) (Flow.target_depth c) c) a.
Definition set_depth (n : Z) (a : Args) : Args :=
  let c := cfg a in set_flow (with_flow (Flow.seed c) (Flow.ops c) (Flow.warmup_ops c) n c) a.
Definition set_runs (n : Z) (a : Args) : Args :=
  MkArgs (cfg a) n (prefault_mib a) (cpu a) (system_alloc a) (price_levels a) (dump_path a).
Definition set_prefault (n : Z) (a : Args) : Args :=
  MkArgs (cfg a) (runs a) n (cpu a) (system_alloc a) (price_levels a) (dump_path a).
Definition set_cpu (n : Z) (a : Args) : Args :=
  MkArgs (cfg a) (runs a) (prefault_mib a) n (system_alloc a) (price_levels a) (dump_path a).
Definition set_system_alloc (a : Args) : Args :=
  MkArgs (cfg a) (runs a) (prefault_mib a) (cpu a) true (price_levels a) (dump_path a).
Definition set_price_levels (n : Z) (a : Args) : Args :=
  MkArgs (cfg a) (runs a) (prefault_mib a) (cpu a) (system_alloc a) n (dump_path a).
Definition set_dump (s : Str) (a : Args) : Args :=
  MkArgs (cfg a) (runs a) (prefault_mib a) (cpu a) (system_alloc a) (price_levels a) (Some s).

(** The loop from [argv[1]] on; [None] is a call of [usage]. *)
Fixpoint parse_args (argv : list Str) (a : Args) : res (option Args) :=
  match argv with
  | [] => Ok (Some a)
  | arg :: rest =>
      let named (name : string) := bool_decide (arg = codes name) in
      let value (set : Str → Args) := match rest with v :: rest => parse_args rest (set v) | [] => Ok None end in
      if named "--ops"%string then value (λ v, set_ops (strtoull v) a)
      else if named "--warmup"%string then value (λ v, set_warmup (strtoull v) a)
      else if named "--runs"%string then value (λ v, set_runs (strtoull v) a)
      else if named "--seed"%string then value (λ v, set_seed (strtoull v) a)
      else if named "--depth"%string then value (λ v, set_depth (strtoull v) a)
      else if named "--cpu"%string then
        match rest with v :: rest => c ← atoi v; parse_args rest (set_cpu c a) | [] => Ok None end
      else if named "--no-pin"%string then parse_args rest (set_cpu (-1) a)
      else if named "--prefault"%string then value (λ v, set_prefault (strtoull v) a)
      else if named "--system-alloc"%string then parse_args rest (set_system_alloc a)
      else if named "--price-levels"%string then value (λ v, set_price_levels (strtoull v) a)
      else if named "--dump"%string then value (λ v, set_dump v a)
      else Ok None
  end.

(** ** Options as values *)

Inductive Setting :=
  | Ops (n : Z) | Warmup (n : Z) | Runs (n : Z) | Seed (n : Z) | Depth (n : Z) | Cpu (n : Z) | NoPin
  | Prefault (n : Z) | SystemAlloc | PriceLevels (n : Z) | Dump (path : Str).

(** How a caller writes one. *)
Definition render (s : Setting) : list Str :=
  match s with
  | Ops n => [codes "--ops"; to_string n]
  | Warmup n => [codes "--warmup"; to_string n]
  | Runs n => [codes "--runs"; to_string n]
  | Seed n => [codes "--seed"; to_string n]
  | Depth n => [codes "--depth"; to_string n]
  | Cpu n => [codes "--cpu"; to_string n]
  | NoPin => [codes "--no-pin"]
  | Prefault n => [codes "--prefault"; to_string n]
  | SystemAlloc => [codes "--system-alloc"]
  | PriceLevels n => [codes "--price-levels"; to_string n]
  | Dump path => [codes "--dump"; path]
  end.

Definition setting_ok (s : Setting) : Prop :=
  match s with
  | Ops n | Warmup n | Runs n | Seed n | Depth n | Prefault n | PriceLevels n => 0 ≤ n < two64
  | Cpu n => 0 ≤ n < two31
  | NoPin | SystemAlloc | Dump _ => True
  end.

Definition apply_setting (a : Args) (s : Setting) : Args :=
  match s with
  | Ops n => set_ops n a
  | Warmup n => set_warmup n a
  | Runs n => set_runs n a
  | Seed n => set_seed n a
  | Depth n => set_depth n a
  | Cpu n => set_cpu n a
  | NoPin => set_cpu (-1) a
  | Prefault n => set_prefault n a
  | SystemAlloc => set_system_alloc a
  | PriceLevels n => set_price_levels n a
  | Dump path => set_dump path a
  end.

Definition option_names : list string :=
  ["--ops"; "--warmup"; "--runs"; "--seed"; "--depth"; "--cpu"; "--no-pin"; "--prefault"; "--system-alloc";
   "--price-levels"; "--dump"]%string.

(** ** The properties *)

(** Walks down the comparisons with a known word. *)
Ltac pick_option :=
  repeat (rewrite (bool_decide_eq_false_2 (codes _ = codes _)) by (vm_compute; discriminate));
  rewrite (bool_decide_eq_true_2 (codes _ = codes _)) by reflexivity.

Lemma parse_setting s rest a : setting_ok s → parse_args (render s ++ rest) a = parse_args rest (apply_setting a s).
Proof.
  intros Hs. destruct s; cbn [render app parse_args]; pick_option; rewrite ?strtoull_to_string, ?atoi_to_string by done; done.
Qed.

Lemma parse_settings ss rest a : Forall setting_ok ss →
  parse_args (concat (render <$> ss) ++ rest) a = parse_args rest (foldl apply_setting a ss).
Proof.
  intros Hs. revert a. induction Hs as [|s ss Hs _ IH]; intros a; [done|].
  rewrite fmap_cons. cbn [concat]. rewrite <-app_assoc, parse_setting by done. apply IH.
Qed.

Lemma parse_unknown arg rest a : arg ∉ codes <$> option_names → parse_args (arg :: rest) a = Ok None.
Proof.
  unfold option_names. rewrite !fmap_cons, !not_elem_of_cons. intros Hne. cbn [parse_args].
  destruct_and! Hne. by rewrite !bool_decide_eq_false_2 by done.
Qed.

(** C36. Every command line of known options, numbers in range, is read back as the
    settings it was written from, in order; a first unknown word, or an option at
    the end without its value, is refused. *)
Theorem command_line_reads_back ss a : Forall setting_ok ss →
  parse_args (concat (render <$> ss)) a = Ok (Some (foldl apply_setting a ss)) ∧
  (∀ arg rest, arg ∉ codes <$> option_names → parse_args (concat (render <$> ss) ++ arg :: rest) a = Ok None) ∧
  (∀ name, name ∈ option_names → name ≠ "--no-pin"%string → name ≠ "--system-alloc"%string →
    parse_args (concat (render <$> ss) ++ [codes name]) a = Ok None).
Proof.
  intros Hs. split_and!.
  - pose proof (parse_settings ss [] a Hs) as H. by rewrite app_nil_r in H.
  - intros arg rest Harg. rewrite parse_settings by done. by apply parse_unknown.
  - intros name Hn H1 H2. rewrite parse_settings by done. unfold option_names in Hn. rewrite !elem_of_cons, elem_of_nil in Hn.
    destruct_or! Hn; subst; try done; cbn [parse_args]; pick_option; done.
Qed.

Lemma command_line_reads_back_witness :
  parse_args [codes "--ops"; codes "1000"; codes "--no-pin"; codes "--runs"; codes "3"] (default_args 7) =
    Ok (Some (set_runs 3 (set_cpu (-1) (set_ops 1000 (default_args 7))))) ∧
  parse_args [codes "--ops"; codes "1000"; codes "--verbose"] (default_args 7) = Ok None.
Proof.
  destruct (command_line_reads_back [Ops 1000; NoPin; Runs 3] (default_args 7) ltac:(repeat constructor; lia)) as (H & _).
  destruct (command_line_reads_back [Ops 1000] (default_args 7) ltac:(repeat constructor; lia)) as (_ & H' & _).
  split; [exact H|]. apply (H' (codes "--verbose") []). apply (bool_decide_unpack _). vm_compute. exact I.
Defined.

End CommandLine.
