(* ===== verification/Bench.v ===== *)
(** * The benchmark driver (bench/bench_main.cpp)

    Every operation of a flow timed on its own, the percentiles of the samples,
    and the dump of all of them. The clock is outside the program: a class gives
    its readings, which never go back and always go on. *)

From Stdlib Require Import String.
From stdpp Require Import base decidable list sorting.
From S2P Require Import Prelude.
From S2P Require Import Types.
From S2P Require Import Ring.
From S2P Require Import Book.
From S2P Require Import Flow.
From S2P Require Import Text.
From S2P Require Import Double.
From S2P Require Import Printf.
From S2P Require Import Machine.
Import Printf.

Module Bench.

Abbreviation two62 := 4611686018427387904 (only parsing).

(** What the time-stamp counter and [std::chrono::steady_clock] (in nanoseconds)
    show at the [i]-th reading of either: two in a row are less than 2^62 ticks
    apart, and any time comes. *)
Class Clock := {
  time : nat → Z;
  steady : nat → Z;
  time_step i : time i ≤ time (S i) < time i + two62;
  time_passes n : ∃ k, n ≤ time k;
  steady_step i : steady i ≤ steady (S i);
  steady_passes n : ∃ k, n ≤ steady k;
}.

(** ** Percentiles *)

(** [std::nth_element] leaves the element a sort would put there. *)
Definition median (v : list Z) : res Z := vget (merge_sort Z.le v) (zlen v / 2).

Definition kPointPpm : list Z := [500000; 990000; 999000; 999900; 1000000].

Definition Points : Type := list Z.

Definition nearest_rank (n ppm : Z) : Z :=
  let rank := u64 (u64 (n * ppm) + 999999) / 1000000 in if rank =? 0 then 0 else rank - 1.

Fixpoint points (v : list Z) (ppms : list Z) : res Points :=
  match ppms with
  | [] => Ok []
  | ppm :: ppms => p ← vget v (nearest_rank (zlen v) ppm); ps ← points v ppms; Ok (p :: ps)
  end.

(** [percentiles(v)], with [v] sorted. *)
Definition percentiles (v : list Z) : res (Points * list Z) :=
  if bool_decide (v = []) then Ok (vmake 5 0, v)
  else
    let v := merge_sort Z.le v in
    p ← points v kPointPpm;
    Ok (p, v).

(** ** The clock *)

Section clock.
Context {clock : Clock}.

(** [ticks_begin()] and [ticks_end()]: the [i]-th reading. *)
Definition ticks (i : nat) : Z := u64 (time i).

(** [while (clock::now() - c0 < 200 ms) {}]. *)
Fixpoint calibrate_loop (fuel : nat) (c0 : Z) (i : nat) : res nat :=
  match fuel with
  | O => Err out_of_fuel
  | S fuel => if steady i - c0 <? 200000000 then calibrate_loop fuel c0 (S i) else Ok (S i)
  end.

(** Ticks per nanosecond. *)
Definition calibrate (fuel : nat) (i : nat) : res (Double.double * nat) :=
  let c0 := steady i in
  let t0 := ticks (S i) in
  i ← calibrate_loop fuel c0 (S (S i));
  let t1 := ticks i in
  let ns := steady (S i) - c0 in
  Ok (Double.div (Double.of_Z (u64 (t1 - t0))) (Double.of_Z ns), S (S i)).

Fixpoint resolution_loop (n : nat) (i : nat) (g : Z) : Z * nat :=
  match n with
  | O => (g, i)
  | S n => resolution_loop n (S (S i)) (Z.gcd g (u64 (ticks (S i) - ticks i)))
  end.

Definition clock_resolution (i : nat) : Z * nat :=
  let '(g, i) := resolution_loop (Z.to_nat 100000) i 0 in (if g =? 0 then 1 else g, i).

Fixpoint empty_brackets (n : nat) (i : nat) : list Z * nat :=
  match n with
  | O => ([], i)
  | S n => let s := u64 (ticks (S i) - ticks i) in let '(l, i) := empty_brackets n (S (S i)) in (s :: l, i)
  end.

Definition timer_overhead (i : nat) : res (Z * nat) :=
  let '(samples, i) := empty_brackets (Z.to_nat 200000) i in
  m ← median samples;
  Ok (m, i).

(** [dt > overhead ? dt - overhead : 0]. *)
Definition less_overhead (overhead dt : Z) : Z := if overhead <? dt then u64 (dt - overhead) else 0.

(** [while (ticks_begin() - t0 < window) {}]. *)
Fixpoint spin_wait (fuel : nat) (t0 window : Z) (i : nat) : res nat :=
  match fuel with
  | O => Err out_of_fuel
  | S fuel => if u64 (ticks i - t0) <? window then spin_wait fuel t0 window (S i) else Ok (S i)
  end.

(** The noise floor: as many waits as there are samples. *)
Fixpoint spin_all (fuel : nat) (window overhead : Z) (spin : list Z) (i : nat) : res (list Z * nat) :=
  match spin with
  | [] => Ok ([], i)
  | _ :: spin =>
      let t0 := ticks i in
      i ← spin_wait fuel t0 window (S i);
      let s := less_overhead overhead (u64 (ticks i - t0)) in
      '(l, i) ← spin_all fuel window overhead spin (S i);
      Ok (s :: l, i)
  end.

(** ** Timing a flow *)

Section timing.
Context {build : Build}.

Definition timed_begin (f : Flow.Flow) : Z := u64 (Flow.f_build f + Flow.f_warmup f).
Definition timed_count (f : Flow.Flow) : Z := u64 (zlen (Flow.f_ops f) - timed_begin f).

(** The engine call between the two readings. *)
Definition timed_call (book : OrderBook.OrderBook) (op : Flow.Op) : res OrderBook.OrderBook :=
  match Flow.op_kind op with
  | Flow.Add =>
      '(book, _) ← OrderBook.add_limit book (Flow.op_id op) (Flow.op_owner op) (Flow.op_side op) (Flow.op_price op) (Flow.op_qty op);
      Ok book
  | Flow.Cancel => '(book, _) ← OrderBook.cancel book (Flow.op_id op); Ok book
  | Flow.Modify => '(book, _) ← OrderBook.modify book (Flow.op_id op) (Flow.op_price op) (Flow.op_qty op); Ok book
  | Flow.Marketable =>
      '(book, _) ←
        (if Flow.op_market op
         then OrderBook.add_market book (Flow.op_id op) (Flow.op_owner op) (Flow.op_side op) (Flow.op_qty op)
         else OrderBook.add_limit book (Flow.op_id op) (Flow.op_owner op) (Flow.op_side op) (Flow.op_price op) (Flow.op_qty op));
      Ok book
  end.

(** The book, the hash of its trades, the samples, and the clock. *)
Definition pass : Type := OrderBook.OrderBook * Z * list Z * nat.

(** [time_ops(book, begin, end, trade_hash)], from index [i] on. *)
Fixpoint time_ops_loop (fuel : nat) (ops : list Flow.Op) (overhead start last k : Z) (p : pass) : res pass :=
  match fuel with
  | O => Err out_of_fuel
  | S fuel =>
      if k <? last then
        let '(book, hash, samples, i) := p in
        op ← vget ops k;
        book ← timed_call book op;
        let dt := u64 (ticks (S i) - ticks i) in
        samples ← vset samples (u64 (k - start)) (less_overhead overhead dt);
        '(ts, book) ← OrderBook.drain_trades book;
        time_ops_loop fuel ops overhead start last (u64 (k + 1))
          (book, foldl Flow.hash_trade hash ts, samples, S (S i))
      else Ok p
  end.

Definition time_ops (ops : list Flow.Op) (overhead start last : Z) (p : pass) : res pass :=
  time_ops_loop (S (Z.to_nat (last - start))) ops overhead start last start p.

(** [by_kind[kind].push_back(samples[i])], for [n] samples from the [k]-th on. *)
Fixpoint sort_by_kind (n : nat) (ops : list Flow.Op) (samples : list Z) (first k : Z) (rows : list (list Z)) : res (list (list Z)) :=
  match n with
  | O => Ok rows
  | S n =>
      op ← vget ops (u64 (first + k));
      s ← vget samples k;
      row ← vget rows (Flow.kind_code (Flow.op_kind op));
      rows ← vset rows (Flow.kind_code (Flow.op_kind op)) (row ++ [s]);
      sort_by_kind n ops samples first (u64 (k + 1)) rows
  end.

(** The range [v.begin(), v.begin() + n). *)
Definition range (v : list Z) (n : Z) : res (list Z) :=
  if n <=? zlen v then Ok (take (Z.to_nat n) v) else Err undefined_behaviour.

Fixpoint all_percentiles (rows : list (list Z)) : res (list Points) :=
  match rows with
  | [] => Ok []
  | v :: rows => '(p, _) ← percentiles v; ps ← all_percentiles rows; Ok (p :: ps)
  end.

(** Its rows are all operations, each kind, and the noise floor. *)
Record RunResult := MkRunResult {
  rows : list Points;
  usage : Machine.Usage;
  stayed_on_cpu : bool;
  run_hash : Z;
  dropped : Z;
  window_base : option Price;
  opened_outside : Z;
  growths : Z;
  huge_kib : Z;
}.

Record Bench := MkBench {
  flow : Flow.Flow;
  book_cfg : Config;
  overhead : Z;
  samples : list Z;
  spin : list Z;
}.

Definition make (f : Flow.Flow) (cfg : Config) : Bench :=
  MkBench f cfg 0 (vmake (Z.max (Flow.f_build f) (Z.max (Flow.f_warmup f) (timed_count f))) 0) (vmake (timed_count f) 0).

Definition set_overhead (b : Bench) (ticks : Z) : Bench := MkBench (flow b) (book_cfg b) ticks (samples b) (spin b).

(** The dump of a run: a line for each of [n] samples from the [i]-th on, of the
    operations and then of the noise floor. *)
Fixpoint dump_ops (n : nat) (ops : list Flow.Op) (samples : list Z) (first index i : Z) (ticks_per_ns : Double.double) : res Text.Str :=
  match n with
  | O => Ok []
  | S n =>
      op ← vget ops (u64 (first + i));
      s ← vget samples i;
      line ← printf "%zu,%zu,%s,%.1f\n" [ASize (u64 (index + 1)); ASize i; AStr (Flow.kind_name (Flow.op_kind op));
                                         ADouble (Double.div (Double.of_Z s) ticks_per_ns)];
      rest ← dump_ops n ops samples first index (u64 (i + 1)) ticks_per_ns;
      Ok (line ++ rest)
  end.

Fixpoint dump_spin (n : nat) (spin : list Z) (index i : Z) (ticks_per_ns : Double.double) : res Text.Str :=
  match n with
  | O => Ok []
  | S n =>
      s ← vget spin i;
      line ← printf "%zu,%zu,spin,%.1f\n" [ASize (u64 (index + 1)); ASize i;
                                           ADouble (Double.div (Double.of_Z s) ticks_per_ns)];
      rest ← dump_spin n spin index (u64 (i + 1)) ticks_per_ns;
      Ok (line ++ rest)
  end.

Definition dump_run (dump : bool) (f : Flow.Flow) (samples spin : list Z) (index : Z) (ticks_per_ns : Double.double) : res Text.Str :=
  if dump then
    let n := Z.to_nat (timed_count f) in
    lines ← dump_ops n (Flow.f_ops f) samples (timed_begin f) index 0 ticks_per_ns;
    floor ← dump_spin n spin index 0 ticks_per_ns;
    Ok (lines ++ floor)
  else Ok [].

Section run.
Context {os : Machine.Os}.

(** [run(cpu, dump, index, ticks_per_ns)]: depth, warm-up, the timed pass, the
    noise floor, what it dumps, and the report. *)
Definition run (fuel : nat) (b : Bench) (cpu : Z) (dump : bool) (index : Z) (ticks_per_ns : Double.double) (i : nat) :
    res (Bench * RunResult * Text.Str * nat) :=
  let f := flow b in
  let ops := Flow.f_ops f in
  book ← OrderBook.make (book_cfg b);
  p ← time_ops ops (overhead b) 0 (Flow.f_build f) (book, Flow.kHashSeed, samples b, i);
  '(book, hash, smp, i) ← time_ops ops (overhead b) (Flow.f_build f) (timed_begin f) p;
  before ← Machine.usage_now i;
  '(book, hash, smp, i) ← time_ops ops (overhead b) (timed_begin f) (zlen ops) (book, hash, smp, i);
  after ← Machine.usage_now i;
  used ← Machine.usage_minus after before;
  let n := timed_count f in
  timed ← range smp n;
  window ← median timed;
  '(spin, i) ← spin_all fuel window (overhead b) (spin b) i;
  let stayed := (cpu <? 0) || (Machine.current_cpu i =? cpu) in
  huge ← Machine.anon_huge_kib i;
  csv ← dump_run dump f smp spin index ticks_per_ns;
  kinds ← sort_by_kind (Z.to_nat n) ops smp (timed_begin f) 0 (vmake 4 []);
  kind_rows ← all_percentiles kinds;
  '(all, _) ← percentiles timed;
  '(floor, spin) ← percentiles spin;
  Ok (MkBench f (book_cfg b) (overhead b) smp spin,
      MkRunResult ([all] ++ kind_rows ++ [floor]) used stayed hash (TradeRing.dropped (OrderBook.trade_out book))
        (OrderBook.price_window_base book) (OrderBook.levels_opened_outside_window book)
        (u64 (OrderBook.order_pool_growths book + OrderBook.id_index_growths book)) huge, csv, i).

End run.
End timing.
End clock.

End Bench.
