(* ===== verification/Report.v ===== *)
(** * What the benchmark prints (bench/bench_main.cpp, reporting)

    The header, the line of each run, the summary across runs and the closing
    lines, with the formats of the source. *)

From Stdlib Require Import String.
From stdpp Require Import base decidable list sorting.
From S2P Require Import Prelude.
From S2P Require Import Types.
From S2P Require Import Flow.
From S2P Require Import Text.
From S2P Require Import Double.
From S2P Require Import Printf.
From S2P Require Import Machine.
From S2P Require Import CommandLine.
From S2P Require Import Bench.
Import Text Printf Bench.

Module Report.

(** ** Numbers *)

Definition kPoints : Z := 5.
Definition kRows : Z := 6.
Definition kAllRow : Z := 0.
Definition kSpinRow : Z := kRows - 1.

(** [static_cast<Kind>(row - 1)]; any other value has no name. *)
Definition row_name (row : Z) : Str :=
  if row =? kAllRow then codes "all"
  else if row =? kSpinRow then codes "(spin)"
  else match row - 1 with
       | 0 => Flow.kind_name Flow.Add
       | 1 => Flow.kind_name Flow.Cancel
       | 2 => Flow.kind_name Flow.Modify
       | 3 => Flow.kind_name Flow.Marketable
       | _ => codes "?"
       end.

Definition nanoseconds (ticks : Z) (ticks_per_ns : Double.double) : res Z :=
  Double.to_u64 (Double.add (Double.div (Double.of_Z ticks) ticks_per_ns) Double.half).

Definition ns (ticks : Z) (ticks_per_ns : Double.double) : res Str := n ← nanoseconds ticks ticks_per_ns; grouped n.

Definition percent (part whole : Z) : Double.double :=
  if whole =? 0 then Double.Fin 0
  else Double.div (Double.mul (Double.of_Z 100) (Double.of_Z part)) (Double.of_Z whole).

(** One cell of the summary. *)
Record Cell := MkCell { median : Z; spread_percent : Double.double }.

Fixpoint cells (rs : list RunResult) (row point : Z) : res (list Z) :=
  match rs with
  | [] => Ok []
  | r :: rs => p ← vget (rows r) row; c ← vget p point; cs ← cells rs row point; Ok (c :: cs)
  end.

Definition across_runs (rs : list RunResult) (row point : Z) : res Cell :=
  v ← cells rs row point;
  let v := merge_sort Z.le v in
  med ← vget v ((zlen v - 1) / 2);
  back ← vget v (zlen v - 1);
  front ← vget v 0;
  Ok (MkCell med (if med =? 0 then Double.Fin 0
                  else Double.div (Double.mul (Double.of_Z 100) (Double.of_Z (u64 (back - front)))) (Double.of_Z med))).

(** ** Text *)

(** The texts of [f 0], ..., [f (n - 1)], one after the other. *)
Fixpoint each (n : nat) (i : Z) (f : Z → res Str) : res Str :=
  match n with
  | O => Ok []
  | S n => s ← f i; rest ← each n (i + 1) f; Ok (s ++ rest)
  end.

Section summary.
Context (rs : list RunResult) (f : Flow.Flow) (ticks_per_ns : Double.double).

Definition row_count (row : Z) : res Z :=
  if (row =? kAllRow) || (row =? kSpinRow) then Ok (timed_count f) else vget (Flow.count (Flow.f_stats f)) (row - 1).

Definition latency_cell (row j : Z) : res Str :=
  c ← across_runs rs row j;
  t ← ns (median c) ticks_per_ns;
  printf (if j + 1 =? kPoints then " %10s" else " %8s") [AStr t].

Definition latency_row (row : Z) : res Str :=
  n ← row_count row;
  g ← grouped n;
  name ← printf "  %-11s %11s" [AStr (row_name row); AStr g];
  line ← each (Z.to_nat kPoints) 0 (latency_cell row);
  Ok (name ++ line ++ literal "\n").

Definition spread_cell (row j : Z) : res Str :=
  c ← across_runs rs row j;
  printf (if j + 1 =? kPoints then " %9.0f%%" else " %7.0f%%") [ADouble (spread_percent c)].

Definition spread_row (row : Z) : res Str :=
  name ← printf "  %-11s %11s" [AStr (row_name row); AStr []];
  line ← each (Z.to_nat kPoints) 0 (spread_cell row);
  Ok (name ++ line ++ literal "\n").

Definition print_summary : res Str :=
  title ← printf "\nlatency (ns), median of %zu run%s\n" [ASize (zlen rs); AStr (if zlen rs =? 1 then [] else codes "s")];
  let head := literal "                    count      p50      p99    p99.9   p99.99        max\n" in
  table ← each (Z.to_nat kRows) 0 latency_row;
  if zlen rs <? 2 then Ok (title ++ head ++ table)
  else
    let head2 := literal "\nspread across runs, (max - min) / median\n" ++
      literal "                                p50      p99    p99.9   p99.99        max\n" in
    table2 ← each (Z.to_nat kRows) 0 spread_row;
    Ok (title ++ head ++ table ++ head2 ++ table2 ++
        literal "  A difference smaller than its cell's spread is noise, not a result.\n").

End summary.

(** The text of [usage], for the standard error. *)
Definition usage_text (argv0 : Str) : res Str :=
  printf ("usage: %s [--ops N] [--warmup N] [--runs R] [--seed S] [--depth D]\n" ++
    "          [--cpu C | --no-pin] [--prefault MiB] [--system-alloc]\n" ++
    "          [--price-levels N] [--dump FILE]\n" ++
    "  --ops       timed operations per run (default 2000000)\n" ++
    "  --warmup    mixed operations run before recording (default 300000)\n" ++
    "  --runs      repetitions, each on a fresh book (default 5)\n" ++
    "  --seed      flow seed (default 1)\n" ++
    "  --depth     target resting orders (default 5000)\n" ++
    "  --cpu       pin to this CPU (default: the last one allowed)\n" ++
    "  --no-pin    do not pin\n" ++
    "  --prefault  MiB of heap to pre-fault on glibc (default 64)\n" ++
    "  --system-alloc  fallback map nodes from malloc, not the book's arena\n" ++
    "  --price-levels  prices in the flat array, centred on the first resting\n" ++
    "              order (default 4096); 0 puts every level in a std::map\n" ++
    "  --dump      write every sample as CSV: run,index,kind,ns\n")%string [AStr argv0].

Definition refusal : Str :=
  literal ("bench: refusing to run in a debug or sanitized build -- invariant checks\n" ++
    "and instrumentation would dominate every sample. Build a release tree:\n" ++
    "  cmake -S . -B build-rel -DCMAKE_BUILD_TYPE=Release\n" ++
    "  cmake --build build-rel -j && ./build-rel/bench\n")%string.

(** [for (line : lines) printf(...)]. *)
Fixpoint frequency_lines (ls : list Str) : res Str :=
  match ls with
  | [] => Ok []
  | line :: ls => l ← printf "  frequency   %s\n" [AStr line]; r ← frequency_lines ls; Ok (l ++ r)
  end.

Section main.
Context {os : Machine.Os} (args : CommandLine.Args) (book_cfg : Config) (f : Flow.Flow) (ticks_per_ns : Double.double).

(** What is printed before the first run, up to the memory line. *)
Definition print_setup (i : nat) (pooled : bool) (prefaulted resolution overhead : Z) : res Str :=
  let cpu := CommandLine.cpu args in
  model ← Machine.cpu_model i;
  l1 ← printf "  cpu         %s, %s\n" [AStr model; AStr (if 0 <=? cpu then codes "pinned to cpu " ++ signed cpu else codes "NOT pinned")];
  l2 ← frequency_lines (Machine.frequency_report i (if 0 <=? cpu then cpu else Machine.current_cpu i));
  l3 ← printf ("  clock       rdtscp at %.3f GHz, resolution %.1f ns; empty bracket %llu ticks " ++ "(%.1f ns), subtracted\n")%string
         [ADouble ticks_per_ns; ADouble (Double.div (Double.of_Z resolution) ticks_per_ns); AUll overhead;
          ADouble (Double.div (Double.of_Z overhead) ticks_per_ns)];
  slots ← grouped (expected_orders book_cfg);
  l4 ← printf "  allocator   orders in a pool of %s slots, ids in a flat index; map nodes from %s\n"
         [AStr slots; AStr (if pooled then codes "the book's arena" else codes "malloc (--system-alloc)")];
  l5 ← (if negb (prefaulted =? 0) then printf "  memory      %zu MiB of heap pre-faulted, trimming off\n" [ASize prefaulted]
        else printf "  memory      heap pre-faulting skipped (--prefault 0, or not glibc)\n" []);
  Ok (literal "lob latency benchmark\n" ++ l1 ++ l2 ++ l3 ++ l4 ++ l5).

(** The paragraph on the flow. *)
Definition print_flow (gen_s : Double.double) : res Str :=
  let cfg := CommandLine.cfg args in
  let st := Flow.f_stats f in
  let count k := vget (Flow.count st) k in
  c0 ← count 0; c1 ← count 1; c2 ← count 2; c3 ← count 3;
  l1 ← printf "\nflow  seed %llu, hash %016llx, generated in %.1f s\n" [AUll (Flow.seed cfg); AUll (Flow.flow_hash st); ADouble gen_s];
  gb ← grouped (Flow.f_build f); gw ← grouped (Flow.f_warmup f); gt ← grouped (timed_count f);
  l2 ← printf "  per run     %s depth-building adds, %s warm-up ops, then %s timed ops\n" [AStr gb; AStr gw; AStr gt];
  l3 ← printf "  mix         add %.1f%%  cancel %.1f%%  modify %.1f%%  marketable %.1f%%\n"
         [ADouble (percent c0 (timed_count f)); ADouble (percent c1 (timed_count f));
          ADouble (percent c2 (timed_count f)); ADouble (percent c3 (timed_count f))];
  dmin ← grouped (Flow.depth_min st); dmax ← grouped (Flow.depth_max st); dt ← grouped (Flow.target_depth cfg);
  l4 ← printf "  book        %s-%s resting orders (target %s), spread p50 %llu tick%s, p99 %llu\n"
         [AStr dmin; AStr dmax; AStr dt; AUll (Flow.spread_p50 st); AStr (if Flow.spread_p50 st =? 1 then [] else codes "s");
          AUll (Flow.spread_p99 st)];
  gtr ← grouped (Flow.trades st);
  l5 ← printf "  trades      %s, %.1f per marketable op; %.0f%% sent as market orders\n"
         [AStr gtr; ADouble (if c3 =? 0 then Double.Fin 0 else Double.div (Double.of_Z (Flow.trades st)) (Double.of_Z c3));
          ADouble (percent (Flow.market_orders st) c3)];
  Ok (l1 ++ l2 ++ l3 ++ l4 ++ l5).

Definition runs_title : Str := literal "\nruns (ns over all timed ops; page faults and context switches while timing)\n".

(** The line of run [r], and the message of one that is discarded. *)
Definition run_line (r : Z) (res : RunResult) : Prelude.res Str :=
  all ← vget (rows res) kAllRow;
  p0 ← vget all 0; p1 ← vget all 1; p2 ← vget all 2; p3 ← vget all 3; p4 ← vget all 4;
  n0 ← ns p0 ticks_per_ns; n1 ← ns p1 ticks_per_ns; n2 ← ns p2 ticks_per_ns; n3 ← ns p3 ticks_per_ns; n4 ← ns p4 ticks_per_ns;
  printf ("  run %zu  p50 %s  p99 %s  p99.9 %s  p99.99 %s  max %s   " ++ "faults %ld  switches %ld%s\n")%string
    [ASize (u64 (r + 1)); AStr n0; AStr n1; AStr n2; AStr n3; AStr n4; ALong (Machine.faults (usage res));
     ALong (Machine.switches (usage res)); AStr (if stayed_on_cpu res then [] else codes "  WARNING: left its cpu")].

Definition discard_line (r : Z) (res : RunResult) : Prelude.res Str :=
  printf ("bench: run %zu trade stream does not match the generator's " ++
          "(hash %016llx vs %016llx, %llu dropped) -- numbers discarded\n")%string
    [ASize (u64 (r + 1)); AUll (run_hash res); AUll (Flow.trade_hash (Flow.f_stats f)); AUll (dropped res)].

Definition greatest (x : RunResult → Z) (rs : list RunResult) : Z := foldl (λ m r, Z.max m (x r)) 0 rs.

(** What follows the runs, up to the summary. *)
Definition print_totals (i : nat) (rs : list RunResult) : res Str :=
  l1 ← printf "  trade stream %016llx in every run, matching the generator\n" [AUll (Flow.trade_hash (Flow.f_stats f))];
  let outside := greatest opened_outside rs in
  let grew := greatest growths rs in
  let huge := greatest huge_kib rs in
  mode ← Machine.thp_mode i;
  l2 ← printf "  huge pages   %ld MiB of the book on 2 MiB pages (transparent huge pages: %s)\n" [ALong (Z.quot huge 1024); AStr mode];
  slots ← grouped (expected_orders book_cfg);
  l3 ← printf "  orders       pool and id index never outgrew %s orders%s\n"
         [AStr slots; AStr (if negb (grew =? 0) then codes ": WARNING, grew " ++ to_string grew ++ codes " times" else [])];
  first ← vget rs 0;
  let levels := CommandLine.price_levels args in
  l4 ← (if levels =? 0 then printf "  prices       no flat array (--price-levels 0): every level in a std::map\n" []
        else match window_base first with
             | Some base =>
                 gl ← grouped levels; gb ← grouped base; go ← grouped outside;
                 printf "  prices       flat array of %s levels from %s; %s level%s opened outside it\n"
                   [AStr gl; AStr gb; AStr go; AStr (if outside =? 1 then [] else codes "s")]
             | None => Ok []
             end);
  Ok (l1 ++ l2 ++ l3 ++ l4).

End main.

End Report.
