(* ===== verification/Driver.v ===== *)
(** * The benchmark program ([main] of bench/bench_main.cpp)

    From the command line to the exit status, with everything it writes: standard
    output, standard error and the dump. *)

From Stdlib Require Import String.
From stdpp Require Import base decidable list.
From S2P Require Import Prelude.
From S2P Require Import Memory.
From S2P Require Import Types.
From S2P Require Import Book.
From S2P Require Import Flow.
From S2P Require Import Text.
From S2P Require Import Double.
From S2P Require Import Printf.
From S2P Require Import Machine.
From S2P Require Import CommandLine.
From S2P Require Import Bench.
From S2P Require Import Report.
Import Text Printf Bench Report.

Module Driver.

(** How the program ends; the dump is there when it was opened. *)
Record Exit := MkExit {
  status : Z;
  out : Str;
  err : Str;
  dumped : option Str;
}.

Section driver.
Context {clock : Clock} {build : Build} {os : Machine.Os} {system : Memory.System}.

Definition kMeasurable : bool := NDEBUG && negb kAsan.

(** What the runs give: their results, the lines printed, what they dumped, and
    the message that ended the program before the last of them; [ended] is the
    next reading of the clock. *)
Record Measured := MkMeasured {
  results : list RunResult;
  lines : Str;
  csv : Str;
  discarded : option Str;
  ended : nat;
}.

Section runs.
Context (fuel : nat) (cpu : Z) (dump : bool) (ticks_per_ns : Double.double).

(** The loop over the runs, from run [r] on. *)
Fixpoint measure (runs : nat) (b : Bench) (r : Z) (i : nat) : res Measured :=
  match runs with
  | O => Ok (MkMeasured [] [] [] None i)
  | S runs =>
      '(b, res, text, i) ← run fuel b cpu dump r ticks_per_ns i;
      if negb (run_hash res =? Flow.trade_hash (Flow.f_stats (flow b))) || negb (dropped res =? 0) then
        message ← discard_line (flow b) r res;
        Ok (MkMeasured [] [] text (Some message) i)
      else
        line ← run_line ticks_per_ns r res;
        m ← measure runs b (u64 (r + 1)) i;
        Ok (MkMeasured (res :: results m) (line ++ lines m) (text ++ csv m) (discarded m) (ended m))
  end.

End runs.

Definition bench_config (cfg : Flow.Config) (system_alloc : bool) (price_levels : Z) : Config :=
  MkConfig (Flow.self_trade cfg) Flow.kTradeCapacity (negb system_alloc) (u64 (2 * Flow.target_depth cfg)) price_levels None.

Definition dump_header : Str := literal "run,index,kind,ns\n".

Definition closing_line (args : CommandLine.Args) : res Str :=
  match CommandLine.dump_path args with
  | Some path => printf "\nsamples written to %s\n" [AStr path]
  | None => Ok []
  end.

(** From the opened dump on: calibration, the runs, the report. *)
Definition main_measure (fuel : nat) (args : CommandLine.Args) (book_cfg : Config) (f : Flow.Flow) (b : Bench)
    (pooled : bool) (prefaulted : Z) (gen_s : Double.double) (i : nat) : res Exit :=
  let dump := match CommandLine.dump_path args with Some _ => true | None => false end in
  '(ticks_per_ns, i) ← calibrate fuel i;
  let '(resolution, i) := clock_resolution i in
  '(overhead, i) ← timer_overhead i;
  let b := set_overhead b overhead in
  setup ← print_setup args book_cfg ticks_per_ns i pooled prefaulted resolution overhead;
  about ← print_flow args f gen_s;
  m ← measure fuel (CommandLine.cpu args) dump ticks_per_ns (Z.to_nat (CommandLine.runs args)) b 0 i;
  let before := setup ++ about ++ runs_title ++ lines m in
  let file := if dump then Some (dump_header ++ csv m) else None in
  match discarded m with
  | Some message => Ok (MkExit 1 before message file)
  | None =>
      totals ← print_totals args book_cfg f (ended m) (results m);
      summary ← print_summary (results m) f ticks_per_ns;
      last ← closing_line args;
      Ok (MkExit 0 (before ++ totals ++ summary ++ last) [] file)
  end.

(** [main(argc, argv)] with [argv0 :: argv], on the heap [h]. The clock is read
    before and after the flow is generated. *)
Definition main (fuel : nat) (h : Memory.Heap) (argv0 : Str) (argv : list Str) : res Exit :=
  if negb kMeasurable then Ok (MkExit 2 [] refusal None)
  else
    let usage := text ← usage_text argv0; Ok (MkExit 2 [] text None) in
    args ← CommandLine.parse_args argv (CommandLine.default_args Machine.default_cpu);
    match args with
    | None => usage
    | Some args =>
        let cfg := CommandLine.cfg args in
        let cpu := CommandLine.cpu args in
        if (Flow.ops cfg =? 0) || (CommandLine.runs args =? 0) then usage
        else if (0 <=? cpu) && negb (Machine.pin_to cpu) then
          text ← printf "bench: could not pin to cpu %d\n" [AInt cpu];
          Ok (MkExit 1 [] text None)
        else
          f ← Flow.generate cfg;
          let gen_s := Double.div (Double.of_Z (steady 1 - steady 0)) (Double.of_Z 1000000000) in
          let book_cfg := bench_config cfg (CommandLine.system_alloc args) (CommandLine.price_levels args) in
          book ← OrderBook.make book_cfg;
          let b := make f book_cfg in
          '(prefaulted, h) ← Machine.prefault_heap fuel h (CommandLine.prefault_mib args);
          match (path ← CommandLine.dump_path args; message ← Machine.fopen_w path; Some (path ++ codes ": " ++ message ++ [10])) with
          | Some text => Ok (MkExit 1 [] text None)
          | None => main_measure fuel args book_cfg f b (OrderBook.pools_nodes book) prefaulted gen_s 2
          end
    end.

End driver.

End Driver.
