(* ===== verification/BenchProps.v ===== *)
(** * The benchmark measures the flow it was given

    Whatever the clock reads, every run replays the generator's trades, and the
    driver never discards its numbers; the percentiles are those of the samples. *)

From stdpp Require Import base decidable list sorting strings.
From S2P Require Import Prelude.
From S2P Require Import Types.
From S2P Require Import Ring.
From S2P Require Import Book.
From S2P Require Import Refine.
From S2P Require Import Flow.
From S2P Require Import Replay.
From S2P Require Import FlowSteps.
From S2P Require Import FlowProps.
From S2P Require Import Text.
From S2P Require Import Double.
From S2P Require Import Printf.
From S2P Require Import Machine.
From S2P Require Import Bench.
Import Printf.
Import Bench.
Import Replay.

(** ** Sorting and ranks *)

Lemma merge_sort_length v : zlen (merge_sort Z.le v) = zlen v.
Proof. unfold zlen. by rewrite merge_sort_Permutation. Qed.

Lemma nearest_rank_range n ppm : 0 < n → 0 ≤ ppm ≤ 1000000 → n * 1000000 + 999999 < two64 → 0 ≤ nearest_rank n ppm < n.
Proof.
  intros Hn Hp Hsz. unfold nearest_rank. rewrite (u64_small (n * ppm)) by nia. rewrite u64_small by nia.
  destruct (Z.eqb_spec ((n * ppm + 999999) / 1000000) 0); [lia|]. Z.div_mod_to_equations. nia.
Qed.

Lemma median_ok v : v ≠ [] → ∃ m, median v = Ok m ∧ m ∈ v.
Proof.
  intros Hv. unfold median. assert (Hi : 0 ≤ zlen v / 2 < zlen (merge_sort Z.le v)).
  { rewrite merge_sort_length. destruct v; [done|]. rewrite zlen_cons. pose proof (zlen_nonneg v). Z.div_mod_to_equations. lia. }
  destruct (zlookup_lt _ _ Hi) as [m Hm]. exists m. split; [by apply vget_ok|].
  apply zlookup_Some in Hm as [_ Hm%list_elem_of_lookup_2]. by rewrite merge_sort_Permutation in Hm.
Qed.

Lemma points_ok v ppms : v ≠ [] → zlen v * 1000000 + 999999 < two64 → Forall (λ ppm, 0 ≤ ppm ≤ 1000000) ppms →
  ∃ ps, points v ppms = Ok ps ∧ length ps = length ppms ∧
  Forall2 (λ p ppm, v.[nearest_rank (zlen v) ppm] = Some p) ps ppms.
Proof.
  intros Hv Hsz. induction 1 as [|ppm ppms Hp _ IH]; cbn [points]; [by exists []|].
  assert (Hpos : 0 < zlen v) by (destruct v; [done|]; rewrite zlen_cons; pose proof (zlen_nonneg v); lia).
  destruct (zlookup_lt v (nearest_rank (zlen v) ppm)) as [p Hpt]; [by apply nearest_rank_range|].
  rewrite (vget_ok _ _ _ Hpt). cbn [mbind res_bind]. destruct IH as (ps & -> & Hl & Hps). cbn [mbind res_bind].
  exists (p :: ps). split; [done|]. split; [simpl; by rewrite Hl|by constructor].
Qed.

Lemma percentiles_ok v : zlen v * 1000000 + 999999 < two64 → ∃ ps w, percentiles v = Ok (ps, w) ∧ length ps = 5%nat ∧ w ≡ₚ v.
Proof.
  intros Hsz. unfold percentiles. case_bool_decide as Hv; [by eexists _, _|].
  assert (Hs : merge_sort Z.le v ≠ []).
  { intros E. pose proof (merge_sort_Permutation Z.le v) as Hp. rewrite E in Hp. by apply Permutation_nil in Hp. }
  destruct (points_ok (merge_sort Z.le v) kPointPpm Hs) as (ps & -> & Hl & _); [by rewrite merge_sort_length|repeat constructor; lia|].
  cbn [mbind res_bind]. eexists _, _. split; [done|]. split; [done|apply merge_sort_Permutation].
Qed.

(** The [i]-th value of a sorted vector: [i] at most are smaller, and [i + 1] at
    least are not larger. *)
Lemma sorted_rank w i x : StronglySorted Z.le w → w.[i] = Some x → below x w ≤ i < at_most x w.
Proof.
  intros Hs [Hi Hx]%zlookup_Some. pose proof (take_drop_middle w _ _ Hx) as E. unfold below, at_most.
  assert (Hlen : zlen (take (Z.to_nat i) w) = i) by (unfold zlen in *; rewrite length_take; lia).
  set (lo := take _ w) in *. set (hi := drop _ w) in *. rewrite <-E in Hs |- *. clearbody lo hi. rewrite !filter_app, !zlen_app.
  assert (Hlo : filter (λ y, y ≤ x) lo = lo).
  { apply filter_whole. intros y Hy. apply (StronglySorted_app_1_elem_of _ _ _ _ _ Hs Hy). left. }
  assert (Hhi : filter (λ y, y < x) (x :: hi) = []).
  { apply filter_none. apply StronglySorted_app_1_r, StronglySorted_cons in Hs as [Hs _]. rewrite Forall_forall in Hs.
    intros y [->|Hy]%elem_of_cons; [lia|]. specialize (Hs y Hy). lia. }
  rewrite Hlo, Hhi, Hlen. rewrite filter_cons_True by lia. rewrite zlen_cons. change (zlen []) with 0.
  pose proof (zlen_filter_le (λ y, y < x) lo). pose proof (zlen_nonneg (filter (λ y, y ≤ x) hi)). lia.
Qed.

Lemma merge_sorted v : StronglySorted Z.le (merge_sort Z.le v).
Proof. apply StronglySorted_merge_sort; [exact Z.le_trans|]. intros x y. lia. Qed.

(** The rank the code computes is that of the nearest rank. *)
Lemma nearest_rank_spec n ppm i : 0 < n → 0 < ppm ≤ 1000000 → n * 1000000 + 999999 < two64 → i = nearest_rank n ppm →
  1000000 * i < ppm * n ≤ 1000000 * (i + 1).
Proof.
  intros Hn Hp Hsz ->. unfold nearest_rank. rewrite (u64_small (n * ppm)) by nia. rewrite u64_small by nia.
  destruct (Z.eqb_spec ((n * ppm + 999999) / 1000000) 0); Z.div_mod_to_equations; nia.
Qed.

Lemma Forall2_and_r {A B} (R : A → B → Prop) (P : B → Prop) l k :
  Forall2 R l k → Forall P k → Forall2 (λ x y, R x y ∧ P y) l k.
Proof. induction 1; intros Hp; [constructor|]. apply Forall_cons in Hp as [? ?]. constructor; auto. Qed.

Lemma points_in_range : Forall (λ ppm, 0 < ppm ≤ 1000000) kPointPpm.
Proof. repeat constructor; lia. Qed.

(** C34. The percentiles of the report are nearest-rank percentiles: each is a
    sample, at least the named share of the samples is not above it, and less
    than that share is below it; the last is therefore the maximum. The samples
    end up sorted, and an empty row is all zeros. *)
Theorem percentiles_nearest_rank v : zlen v * 1000000 + 999999 < two64 → ∃ p w, percentiles v = Ok (p, w) ∧
  w ≡ₚ v ∧ Sorted Z.le w ∧ (v = [] → p = [0; 0; 0; 0; 0]) ∧
  (v ≠ [] → Forall2 (λ x ppm, nearest ppm 1000000 v x) p kPointPpm).
Proof.
  intros Hsz. unfold percentiles. case_bool_decide as Hv.
  { subst v. exists [0; 0; 0; 0; 0], []. split_and!; [done|done|constructor|done|done]. }
  pose proof (merge_sort_Permutation Z.le v) as Hp. pose proof (merge_sorted v) as Hs.
  assert (Hne : merge_sort Z.le v ≠ []) by (intros E; rewrite E in Hp; by apply Permutation_nil in Hp).
  assert (Hpos : 0 < zlen v) by (destruct v; [done|]; rewrite zlen_cons; pose proof (zlen_nonneg v); lia).
  destruct (points_ok (merge_sort Z.le v) kPointPpm Hne) as (p & -> & _ & Hps); [by rewrite merge_sort_length|repeat constructor; lia|].
  cbn [mbind res_bind]. exists p, (merge_sort Z.le v). split_and!; [done|done|by apply StronglySorted_Sorted|done|intros _].
  rewrite merge_sort_length in Hps. eapply Forall2_impl; [exact (Forall2_and_r _ _ _ _ Hps points_in_range)|].
  simpl. intros x ppm [Hx Hppm]. pose proof (sorted_rank _ _ _ Hs Hx) as Hr.
  pose proof (nearest_rank_spec (zlen v) ppm _ Hpos Hppm Hsz eq_refl) as Hi. unfold nearest, below, at_most, zlen in *. rewrite Hp in Hr.
  apply zlookup_Some in Hx as [_ Hx%list_elem_of_lookup_2]. rewrite Hp in Hx. split; [done|]. lia.
Qed.

(** ** The clock *)

Section clock.
Context {clock : Clock}.

Lemma time_mono i j : (i ≤ j)%nat → time i ≤ time j.
Proof. induction 1 as [|j _ IH]; [lia|]. pose proof (time_step j). lia. Qed.

(** Two readings in a row: the difference the code takes is the time between. *)
Lemma bracket i : u64 (ticks (S i) - ticks i) = time (S i) - time i.
Proof. unfold ticks. rewrite u64_sub_l, u64_sub_r. apply u64_small. pose proof (time_step i). lia. Qed.

Lemma less_overhead_range ov dt : 0 ≤ ov → 0 ≤ dt < two62 → 0 ≤ less_overhead ov dt < two62.
Proof. intros Ho Hd. unfold less_overhead. destruct (Z.ltb_spec ov dt); [rewrite u64_small by lia; lia|lia]. Qed.

Lemma empty_brackets_spec n i : let '(l, _) := empty_brackets n i in length l = n ∧ ∀ x, x ∈ l → 0 ≤ x.
Proof.
  revert i. induction n as [|n IH]; intros i; cbn [empty_brackets]; [split; [done|by intros x ?%elem_of_nil]|].
  specialize (IH (S (S i))). destruct (empty_brackets n (S (S i))) as [l j]. destruct IH as [Hl Hx]. split; [simpl; by rewrite Hl|].
  intros x [->|?]%elem_of_cons; [|by apply Hx]. rewrite bracket. pose proof (time_step i). lia.
Qed.

Lemma timer_overhead_ok i : ∃ m j, timer_overhead i = Ok (m, j) ∧ 0 ≤ m.
Proof.
  unfold timer_overhead. pose proof (empty_brackets_spec (Z.to_nat 200000) i) as Hb.
  destruct (empty_brackets _ i) as [l j]. destruct Hb as [Hl Hx].
  destruct (median_ok l) as (m & -> & Hm); [intros ->; simpl in Hl; lia|]. exists m, j. split; [done|by apply Hx].
Qed.

(** A wait ends: the clock reaches the window, and cannot leap past it unseen. *)
Lemma spin_wait_ends (d : nat) i j window : (i < j)%nat → 0 ≤ window < two62 → time j - time i < window + two62 →
  time i + window ≤ time (j + d)%nat → ∃ k, (j ≤ k)%nat ∧ window ≤ time k - time i < window + two62 ∧
  (∀ q, (j ≤ q < k)%nat → time q - time i < window) ∧ ∀ fuel, (d < fuel)%nat → spin_wait fuel (ticks i) window j = Ok (S k).
Proof.
  assert (Hdt : ∀ j, (i < j)%nat → time j - time i < two64 → u64 (ticks j - ticks i) = time j - time i).
  { intros j' Hj ?. unfold ticks. rewrite u64_sub_l, u64_sub_r. apply u64_small. pose proof (time_mono i j' ltac:(lia)). lia. }
  revert j. induction d as [|d IH]; intros j Hij Hw Hlast Hd.
  - rewrite Nat.add_0_r in Hd. exists j. split; [lia|]. split; [lia|]. split; [lia|]. intros [|fuel] Hf; [lia|]. cbn [spin_wait].
    rewrite Hdt by lia. by destruct (Z.ltb_spec (time j - time i) window); [lia|].
  - destruct (Z.lt_ge_cases (time j - time i) window) as [Hlt|Hge].
    + destruct (IH (S j)) as (k & Hk & Hr & Hq & Hf); [lia|done|pose proof (time_step j); lia|by replace (S j + d)%nat with (j + S d)%nat by lia|].
      exists k. split; [lia|]. split; [done|]. split; [intros q Hjq; destruct (decide (q = j)) as [->|]; [done|apply Hq; lia]|].
      intros [|fuel] Hfu; [lia|]. cbn [spin_wait]. rewrite Hdt by lia.
      destruct (Z.ltb_spec (time j - time i) window); [|lia]. apply Hf. lia.
    + exists j. split; [lia|]. split; [lia|]. split; [lia|]. intros [|fuel] Hf; [lia|]. cbn [spin_wait]. rewrite Hdt by lia.
      by destruct (Z.ltb_spec (time j - time i) window); [lia|].
Qed.

(** The noise floor from the [i]-th reading on, up to the [j]-th: a wait starts with
    a reading, ends with the first one [window] ticks later or more, and the next
    reading samples it. *)
Inductive waited (window ov : Z) : nat → list Z → nat → Prop :=
  | waited_none i : waited window ov i [] i
  | waited_once i k l j : (i < k)%nat → (∀ q, (i < q < k)%nat → time q - time i < window) → window ≤ time k - time i →
      waited window ov (S (S k)) l j → waited window ov i (less_overhead ov (time (S k) - time i) :: l) j.

Lemma spin_all_spec window ov spin i : 0 ≤ window < two62 → 0 ≤ ov → ∃ N l j, length l = length spin ∧
  (∀ fuel, (N ≤ fuel)%nat → spin_all fuel window ov spin i = Ok (l, j)) ∧ waited window ov i l j ∧
  Forall (λ s, 0 ≤ s < 3 * two62 ∧ window - ov ≤ s) l ∧ time i + window * zlen spin ≤ time j.
Proof.
  intros Hw Ho. revert i. induction spin as [|x spin IH]; intros i.
  { exists 0%nat, [], i. split_and!; [done|done|constructor|constructor|]. change (zlen []) with 0. lia. }
  destruct (time_passes (time i + window)) as [k0 Hk0].
  destruct (spin_wait_ends k0 i (S i) window) as (k & Hk & [Hr1 Hr2] & Hq & Hwait); [lia|done|pose proof (time_step i); lia| |].
  { etrans; [exact Hk0|]. apply time_mono. lia. }
  destruct (IH (S (S k))) as (N & l & j & Hl & Hall & Hwd & Hok & Hend). pose proof (time_step k) as Hs1. pose proof (time_step (S k)) as Hs2.
  assert (E : u64 (ticks (S k) - ticks i) = time (S k) - time i).
  { unfold ticks. rewrite u64_sub_l, u64_sub_r. apply u64_small. lia. }
  exists (Nat.max N (S k0)), (less_overhead ov (time (S k) - time i) :: l), j. split_and!.
  - simpl. by rewrite Hl.
  - intros fuel Hf. cbn [spin_all]. rewrite Hwait by lia. cbn [mbind res_bind]. rewrite E. by rewrite Hall by lia.
  - apply waited_once; [lia| |done|done]. intros q Hiq. apply Hq. lia.
  - constructor; [|done]. unfold less_overhead. destruct (Z.ltb_spec ov (time (S k) - time i)); [rewrite u64_small by lia|]; lia.
  - rewrite zlen_cons. lia.
Qed.

(** C35. The noise floor is always measured: each busy wait ends, and not before
    the window it waits for, because the clock goes on. *)
Theorem spinning_ends window ov spin i : 0 ≤ window < two62 → 0 ≤ ov → ∃ N l j, length l = length spin ∧
  (∀ fuel, (N ≤ fuel)%nat → spin_all fuel window ov spin i = Ok (l, j)) ∧
  Forall (λ s, 0 ≤ s < 3 * two62 ∧ window - ov ≤ s) l ∧ time i + window * zlen spin ≤ time j.
Proof.
  intros Hw Ho. destruct (spin_all_spec window ov spin i Hw Ho) as (N & l & j & Hl & Hall & _ & Hr & Hend). by exists N, l, j.
Qed.

(** ** A timed pass *)

Section timing.
Context {build : Build} (pol : SelfTradePolicy) (ops : list Flow.Op) (overhead : Z).
Hypothesis (Hov : 0 ≤ overhead) (Hops : Forall op_ok ops) (Hfew : zlen ops ≤ two31).

(** What the clock shows of [n] calls in a row, the first at its [i]-th reading. *)
Definition brackets (n i : nat) : list Z :=
  (λ j, less_overhead overhead (time (S (i + 2 * j)) - time (i + 2 * j)%nat)) <$> seq 0 n.

Lemma brackets_S n i : brackets (S n) i =
  brackets n i ++ [less_overhead overhead (time (S (i + 2 * n)) - time (i + 2 * n)%nat)].
Proof. unfold brackets. by rewrite seq_S, fmap_app. Qed.

Lemma brackets_length n i : length (brackets n i) = n.
Proof. unfold brackets. by rewrite length_fmap, length_seq. Qed.

Lemma brackets_range n i x : x ∈ brackets n i → 0 ≤ x < two62.
Proof.
  intros (j & -> & _)%list_elem_of_fmap. apply less_overhead_range; [done|].
  pose proof (time_step (i + 2 * j)). lia.
Qed.

Lemma timed_call_apply book op : timed_call book op = ('(b, _) ← Flow.apply book op; Ok b).
Proof.
  unfold timed_call, Flow.apply. destruct (Flow.op_kind op); [done| |done|by destruct (Flow.op_market op)].
  by destruct (OrderBook.cancel book (Flow.op_id op)) as [[]|].
Qed.

(** The operations one after the other, untimed: the book and the hash of its trades. *)
Fixpoint played (l : list Flow.Op) (book : OrderBook.OrderBook) (hash : Z) : res (OrderBook.OrderBook * Z) :=
  match l with
  | [] => Ok (book, hash)
  | op :: l =>
      book ← timed_call book op;
      '(ts, book) ← OrderBook.drain_trades book;
      played l book (foldl Flow.hash_trade hash ts)
  end.

Lemma played_app l1 l2 book hash book' hash' : played l1 book hash = Ok (book', hash') →
  played (l1 ++ l2) book hash = played l2 book' hash'.
Proof.
  revert book hash. induction l1 as [|op l1 IH]; intros book hash; simpl; [by intros [= -> ->]|].
  destruct (timed_call book op) as [b|]; [|done]. simpl. destruct (OrderBook.drain_trades b) as [[ts b']|]; [|done]. simpl. apply IH.
Qed.

Lemma time_ops_loop_spec i0 start (d fuel : nat) k book hash smp i : (d < fuel)%nat → 0 ≤ start ≤ k → k + Z.of_nat d ≤ zlen ops →
  k + Z.of_nat d - start ≤ zlen smp → stands pol book hash (take (Z.to_nat k) ops) →
  i = (i0 + 2 * Z.to_nat (k - start))%nat → take (Z.to_nat (k - start)) smp = brackets (Z.to_nat (k - start)) i0 →
  ∃ book' hash' smp', time_ops_loop fuel ops overhead start (k + Z.of_nat d) k (book, hash, smp, i) =
    Ok (book', hash', smp', (i + 2 * d)%nat) ∧
  played (take d (drop (Z.to_nat k) ops)) book hash = Ok (book', hash') ∧
  stands pol book' hash' (take (Z.to_nat (k + Z.of_nat d)) ops) ∧ zlen smp' = zlen smp ∧
  take (Z.to_nat (k + Z.of_nat d - start)) smp' = brackets (Z.to_nat (k + Z.of_nat d - start)) i0.
Proof.
  revert fuel k book hash smp i. induction d as [|d IH]; intros [|fuel] k book hash smp i Hf Hk Hlen Hsmp Hst Hi Hdone; [lia| |lia|].
  { cbn [time_ops_loop]. rewrite Z.add_0_r, Nat.add_0_r. destruct (Z.ltb_spec k k); [lia|]. by exists book, hash, smp. }
  cbn [time_ops_loop]. destruct (Z.ltb_spec k (k + Z.of_nat (S d))); [|lia].
  destruct (zlookup_lt ops k) as [op Hop]; [lia|]. rewrite (vget_ok _ _ _ Hop). cbn [mbind res_bind].
  apply zlookup_Some in Hop as [_ Hop]. pose proof (Forall_lookup_1 _ _ _ _ Hops Hop) as Hok.
  assert (Hz : zlen (take (Z.to_nat k) ops) < two31) by (unfold zlen in *; rewrite length_take; lia).
  destruct (stands_apply pol book hash _ op Hst Hz Hok) as (b1 & rep & ts & b2 & Happ & Hdr & Hst' & _).
  rewrite timed_call_apply, Happ. cbn [mbind res_bind]. rewrite bracket.
  rewrite (u64_small (k - start)) by lia. rewrite vset_in_range by lia. cbn [mbind res_bind]. rewrite Hdr. cbn [mbind res_bind].
  rewrite u64_small by lia. rewrite <- (take_S_r _ _ _ Hop) in Hst'. replace (S (Z.to_nat k)) with (Z.to_nat (k + 1)) in Hst' by lia.
  destruct (IH fuel (k + 1) b2 (foldl Flow.hash_trade hash ts) (smp.[k - start := less_overhead overhead (time (S i) - time i)]) (S (S i)))
    as (book' & hash' & smp' & E & Hpl & Hrest); [lia|lia|lia|rewrite zlen_zset; lia|exact Hst'|lia| |].
  - replace (Z.to_nat (k + 1 - start)) with (S (Z.to_nat (k - start))) by lia. rewrite brackets_S, <-Hi.
    erewrite take_S_r; [|rewrite <-zlookup_of_nat, Z2Nat.id by lia; apply zlookup_zset_eq; lia]. f_equal.
    rewrite <-Hdone. unfold zset. destruct (_ && _); [|done]. apply take_insert_ge. lia.
  - replace (k + 1 + Z.of_nat d) with (k + Z.of_nat (S d)) in * by lia. exists book', hash', smp'. rewrite zlen_zset in Hrest.
    split; [|split; [|exact Hrest]].
    + rewrite E. by replace (S (S i) + 2 * d)%nat with (i + 2 * S d)%nat by lia.
    + rewrite (drop_S _ _ _ Hop). cbn [take played]. rewrite timed_call_apply, Happ. cbn [mbind res_bind]. rewrite Hdr. cbn [mbind res_bind].
      by replace (S (Z.to_nat k)) with (Z.to_nat (k + 1)) by lia.
Qed.

(** A pass runs its operations, and samples each of them on its own. *)
Lemma time_ops_spec start last book hash smp i : 0 ≤ start ≤ last → last ≤ zlen ops → last - start ≤ zlen smp →
  stands pol book hash (take (Z.to_nat start) ops) → ∃ book' hash' smp',
  time_ops ops overhead start last (book, hash, smp, i) = Ok (book', hash', smp', (i + 2 * Z.to_nat (last - start))%nat) ∧
  played (take (Z.to_nat (last - start)) (drop (Z.to_nat start) ops)) book hash = Ok (book', hash') ∧
  stands pol book' hash' (take (Z.to_nat last) ops) ∧ zlen smp' = zlen smp ∧
  take (Z.to_nat (last - start)) smp' = brackets (Z.to_nat (last - start)) i.
Proof.
  intros Hs Hl Hn Hst.
  destruct (time_ops_loop_spec i start (Z.to_nat (last - start)) (S (Z.to_nat (last - start))) start book hash smp i) as (b' & h' & s' & E & Hpl & Hr);
    [lia|lia|lia|lia|done|rewrite Z.sub_diag; simpl; lia|by rewrite Z.sub_diag|].
  replace (start + Z.of_nat (Z.to_nat (last - start))) with last in * by lia. by exists b', h', s'.
Qed.

End timing.

(** ** The report of a run *)

(** The samples of one kind. *)
Definition of_kind (c : Z) (ops : list Flow.Op) (v : list Z) : list Z :=
  (filter (λ x, Flow.kind_code (Flow.op_kind x.1) = c) (zip ops v)).*2.

Lemma of_kind_cons c op ops s v : of_kind c (op :: ops) (s :: v) =
  (if decide (Flow.kind_code (Flow.op_kind op) = c) then [s] else []) ++ of_kind c ops v.
Proof. unfold of_kind. simpl. rewrite filter_cons. simpl. by destruct (decide _). Qed.

Lemma kind_code_range k : 0 ≤ Flow.kind_code k < 4.
Proof. by destruct k. Qed.

Lemma sort_by_kind_spec (n : nat) ops smp first k rows : 0 ≤ first → 0 ≤ k → first + k + Z.of_nat n ≤ zlen ops →
  k + Z.of_nat n ≤ zlen smp → zlen ops ≤ two31 → zlen rows = 4 → ∃ rows',
  sort_by_kind n ops smp first k rows = Ok rows' ∧ zlen rows' = 4 ∧ ∀ c row, rows.[c] = Some row →
    rows'.[c] = Some (row ++ of_kind c (drop (Z.to_nat (first + k)) ops) (take n (drop (Z.to_nat k) smp))).
Proof.
  intros Hf. revert k rows. induction n as [|n IH]; intros k rows Hk Hops Hsmp Hmax Hrows; cbn [sort_by_kind].
  { exists rows. split_and!; [done..|]. intros c row Hc. unfold of_kind. destruct (drop _ ops); simpl; by rewrite app_nil_r. }
  rewrite (u64_small (first + k)), (u64_small (k + 1)) by lia.
  destruct (zlookup_lt ops (first + k)) as [op Hop]; [lia|]. rewrite (vget_ok _ _ _ Hop). cbn [mbind res_bind].
  destruct (zlookup_lt smp k) as [s Hs]; [lia|]. rewrite (vget_ok _ _ _ Hs). cbn [mbind res_bind].
  set (c0 := Flow.kind_code (Flow.op_kind op)). pose proof (kind_code_range (Flow.op_kind op)) as Hc0. fold c0 in Hc0.
  destruct (zlookup_lt rows c0) as [row0 Hrow]; [lia|]. rewrite (vget_ok _ _ _ Hrow). cbn [mbind res_bind].
  rewrite vset_in_range by lia. cbn [mbind res_bind].
  destruct (IH (k + 1) (rows.[c0 := row0 ++ [s]])) as (rows' & E & Hl & Hr); [lia|lia|lia|done|by rewrite zlen_zset|].
  exists rows'. split; [exact E|]. split; [done|]. intros c row Hc.
  apply zlookup_Some in Hop as [_ Hop]. apply zlookup_Some in Hs as [_ Hs].
  rewrite (drop_S _ _ _ Hop), (drop_S _ _ _ Hs). cbn [take]. rewrite of_kind_cons, app_assoc. fold c0.
  replace (S (Z.to_nat (first + k))) with (Z.to_nat (first + (k + 1))) by lia. replace (S (Z.to_nat k)) with (Z.to_nat (k + 1)) by lia.
  apply Hr. destruct (decide (c0 = c)) as [<-|Hne]; [|by rewrite app_nil_r, zlookup_zset_ne].
  rewrite zlookup_zset_eq by lia. by simplify_eq.
Qed.

(** [p] is the row of the percentiles of [v]. *)
Definition row_of (v : list Z) (p : Points) : Prop := length p = 5%nat ∧ ∃ w, percentiles v = Ok (p, w).

Lemma row_of_ok v : zlen v ≤ two31 → ∃ p w, percentiles v = Ok (p, w) ∧ row_of v p ∧ length w = length v.
Proof.
  intros Hv. destruct (percentiles_ok v) as (p & w & E & Hl & Hw); [lia|]. exists p, w. split; [done|].
  split; [split; [done|by exists w]|by rewrite Hw].
Qed.

Lemma all_percentiles_ok vs : Forall (λ v, zlen v ≤ two31) vs → ∃ ps, all_percentiles vs = Ok ps ∧ Forall2 row_of vs ps.
Proof.
  induction 1 as [|v vs Hv _ IH]; [by exists []|]. cbn [all_percentiles].
  destruct (row_of_ok v Hv) as (p & w & -> & Hrow & _). cbn [mbind res_bind]. destruct IH as (ps & -> & Hps). cbn [mbind res_bind].
  exists (p :: ps). split; [done|by constructor].
Qed.

Lemma of_kind_length c ops v : zlen (of_kind c ops v) ≤ zlen v.
Proof.
  revert ops. induction v as [|s v IH]; intros [|op ops]; [by unfold of_kind; simpl; lia..| |].
  - change (of_kind c [] (s :: v)) with (@nil Z). rewrite zlen_nil. apply zlen_nonneg.
  - rewrite of_kind_cons, zlen_app, zlen_cons. specialize (IH ops). destruct (decide _); [change (zlen [s]) with 1|rewrite zlen_nil]; lia.
Qed.

Lemma four_rows (rows : list (list Z)) r0 r1 r2 r3 : zlen rows = 4 → rows.[0] = Some r0 → rows.[1] = Some r1 →
  rows.[2] = Some r2 → rows.[3] = Some r3 → rows = [r0; r1; r2; r3].
Proof. destruct rows as [|a [|b [|c [|d [|e l]]]]]; unfold zlen; simpl; try (intros; lia). intros _ [= ->] [= ->] [= ->] [= ->]. done. Qed.

(** ** The dump *)

Lemma dump_ops_ok (n : nat) ops smp first index i tpn : 0 ≤ first → 0 ≤ i → first + i + Z.of_nat n ≤ zlen ops →
  i + Z.of_nat n ≤ zlen smp → zlen ops ≤ two31 → ∃ text, dump_ops n ops smp first index i tpn = Ok text.
Proof.
  intros Hf. revert i. induction n as [|n IH]; intros i Hi Hops Hsmp Hmax; cbn [dump_ops]; [by eexists|].
  rewrite (u64_small (first + i)), (u64_small (i + 1)) by lia.
  destruct (zlookup_lt ops (first + i)) as [op Hop]; [lia|]. rewrite (vget_ok _ _ _ Hop). cbn [mbind res_bind].
  destruct (zlookup_lt smp i) as [s Hs]; [lia|]. rewrite (vget_ok _ _ _ Hs). cbn [mbind res_bind].
  match goal with |- context [printf ?f ?a] => destruct (printf_ok f a eq_refl) as [line ->] end. cbn [mbind res_bind].
  destruct (IH (i + 1)) as [rest ->]; [lia..|]. by eexists.
Qed.

Lemma dump_spin_ok (n : nat) spin index i tpn : 0 ≤ i → i + Z.of_nat n ≤ zlen spin → zlen spin ≤ two31 →
  ∃ text, dump_spin n spin index i tpn = Ok text.
Proof.
  revert i. induction n as [|n IH]; intros i Hi Hl Hmax; cbn [dump_spin]; [by eexists|]. rewrite (u64_small (i + 1)) by lia.
  destruct (zlookup_lt spin i) as [s Hs]; [lia|]. rewrite (vget_ok _ _ _ Hs). cbn [mbind res_bind].
  match goal with |- context [printf ?f ?a] => destruct (printf_ok f a eq_refl) as [line ->] end. cbn [mbind res_bind].
  destruct (IH (i + 1)) as [rest ->]; [lia..|]. by eexists.
Qed.

Lemma dump_run_ok dump f smp spin index tpn : 0 ≤ timed_begin f → 0 ≤ timed_count f → zlen (Flow.f_ops f) ≤ two31 →
  timed_begin f + timed_count f ≤ zlen (Flow.f_ops f) → timed_count f ≤ zlen smp → zlen spin = timed_count f →
  ∃ text, dump_run dump f smp spin index tpn = Ok text.
Proof.
  intros Hb Hn Hmax Hops Hsmp Hspin. unfold dump_run. destruct dump; [|by eexists]. cbv zeta.
  destruct (dump_ops_ok (Z.to_nat (timed_count f)) (Flow.f_ops f) smp (timed_begin f) index 0 tpn) as [x ->]; [lia..|]. cbn [mbind res_bind].
  destruct (dump_spin_ok (Z.to_nat (timed_count f)) spin index 0 tpn) as [y ->]; [lia..|]. by eexists.
Qed.

End clock.

(** ** A run *)

Section run.
Context {clock : Clock} {build : Build} {os : Machine.Os}.
Context (f : Flow.Flow) (bc : Config) (l : Z).

(** What [flow_generates] and the arguments of [main] give the driver. *)
Record drivable : Prop := {
  d_build : 0 ≤ Flow.f_build f;
  d_warmup : 0 ≤ Flow.f_warmup f;
  d_timed : Flow.f_build f + Flow.f_warmup f < zlen (Flow.f_ops f);
  d_few : zlen (Flow.f_ops f) ≤ two31;
  d_ops : Forall op_ok (Flow.f_ops f);
  d_lot : 0 < l;
  d_lots : Forall (lot_op l) (Flow.f_ops f);
  d_config : Refine.config_ok bc;
  d_capacity : trade_capacity bc = Flow.kTradeCapacity;
}.

Hypothesis Hd : drivable.

Lemma timed_begin_eq : timed_begin f = Flow.f_build f + Flow.f_warmup f.
Proof. destruct Hd. unfold timed_begin. apply u64_small. lia. Qed.

Lemma timed_count_eq : timed_count f = zlen (Flow.f_ops f) - timed_begin f.
Proof. destruct Hd. unfold timed_count. rewrite timed_begin_eq. apply u64_small. lia. Qed.

Definition bench_ok (ov : Z) (b : Bench) : Prop :=
  flow b = f ∧ book_cfg b = bc ∧ overhead b = ov ∧ 0 ≤ ov ∧
  zlen (samples b) = Z.max (Flow.f_build f) (Z.max (Flow.f_warmup f) (timed_count f)) ∧ zlen (spin b) = timed_count f.

Lemma bench_make : bench_ok 0 (make f bc).
Proof.
  destruct Hd. pose proof timed_count_eq. pose proof timed_begin_eq. unfold bench_ok, make. simpl. split_and!; try done; apply zlen_vmake; lia.
Qed.

Lemma bench_overhead ov ov' b : bench_ok ov b → 0 ≤ ov' → bench_ok ov' (set_overhead b ov').
Proof. unfold bench_ok. simpl. tauto. Qed.

(** The three passes end with the whole flow replayed and its timed part sampled. *)
Lemma passes_spec ov smp i : 0 ≤ ov →
  zlen smp = Z.max (Flow.f_build f) (Z.max (Flow.f_warmup f) (timed_count f)) → ∃ b0 b1 b2 b3 h1 h2 h3 s1 s2 s3 i1,
  let ops := Flow.f_ops f in
  let i2 := (i + 2 * Z.to_nat (timed_begin f))%nat in
  let i3 := (i2 + 2 * Z.to_nat (timed_count f))%nat in
  OrderBook.make bc = Ok b0 ∧
  time_ops ops ov 0 (Flow.f_build f) (b0, Flow.kHashSeed, smp, i) = Ok (b1, h1, s1, i1) ∧
  time_ops ops ov (Flow.f_build f) (timed_begin f) (b1, h1, s1, i1) = Ok (b2, h2, s2, i2) ∧
  time_ops ops ov (timed_begin f) (zlen ops) (b2, h2, s2, i2) = Ok (b3, h3, s3, i3) ∧
  played ops b0 Flow.kHashSeed = Ok (b3, h3) ∧
  stands (self_trade bc) b3 h3 ops ∧ zlen s3 = zlen smp ∧
  take (Z.to_nat (timed_count f)) s3 = brackets ov (Z.to_nat (timed_count f)) i2.
Proof.
  intros Hov Hsmp. pose proof timed_begin_eq as Eb. pose proof timed_count_eq as Ec. destruct Hd.
  destruct (stands_make bc d_config0 d_capacity0) as (b0 & E0 & Hst0).
  destruct (time_ops_spec (self_trade bc) (Flow.f_ops f) ov d_ops0 d_few0 0 (Flow.f_build f) b0 Flow.kHashSeed smp i)
    as (b1 & h1 & s1 & E1 & Hp1 & Hst1 & Hl1 & _); [lia|lia|lia|by rewrite take_0|].
  destruct (time_ops_spec (self_trade bc) (Flow.f_ops f) ov d_ops0 d_few0 (Flow.f_build f) (timed_begin f) b1 h1 s1
    (i + 2 * Z.to_nat (Flow.f_build f - 0))%nat) as (b2 & h2 & s2 & E2 & Hp2 & Hst2 & Hl2 & _); [lia|lia|lia|done|].
  destruct (time_ops_spec (self_trade bc) (Flow.f_ops f) ov d_ops0 d_few0 (timed_begin f) (zlen (Flow.f_ops f)) b2 h2 s2
    (i + 2 * Z.to_nat (Flow.f_build f - 0) + 2 * Z.to_nat (timed_begin f - Flow.f_build f))%nat)
    as (b3 & h3 & s3 & E3 & Hp3 & Hst3 & Hl3 & Hs3); [lia|lia|lia|done|].
  replace (i + 2 * Z.to_nat (Flow.f_build f - 0) + 2 * Z.to_nat (timed_begin f - Flow.f_build f))%nat
    with (i + 2 * Z.to_nat (timed_begin f))%nat in * by lia.
  replace (Z.to_nat (zlen (Flow.f_ops f) - timed_begin f)) with (Z.to_nat (timed_count f)) in * by lia.
  exists b0, b1, b2, b3, h1, h2, h3, s1, s2, s3. eexists. do 4 (split; [eassumption|]). split; [|split; [|split; [lia|done]]].
  - rewrite <-(take_drop (Z.to_nat (timed_begin f)) (Flow.f_ops f)), <-(take_drop (Z.to_nat (Flow.f_build f)) (take _ _)), <-app_assoc.
    rewrite take_take, skipn_firstn_comm, Nat.min_l by lia. rewrite Z.sub_0_r in Hp1. rewrite (played_app _ _ _ _ _ _ Hp1).
    replace (Z.to_nat (timed_begin f) - Z.to_nat (Flow.f_build f))%nat with (Z.to_nat (timed_begin f - Flow.f_build f)) by lia.
    rewrite (played_app _ _ _ _ _ _ Hp2). rewrite take_ge in Hp3; [done|]. rewrite length_drop. unfold zlen in *. lia.
  - unfold zlen in Hst3. by rewrite Nat2Z.id, take_ge in Hst3.
Qed.

(** The first reading of the timed calls of a run that starts with the [i]-th, and
    the first one after them: every operation takes two. *)
Definition timed_from (i : nat) : nat := (i + 2 * Z.to_nat (timed_begin f))%nat.
Definition timed_to (i : nat) : nat := (timed_from i + 2 * Z.to_nat (timed_count f))%nat.

(** The run that read the clock from the [i]-th reading on, up to the [j]-th, timed
    [timed] and [waits] and reported [r]: the percentiles of what the clock showed
    of each timed call, all of them and by kind, and of the waits that follow; the
    resources used between the two ends of the timed calls; and the state of a
    fresh book that the whole flow was played on. *)
Record measured (ov cpu : Z) (i : nat) (timed waits : list Z) (r : RunResult) (j : nat) : Prop := {
  m_timed : timed = brackets ov (Z.to_nat (timed_count f)) (timed_from i);
  m_waits : ∃ window, median timed = Ok window ∧ waited window ov (timed_to i) waits j;
  m_count : zlen waits = timed_count f;
  m_range : Forall (λ s, 0 ≤ s < 3 * two62) waits;
  m_rows : let ops := drop (Z.to_nat (timed_begin f)) (Flow.f_ops f) in
    Forall2 row_of ([timed] ++ ((λ c, of_kind c ops timed) <$> [0; 1; 2; 3]) ++ [waits]) (rows r);
  m_usage : ∃ u v, Machine.usage_now (timed_from i) = Ok u ∧ Machine.usage_now (timed_to i) = Ok v ∧
    Machine.usage_minus v u = Ok (usage r);
  m_cpu : stayed_on_cpu r = (cpu <? 0) || (Machine.current_cpu j =? cpu);
  m_huge : Machine.anon_huge_kib j = Ok (huge_kib r);
  m_book : ∃ b0 b, OrderBook.make bc = Ok b0 ∧ played (Flow.f_ops f) b0 Flow.kHashSeed = Ok (b, run_hash r) ∧
    dropped r = TradeRing.dropped (OrderBook.trade_out b) ∧ window_base r = OrderBook.price_window_base b ∧
    opened_outside r = OrderBook.levels_opened_outside_window b ∧
    growths r = u64 (OrderBook.order_pool_growths b + OrderBook.id_index_growths b);
}.

Lemma run_spec ov b cpu dump index tpn i : bench_ok ov b → ∃ N b' r text j,
  (∀ fuel, (N ≤ fuel)%nat → run fuel b cpu dump index tpn i = Ok (b', r, text, j)) ∧
  bench_ok ov b' ∧ run_hash r = tr_hash (replay (start (self_trade bc)) (Flow.f_ops f)) ∧ dropped r = 0 ∧
  ∃ smp waits, dump_run dump f smp waits index tpn = Ok text ∧ timed_count f ≤ zlen smp ∧
    measured ov cpu i (take (Z.to_nat (timed_count f)) smp) waits r j.
Proof.
  intros (Hf & Hbc & Hov & Hov0 & Hsmp & Hspin). pose proof timed_begin_eq as Eb. pose proof timed_count_eq as Ec.
  destruct (passes_spec ov (samples b) i Hov0 Hsmp)
    as (b0 & b1 & b2 & b3 & h1 & h2 & h3 & s1 & s2 & s3 & i1 & E0 & E1 & E2 & E3 & Hplayed & Hst & Hl & Hs).
  fold (timed_from i) in *. fold (timed_to i) in *.
  pose proof (replay_no_loss l (self_trade bc) (Flow.f_ops f)) as Hloss. destruct Hd.
  set (n := timed_count f) in *. assert (Hn : 0 < n) by lia. set (timed := brackets ov (Z.to_nat n) (timed_from i)) in *.
  assert (Htl : zlen timed = n) by (unfold timed, zlen; rewrite brackets_length; lia).
  destruct (median_ok timed) as (window & Emed & Hw); [intros E; rewrite E in Htl; change (zlen []) with 0 in Htl; lia|].
  apply brackets_range in Hw; [|done].
  destruct (spin_all_spec window ov (spin b) (timed_to i)) as (N & waits & j & Hwl & Hspins & Hwaited & Hwr & _); [done|done|].
  destruct (Machine.usage_ok (timed_from i) (timed_to i)) as (u & v & used & Eu & Ev & Eused). destruct (Machine.anon_huge_kib_ok j) as [huge Ehuge].
  destruct (sort_by_kind_spec (Z.to_nat n) (Flow.f_ops f) s3 (timed_begin f) 0 (vmake 4 [])) as (kinds & Ek & Hkl & Hk); [lia..|done|].
  rewrite Z.add_0_r in Hk. change (Z.to_nat 0) with 0%nat in Hk. rewrite drop_0, Hs in Hk.
  assert (Hkinds : kinds = (λ c, of_kind c (drop (Z.to_nat (timed_begin f)) (Flow.f_ops f)) timed) <$> [0; 1; 2; 3]).
  { apply four_rows; [done|apply (Hk 0 []); done|apply (Hk 1 []); done|apply (Hk 2 []); done|apply (Hk 3 []); done]. }
  destruct (all_percentiles_ok kinds) as (ps & Eps & Hps).
  { rewrite Hkinds. apply Forall_fmap, Forall_forall. intros c _. simpl. pose proof (of_kind_length c (drop (Z.to_nat (timed_begin f)) (Flow.f_ops f)) timed). lia. }
  destruct (row_of_ok timed) as (p & w & Ep & Hp & _); [lia|].
  assert (Hwz : zlen waits = n) by (unfold zlen; by rewrite Hwl).
  destruct (row_of_ok waits) as (q & w' & Eq & Hq & Hw'); [lia|].
  destruct (dump_run_ok dump f s3 waits index tpn) as [text Etext]; [fold n; lia..|].
  exists N. do 4 eexists. split; [intros fuel Hfu|].
  { unfold run. cbv zeta. rewrite Hf, Hbc, Hov, E0. cbn [mbind res_bind]. rewrite E1. cbn [mbind res_bind].
    rewrite E2. cbn [mbind res_bind]. rewrite Eu. cbn [mbind res_bind]. rewrite E3. cbn [mbind res_bind].
    rewrite Ev. cbn [mbind res_bind]. rewrite Eused. cbn [mbind res_bind]. unfold range. fold n.
    destruct (Z.leb_spec n (zlen s3)); [|lia]. cbn [mbind res_bind]. rewrite Hs, Emed. cbn [mbind res_bind].
    rewrite (Hspins fuel Hfu). cbn [mbind res_bind]. rewrite Ehuge. cbn [mbind res_bind]. rewrite Etext. cbn [mbind res_bind]. rewrite Ek. cbn [mbind res_bind]. rewrite Eps. cbn [mbind res_bind].
    rewrite Ep. cbn [mbind res_bind]. rewrite Eq. cbn [mbind res_bind]. reflexivity. }
  split; [unfold bench_ok; simpl; fold n; split_and!; try done; [by rewrite Hl|unfold zlen in *; by rewrite Hw', Hwl]|].
  cbn [run_hash dropped]. split; [by destruct Hst as (_ & _ & ->)|]. split; [rewrite (stands_dropped _ _ _ _ Hst); by apply Hloss|].
  exists s3, waits. split; [done|]. split; [lia|]. rewrite Hs. fold timed. split; cbn [rows usage stayed_on_cpu huge_kib run_hash dropped window_base opened_outside growths].
  - done.
  - by exists window.
  - done.
  - eapply Forall_impl; [exact Hwr|by intros x []].
  - cbv zeta. rewrite <-Hkinds. apply Forall2_cons_2; [done|]. apply Forall2_app; [done|]. apply Forall2_cons_2; [done|constructor].
  - by exists u, v.
  - done.
  - done.
  - by exists b0, b3.
Qed.

End run.

(** ** Witnesses *)

Lemma percentiles_nearest_rank_witness : ∃ w, percentiles [30; 10; 20; 40] = Ok ([20; 40; 40; 40; 40], w) ∧ w ≡ₚ [30; 10; 20; 40].
Proof.
  destruct (percentiles_nearest_rank [30; 10; 20; 40] ltac:(reflexivity)) as (p & w & E & Hw & _).
  exists w. split; [|exact Hw]. assert (Hp : p = [20; 40; 40; 40; 40]) by (vm_compute in E; congruence).
  rewrite <-Hp. exact E.
Defined.

(** A clock that ticks four times a nanosecond, read once in each, and a release
    build. *)
Definition counting_clock : Clock.
Proof.
  refine {| time := λ i, 4 * Z.of_nat i; steady := Z.of_nat |}.
  - intros i. lia.
  - intros n. exists (Z.to_nat n). lia.
  - intros i. lia.
  - intros n. exists (Z.to_nat n). lia.
Defined.

Definition release : Build := {| NDEBUG := true; kAsan := false |}.

Lemma spinning_ends_witness : ∃ N l j, length l = 2%nat ∧
  ∀ fuel, (N ≤ fuel)%nat → spin_all (clock := counting_clock) fuel 5 1 [0; 0] 3 = Ok (l, j).
Proof.
  destruct (spinning_ends (clock := counting_clock) 5 1 [0; 0] 3 ltac:(lia) ltac:(lia)) as (N & l & j & Hl & Hs & _).
  exists N, l, j. exact (conj Hl Hs).
Defined.
