(* ===== verification/ReportProps.v ===== *)
(** * The report is sound

    A tick count prints as the nearest nanosecond, the rows of the summary
    increase from left to right, and no line of the report can fail. *)

From Stdlib Require Import String.
From stdpp Require Import base decidable list sorting.
From S2P Require Import Prelude.
From S2P Require Import Types.
From S2P Require Import Flow.
From S2P Require Import FlowSteps.
From S2P Require Import FlowProps.
From S2P Require Import Text.
From S2P Require Import Double.
From S2P Require Import Printf.
From S2P Require Import Machine.
From S2P Require Import CommandLine.
From S2P Require Import Bench.
From S2P Require Import BenchProps.
From S2P Require Import Report.
Import Printf Bench Report.

(** ** Nanoseconds *)

(** A rate the report can work with: a tick at least per nanosecond, and not
    absurdly many. *)
Definition rate_ok (x : Double.double) : Prop := ∃ t, x = Double.Fin t ∧ Double.scale ≤ t ≤ two64 * Double.scale.

Section nanoseconds.
Import Double.

(** The three roundings of [nanoseconds], in order. *)
Lemma nanoseconds_steps ticks t : 0 ≤ ticks < two64 → scale ≤ t ≤ two64 * scale →
  let a := units ticks 1 in let b := units a t in let c := units (b + half_scale) scale in
  div (of_Z ticks) (Fin t) = Fin b ∧ b ≤ 4 * two64 * scale ∧ add (Fin b) half = Fin c ∧ 0 ≤ a ∧ 0 ≤ b ∧ 0 ≤ c ∧
  2 ^ 53 * Z.abs (a - ticks * scale) ≤ ticks * scale ∧ 2 ^ 53 * Z.abs (b * t - a * scale) ≤ a * scale ∧
  2 ^ 53 * Z.abs (c - (b + half_scale)) ≤ b + half_scale.
Proof.
  intros Hticks Ht a b c. pose proof scale_large as Hs. pose proof two_halves as Hh. pose proof scale_pos as Hs0.
  pose proof huge_large as Hk. change (2 ^ 53) with 9007199254740992.
  assert (Hx : 0 ≤ ticks * scale ≤ two64 * scale) by (split; [lia|apply Z.mul_le_mono_nonneg_r; lia]).
  assert (Hx1 : ticks ≠ 0 → scale ≤ ticks * scale) by (intros H; pose proof (Z.mul_le_mono_nonneg_r 1 ticks scale); lia).
  assert (Hss : two64 * two64 * two64 * scale ≤ scale * scale) by (apply Z.mul_le_mono_nonneg_r; lia).
  assert (Hts : scale * scale ≤ t * scale ≤ two64 * scale * scale) by (split; apply Z.mul_le_mono_nonneg_r; lia).
  assert (Ha0 : 0 ≤ a) by (apply units_nonneg; lia).
  assert (Ha : 9007199254740992 * Z.abs (a - ticks * scale) ≤ ticks * scale).
  { pose proof (units_relative_or_zero ticks 1 ltac:(lia)) as H0. fold a in H0. rewrite !Z.mul_1_r in H0.
    change (2 ^ 52) with 4503599627370496 in H0. change (2 ^ 53) with 9007199254740992 in H0. apply H0. lia. }
  assert (Ha1 : ticks ≠ 0 → scale * scale ≤ 2 * (a * scale)).
  { intros H. rewrite Z.mul_assoc. apply Z.mul_le_mono_nonneg_r; lia. }
  assert (Hb0 : 0 ≤ b) by (apply units_nonneg; lia).
  assert (Hb : 9007199254740992 * Z.abs (b * t - a * scale) ≤ a * scale).
  { pose proof (units_relative_or_zero a t ltac:(lia)) as H0. fold b in H0. change (2 ^ 52) with 4503599627370496 in H0.
    change (2 ^ 53) with 9007199254740992 in H0. apply H0. destruct (decide (ticks = 0)); [left; lia|right; lia]. }
  assert (Hb1 : b ≤ 2 * a).
  { apply (Z.mul_le_mono_pos_r _ _ scale); [done|]. pose proof (Z.mul_le_mono_nonneg_l scale t b). lia. }
  assert (Hc0 : 0 ≤ c) by (apply units_nonneg; lia).
  assert (Hc : 9007199254740992 * Z.abs (c - (b + half_scale)) ≤ b + half_scale).
  { pose proof (units_relative_or_zero (b + half_scale) scale ltac:(lia)) as H0. fold c in H0.
    change (2 ^ 52) with 4503599627370496 in H0. change (2 ^ 53) with 9007199254740992 in H0.
    apply (Z.mul_le_mono_pos_r _ _ scale); [done|]. rewrite <-Z.mul_assoc. rewrite <-(Z.abs_eq scale) at 1 by lia.
    rewrite <-Z.abs_mul, Z.mul_sub_distr_r. apply H0. right. apply Z.mul_le_mono_nonneg_r; lia. }
  assert (Hth : two64 * two64 * two64 * scale ≤ scale * huge) by (rewrite (Z.mul_comm scale); apply Z.mul_le_mono_nonneg_r; lia).
  assert (Hth' : scale * huge ≤ t * huge) by (apply Z.mul_le_mono_nonneg_r; lia).
  split_and!; try done; [|lia|unfold half, add; apply round_fin; lia].
  rewrite of_Z_fin by lia. fold a. unfold div. rewrite (proj2 (Z.eqb_neq t 0)) by lia. by rewrite round_fin by lia.
Qed.

(** A tick count below three quarters of 2^64, all a sample can be, prints. *)
Lemma nanoseconds_ok ticks t : 0 ≤ ticks < 3 * two62 → scale ≤ t ≤ two64 * scale →
  nanoseconds ticks (Fin t) = Ok (units (units (units ticks 1) t + half_scale) scale / scale).
Proof.
  intros Hticks Ht. destruct (nanoseconds_steps ticks t ltac:(lia) Ht) as (Ed & _ & E & Ha0 & Hb0 & Hc0 & Ha & Hb & Hc).
  unfold nanoseconds. rewrite Ed, E. clear E Ed. set (a := units ticks 1) in *. set (b := units a t) in *. set (c := units (b + half_scale) scale) in *.
  unfold to_u64. pose proof two_halves. pose proof scale_pos. destruct (Z.ltb_spec (c / scale) two64) as [|Hge]; [done|exfalso].
  assert (Hc' : two64 * scale ≤ c).
  { pose proof (Z.mul_div_le c scale). pose proof (Z.mul_le_mono_nonneg_r two64 (c / scale) scale). lia. }
  assert (Hbt : b * scale ≤ b * t) by (apply Z.mul_le_mono_nonneg_l; lia).
  assert (Hx : ticks * scale ≤ (3 * two62 - 1) * scale) by (apply Z.mul_le_mono_nonneg_r; lia). change (2 ^ 53) with 9007199254740992 in *.
  assert (Hba : 9007199254740992 * b ≤ 9007199254740993 * a) by (apply (Z.mul_le_mono_pos_r _ _ scale); lia).
  lia.
Qed.

Lemma nanoseconds_increase k ticks t : 0 ≤ k ≤ ticks → ticks < 3 * two62 → scale ≤ t ≤ two64 * scale → ∃ m n,
  nanoseconds k (Fin t) = Ok m ∧ nanoseconds ticks (Fin t) = Ok n ∧ m ≤ n.
Proof.
  intros Hk Hticks Ht. do 2 eexists. rewrite (nanoseconds_ok k t), (nanoseconds_ok ticks t) by (done || lia).
  split_and!; [done..|]. pose proof scale_pos. apply Z.div_le_mono; [done|].
  assert (H1 : units k 1 ≤ units ticks 1) by (apply units_mono; lia).
  assert (Hk0 : 0 ≤ units k 1) by (apply units_nonneg; lia).
  assert (H2 : units (units k 1) t ≤ units (units ticks 1) t) by (apply units_mono; [lia..|]; apply Z.mul_le_mono_nonneg_r; lia).
  assert (H3 : 0 ≤ units (units k 1) t) by (apply units_nonneg; lia). pose proof two_halves.
  apply units_mono; [lia..|]. apply Z.mul_le_mono_nonneg_r; lia.
Qed.

(** C31. A count of ticks prints as the nanoseconds nearest to its quotient by the
    clock's rate, but for a rounding error below 2^-49 of the quotient plus one;
    larger counts never print less, and every count a sample can have prints. *)
Theorem nanoseconds_nearest ticks t : 0 ≤ ticks < 3 * two62 → scale ≤ t ≤ two64 * scale → ∃ n,
  nanoseconds ticks (Fin t) = Ok n ∧ 2 ^ 50 * (2 * Z.abs (n * t - ticks * scale) - t) ≤ 4 * (ticks * scale + t) ∧
  ∀ ticks' n', 0 ≤ ticks' ≤ ticks → nanoseconds ticks' (Fin t) = Ok n' → n' ≤ n.
Proof.
  intros Hticks Ht. rewrite (nanoseconds_ok ticks t Hticks Ht). eexists. split; [done|]. split; cycle 1.
  { intros k n Hk Hn. destruct (nanoseconds_increase k ticks t) as (m' & n' & Em & En & Hle); [lia..|].
    rewrite Em in Hn. injection Hn as <-. rewrite (nanoseconds_ok ticks t Hticks Ht) in En. by injection En as <-. }
  destruct (nanoseconds_steps ticks t ltac:(lia) Ht) as (_ & _ & _ & Ha0 & Hb0 & Hc0 & Ha & Hb & Hc).
  set (a := units ticks 1) in *. set (b := units a t) in *. set (c := units (b + half_scale) scale) in *.
  pose proof two_halves as Hh. pose proof scale_pos as Hs. set (n := c / scale).
  assert (Hn : n * scale ≤ c < n * scale + scale) by (unfold n; pose proof (Z.div_mod c scale); pose proof (Z.mod_pos_bound c scale); lia).
  clearbody a b c n. change (2 ^ 50) with 1125899906842624. change (2 ^ 53) with 9007199254740992 in *. clear Hticks.
  set (h := half_scale) in *. clearbody h. clear -Hn Ha Hb Hc Hh Hs Ht.
  assert (HC : 9007199254740992 * Z.abs (c * t - (b * t + h * t)) ≤ b * t + h * t).
  { replace (c * t - (b * t + h * t)) with ((c - (b + h)) * t) by ring. rewrite Z.abs_mul, (Z.abs_eq t) by lia.
    replace (b * t + h * t) with ((b + h) * t) by ring. rewrite Z.mul_assoc. apply Z.mul_le_mono_nonneg_r; lia. }
  assert (HN : n * t * scale ≤ c * t < n * t * scale + t * scale).
  { replace (n * t * scale) with (n * scale * t) by ring. replace (n * scale * t + t * scale) with ((n * scale + scale) * t) by ring.
    split; [apply Z.mul_le_mono_nonneg_r|apply Z.mul_lt_mono_pos_r]; lia. }
  assert (HW : 2 * (h * t) = t * scale) by (rewrite <-Hh; ring).
  assert (HA : 9007199254740992 * Z.abs (a * scale - ticks * scale * scale) ≤ ticks * scale * scale).
  { replace (a * scale - ticks * scale * scale) with ((a - ticks * scale) * scale) by ring. rewrite Z.abs_mul, (Z.abs_eq scale) by lia.
    rewrite Z.mul_assoc. apply Z.mul_le_mono_nonneg_r; lia. }
  apply (Z.mul_le_mono_pos_r _ _ scale); [done|].
  replace (1125899906842624 * (2 * Z.abs (n * t - ticks * scale) - t) * scale)
    with (1125899906842624 * (2 * Z.abs (n * t * scale - ticks * scale * scale) - t * scale)).
  2: { rewrite <-Z.mul_sub_distr_r, Z.abs_mul, (Z.abs_eq scale) by lia. ring. }
  replace (4 * (ticks * scale + t) * scale) with (4 * (ticks * scale * scale + t * scale)) by ring.
  set (Y := ticks * scale * scale) in *. set (A := a * scale) in *. set (B := b * t) in *. set (C := c * t) in *.
  set (H := h * t) in *. set (W := t * scale) in *. set (R := n * t * scale) in *. clearbody Y A B C H W R. lia.
Qed.

End nanoseconds.


(** ** Rows that increase *)

Section rows.
Implicit Types (v w : list Z) (x y : Z).

Lemma sorted_lookup_le w i j x y : StronglySorted Z.le w → w.[i] = Some x → w.[j] = Some y → i ≤ j → x ≤ y.
Proof.
  intros Hs Hx Hy Hij. destruct (Z.le_gt_cases x y) as [|Hlt]; [done|].
  pose proof (sorted_rank w i x Hs Hx). pose proof (sorted_rank w j y Hs Hy).
  assert (at_most y w ≤ below x w); [|lia]. rewrite at_most_below. clear -Hlt. unfold below, zlen.
  induction w as [|z w IH]; [done|]. rewrite !filter_cons. repeat destruct (decide _); simpl; lia.
Qed.

(** The [k]-th smallest of pointwise larger values is not smaller. *)
Lemma select_mono v w k x y : Forall2 Z.le v w → (merge_sort Z.le v).[k] = Some x → (merge_sort Z.le w).[k] = Some y → x ≤ y.
Proof.
  intros Hvw Hx Hy. pose proof (sorted_rank _ _ _ (merge_sorted v) Hx) as Hrx.
  pose proof (sorted_rank _ _ _ (merge_sorted w) Hy) as Hry. destruct (Z.le_gt_cases x y) as [|Hlt]; [done|].
  assert (Hle : at_most y w ≤ below x v); [|unfold at_most, below, zlen in *; rewrite merge_sort_Permutation in Hrx, Hry; lia].
  rewrite at_most_below. clear -Hlt Hvw. unfold below, zlen.
  induction Hvw as [|a b v w Hab _ IH]; [done|]. rewrite !filter_cons. repeat destruct (decide _); simpl; lia.
Qed.

Lemma nearest_rank_mono n p q : 0 ≤ n → 0 ≤ p ≤ q → n * q + 999999 < two64 → nearest_rank n p ≤ nearest_rank n q.
Proof.
  intros Hn Hp Hq. unfold nearest_rank. assert (n * p ≤ n * q) by (apply Z.mul_le_mono_nonneg_l; lia).
  assert (0 ≤ n * p) by (apply Z.mul_nonneg_nonneg; lia). rewrite (u64_small (n * p)), (u64_small (n * q)), !u64_small by lia.
  assert ((n * p + 999999) / 1000000 ≤ (n * q + 999999) / 1000000) by (apply Z.div_le_mono; lia).
  assert (0 ≤ (n * p + 999999) / 1000000) by (apply Z.div_pos; lia).
  destruct (Z.eqb_spec ((n * p + 999999) / 1000000) 0), (Z.eqb_spec ((n * q + 999999) / 1000000) 0); lia.
Qed.

(** A row of percentiles, of values below [m]. *)
Record row_ok (m : Z) (p : Points) : Prop := {
  r_length : length p = 5%nat;
  r_increases i j x y : p.[i] = Some x → p.[j] = Some y → i ≤ j → x ≤ y;
  r_range : Forall (λ x, 0 ≤ x < m) p;
}.

Lemma row_of_increases m v p : zlen v ≤ two31 → 0 < m → Forall (λ x, 0 ≤ x < m) v → row_of v p → row_ok m p.
Proof.
  intros Hv Hm Hr [Hl [w Hw]]. unfold percentiles in Hw. case_bool_decide as Hne.
  { injection Hw as <- <-. split; [done| |by repeat constructor]. intros i j x y [_ Hx]%zlookup_Some [_ Hy]%zlookup_Some _.
    change (vmake 5 0) with (replicate 5 0) in *. apply lookup_replicate in Hx as [-> _], Hy as [-> _]. done. }
  pose proof (merge_sort_Permutation Z.le v) as Hp. pose proof (merge_sorted v) as Hs. set (s := merge_sort Z.le v) in *.
  assert (Hsne : s ≠ []) by (intros E; rewrite E in Hp; by apply Permutation_nil in Hp).
  assert (Hsl : zlen s = zlen v) by apply merge_sort_length.
  destruct (points_ok s kPointPpm Hsne) as (q & E & _ & Hq); [lia|repeat constructor; lia|]. rewrite E in Hw. injection Hw as <- <-.
  assert (Hin : ∀ i x, q.[i] = Some x → ∃ ppm, kPointPpm.[i] = Some ppm ∧ s.[nearest_rank (zlen s) ppm] = Some x).
  { intros i x [Hi Hx]%zlookup_Some. destruct (Forall2_lookup_l _ _ _ _ _ Hq Hx) as (ppm & Hppm & Hsx). exists ppm. split; [|done].
    apply zlookup_Some. split; [|done]. pose proof (Forall2_length _ _ _ Hq). unfold zlen in *. lia. }
  assert (Hppm : ∀ i j a b, kPointPpm.[i] = Some a → kPointPpm.[j] = Some b → i ≤ j → 0 ≤ a ≤ b ∧ b ≤ 1000000).
  { intros i j a b Ha Hb Hij. pose proof (sorted_lookup_le kPointPpm i j a b ltac:(repeat constructor; lia) Ha Hb Hij).
    apply zlookup_Some in Ha as [_ Ha%list_elem_of_lookup_2], Hb as [_ Hb%list_elem_of_lookup_2].
    pose proof points_in_range as Hpr. rewrite Forall_forall in Hpr. pose proof (Hpr a Ha). pose proof (Hpr b Hb). lia. }
  split; [done| |].
  - intros i j x y Hx Hy Hij. destruct (Hin i x Hx) as (a & Ha & Hsa), (Hin j y Hy) as (b & Hb & Hsb).
    destruct (Hppm i j a b Ha Hb Hij). refine (sorted_lookup_le s _ _ x y Hs Hsa Hsb _). pose proof (zlen_nonneg s).
    apply nearest_rank_mono; [done|done|]. assert (zlen s * b ≤ two31 * 1000000) by (apply Z.mul_le_mono_nonneg; lia). lia.
  - rewrite Forall_forall in Hr |- *. intros x Hx. apply list_elem_of_lookup in Hx as [i Hx]. rewrite <-zlookup_of_nat in Hx.
    destruct (Hin _ x Hx) as (a & _ & [_ Hsa%list_elem_of_lookup_2]%zlookup_Some). rewrite Hp in Hsa. by apply Hr.
Qed.

End rows.

(** ** The summary *)

Section summary.
Context (m : Z) (rs : list RunResult).

Definition rows_ok (r : RunResult) : Prop := length (rows r) = 6%nat ∧ Forall (row_ok m) (rows r).

Hypothesis (Hne : rs ≠ []) (Hrs : Forall rows_ok rs).

Lemma cells_ok row point : 0 ≤ row < 6 → 0 ≤ point < 5 → ∃ v, cells rs row point = Ok v ∧
  Forall2 (λ r x, ∃ p, (rows r).[row] = Some p ∧ row_ok m p ∧ p.[point] = Some x) rs v.
Proof.
  intros Hrow Hpt. clear Hne. revert Hrs. induction 1 as [|r rs' [Hl Hr] _ IH]; [by exists []|]. cbn [cells].
  destruct (zlookup_lt (rows r) row) as [p Hp]; [unfold zlen; lia|]. rewrite (vget_ok _ _ _ Hp). cbn [mbind res_bind].
  assert (Hok : row_ok m p) by (apply zlookup_Some in Hp as [_ Hp]; by apply (Forall_lookup_1 _ _ _ _ Hr Hp)).
  destruct (zlookup_lt p point) as [x Hx]; [unfold zlen; rewrite (r_length _ _ Hok); lia|]. rewrite (vget_ok _ _ _ Hx). cbn [mbind res_bind].
  destruct IH as (v & -> & Hv). exists (x :: v). split; [done|]. constructor; [by exists p|done].
Qed.

Lemma across_runs_ok row point : 0 ≤ row < 6 → 0 ≤ point < 5 → ∃ v c, cells rs row point = Ok v ∧ across_runs rs row point = Ok c ∧
  (merge_sort Z.le v).[(zlen rs - 1) / 2] = Some (median c) ∧ 0 ≤ median c < m.
Proof.
  intros Hrow Hpt. destruct (cells_ok row point Hrow Hpt) as (v & Ev & Hv). unfold across_runs. rewrite Ev. cbn [mbind res_bind].
  pose proof (Forall2_length _ _ _ Hv) as Hl. assert (Hz : 0 < zlen rs) by (destruct rs; [done|]; rewrite zlen_cons; pose proof (zlen_nonneg l); lia).
  assert (Hs : zlen (merge_sort Z.le v) = zlen rs) by (rewrite merge_sort_length; unfold zlen; by rewrite Hl). rewrite Hs.
  assert (Hi : 0 ≤ (zlen rs - 1) / 2 < zlen (merge_sort Z.le v)) by (Z.div_mod_to_equations; lia).
  destruct (zlookup_lt _ _ Hi) as [x Hx]. rewrite (vget_ok _ _ _ Hx). cbn [mbind res_bind].
  destruct (zlookup_lt (merge_sort Z.le v) (zlen rs - 1)) as [y Hy]; [lia|]. rewrite (vget_ok _ _ _ Hy). cbn [mbind res_bind].
  destruct (zlookup_lt (merge_sort Z.le v) 0) as [z Hzz]; [lia|]. rewrite (vget_ok _ _ _ Hzz). cbn [mbind res_bind].
  exists v. eexists. split; [done|]. split; [done|]. cbn [median]. split; [done|].
  apply zlookup_Some in Hx as [_ Hx%list_elem_of_lookup_2]. rewrite merge_sort_Permutation in Hx. apply list_elem_of_lookup in Hx as [k Hx].
  destruct (Forall2_lookup_r _ _ _ _ _ Hv Hx) as (r & _ & p & _ & Hok & [_ Hp%list_elem_of_lookup_2]%zlookup_Some).
  pose proof (r_range _ _ Hok) as Hr. rewrite Forall_forall in Hr. by apply Hr.
Qed.

Lemma medians_increase row i j c d : 0 ≤ row < 6 → 0 ≤ i ≤ j → j < 5 → across_runs rs row i = Ok c → across_runs rs row j = Ok d →
  median c ≤ median d.
Proof.
  intros Hrow Hi Hj Ec Ed. destruct (across_runs_ok row i) as (v & c' & Ev & Ec' & Hc & _); [lia..|].
  destruct (across_runs_ok row j) as (w & d' & Ew & Ed' & Hd & _); [lia..|].
  rewrite Ec in Ec'. rewrite Ed in Ed'. injection Ec' as <-. injection Ed' as <-.
  destruct (cells_ok row i) as (v' & Ev' & Hv); [lia..|]. destruct (cells_ok row j) as (w' & Ew' & Hw); [lia..|].
  rewrite Ev in Ev'. rewrite Ew in Ew'. injection Ev' as <-. injection Ew' as <-. refine (select_mono v w _ _ _ _ Hc Hd).
  clear -Hv Hw Hi. revert w Hw. induction Hv as [|r x rs v (p & Hp & Hok & Hx) _ IH]; intros w Hw; inversion Hw as [|? y ? ? (q & Hq & _ & Hy)]; subst; constructor; [|by apply IH].
  rewrite Hp in Hq. injection Hq as <-. apply (r_increases _ _ Hok i j); [done..|lia].
Qed.

End summary.

(** In every row of the latency table the nanoseconds printed never decrease
    from p50 to the maximum, whatever the runs measured. *)
Theorem summary_rows_increase rs row i j t : rs ≠ [] → Forall (rows_ok (3 * two62)) rs → 0 ≤ row < 6 → 0 ≤ i ≤ j → j < 5 →
  Double.scale ≤ t ≤ two64 * Double.scale → ∃ c d m n, across_runs rs row i = Ok c ∧ across_runs rs row j = Ok d ∧
  nanoseconds (median c) (Double.Fin t) = Ok m ∧ nanoseconds (median d) (Double.Fin t) = Ok n ∧ m ≤ n.
Proof.
  intros Hne Hrs Hrow Hi Hj Ht. destruct (across_runs_ok _ rs Hne Hrs row i) as (_ & c & _ & Ec & _ & Hc); [lia..|].
  destruct (across_runs_ok _ rs Hne Hrs row j) as (_ & d & _ & Ed & _ & Hd); [lia..|].
  pose proof (medians_increase _ rs Hne Hrs row i j c d Hrow Hi Hj Ec Ed).
  destruct (nanoseconds_increase (median c) (median d) t) as (m & n & Hm & Hn & Hmn); [lia..|].
  by exists c, d, m, n.
Qed.

(** ** Nothing that is printed fails *)

Lemma grouped_ok n : ∃ s, Text.grouped n = Ok s.
Proof.
  unfold Text.grouped, Text.to_string. set (s := Text.digits 20 n). assert (Hne : s ≠ []) by (unfold s; cbn [Text.digits]; intros [_ ?]%app_eq_nil; done).
  destruct (Text.grouped_loop_spec (S (length s)) s [] Hne ltac:(lia)) as (g & gs & E & _). rewrite app_nil_r in E. by eexists.
Qed.

Lemma each_ok (n : nat) i f : (∀ k, i ≤ k < i + Z.of_nat n → ∃ s, f k = Ok s) → ∃ s, each n i f = Ok s.
Proof.
  revert i. induction n as [|n IH]; intros i Hf; cbn [each]; [by eexists|]. destruct (Hf i) as [s ->]; [lia|]. cbn [mbind res_bind].
  destruct (IH (i + 1)) as [r ->]; [intros k Hk; apply Hf; lia|]. by eexists.
Qed.

Lemma ns_ok ticks x : 0 ≤ ticks < 3 * two62 → rate_ok x → ∃ s, ns ticks x = Ok s.
Proof.
  intros Hticks (t & -> & Ht). unfold ns. rewrite nanoseconds_ok by done. cbn [mbind res_bind]. apply grouped_ok.
Qed.

(** Runs through a sequence of prints, numbers and lookups that cannot fail. *)
Ltac print_on :=
  repeat (cbn [mbind res_bind];
    match goal with
    | |- context [Text.grouped ?n] => let s := fresh "g" in destruct (grouped_ok n) as [s ->]
    | |- context [printf ?f ?a] => let s := fresh "line" in destruct (printf_ok f a eq_refl) as [s ->]
    end); cbn [mbind res_bind].

Section printing.
Context (rs : list RunResult) (f : Flow.Flow) (x : Double.double).
Hypothesis (Hrate : rate_ok x) (Hcount : zlen (Flow.count (Flow.f_stats f)) = 4).

Lemma print_summary_ok : rs ≠ [] → Forall (rows_ok (3 * two62)) rs → ∃ s, print_summary rs f x = Ok s.
Proof.
  intros Hne Hrs. unfold print_summary.
  assert (Hlat : ∃ s, each (Z.to_nat kRows) 0 (latency_row rs f x) = Ok s).
  { apply each_ok. change (0 + Z.of_nat (Z.to_nat kRows)) with 6. intros row Hrow. unfold latency_row.
    assert (Hn : ∃ n, row_count f row = Ok n).
    { unfold row_count, kAllRow, kSpinRow, kRows. destruct (Z.eqb_spec row 0), (Z.eqb_spec row (6 - 1)); [by eexists..|]. simpl.
      destruct (zlookup_lt (Flow.count (Flow.f_stats f)) (row - 1)) as [k Hk]; [lia|]. rewrite (vget_ok _ _ _ Hk). by eexists. }
    destruct Hn as [n ->]. print_on.
    destruct (each_ok (Z.to_nat kPoints) 0 (latency_cell rs x row)) as [s ->]; [|by eexists].
    change (0 + Z.of_nat (Z.to_nat kPoints)) with 5. intros j Hj. unfold latency_cell.
    destruct (across_runs_ok _ rs Hne Hrs row j) as (_ & c & _ & -> & _ & Hc); [lia..|]. cbn [mbind res_bind].
    destruct (ns_ok (median c) x Hc Hrate) as [t ->]. destruct (_ =? _); print_on; by eexists. }
  assert (Hspread : ∃ s, each (Z.to_nat kRows) 0 (spread_row rs) = Ok s).
  { apply each_ok. change (0 + Z.of_nat (Z.to_nat kRows)) with 6. intros row Hrow. unfold spread_row. print_on.
    destruct (each_ok (Z.to_nat kPoints) 0 (spread_cell rs row)) as [s ->]; [|by eexists].
    change (0 + Z.of_nat (Z.to_nat kPoints)) with 5. intros j Hj. unfold spread_cell.
    destruct (across_runs_ok _ rs Hne Hrs row j) as (_ & c & _ & -> & _ & _); [lia..|]. cbn [mbind res_bind].
    destruct (_ =? _); print_on; by eexists. }
  destruct Hlat as [s1 ->], Hspread as [s2 ->]. print_on. destruct (_ <? _); by eexists.
Qed.

Lemma run_line_ok r res : rows_ok (3 * two62) res → ∃ s, run_line x r res = Ok s.
Proof.
  intros [Hl Hr]. unfold run_line, kAllRow. destruct (zlookup_lt (rows res) 0) as [p Hp]; [unfold zlen; lia|].
  rewrite (vget_ok _ _ _ Hp). cbn [mbind res_bind]. apply zlookup_Some in Hp as [_ Hp].
  destruct (Forall_lookup_1 _ _ _ _ Hr Hp) as [H5 _ Hrange]. destruct p as [|a [|b [|c [|d [|e [|? ?]]]]]]; try done.
  rewrite !Forall_cons in Hrange. destruct Hrange as (Ha & Hb & Hc & Hd & He & _). cbn [vget zlookup zlen length].
  change (vget [a; b; c; d; e] 0) with (@Ok Z a). change (vget [a; b; c; d; e] 1) with (@Ok Z b). change (vget [a; b; c; d; e] 2) with (@Ok Z c).
  change (vget [a; b; c; d; e] 3) with (@Ok Z d). change (vget [a; b; c; d; e] 4) with (@Ok Z e). cbn [mbind res_bind].
  destruct (ns_ok a x Ha Hrate) as [s0 ->], (ns_ok b x Hb Hrate) as [s1 ->], (ns_ok c x Hc Hrate) as [s2 ->],
    (ns_ok d x Hd Hrate) as [s3 ->], (ns_ok e x He Hrate) as [s4 ->]. print_on. by eexists.
Qed.

Context {os : Machine.Os} (args : CommandLine.Args) (book_cfg : Config).

Lemma print_flow_ok gen_s : ∃ s, print_flow args f gen_s = Ok s.
Proof.
  unfold print_flow. cbv zeta. destruct (Flow.count (Flow.f_stats f)) as [|a [|b [|c [|d [|? ?]]]]]; try (unfold zlen in Hcount; simpl in Hcount; lia).
  change (vget [a; b; c; d] 0) with (@Ok Z a). change (vget [a; b; c; d] 1) with (@Ok Z b). change (vget [a; b; c; d] 2) with (@Ok Z c).
  change (vget [a; b; c; d] 3) with (@Ok Z d). print_on. by eexists.
Qed.

Lemma frequency_lines_ok ls : ∃ s, frequency_lines ls = Ok s.
Proof. induction ls as [|l ls [s IH]]; cbn [frequency_lines]; [by eexists|]. print_on. rewrite IH. by eexists. Qed.

Lemma print_setup_ok i pooled n resolution overhead : (∃ s, Machine.cpu_model i = Ok s) →
  ∃ s, print_setup args book_cfg x i pooled n resolution overhead = Ok s.
Proof.
  intros [model Hm]. unfold print_setup. rewrite Hm. cbv zeta. cbn [mbind res_bind]. print_on.
  match goal with |- context [frequency_lines ?l] => destruct (frequency_lines_ok l) as [s ->] end. print_on. destruct (negb _); print_on; by eexists.
Qed.

Lemma print_totals_ok i : rs ≠ [] → ∃ s, print_totals args book_cfg f i rs = Ok s.
Proof.
  intros Hne. unfold print_totals. destruct (Machine.thp_mode_ok i) as [mode ->]. destruct rs as [|r rs']; [done|].
  change (vget (r :: rs') 0) with (@Ok RunResult r). print_on. destruct (_ =? 0); print_on; [by eexists|].
  destruct (window_base r); print_on; by eexists.
Qed.

End printing.

(** ** Witnesses *)

Lemma nanoseconds_nearest_witness : nanoseconds 7 (Double.Fin (2 * Double.scale)) = Ok 4.
Proof.
  assert (Ht : Double.scale ≤ 2 * Double.scale ≤ two64 * Double.scale) by (split; vm_compute; discriminate).
  destruct (nanoseconds_nearest 7 (2 * Double.scale) ltac:(lia) Ht) as (n & Hn & _).
  assert (E : nanoseconds 7 (Double.Fin (2 * Double.scale)) = Ok 4) by (vm_compute; reflexivity).
  rewrite E in Hn. injection Hn as <-. exact E.
Defined.

(** A run whose every row is the same. *)
Definition flat_run : RunResult :=
  MkRunResult (replicate 6 [3; 5; 8; 8; 13]) (Machine.MkUsage 0 0) true 0 0 None 0 0 0.

Lemma flat_rows : rows_ok (3 * two62) flat_run.
Proof.
  split; [done|]. change (Forall (row_ok (3 * two62)) (replicate 6 [3; 5; 8; 8; 13])). apply Forall_replicate. split; [done| |].
  - intros i j x y Hx Hy Hij. apply (sorted_lookup_le [3; 5; 8; 8; 13] i j x y); [|done..]. repeat constructor; lia.
  - repeat constructor; lia.
Qed.

Lemma summary_rows_increase_witness : ∃ c d m n, across_runs [flat_run] 0 1 = Ok c ∧ across_runs [flat_run] 0 4 = Ok d ∧
  nanoseconds (median c) (Double.Fin Double.scale) = Ok m ∧ nanoseconds (median d) (Double.Fin Double.scale) = Ok n ∧ m ≤ n.
Proof.
  apply (summary_rows_increase [flat_run] 0 1 4 Double.scale); [discriminate|exact (Forall_cons_2 _ _ _ flat_rows (Forall_nil_2 _))|lia..|].
  split; vm_compute; discriminate.
Defined.
