(* ===== verification/DriverProps.v ===== *)
(** * The benchmark runs to its end

    On a release build, for every command line it accepts on a machine that can serve
    it ([usable]) and whatever the clock reads, [main] exits with status 0 after its
    whole report, of runs tied to the readings of the clock they took. *)

From Stdlib Require Import String.
From stdpp Require Import base decidable list sorting.
From S2P Require Import Prelude.
From S2P Require Import Memory.
From S2P Require Import Types.
From S2P Require Import Book.
From S2P Require Import Refine.
From S2P Require Import Flow.
From S2P Require Import Replay.
From S2P Require Import FlowSteps.
From S2P Require Import FlowProps.
From S2P Require Import Text.
From S2P Require Import Double.
From S2P Require Import Printf.
From S2P Require Import Machine.
From S2P Require Import CommandLine.
From S2P Require Import Bench.
From S2P Require Import Report.
From S2P Require Import Driver.
From S2P Require Import BenchProps.
From S2P Require Import ReportProps.
Import Printf Bench Report Driver Replay.

Section calibrate.
Context {clock : Clock}.

Lemma steady_mono i j : (i ≤ j)%nat → steady i ≤ steady j.
Proof. induction 1 as [|j _ IH]; [lia|]. pose proof (steady_step j). lia. Qed.

Lemma calibrate_loop_ends c0 (d : nat) i : c0 + 200000000 ≤ steady (i + d)%nat → ∃ k, (i ≤ k)%nat ∧ c0 + 200000000 ≤ steady k ∧
  ∀ fuel, (d < fuel)%nat → calibrate_loop fuel c0 i = Ok (S k).
Proof.
  revert i. induction d as [|d IH]; intros i Hd.
  - rewrite Nat.add_0_r in Hd. exists i. split; [lia|]. split; [done|]. intros [|fuel] Hf; [lia|]. cbn [calibrate_loop].
    by destruct (Z.ltb_spec (steady i - c0) 200000000); [lia|].
  - destruct (Z.ltb_spec (steady i - c0) 200000000) as [Hlt|Hge].
    + destruct (IH (S i)) as (k & Hk & Hc & Hf); [by replace (S i + d)%nat with (i + S d)%nat by lia|].
      exists k. split; [lia|]. split; [done|]. intros [|fuel] Hfu; [lia|]. cbn [calibrate_loop].
      destruct (Z.ltb_spec (steady i - c0) 200000000); [|lia]. apply Hf. lia.
    + exists i. split; [lia|]. split; [lia|]. intros [|fuel] Hf; [lia|]. cbn [calibrate_loop].
      by destruct (Z.ltb_spec (steady i - c0) 200000000); [lia|].
Qed.

(** Calibration ends; it read the clocks around 200 ms at least. *)
Lemma calibrate_ends i : ∃ N k, (S (S i) ≤ k)%nat ∧ steady i + 200000000 ≤ steady k ∧ ∀ fuel, (N ≤ fuel)%nat → calibrate fuel i =
  Ok (Double.div (Double.of_Z (u64 (ticks (S k) - ticks (S i)))) (Double.of_Z (steady (S (S k)) - steady i)), S (S (S k))).
Proof.
  destruct (steady_passes (steady i + 200000000)) as [k0 Hk0].
  destruct (calibrate_loop_ends (steady i) k0 (S (S i))) as (k & Hk & Hc & Hf).
  { etrans; [exact Hk0|]. apply steady_mono. lia. }
  exists (S k0), k. split_and!; [done|done|]. intros fuel Hfu. unfold calibrate. cbv zeta. rewrite Hf by lia. done.
Qed.

End calibrate.

(** ** The runs *)

Section measure.
Context {clock : Clock} {build : Build} {os : Machine.Os}.
Context (f : Flow.Flow) (bc : Config) (l : Z) (Hd : drivable f bc l).

(** What the runs from run [r] on dump, given the samples and waits of each. *)
Fixpoint dumps (dump : bool) (x : Double.double) (r : Z) (samples : list (list Z * list Z)) : res Text.Str :=
  match samples with
  | [] => Ok []
  | (smp, waits) :: samples =>
      text ← dump_run dump f smp waits r x;
      rest ← dumps dump x (u64 (r + 1)) samples;
      Ok (text ++ rest)
  end.

(** The lines of the runs from run [r] on. *)
Fixpoint run_lines (x : Double.double) (r : Z) (rs : list RunResult) : res Text.Str :=
  match rs with
  | [] => Ok []
  | res :: rs => line ← run_line x r res; rest ← run_lines x (u64 (r + 1)) rs; Ok (line ++ rest)
  end.

(** A run from the [i]-th reading on, up to the [j]-th, that sampled [p] and
    reported [r]. *)
Definition sampled (ov cpu : Z) (i : nat) (p : list Z * list Z) (r : RunResult) (j : nat) : Prop :=
  timed_count f ≤ zlen p.1 ∧ measured f bc ov cpu i (take (Z.to_nat (timed_count f)) p.1) p.2 r j.

(** Runs one after the other, each with the generator's trades and no trade lost. *)
Inductive ran (ov cpu : Z) : nat → list (list Z * list Z) → list RunResult → nat → Prop :=
  | ran_none i : ran ov cpu i [] [] i
  | ran_once i p r j samples rs k : run_hash r = Flow.trade_hash (Flow.f_stats f) → dropped r = 0 →
      sampled ov cpu i p r j → ran ov cpu j samples rs k → ran ov cpu i (p :: samples) (r :: rs) k.

Lemma ran_results ov cpu i samples rs k : ran ov cpu i samples rs k → Forall2 (λ p r, ∃ i j, sampled ov cpu i p r j) samples rs.
Proof. induction 1 as [|i p r j samples rs k _ _ Hs _ IH]; constructor; [by exists i, j|done]. Qed.

Lemma of_kind_subset c ops v x : x ∈ of_kind c ops v → x ∈ v.
Proof.
  revert ops. induction v as [|s v IH]; intros [|op ops]; try (by intros ?%elem_of_nil).
  rewrite of_kind_cons, elem_of_app. intros [Hx|Hx]; [|right; by apply (IH ops)].
  destruct (decide _); [|by apply elem_of_nil in Hx]. apply list_elem_of_singleton in Hx as ->. left.
Qed.

Lemma measured_rows_ok ov cpu i timed waits r j : 0 ≤ ov → measured f bc ov cpu i timed waits r j → rows_ok (3 * two62) r.
Proof.
  intros Hov [Ht _ Hl Hw Hrows _ _ _ _]. pose proof (timed_count_eq f bc l Hd) as Ec. pose proof (timed_begin_eq f bc l Hd) as Eb. destruct Hd.
  assert (Hn : 0 ≤ timed_count f ≤ two31) by lia.
  set (ops := drop (Z.to_nat (timed_begin f)) (Flow.f_ops f)) in *. cbv zeta in Hrows.
  assert (Htl : zlen timed ≤ two31) by (rewrite Ht; unfold zlen; rewrite brackets_length; lia).
  assert (Htr : Forall (λ s, 0 ≤ s < 3 * two62) timed).
  { apply Forall_forall. intros x. rewrite Ht. intros Hx%brackets_range; [lia|done]. }
  split; [by rewrite <-(Forall2_length _ _ _ Hrows)|].
  assert (Hv : Forall (λ v, zlen v ≤ two31 ∧ Forall (λ s, 0 ≤ s < 3 * two62) v)
    ([timed] ++ ((λ c, of_kind c ops timed) <$> [0; 1; 2; 3]) ++ [waits])).
  { apply Forall_app. split; [by repeat constructor|]. apply Forall_app. split; [|constructor; [|constructor]].
    - apply Forall_fmap, Forall_forall. intros c _. simpl. split; [pose proof (of_kind_length c ops timed); lia|].
      rewrite Forall_forall in Htr |- *. intros x Hx. apply Htr. by eapply of_kind_subset.
    - split; [lia|done]. }
  clear -Hrows Hv. induction Hrows as [|v p vs ps Hp _ IH]; [constructor|]. apply Forall_cons in Hv as [[Hl Hr] Hv].
  constructor; [|by apply IH]. by apply (row_of_increases _ v).
Qed.

Lemma ran_rows_ok ov cpu i samples rs k : 0 ≤ ov → ran ov cpu i samples rs k → Forall (rows_ok (3 * two62)) rs.
Proof. intros Hov. induction 1 as [|i p r j samples rs k _ _ [_ Hm] _ IH]; constructor; [by eapply measured_rows_ok|done]. Qed.

Lemma measure_spec ov cpu dump x runs b r i :
  Flow.trade_hash (Flow.f_stats f) = tr_hash (replay (start (self_trade bc)) (Flow.f_ops f)) → rate_ok x →
  bench_ok f bc ov b → ∃ N m samples, (∀ fuel, (N ≤ fuel)%nat → measure fuel cpu dump x runs b r i = Ok m) ∧
  length (results m) = runs ∧ discarded m = None ∧ ran ov cpu i samples (results m) (ended m) ∧
  run_lines x r (results m) = Ok (lines m) ∧ dumps dump x r samples = Ok (csv m).
Proof.
  intros Hhash Hx. revert b r i. induction runs as [|runs IH]; intros b r i Hb; cbn [measure].
  { exists 0%nat. eexists _, []. split_and!; [done|done|done|constructor|done|done]. }
  destruct (run_spec f bc l Hd ov b cpu dump r x i Hb) as (N1 & b' & res & text & j & Hrun & Hb' & Hh & Hdr & smp & waits & Etext & Hsl & Hmeas).
  destruct (IH b' (u64 (r + 1)) j Hb') as (N2 & m & samples & Hms & Hl & Hdisc & Hran & Elines & Ecsv).
  assert (Hov : 0 ≤ ov) by apply Hb. pose proof (measured_rows_ok _ _ _ _ _ _ _ Hov Hmeas) as Hrows.
  destruct (run_line_ok x Hx r res Hrows) as [line Eline].
  exists (N1 + N2)%nat. eexists _, ((smp, waits) :: samples). split; [intros fuel Hf|].
  - rewrite Hrun by lia. cbn [mbind res_bind]. destruct Hb' as (-> & _).
    rewrite Hh, Hdr, Hhash, Z.eqb_refl. cbn [negb orb Z.eqb]. rewrite Eline. cbn [mbind res_bind].
    rewrite Hms by lia. cbn [mbind res_bind]. reflexivity.
  - cbn [results discarded length csv lines ended run_lines dumps]. rewrite Eline, Etext. cbn [mbind res_bind]. rewrite Elines, Ecsv.
    split; [by rewrite Hl|]. split; [done|]. split; [|done]. econstructor; [by rewrite Hh|done|by split|exact Hran].
Qed.

End measure.

(** ** The program *)

Section main.
Context {clock : Clock} {build : Build} {os : Machine.Os} {system : Memory.System}.

(** What [main] asks of its arguments, and of the machine for them: the flow can be
    generated, with quantities that fit and 2^31 operations at most, the thread
    pinned, the dump opened, the processor has a name, and calibration finds a
    tick at least per nanosecond. *)
Record usable (args : CommandLine.Args) : Prop := {
  u_flow : accepted_config (CommandLine.cfg args) = true;
  u_lots : lots_fit (CommandLine.cfg args);
  u_ops : 0 < Flow.ops (CommandLine.cfg args);
  u_depth : 0 ≤ Flow.target_depth (CommandLine.cfg args);
  u_warmup : 0 ≤ Flow.warmup_ops (CommandLine.cfg args);
  u_few : Flow.target_depth (CommandLine.cfg args) + Flow.warmup_ops (CommandLine.cfg args) + Flow.ops (CommandLine.cfg args) ≤ two31;
  u_runs : 0 < CommandLine.runs args;
  u_levels : 0 ≤ CommandLine.price_levels args < two64;
  u_prefault : 0 ≤ CommandLine.prefault_mib args ≤ 17592186044400;
  u_pinned : 0 ≤ CommandLine.cpu args → Machine.pin_to (CommandLine.cpu args) = true;
  u_dump : ∀ path, CommandLine.dump_path args = Some path → Machine.fopen_w path = None;
  u_model : ∀ i, ∃ s, Machine.cpu_model i = Ok s;
  u_rate : ∀ fuel x j, calibrate fuel 2 = Ok (x, j) → rate_ok x;
}.

Lemma usable_drivable args : usable args → let bc := bench_config (CommandLine.cfg args) (CommandLine.system_alloc args) (CommandLine.price_levels args) in
  ∃ f, Flow.generate (CommandLine.cfg args) = Ok f ∧ drivable f bc (Flow.lot (CommandLine.cfg args)) ∧
  Flow.trade_hash (Flow.f_stats f) = tr_hash (replay (start (self_trade bc)) (Flow.f_ops f)) ∧ zlen (Flow.count (Flow.f_stats f)) = 4.
Proof.
  intros Hu. cbv zeta. destruct Hu. pose proof (generate_spec (CommandLine.cfg args) u_depth0 u_warmup0 ltac:(lia) u_few0) as Hgen.
  rewrite u_flow0 in Hgen. destruct Hgen as (f & Hf & Hlen & Hb & Hw & Hok & Hlots & Hhash & Hst). exists f. split; [done|].
  split; [|split; [done|by rewrite (s_count _ _ _ _ Hst)]].
  split; [lia|lia|lia|lia|done|apply u_lots0|by apply Hlots| |done].
  unfold bench_config, Refine.config_ok. simpl. rewrite u64_small by lia. unfold Flow.kTradeCapacity. lia.
Qed.

(** The whole of the standard output, for the results [rs] of runs that ended at
    the [j]-th reading of the clock; the setup was printed at the [i]-th. *)
Definition whole_report (args : CommandLine.Args) (bc : Config) (f : Flow.Flow) (gen_s x : Double.double) (pooled : bool)
    (prefaulted resolution ov : Z) (i : nat) (rs : list RunResult) (j : nat) : res Text.Str :=
  setup ← print_setup args bc x i pooled prefaulted resolution ov;
  about ← print_flow args f gen_s;
  lines ← run_lines x 0 rs;
  totals ← print_totals args bc f j rs;
  summary ← print_summary rs f x;
  last ← closing_line args;
  Ok (setup ++ about ++ runs_title ++ lines ++ totals ++ summary ++ last).

(** The dump, when one was asked for. *)
Definition whole_dump (args : CommandLine.Args) (f : Flow.Flow) (x : Double.double) (samples : list (list Z * list Z)) : res (option Text.Str) :=
  match CommandLine.dump_path args with
  | None => Ok None
  | Some _ => csv ← dumps f true x 0 samples; Ok (Some (dump_header ++ csv))
  end.

(** From the opened dump on. *)
Lemma main_measure_spec args f pooled prefaulted gen_s : usable args →
  let bc := bench_config (CommandLine.cfg args) (CommandLine.system_alloc args) (CommandLine.price_levels args) in
  drivable f bc (Flow.lot (CommandLine.cfg args)) → zlen (Flow.count (Flow.f_stats f)) = 4 →
  Flow.trade_hash (Flow.f_stats f) = tr_hash (replay (start (self_trade bc)) (Flow.f_ops f)) →
  ∃ N x i1 g i2 ov i3 samples rs i4 text file,
  (∀ fuel, (N ≤ fuel)%nat → calibrate fuel 2 = Ok (x, i1)) ∧ clock_resolution i1 = (g, i2) ∧ timer_overhead i2 = Ok (ov, i3) ∧
  zlen rs = CommandLine.runs args ∧ ran f bc ov (CommandLine.cpu args) i3 samples rs i4 ∧
  whole_report args bc f gen_s x pooled prefaulted g ov i3 rs i4 = Ok text ∧ whole_dump args f x samples = Ok file ∧
  ∀ fuel, (N ≤ fuel)%nat → main_measure fuel args bc f (make f bc) pooled prefaulted gen_s 2 = Ok (MkExit 0 text [] file).
Proof.
  intros Hu bc Hd Hcount Hhash. destruct Hu.
  destruct (calibrate_ends 2) as (N1 & k & _ & _ & Hcal). set (x := Double.div _ _) in *.
  assert (Hx : rate_ok x) by exact (u_rate0 N1 x _ (Hcal N1 ltac:(lia))).
  destruct (clock_resolution (S (S (S k)))) as [g i2] eqn:Eres. destruct (timer_overhead_ok i2) as (ov & i3 & Eov & Hov).
  destruct (print_setup_ok x args bc i3 pooled prefaulted g ov (u_model0 i3)) as [setup Esetup].
  destruct (print_flow_ok f Hcount args gen_s) as [about Eabout].
  set (dump := match CommandLine.dump_path args with Some _ => true | None => false end).
  destruct (measure_spec f bc _ Hd ov (CommandLine.cpu args) dump x (Z.to_nat (CommandLine.runs args)) (set_overhead (make f bc) ov) 0 i3 Hhash Hx)
    as (N2 & m & samples & Hms & Hl & Hdisc & Hran & Elines & Ecsv).
  { apply bench_overhead with 0; [apply (bench_make f bc _ Hd)|done]. }
  assert (Hne : results m ≠ []) by (intros E; rewrite E in Hl; simpl in Hl; lia).
  pose proof (ran_rows_ok f bc _ Hd _ _ _ _ _ _ Hov Hran) as Hrows.
  destruct (print_totals_ok (results m) f args bc (ended m) Hne) as [totals Etotals].
  destruct (print_summary_ok (results m) f x Hx Hcount Hne Hrows) as [summary Esum].
  assert (Hlast : ∃ last, closing_line args = Ok last).
  { unfold closing_line. destruct (CommandLine.dump_path args) as [path|]; [|by eexists]. apply printf_ok. reflexivity. }
  destruct Hlast as [last Elast].
  exists (N1 + N2)%nat, x, (S (S (S k))), g, i2, ov, i3, samples, (results m), (ended m). do 2 eexists.
  split_and!; [intros fuel Hf; apply Hcal; lia|done|done|unfold zlen; rewrite Hl; lia|done| | |].
  - unfold whole_report. rewrite Esetup, Eabout, Elines, Etotals, Esum, Elast. reflexivity.
  - instantiate (1 := if dump then Some (dump_header ++ csv m) else None). unfold whole_dump. unfold dump in *.
    destruct (CommandLine.dump_path args); [|done]. by rewrite Ecsv.
  - intros fuel Hf. unfold main_measure. fold dump. rewrite Hcal by lia. cbn [mbind res_bind]. rewrite Eres, Eov. cbn [mbind res_bind].
    rewrite Esetup. cbn [mbind res_bind]. rewrite Eabout. cbn [mbind res_bind]. rewrite Hms by lia. cbn [mbind res_bind].
    rewrite Hdisc, Etotals. cbn [mbind res_bind]. rewrite Esum. cbn [mbind res_bind]. rewrite Elast. cbn [mbind res_bind].
    by rewrite <-!app_assoc.
Qed.

(** C25. In a release build, given arguments the program accepts on a machine that can
    serve them ([usable]), the benchmark's [main] ends with status 0 and nothing on
    the standard error, whatever the clock reads. No run is discarded: the runs
    follow each other on the clock from the reading after calibration, resolution
    and overhead were taken; each replays exactly the generator's trades on a fresh
    book and loses none, and reports the percentiles of the times of its timed
    calls less that overhead, all of them and by kind, of the waits of as long as
    their median, the faults and switches in between, and the counters of that
    book. The standard output is the whole report of these runs, from the setup to
    the closing line, and the dump holds their samples when one was asked for. *)
Theorem bench_never_discards h argv0 argv args : kMeasurable = true → Memory.heap_ok h →
  CommandLine.parse_args argv (CommandLine.default_args Machine.default_cpu) = Ok (Some args) → usable args →
  let bc := bench_config (CommandLine.cfg args) (CommandLine.system_alloc args) (CommandLine.price_levels args) in
  let gen_s := Double.div (Double.of_Z (steady 1 - steady 0)) (Double.of_Z 1000000000) in
  ∃ N f b0 prefaulted h' x i1 g i2 ov i3 samples rs i4 text file,
    Flow.generate (CommandLine.cfg args) = Ok f ∧ OrderBook.make bc = Ok b0 ∧
    (∀ fuel, (N ≤ fuel)%nat → Machine.prefault_heap fuel h (CommandLine.prefault_mib args) = Ok (prefaulted, h')) ∧
    (∀ fuel, (N ≤ fuel)%nat → calibrate fuel 2 = Ok (x, i1)) ∧ clock_resolution i1 = (g, i2) ∧ timer_overhead i2 = Ok (ov, i3) ∧
    zlen rs = CommandLine.runs args ∧ ran f bc ov (CommandLine.cpu args) i3 samples rs i4 ∧
    whole_report args bc f gen_s x (OrderBook.pools_nodes b0) prefaulted g ov i3 rs i4 = Ok text ∧
    whole_dump args f x samples = Ok file ∧
    ∀ fuel, (N ≤ fuel)%nat → main fuel h argv0 argv = Ok (MkExit 0 text [] file).
Proof.
  intros Hm Hh Hargs Hu bc gen_s. destruct (usable_drivable args Hu) as (f & Hf & Hd & Hhash & Hcount). fold bc in Hd, Hhash.
  destruct (stands_make bc (d_config _ _ _ Hd) eq_refl) as (b0 & Hb0 & _).
  destruct (Machine.prefault_heap_spec h (CommandLine.prefault_mib args) Hh (u_prefault _ Hu)) as (N1 & h' & ps & _ & Hpre & _).
  destruct (main_measure_spec args f (OrderBook.pools_nodes b0) (16 * zlen ps) gen_s Hu Hd Hcount Hhash)
    as (N2 & x & i1 & g & i2 & ov & i3 & samples & rs & i4 & text & file & Hcal & Hres & Hov & Hl & Hran & Htext & Hfile & Hmain).
  exists (N1 + N2)%nat, f, b0, (16 * zlen ps), h', x, i1, g, i2, ov, i3, samples, rs, i4, text, file.
  split; [exact Hf|]. split; [exact Hb0|]. split; [intros fuel Hfuel; apply Hpre; lia|]. split; [intros fuel Hfuel; apply Hcal; lia|].
  do 6 (split; [assumption|]). intros fuel Hfuel. destruct Hu.
  unfold main. rewrite Hm, Hargs. cbn [negb mbind res_bind]. cbv zeta. fold bc. destruct (Z.eqb_spec (Flow.ops (CommandLine.cfg args)) 0); [lia|].
  destruct (Z.eqb_spec (CommandLine.runs args) 0); [lia|]. cbn [orb].
  assert (Epin : (0 <=? CommandLine.cpu args) && negb (Machine.pin_to (CommandLine.cpu args)) = false).
  { destruct (Z.leb_spec 0 (CommandLine.cpu args)); [by rewrite u_pinned0|done]. }
  rewrite Epin, Hf. cbn [mbind res_bind]. rewrite Hb0. cbn [mbind res_bind]. rewrite Hpre by lia. cbn [mbind res_bind]. fold gen_s.
  destruct (CommandLine.dump_path args) as [path|] eqn:Ep; cbn [mbind option_bind]; [rewrite (u_dump0 path eq_refl); cbn [mbind option_bind]|]; apply Hmain; lia.
Qed.

End main.

(** ** Witness

    The machine of Machine.v with the clock of BenchProps.v. *)

Lemma rate_of_counts a b : 0 < b ≤ a → a ≤ 2 ^ 53 → rate_ok (Double.div (Double.of_Z a) (Double.of_Z b)).
Proof.
  intros Hb Ha. pose proof Double.scale_pos as Hs. pose proof Double.huge_large as Hh. rewrite (Double.of_Z_exact a), (Double.of_Z_exact b) by lia.
  change (2 ^ 53) with 9007199254740992 in Ha. unfold Double.div.
  assert (Hsb : Double.scale ≤ b * Double.scale) by (pose proof (Z.mul_le_mono_nonneg_r 1 b Double.scale); lia).
  rewrite (proj2 (Z.eqb_neq (b * Double.scale) 0)) by lia.
  assert (Has : a * Double.scale ≤ two64 * Double.scale) by (apply Z.mul_le_mono_nonneg_r; lia).
  assert (Has0 : 0 ≤ a * Double.scale) by (apply Z.mul_nonneg_nonneg; lia).
  rewrite Double.round_fin by (pose proof (Z.mul_le_mono_nonneg_l two64 Double.huge Double.scale); pose proof (Z.mul_le_mono_nonneg_r Double.scale (b * Double.scale) Double.huge); lia).
  eexists. split; [done|].
  assert (Hone : ∀ n, 0 ≤ n ≤ 2 ^ 53 → Double.units n 1 = n * Double.scale).
  { intros n Hn. apply Double.units_exact with (e := 1074); [lia|done|lia|unfold Double.scale; lia]. }
  split.
  - replace Double.scale with (Double.units 1 1) at 1 by (rewrite Hone by lia; lia). apply Double.units_mono; [lia..|].
    rewrite Z.mul_1_l, Z.mul_1_r. apply Z.mul_le_mono_nonneg_r; lia.
  - etrans; [apply (Double.units_mono _ _ a 1); [lia..|]|].
    + rewrite Z.mul_1_r. pose proof (Z.mul_le_mono_nonneg_l Double.scale (b * Double.scale) a). lia.
    + rewrite Hone by (change (2 ^ 53) with 9007199254740992; lia). exact Has.
Qed.

Lemma calibrate_loop_counts (fuel : nat) c0 i j : calibrate_loop (clock := counting_clock) fuel c0 i = Ok j →
  ∃ k, j = S k ∧ (i ≤ k)%nat ∧ (k = i ∨ Z.of_nat k ≤ c0 + 200000000).
Proof.
  revert i. induction fuel as [|fuel IH]; intros i; cbn [calibrate_loop]; [done|]. simpl steady.
  destruct (Z.ltb_spec (Z.of_nat i - c0) 200000000).
  - intros H'%IH. destruct H' as (k & -> & Hk & Hor). exists k. split; [done|]. split; [lia|]. right. lia.
  - intros [= <-]. exists i. split; [done|]. split; [lia|]. by left.
Qed.

Lemma counting_rate fuel x j : calibrate (clock := counting_clock) fuel 2 = Ok (x, j) → rate_ok x.
Proof.
  unfold calibrate. cbv zeta. destruct (calibrate_loop _ _ _) as [j'|] eqn:E; [|done]. cbn [mbind res_bind]. intros [= <- _].
  apply calibrate_loop_counts in E as (k & -> & Hk & Hor). unfold ticks. cbn [time steady counting_clock].
  rewrite u64_sub_l, u64_sub_r. simpl (steady 2) in Hor. rewrite u64_small by lia. apply rate_of_counts; lia.
Qed.

Definition small_settings : list CommandLine.Setting :=
  [CommandLine.Ops 3; CommandLine.Warmup 4; CommandLine.Runs 2; CommandLine.Depth 6; CommandLine.Dump (Text.codes "out.csv"%string)].

Definition small_args : CommandLine.Args := foldl CommandLine.apply_setting (CommandLine.default_args 7) small_settings.

Lemma small_usable : usable (clock := counting_clock) (os := Machine.eight_cpus) small_args.
Proof.
  split; [vm_compute; reflexivity|split; vm_compute; reflexivity|vm_compute; reflexivity|vm_compute; discriminate..| | | | | | |].
  - vm_compute. reflexivity.
  - split; vm_compute; [discriminate|reflexivity].
  - split; vm_compute; discriminate.
  - reflexivity.
  - reflexivity.
  - intros i. eexists. vm_compute. reflexivity.
  - exact counting_rate.
Qed.

Lemma bench_never_discards_witness : ∃ N text file, ∀ fuel, (N ≤ fuel)%nat →
  main (clock := counting_clock) (build := release) (os := Machine.eight_cpus) (system := Memory.stacked) fuel Memory.no_blocks
    (Text.codes "bench") (concat (CommandLine.render <$> small_settings)) = Ok (MkExit 0 text [] file).
Proof.
  destruct (bench_never_discards (clock := counting_clock) (build := release) (os := Machine.eight_cpus) (system := Memory.stacked)
    Memory.no_blocks (Text.codes "bench") (concat (CommandLine.render <$> small_settings)) small_args)
    as (N & f & b0 & n & h' & x & i1 & g & i2 & ov & i3 & samples & rs & i4 & text & file & _ & _ & _ & _ & _ & _ & _ & _ & _ & _ & Hm).
  - reflexivity.
  - exact Memory.no_blocks_ok.
  - vm_compute. reflexivity.
  - exact small_usable.
  - exists N, text, file. exact Hm.
Defined.
