(* ===== verification/Plot.v ===== *)
(** * Reading a dump back (tools/plot_latency.py)

    The plotting tool reads what the benchmark dumps: the samples of one kind or
    run, and those of the noise floor, as Python's floats, sorted. A text is read
    as the tool reads it, line by line; [None] is an exception or [sys.exit]. *)

From Stdlib Require Import String.
From stdpp Require Import base decidable list sorting.
From S2P Require Import Prelude.
From S2P Require Import Text.
From S2P Require Import Double.
Import Text.

Module Plot.

(** [s.split(c)]. *)
Fixpoint split (c : Z) (s : Str) : list Str :=
  match s with
  | [] => [[]]
  | x :: s =>
      if x =? c then [] :: split c s
      else match split c s with w :: ws => (x :: w) :: ws | [] => [[x]] end
  end.

(** The lines of a file, without their newlines. *)
Fixpoint lines_of (fuel : nat) (s : Str) : list Str :=
  match fuel with
  | O => []
  | S fuel => match getline s with Some (line, s) => line :: lines_of fuel s | None => [] end
  end.

Definition lines (s : Str) : list Str := lines_of (length s) s.

(** [s.strip()]. *)
Definition strip (s : Str) : Str := reverse (skip_space (reverse (skip_space s))).

(** [float(s)] of digits with an optional fraction, in units of [Double.scale]; the
    other spellings of a float are left out. *)
Definition float (s : Str) : option Z :=
  let d := leading_digits s in
  let number (ds : Str) (places : Z) :=
    match Double.round (value ds) (10 ^ places) with Double.Fin n => Some n | _ => None end in
  if bool_decide (d = []) then None
  else match drop (length d) s with
       | [] => number d 0
       | c :: frac => if (c =? 46) && bool_decide (leading_digits frac = frac) then number (d ++ frac) (zlen frac) else None
       end.

(** One line: its sample goes to the operations, to the noise floor, or nowhere. *)
Definition load_line (kind : Str) (want_run : option Str) (acc : list Z * list Z) (line : Str) : option (list Z * list Z) :=
  let '(ops, spin) := acc in
  match split 44 line with
  | [r; _; k; ns] =>
      if match want_run with Some w => negb (bool_decide (r = w)) | None => false end then Some (ops, spin)
      else if bool_decide (k = codes "spin") then x ← float ns; Some (ops, spin ++ [x])
      else if bool_decide (kind = codes "all") || bool_decide (k = kind) then x ← float ns; Some (ops ++ [x], spin)
      else Some (ops, spin)
  | _ => None
  end.

Fixpoint load_lines (kind : Str) (want_run : option Str) (acc : list Z * list Z) (ls : list Str) : option (list Z * list Z) :=
  match ls with
  | [] => Some acc
  | line :: ls => acc ← load_line kind want_run acc line; load_lines kind want_run acc ls
  end.

(** [load(path, kind, run)], of the file's text. *)
Definition load (text kind : Str) (run : option Z) : option (list Z * list Z) :=
  match lines text with
  | [] => None
  | header :: ls =>
      if negb (bool_decide (strip header = codes "run,index,kind,ns")) then None
      else
        '(ops, spin) ← load_lines kind (to_string <$> run) ([], []) ls;
        if bool_decide (ops = []) then None
        else Some (merge_sort Z.le ops, merge_sort Z.le spin)
  end.

(** [percentile(sorted_ns, p)], with [p] a double: [None] is an [IndexError]. *)
Definition percentile (sorted_ns : list Z) (p : Double.double) : option Z :=
  match Double.mul (Double.div p (Double.of_Z 100)) (Double.of_Z (zlen sorted_ns)) with
  | Double.Fin a =>
      let rank := - (- a / Double.scale) in
      sorted_ns.[Z.max rank 1 - 1]
  | _ => None
  end.

(** ** Lemmas *)

Lemma split_none c s : c ∉ s → split c s = [s].
Proof.
  induction s as [|x s IH]; [done|]. rewrite not_elem_of_cons. intros [Hx Hs]. cbn [split].
  destruct (Z.eqb_spec x c); [by subst|]. by rewrite IH.
Qed.

Lemma split_app c s t : c ∉ s → split c (s ++ c :: t) = s :: split c t.
Proof.
  induction s as [|x s IH]; cbn [split app]; [by rewrite Z.eqb_refl|]. rewrite not_elem_of_cons. intros [Hx Hs].
  destruct (Z.eqb_spec x c); [by subst|]. by rewrite IH.
Qed.

Lemma getline_app line rest : 10 ∉ line → getline (line ++ 10 :: rest) = Some (line, rest).
Proof.
  intros Hl. assert (E : span (λ c, c =? 10) (line ++ 10 :: rest) = (line, 10 :: rest)).
  { induction line as [|c line IH]; [done|]. apply not_elem_of_cons in Hl as [Hc Hl]. cbn [span app].
    destruct (Z.eqb_spec c 10); [by subst|]. by rewrite IH. }
  unfold getline. rewrite E. destruct line; done.
Qed.

(** What a writer that ends every line has written. *)
Definition text_of (ls : list Str) : Str := concat ((λ l, l ++ [10]) <$> ls).

Lemma text_of_app l1 l2 : text_of (l1 ++ l2) = text_of l1 ++ text_of l2.
Proof. unfold text_of. by rewrite fmap_app, concat_app. Qed.

Lemma text_of_cons l ls : text_of (l :: ls) = l ++ 10 :: text_of ls.
Proof. unfold text_of. rewrite fmap_cons. cbn [concat]. by rewrite <-app_assoc. Qed.

Lemma lines_of_text ls (fuel : nat) : Forall (λ l, 10 ∉ l) ls → (length ls ≤ fuel)%nat → lines_of fuel (text_of ls) = ls.
Proof.
  intros Hls. revert fuel. induction Hls as [|l ls Hl _ IH]; intros fuel Hf; [by destruct fuel|].
  destruct fuel as [|fuel]; [simpl in Hf; lia|]. cbn [lines_of]. rewrite text_of_cons, getline_app by done.
  rewrite IH; [done|simpl in Hf; lia].
Qed.

Lemma text_of_length ls : (length ls ≤ length (text_of ls))%nat.
Proof. induction ls as [|l ls IH]; [done|]. rewrite text_of_cons, length_app. simpl. lia. Qed.

Lemma lines_text ls : Forall (λ l, 10 ∉ l) ls → lines (text_of ls) = ls.
Proof. intros Hls. apply lines_of_text; [done|apply text_of_length]. Qed.

Lemma load_lines_app kind want acc l1 l2 : load_lines kind want acc (l1 ++ l2) =
  (acc ← load_lines kind want acc l1; load_lines kind want acc l2).
Proof.
  revert acc. induction l1 as [|l l1 IH]; intros acc; cbn [load_lines app]; [done|].
  destruct (load_line kind want acc l) as [acc'|]; cbn [mbind option_bind]; [apply IH|done].
Qed.

End Plot.
