(* ===== verification/DumpProps.v ===== *)
(** * The dump reads back

    What the driver dumps is what the plotting tool loads: for every run and kind
    the samples whose percentiles the driver reported, to a tenth of a nanosecond. *)

From Stdlib Require Import String.
From stdpp Require Import base decidable list sorting.
From S2P Require Import Prelude.
From S2P Require Import Types.
From S2P Require Import Flow.
From S2P Require Import Replay.
From S2P Require Import Text.
From S2P Require Import Double.
From S2P Require Import Printf.
From S2P Require Import Machine.
From S2P Require Import Bench.
From S2P Require Import Report.
From S2P Require Import Driver.
From S2P Require Import BenchProps.
From S2P Require Import ReportProps.
From S2P Require Import DriverProps.
From S2P Require Import Plot.
Import Printf Bench Driver Plot.

(** ** The characters of a number *)

Lemma to_string_digits n : 0 ≤ n < two64 → Text.to_string n ≠ [] ∧ Forall (λ c, 48 ≤ c ≤ 57) (Text.to_string n).
Proof. intros Hn. destruct (Text.digits_spec 20 n) as (H1 & H2 & _); [simpl; lia|lia|done]. Qed.

Lemma digits_avoid c s : Forall (λ c, 48 ≤ c ≤ 57) s → ¬ (48 ≤ c ≤ 57) → c ∉ s.
Proof. intros Hs Hc Hin. rewrite Forall_forall in Hs. by apply Hc, Hs. Qed.

Lemma to_string_inj m n : 0 ≤ m < two64 → 0 ≤ n < two64 → Text.to_string m = Text.to_string n → m = n.
Proof. intros Hm Hn E. rewrite <-(Text.strtoull_to_string m), <-(Text.strtoull_to_string n) by done. by rewrite E. Qed.

(** A decimal as the tool reads it. *)
Definition decimal (ds : Text.Str) (places : Z) : option Z :=
  match Double.round (Text.value ds) (10 ^ places) with Double.Fin n => Some n | _ => None end.

Lemma float_decimal d frac : d ≠ [] → Forall (λ c, 48 ≤ c ≤ 57) d → Forall (λ c, 48 ≤ c ≤ 57) frac →
  float (d ++ 46 :: frac) = decimal (d ++ frac) (zlen frac).
Proof.
  intros Hne Hd Hfrac. unfold float. assert (El : Text.leading_digits (d ++ 46 :: frac) = d).
  { clear -Hd. induction Hd as [|c d Hc _ IH]; [done|]. cbn [app Text.leading_digits]. unfold Text.is_digit.
    destruct (Z.leb_spec 48 c), (Z.leb_spec c 57); [|lia..]. cbn [andb]. by rewrite IH. }
  rewrite El, bool_decide_false, drop_app_length by done. by rewrite (bool_decide_true _ (Text.leading_digits_all frac Hfrac)).
Qed.

Section reading.
Context (t : Z) (Ht : Double.scale ≤ t ≤ two64 * Double.scale).

(** The tenths of a nanosecond the dump has for a sample, and the double they read
    back as, in its units. *)
Definition tenths (s : Z) : Z := Double.nearest_even (Double.units (Double.units s 1) t * 10) Double.scale.
Definition reading (s : Z) : Z := Double.units (tenths s) 10.

Definition quotient_text (s : Z) : Text.Str := fixed 1 (Double.div (Double.of_Z s) (Double.Fin t)).

Lemma tenths_range s : 0 ≤ s < 3 * two62 → Double.div (Double.of_Z s) (Double.Fin t) = Double.Fin (Double.units (Double.units s 1) t) ∧
  0 ≤ tenths s < 10 ^ 23.
Proof.
  intros Hs. destruct (nanoseconds_steps s t ltac:(lia) Ht) as (Ed & Hb1 & _ & _ & Hb & _). split; [done|]. unfold tenths.
  pose proof Double.scale_pos. split; [apply Double.nearest_even_nonneg; lia|].
  pose proof (Double.nearest_even_error (Double.units (Double.units s 1) t * 10) Double.scale ltac:(done)) as He.
  set (b := Double.units _ t) in *. set (m := Double.nearest_even _ _) in *.
  apply (Z.mul_lt_mono_pos_r Double.scale); [done|]. change (10 ^ 23) with 100000000000000000000000. lia.
Qed.

(** "123.4". *)
Lemma quotient_text_eq s : 0 ≤ s < 3 * two62 → quotient_text s = Text.digits 310 (tenths s / 10) ++ [46; 48 + tenths s mod 10].
Proof.
  intros Hs. destruct (tenths_range s Hs) as [E Hr]. unfold quotient_text. rewrite E. unfold fixed. cbv zeta.
  change (10 ^ 1) with 10. fold (tenths s). f_equal. change (1 =? 0) with false. cbv iota. f_equal. change (Z.to_nat 1) with 1%nat. cbn [Text.digits].
  pose proof (Z.mod_pos_bound (tenths s) 10 ltac:(lia)). rewrite (Z.div_small (tenths s mod 10)), Z.mod_mod by lia. done.
Qed.

Lemma quotient_digits s : 0 ≤ s < 3 * two62 → Text.digits 310 (tenths s / 10) ≠ [] ∧
  Forall (λ c, 48 ≤ c ≤ 57) (Text.digits 310 (tenths s / 10)) ∧ Text.value (Text.digits 310 (tenths s / 10)) = tenths s / 10.
Proof.
  intros Hs. destruct (tenths_range s Hs) as [_ Hr]. apply Text.digits_spec; [|lia].
  assert (0 ≤ tenths s / 10 < 10 ^ 23) by (change (10 ^ 23) with 100000000000000000000000 in *; Z.div_mod_to_equations; lia).
  split; [lia|]. eapply Z.lt_le_trans; [apply H|]. apply Z.pow_le_mono_r; lia.
Qed.

Lemma value_snoc d m : Text.value d = m / 10 → Text.value (d ++ [48 + m mod 10]) = m.
Proof. unfold Text.value. intros Hv. rewrite foldl_app, Hv. cbn [foldl]. pose proof (Z.div_mod m 10). lia. Qed.

Lemma reading_round s : 0 ≤ s < 3 * two62 → Double.round (tenths s) 10 = Double.Fin (reading s).
Proof.
  intros [_ Hr]%tenths_range. apply Double.round_fin; [lia|]. pose proof Double.huge_large.
  change (10 ^ 23) with 100000000000000000000000 in Hr. lia.
Qed.

(** The tool reads a sample as the double nearest to the dumped decimal. *)
Lemma float_quotient s : 0 ≤ s < 3 * two62 → float (quotient_text s) = Some (reading s).
Proof.
  intros Hs. destruct (quotient_digits s Hs) as (Hne & Hd & Hv). pose proof (Z.mod_pos_bound (tenths s) 10 ltac:(lia)).
  rewrite quotient_text_eq, float_decimal by (done || (repeat constructor; lia)). unfold decimal.
  rewrite value_snoc by done. change (10 ^ zlen _) with 10. by rewrite reading_round.
Qed.

(** ** One line *)

Definition row (r i : Z) (name : Text.Str) (s : Z) : Text.Str :=
  Text.to_string r ++ 44 :: Text.to_string i ++ 44 :: name ++ 44 :: quotient_text s.

Lemma padded_plain sp number s : left_justified sp = false → zero_padded sp = false → width sp = 0 → padded sp number s = s.
Proof.
  intros H1 H2 H3. unfold padded. rewrite H1, H2, H3. cbn [andb]. unfold pad_left, vmake. pose proof (zlen_nonneg s).
  by replace (Z.to_nat (0 - zlen s)) with 0%nat by lia.
Qed.

Lemma print_row r i name s : printf "%zu,%zu,%s,%.1f\n" [ASize r; ASize i; AStr name; ADouble (Double.div (Double.of_Z s) (Double.Fin t))] =
  Ok (row r i name s ++ [10]).
Proof.
  unfold printf. cbv zeta. match goal with |- context [parse ?f ?s] => let p := eval vm_compute in (parse f s) in change (parse f s) with p end.
  cbn [print]. unfold convert. cbn [conversion modifier]. rewrite !bool_decide_true by done. cbn [andb Z.eqb Pos.eqb].
  rewrite !padded_plain by done. cbn [mbind res_bind precision fmap res_fmap]. unfold row, quotient_text.
  cbn [default from_option]. by rewrite <-!app_assoc, <-!app_comm_cons, <-!app_assoc, <-!app_comm_cons, <-!app_assoc.
Qed.

Lemma print_spin_row r i s : printf "%zu,%zu,spin,%.1f\n" [ASize r; ASize i; ADouble (Double.div (Double.of_Z s) (Double.Fin t))] =
  Ok (row r i (Text.codes "spin") s ++ [10]).
Proof.
  unfold printf. cbv zeta. match goal with |- context [parse ?f ?s] => let p := eval vm_compute in (parse f s) in change (parse f s) with p end.
  cbn [print]. unfold convert. cbn [conversion modifier]. rewrite !bool_decide_true by done. cbn [andb Z.eqb Pos.eqb].
  rewrite !padded_plain by done. cbn [mbind res_bind precision fmap res_fmap]. unfold row, quotient_text.
  cbn [default from_option]. change (Text.codes "spin") with [115; 112; 105; 110].
  by rewrite <-!app_assoc, <-!app_comm_cons, <-!app_assoc, <-!app_comm_cons, <-!app_assoc.
Qed.

(** ** The lines of a run *)

Fixpoint op_rows (r i : Z) (l : list (Flow.Op * Z)) : list Text.Str :=
  match l with
  | [] => []
  | (op, s) :: l => row r i (Flow.kind_name (Flow.op_kind op)) s :: op_rows r (i + 1) l
  end.

Fixpoint spin_rows (r i : Z) (l : list Z) : list Text.Str :=
  match l with
  | [] => []
  | s :: l => row r i (Text.codes "spin") s :: spin_rows r (i + 1) l
  end.

Lemma dump_ops_rows (n : nat) ops smp first index i : 0 ≤ first → 0 ≤ i → first + i + Z.of_nat n ≤ zlen ops →
  i + Z.of_nat n ≤ zlen smp → zlen ops ≤ two31 → dump_ops n ops smp first index i (Double.Fin t) =
    Ok (text_of (op_rows (u64 (index + 1)) i (zip (take n (drop (Z.to_nat (first + i)) ops)) (take n (drop (Z.to_nat i) smp))))).
Proof.
  intros Hf. revert i. induction n as [|n IH]; intros i Hi Hops Hsmp Hmax; cbn [dump_ops]; [done|].
  rewrite (u64_small (first + i)), (u64_small (i + 1)) by lia.
  destruct (zlookup_lt ops (first + i)) as [op Hop]; [lia|]. rewrite (vget_ok _ _ _ Hop). cbn [mbind res_bind].
  destruct (zlookup_lt smp i) as [s Hs]; [lia|]. rewrite (vget_ok _ _ _ Hs). cbn [mbind res_bind].
  rewrite print_row, IH by lia. cbn [mbind res_bind]. f_equal.
  apply zlookup_Some in Hop as [_ Hop]. apply zlookup_Some in Hs as [_ Hs].
  rewrite (drop_S _ _ _ Hop), (drop_S _ _ _ Hs). cbn [take zip zip_with op_rows]. rewrite text_of_cons, <-app_assoc.
  replace (S (Z.to_nat (first + i))) with (Z.to_nat (first + (i + 1))) by lia. by replace (S (Z.to_nat i)) with (Z.to_nat (i + 1)) by lia.
Qed.

Lemma dump_spin_rows (n : nat) spin index i : 0 ≤ i → i + Z.of_nat n ≤ zlen spin → zlen spin ≤ two31 →
  dump_spin n spin index i (Double.Fin t) = Ok (text_of (spin_rows (u64 (index + 1)) i (take n (drop (Z.to_nat i) spin)))).
Proof.
  revert i. induction n as [|n IH]; intros i Hi Hl Hmax; cbn [dump_spin]; [done|]. rewrite (u64_small (i + 1)) by lia.
  destruct (zlookup_lt spin i) as [s Hs]; [lia|]. rewrite (vget_ok _ _ _ Hs). cbn [mbind res_bind].
  rewrite print_spin_row, IH by lia. cbn [mbind res_bind]. f_equal. apply zlookup_Some in Hs as [_ Hs].
  rewrite (drop_S _ _ _ Hs). cbn [take spin_rows]. rewrite text_of_cons, <-app_assoc.
  by replace (S (Z.to_nat i)) with (Z.to_nat (i + 1)) by lia.
Qed.

(** A name without commas or newlines. *)
Definition plain (name : Text.Str) : Prop := (44 ∉ name) ∧ (10 ∉ name).

Lemma kind_name_plain k : plain (Flow.kind_name k).
Proof. split; apply (bool_decide_unpack _); by destruct k. Qed.

Lemma spin_plain : plain (Text.codes "spin").
Proof. split; by apply (bool_decide_unpack _). Qed.

Lemma quotient_avoids c s : 0 ≤ s < 3 * two62 → ¬ (48 ≤ c ≤ 57) → c ≠ 46 → c ∉ quotient_text s.
Proof.
  intros Hs Hc H46. rewrite quotient_text_eq by done. destruct (quotient_digits s Hs) as (_ & Hd & _).
  pose proof (Z.mod_pos_bound (tenths s) 10 ltac:(lia)). rewrite not_elem_of_app, !not_elem_of_cons.
  split_and!; [by apply digits_avoid|lia|lia|by intros ?%elem_of_nil].
Qed.

Lemma split_row r i name s : 0 ≤ r < two64 → 0 ≤ i < two64 → 0 ≤ s < 3 * two62 → plain name →
  split 44 (row r i name s) = [Text.to_string r; Text.to_string i; name; quotient_text s].
Proof.
  intros Hr Hi Hs [Hn _]. unfold row. destruct (to_string_digits r Hr) as [_ H1], (to_string_digits i Hi) as [_ H2].
  rewrite !split_app by (done || (apply digits_avoid; [done|lia])). rewrite split_none; [done|]. apply quotient_avoids; [done|lia..].
Qed.

Lemma row_one_line r i name s : 0 ≤ r < two64 → 0 ≤ i < two64 → 0 ≤ s < 3 * two62 → plain name → 10 ∉ row r i name s.
Proof.
  intros Hr Hi Hs [_ Hn]. unfold row. destruct (to_string_digits r Hr) as [_ H1], (to_string_digits i Hi) as [_ H2].
  rewrite !not_elem_of_app, !not_elem_of_cons, !not_elem_of_app, !not_elem_of_cons, !not_elem_of_app, !not_elem_of_cons.
  split_and!; try done; try (apply digits_avoid; [done|lia]). apply quotient_avoids; [done|lia..].
Qed.

(** ** Loading them *)

Definition wanted (kind : Text.Str) (op : Flow.Op) : bool :=
  bool_decide (kind = Text.codes "all") || bool_decide (Flow.kind_name (Flow.op_kind op) = kind).

Definition chosen (kind : Text.Str) (l : list (Flow.Op * Z)) : list Z := (filter (λ x, wanted kind x.1 = true) l).*2.

Definition in_range (s : Z) : Prop := 0 ≤ s < 3 * two62.

Lemma load_op_rows kind r i l ops spin : 0 ≤ r < two64 → 0 ≤ i → i + zlen l < two64 → Forall in_range l.*2 →
  load_lines kind (Some (Text.to_string r)) (ops, spin) (op_rows r i l) = Some (ops ++ (reading <$> chosen kind l), spin).
Proof.
  intros Hr. revert i ops. induction l as [|[op s] l IH]; intros i ops Hi Hl Hs; cbn [op_rows load_lines].
  { by rewrite app_nil_r. }
  rewrite zlen_cons in Hl. pose proof (zlen_nonneg l). cbn [fmap list_fmap snd] in Hs. apply Forall_cons in Hs as [Hs Hss].
  unfold load_line at 1. rewrite split_row by (done || lia || apply kind_name_plain).
  rewrite (bool_decide_true (Text.to_string r = _)) by done. cbn [negb].
  rewrite (bool_decide_false (_ = Text.codes "spin")) by (destruct (Flow.op_kind op); by vm_compute).
  unfold chosen. rewrite filter_cons. cbn [fst]. fold (wanted kind op). destruct (wanted kind op) eqn:Ew.
  - rewrite decide_True by done. rewrite float_quotient by done. cbn [mbind option_bind]. rewrite IH by (done || lia).
    by rewrite <-app_assoc.
  - rewrite decide_False by done. cbn [mbind option_bind]. by rewrite IH by (done || lia).
Qed.

Lemma load_spin_rows kind r i l ops spin : 0 ≤ r < two64 → 0 ≤ i → i + zlen l < two64 → Forall in_range l →
  load_lines kind (Some (Text.to_string r)) (ops, spin) (spin_rows r i l) = Some (ops, spin ++ (reading <$> l)).
Proof.
  intros Hr. revert i spin. induction l as [|s l IH]; intros i spin Hi Hl Hs; cbn [spin_rows load_lines].
  { by rewrite app_nil_r. }
  rewrite zlen_cons in Hl. pose proof (zlen_nonneg l). apply Forall_cons in Hs as [Hs Hss].
  unfold load_line at 1. rewrite split_row by (done || lia || apply spin_plain).
  rewrite (bool_decide_true (Text.to_string r = _)) by done. cbn [negb]. rewrite (bool_decide_true (Text.codes "spin" = _)) by done.
  rewrite float_quotient by done. cbn [mbind option_bind]. rewrite IH by (done || lia). by rewrite <-app_assoc.
Qed.

(** The lines of one run, and what another run's do to a load. *)
Definition run_rows (r : Z) (l : list (Flow.Op * Z)) (spin : list Z) : list Text.Str := op_rows r 0 l ++ spin_rows r 0 spin.

Lemma run_rows_ok (P : Text.Str → Prop) r l spin : 0 ≤ r < two64 → zlen l < two64 → zlen spin < two64 → Forall in_range l.*2 → Forall in_range spin →
  (∀ i name s, 0 ≤ i < two64 → plain name → in_range s → P (row r i name s)) → Forall P (run_rows r l spin).
Proof.
  intros Hr Hl Hsp H1 H2 HP. apply Forall_app. split.
  - cut (∀ i, 0 ≤ i → i + zlen l < two64 → Forall P (op_rows r i l)); [intros H; apply H; lia|]. clear Hl.
    induction l as [|[op s] l IH]; intros i Hi Hl; constructor; cbn [fmap list_fmap snd] in H1; apply Forall_cons in H1 as [Hs H1];
      rewrite zlen_cons in Hl; pose proof (zlen_nonneg l).
    + apply HP; [lia|apply kind_name_plain|done].
    + apply IH; [done|lia..].
  - cut (∀ i, 0 ≤ i → i + zlen spin < two64 → Forall P (spin_rows r i spin)); [intros H; apply H; lia|]. clear Hsp.
    induction H2 as [|s spin Hs H2 IH]; intros i Hi Hsp; constructor; rewrite zlen_cons in Hsp; pose proof (zlen_nonneg spin).
    + apply HP; [lia|apply spin_plain|done].
    + apply IH; lia.
Qed.

Lemma load_other kind r w acc l spin : 0 ≤ r < two64 → 0 ≤ w < two64 → r ≠ w → zlen l < two64 → zlen spin < two64 →
  Forall in_range l.*2 → Forall in_range spin → load_lines kind (Some (Text.to_string w)) acc (run_rows r l spin) = Some acc.
Proof.
  intros Hr Hw Hne Hl Hsp H1 H2.
  assert (Hskip : Forall (λ x, load_line kind (Some (Text.to_string w)) acc x = Some acc) (run_rows r l spin)).
  { apply run_rows_ok; try done. intros i name s Hi Hn Hs. unfold load_line. destruct acc as [ops sp].
    rewrite split_row by done. by rewrite bool_decide_false by (intros ?%to_string_inj; done). }
  induction Hskip as [|x xs Hx _ IH]; [done|]. cbn [load_lines]. rewrite Hx. exact IH.
Qed.

(** ** The lines of a dump *)

Section runs.
Context (f : Flow.Flow).

Definition timed_ops : list Flow.Op := drop (Z.to_nat (timed_begin f)) (Flow.f_ops f).

(** The timed operations of a run with their samples. *)
Definition timed_of (p : list Z * list Z) : list (Flow.Op * Z) := zip timed_ops (take (Z.to_nat (timed_count f)) p.1).

Fixpoint all_rows (r : Z) (samples : list (list Z * list Z)) : list Text.Str :=
  match samples with
  | [] => []
  | p :: samples => run_rows (r + 1) (timed_of p) p.2 ++ all_rows (r + 1) samples
  end.

(** What [drivable] and [sampled] say of the lengths and the values. *)
Record dumpable (p : list Z * list Z) : Prop := {
  du_waits : zlen p.2 = timed_count f;
  du_samples : timed_count f ≤ zlen p.1;
  du_timed : Forall in_range (take (Z.to_nat (timed_count f)) p.1);
  du_spin : Forall in_range p.2;
}.

Hypothesis (Hbegin : 0 ≤ timed_begin f) (Hcount : timed_count f = zlen (Flow.f_ops f) - timed_begin f)
  (Hfew : zlen (Flow.f_ops f) ≤ two31) (Htimed : 0 ≤ timed_count f).

Lemma timed_of_length p : dumpable p → length timed_ops = length (take (Z.to_nat (timed_count f)) p.1).
Proof. intros [_ Hs _ _]. unfold timed_ops. rewrite length_drop, length_take. unfold zlen in *. lia. Qed.

Lemma timed_of_range p : dumpable p → zlen (timed_of p) < two64 ∧ zlen p.2 < two64 ∧ Forall in_range (timed_of p).*2.
Proof.
  intros Hp. pose proof (timed_of_length p Hp) as Hl. destruct Hp as [Hw Hs Ht' Hsp]. unfold timed_of. split_and!.
  - unfold zlen in *. rewrite length_zip, <-Hl. unfold timed_ops. rewrite length_drop. lia.
  - lia.
  - rewrite snd_zip; [done|lia].
Qed.

Lemma dumps_rows r samples : 0 ≤ r → r + zlen samples + 1 < two64 → Forall dumpable samples →
  dumps f true (Double.Fin t) r samples = Ok (text_of (all_rows r samples)).
Proof.
  intros Hr Hlen Hs. revert r Hr Hlen. induction Hs as [|[smp waits] samples Hp _ IH]; intros r Hr Hlen; [done|].
  pose proof (timed_of_length _ Hp) as Hl. destruct Hp as [Hw Hsl _ _]. cbn [fst snd] in *.
  rewrite zlen_cons in Hlen. pose proof (zlen_nonneg samples). cbn [dumps all_rows fst snd]. unfold dump_run. cbv zeta.
  rewrite dump_ops_rows by lia. cbn [mbind res_bind]. rewrite dump_spin_rows by lia. cbn [mbind res_bind].
  rewrite !(u64_small (r + 1)) by lia. rewrite IH by lia. cbn [mbind res_bind]. f_equal. rewrite text_of_app. f_equal.
  unfold run_rows. rewrite text_of_app. unfold timed_of, timed_ops in *. cbn [fst] in *. rewrite Z.add_0_r. change (Z.to_nat 0) with 0%nat.
  rewrite !drop_0. f_equal.
  - rewrite (take_ge (drop _ _)); [done|]. rewrite Hl, length_take. lia.
  - rewrite take_ge; [done|]. unfold zlen in *. lia.
Qed.

Lemma load_none kind w acc r samples : 0 ≤ w < r → r + zlen samples < two64 → Forall dumpable samples →
  load_lines kind (Some (Text.to_string w)) acc (all_rows (r - 1) samples) = Some acc.
Proof.
  intros Hw Hlen Hs. revert r Hw Hlen. induction Hs as [|p samples Hp _ IH]; intros r Hw Hlen; [done|].
  rewrite zlen_cons in Hlen. pose proof (zlen_nonneg samples). destruct (timed_of_range p Hp) as (H1 & H2 & H3). cbn [all_rows].
  replace (r - 1 + 1) with r by lia. rewrite load_lines_app, load_other; [|lia|lia|lia|done|done|done|apply Hp].
  cbn [mbind option_bind]. replace r with (r + 1 - 1) at 1 by lia. apply IH; lia.
Qed.

Lemma load_at kind r samples (k : nat) p ops spin : 0 ≤ r → r + zlen samples + 1 < two64 → Forall dumpable samples → samples !! k = Some p →
  load_lines kind (Some (Text.to_string (r + Z.of_nat k + 1))) (ops, spin) (all_rows r samples) =
    Some (ops ++ (reading <$> chosen kind (timed_of p)), spin ++ (reading <$> p.2)).
Proof.
  intros Hr Hlen Hs. revert r k Hr Hlen. induction Hs as [|q samples Hq Hs IH]; intros r k Hr Hlen Hk; [done|].
  rewrite zlen_cons in Hlen. pose proof (zlen_nonneg samples). destruct (timed_of_range q Hq) as (H1 & H2 & H3). cbn [all_rows].
  rewrite load_lines_app. destruct k as [|k].
  - injection Hk as ->. rewrite Z.add_0_r. unfold run_rows. rewrite load_lines_app, load_op_rows by (done || lia). cbn [mbind option_bind].
    rewrite load_spin_rows by (done || lia || apply Hq). cbn [mbind option_bind].
    replace (r + 1) with (r + 2 - 1) at 2 by lia. apply load_none; [lia|lia|done].
  - cbn [lookup list_lookup] in Hk. pose proof (lookup_lt_Some _ _ _ Hk). rewrite load_other; [|unfold zlen in *; lia|unfold zlen in *; lia|lia|done|done|done|apply Hq].
    cbn [mbind option_bind]. replace (r + Z.of_nat (S k) + 1) with (r + 1 + Z.of_nat k + 1) by lia. apply IH; [lia|lia|done].
Qed.

(** What the tool loads of run [k]. *)
Lemma load_run kind csv samples (k : nat) p : zlen samples + 1 < two64 → Forall dumpable samples →
  dumps f true (Double.Fin t) 0 samples = Ok csv → samples !! k = Some p →
  load (dump_header ++ csv) kind (Some (Z.of_nat k + 1)) =
    if bool_decide (chosen kind (timed_of p) = []) then None
    else Some (merge_sort Z.le (reading <$> chosen kind (timed_of p)), merge_sort Z.le (reading <$> p.2)).
Proof.
  intros Hlen Hs Hd Hk. rewrite dumps_rows in Hd by (done || lia). injection Hd as <-. unfold load.
  change (dump_header ++ text_of (all_rows 0 samples)) with (Text.codes "run,index,kind,ns" ++ 10 :: text_of (all_rows 0 samples)).
  rewrite <-text_of_cons, lines_text.
  - rewrite (bool_decide_true (strip _ = _)) by done. cbn [negb fmap option_fmap option_map].
    pose proof (load_at kind 0 samples k p [] [] ltac:(lia) ltac:(lia) Hs Hk) as E. rewrite Z.add_0_l in E. rewrite E. cbn [mbind option_bind app].
    destruct (chosen kind (timed_of p)) as [|x xs]; [done|]. done.
  - constructor; [by apply (bool_decide_unpack _)|]. clear Hk. assert (H0 : 0 + zlen samples + 1 < two64) by lia. clear Hlen.
    cut (∀ r, 0 ≤ r → r + zlen samples + 1 < two64 → Forall (λ l, 10 ∉ l) (all_rows r samples)); [intros H; by apply H|]. clear H0.
    induction Hs as [|q samples Hq _ IH]; intros r Hr Hlen; [constructor|]. rewrite zlen_cons in Hlen. pose proof (zlen_nonneg samples).
    destruct (timed_of_range q Hq) as (H1 & H2 & H3). apply Forall_app. split; [|apply IH; lia].
    apply run_rows_ok; [lia|done|done|done|apply Hq|]. intros i name s Hi Hn Hr'. apply row_one_line; [lia|done..].
Qed.

End runs.
End reading.

(** ** The samples of a kind *)

Lemma chosen_all ops v : length ops = length v → chosen (Text.codes "all") (zip ops v) = v.
Proof.
  intros Hl. unfold chosen. rewrite filter_whole; [by rewrite snd_zip by lia|]. intros x _. done.
Qed.

Lemma wanted_kind k op : wanted (Flow.kind_name k) op = true ↔ Flow.kind_code (Flow.op_kind op) = Flow.kind_code k.
Proof. unfold wanted. by destruct k, (Flow.op_kind op). Qed.

Lemma chosen_kind k ops v : chosen (Flow.kind_name k) (zip ops v) = of_kind (Flow.kind_code k) ops v.
Proof. unfold chosen, of_kind. f_equal. apply list_filter_iff. intros [op s]. apply wanted_kind. Qed.

(** A reading is a dumped decimal, within half a tenth of the quotient. *)
Lemma tenths_nearest t s : 2 * Z.abs (tenths t s * Double.scale - 10 * Double.units (Double.units s 1) t) ≤ Double.scale.
Proof.
  unfold tenths. pose proof (Double.nearest_even_error (Double.units (Double.units s 1) t * 10) Double.scale Double.scale_pos). lia.
Qed.

Section loads.
Context {clock : Clock} {build : Build} {os : Machine.Os}.

Lemma sampled_dumpable f bc l ov cpu i p r j : drivable f bc l → 0 ≤ ov → sampled f bc ov cpu i p r j → dumpable f p.
Proof.
  intros Hd Hov (Hs & [Ht _ Hw Hr _ _ _ _ _]). split; [done|done| |exact Hr].
  apply Forall_forall. intros x. rewrite Ht. intros Hx%brackets_range; [unfold in_range; lia|done].
Qed.

(** C26. The dump reads back: whatever the clock reads, for every run the plotting
    tool loads exactly the samples whose percentiles the driver reported, of all
    operations or of one kind, with those of the noise floor, each to a tenth of a
    nanosecond; a kind without samples it refuses. *)
Theorem dump_loads_back f bc l ov b t cpu runs i : drivable f bc l →
  Flow.trade_hash (Flow.f_stats f) = Replay.tr_hash (Replay.replay (Replay.start (self_trade bc)) (Flow.f_ops f)) →
  Double.scale ≤ t ≤ two64 * Double.scale → bench_ok f bc ov b → Z.of_nat runs + 1 < two64 → ∃ N m,
  (∀ fuel, (N ≤ fuel)%nat → measure fuel cpu true (Double.Fin t) runs b 0 i = Ok m) ∧ length (results m) = runs ∧
  ∀ (k : nat) r, results m !! k = Some r → ∃ from timed waits to, measured f bc ov cpu from timed waits r to ∧
    let loaded v := if bool_decide (v = []) then None
      else Some (merge_sort Z.le (reading t <$> v), merge_sort Z.le (reading t <$> waits)) in
    load (dump_header ++ csv m) (Text.codes "all") (Some (Z.of_nat k + 1)) = loaded timed ∧
    ∀ kind, load (dump_header ++ csv m) (Flow.kind_name kind) (Some (Z.of_nat k + 1)) =
      loaded (of_kind (Flow.kind_code kind) (timed_ops f) timed).
Proof.
  intros Hd Hhash Ht Hb Hruns. assert (Hov : 0 ≤ ov) by apply Hb.
  pose proof (timed_begin_eq f bc l Hd) as Eb. pose proof (timed_count_eq f bc l Hd) as Ec.
  destruct (measure_spec f bc l Hd ov cpu true (Double.Fin t) runs b 0 i Hhash) as (N & m & samples & Hm & Hl & _ & Hran & _ & Hcsv);
    [by exists t|done|]. pose proof (ran_results _ _ _ _ _ _ _ _ Hran) as Hs.
  exists N, m. split; [done|]. split; [done|]. intros k r Hk. destruct (Forall2_lookup_r _ _ _ _ _ Hs Hk) as (p & Hp & from & to & Hsamp).
  assert (Hdu : Forall (dumpable f) samples).
  { apply Forall_forall. intros q Hq%list_elem_of_lookup. destruct Hq as [j Hq].
    destruct (Forall2_lookup_l _ _ _ _ _ Hs Hq) as (r' & _ & i' & j' & Hq'). by apply (sampled_dumpable f bc l ov cpu i' q r' j'). }
  pose proof (Forall2_length _ _ _ Hs) as Hlen. assert (Hpd : dumpable f p) by by apply (sampled_dumpable f bc l ov cpu from p r to).
  destruct Hd. assert (Hload : ∀ kind, load (dump_header ++ csv m) kind (Some (Z.of_nat k + 1)) =
    if bool_decide (chosen kind (timed_of f p) = []) then None
    else Some (merge_sort Z.le (reading t <$> chosen kind (timed_of f p)), merge_sort Z.le (reading t <$> p.2))).
  { intros kind. apply (load_run t Ht f) with (samples := samples); [lia..|unfold zlen in *; lia|done|done|done]. }
  assert (Htl : length (timed_ops f) = length (take (Z.to_nat (timed_count f)) p.1)) by (apply timed_of_length; [lia..|done]).
  exists from, (take (Z.to_nat (timed_count f)) p.1), p.2, to. split; [apply Hsamp|]. cbv zeta. split.
  - rewrite Hload. unfold timed_of. by rewrite chosen_all.
  - intros kind. rewrite Hload. unfold timed_of. by rewrite chosen_kind.
Qed.

End loads.

(** The tool's own percentile is not the driver's: of a thousand samples the rank of
    p99.9, computed in doubles as 99.9 / 100 * 1000, is rounded up to 1000. *)
Lemma plot_rank_differs : percentile (seqZ 1 1000) (Double.round 999 10) = Some 1000 ∧
  ∃ w, percentiles (seqZ 1 1000) = Ok ([500; 990; 999; 1000; 1000], w).
Proof. split; [vm_compute; reflexivity|]. eexists. vm_compute. reflexivity. Qed.

(** ** Witness *)

Lemma dump_loads_back_witness : ∃ f bc N m, (∀ fuel, (N ≤ fuel)%nat →
    measure (clock := counting_clock) (build := release) (os := Machine.eight_cpus) fuel 7 true (Double.Fin Double.scale) 2 (make f bc) 0 0 = Ok m) ∧
  length (results m) = 2%nat.
Proof.
  destruct (usable_drivable (clock := counting_clock) (os := Machine.eight_cpus) small_args small_usable) as (f & _ & Hd & Hh & _).
  set (bc := bench_config _ _ _) in *.
  destruct (dump_loads_back (clock := counting_clock) (build := release) (os := Machine.eight_cpus) f bc _ 0 (make f bc) Double.scale 7 2 0 Hd Hh)
    as (N & m & Hm & Hl & _).
  - split; vm_compute; discriminate.
  - exact (bench_make f bc _ Hd).
  - reflexivity.
  - exists f, bc, N, m. exact (conj Hm Hl).
Defined.
